(* ===== verification/_CoqProject ===== *)
-Q . S2P
Prelude.v
JsText.v
Hex.v
Base64url.v
Json.v
Utf8.v
Crypto.v
WsClient.v
Frame.v
Sender.v
Receiver.v
Stream.v
Pacing.v
Link.v
Transfer.v
FileWriter.v
TransferUi.v
Delivery.v
QrEncode.v
PakeLoad.v
Pake.v
PairingText.v
PageState.v
Pairing.v
Strings.v
I18n.v
Session.v
Screens.v
AppPage.v
RoleSwap.v
Races.v
Hub.v
HubLocks.v
HubFacts.v
HubLimits.v
HubPair.v
HubTokens.v
HubReap.v
HubLeak.v
HubRaces.v
Messages.v
Network.v
SwapNet.v
ReconnectNet.v
DoubleDrop.v
LateAnswer.v
PairNet.v
CodeNet.v
CodeStages.v
CodePair.v
Relayed.v
EndToEnd.v
Sample.v
SamplePake.v
SampleText.v
SamplePairing.v
SampleNet.v
SampleCode.v
SampleRelay.v
SampleLocks.v
