(* ===== verification/Prelude.v ===== *)
(** * Quicksend: verification of the web client and its relay

    Quicksend sends files between two browsers through a relay that never sees
    their content. This library models the web client (src/web/) and the relay's
    sessions (src/server/internal/), and proves the properties the two sides and
    the relay rely on. A reader needs the repository only; the names below are
    those of the sources.

    ** The program and its model

    - Codecs. hex.js is Hex, base64url.js is Base64url. What the sources use of
      the language is written out in JsText (string methods, number texts), Json
      ([JSON.stringify], [JSON.parse]) and Utf8 ([TextEncoder], [TextDecoder]).
      A [Uint8Array] is a list of integers below 256, a string the list of its
      UTF-16 code units, an exception a value of [result].
    - crypto.js is Crypto. Web Crypto is the browser's: the class [WebCrypto],
      with the documented behaviour the code relies on in [WebCryptoLaws]
      (opening undoes sealing with the same key, nonce and data; lengths; bytes).
    - ws-client.js is WsClient: the relay's address and the JSON envelope.
    - transfer.js is Frame (the binary chunk frame), Sender ([sendFile]) and
      Receiver ([attachReceiver]). Both are machines whose states are the
      function's suspension points ([await]s) and whose events are what may
      happen there: a promise settles, a message or a close event arrives, the
      user cancels. Stream, Pacing, Link and Transfer put them on one connection.
    - file-writer.js is FileWriter; transfer-ui.js is TransferUi (modules
      [SenderUi] and [ReceiverUi]); Delivery puts the receiver's screen and its
      sinks behind a transfer.
    - qr-encode.js is QrEncode; the encoder it calls is an argument.
    - pake.js with wasm/pake/main.go, and [runPakeExchange] of pairing.js, are
      Pake; the PAKE library is the class [PakeLib]. PakeLoad is how pake.js
      loads the WASM module.
    - pairing.js is PairingText (links and codes), PageState (the module's
      variables, sockets, screens, scans, timers and pending promises as one
      state) and Pairing (a function per function and per listener of the
      module; [step] runs the code of one event: a click, a socket's open,
      message or close, a timer, a promise, the camera). Session, Screens,
      RoleSwap and Races prove things of it. qr-scan.js is the camera part of
      Pairing; app.js is [start].
    - strings.js is Strings; i18n.js and theme.js are I18n; AppPage puts the two
      toggles and the pairing screen on one page (app.js, index.html).
    - The relay is Hub (module [Relay]): session/session.go, session/hub.go and
      ws/handler.go; [step] is what a connection's handler does with its first
      message, a later one or its end, or a run of the reaper. HubFacts,
      HubLimits, HubPair, HubTokens, HubReap and HubLeak prove things of it.
      HubLocks (module [Locks]) has the same calls of the hub cut into their
      critical sections and writes, and a hub ([busy_step]) whose calls overlap;
      HubRaces proves what holds of that.
    - Messages (the sizes of a transfer's messages, and that the relay passes
      them on) and Network ([net_step]: two pages, their connections and the
      server with its reaper, and the messages of proto/messages.go between them)
      put client and relay together; Relayed, SwapNet, ReconnectNet, DoubleDrop,
      LateAnswer, PairNet, CodePair and EndToEnd prove what holds of the whole.
      CodeNet adds the pages' key exchanges ([code_step]): an exchange of Pake
      runs on the socket of its page's promise; CodeStages is where two pages
      that pair by a code can be.
    - Sample, SamplePake, SampleText, SamplePairing, SampleNet, SampleCode,
      SampleRelay and SampleLocks are concrete runs: each theorem with hypotheses
      is applied there to inputs on which they hold.

    ** How the parts interact

    Pairing opens sockets (WsClient), runs the key exchange (Pake), and renders
    the transfer screen of TransferUi once the epoch key of Crypto is derived.
    TransferUi calls [sendFile] and [attachReceiver], whose handlers write into
    the sinks of FileWriter. In the model Link composes sender and receiver,
    Delivery adds the handlers, RoleSwap composes two pages, and a network is
    two pages, or the two ends of a transfer, on connections of Hub's server.
    HubPair says what the server owes such a pair while other connections come
    and go: it passes each of their messages on, in order, to the other one, and
    writes nothing else to either.

    ** What the theorems show

    - The whole (EndToEnd): two pages that are opened pair by the link, come back
      after any number of drops with one epoch key, and an undisturbed transfer
      between them ends with the sender's file on the receiver's disk.
    - A transfer through the relay (Relayed): the relay is a connection that
      delivers in order.
    - Transfers (Transfer): under any interleaving of drops, cancels and failures
      the receiver is told a prefix of the file's story, the window is
      respected, a promise that resolves means that the file is there, and no
      nonce is used twice under a file's key.
    - Pages through the relay: pairing by a link gives both pages one session,
      one key and opposite roles (PairNet), and so does pairing by a code, on
      every schedule on which no message of the key exchange arrives before its
      listener (CodePair); the role swap refines a
      specification in which the roles stay opposite (SwapNet, by a simulation
      of the pages and the relay by the two pages of RoleSwap); a side that drops
      comes back, any number of times, with both pages in one epoch
      (ReconnectNet).
    - The relay (HubFacts, HubTokens, HubReap, HubLimits): a message reaches the
      other side of its session only; the host's place is given for its token
      only; a code is good for one guest; the reaper ends exactly the sessions
      that are out of time; files and guesses stay within their limits.
    - The hub's calls when they overlap (HubLocks, HubRaces): a call alone is one
      step of Hub; under any interleaving a place is given to one connection,
      and an address exceeds its limit by no more than its overlapping calls.
    - Chunks (Frame, Crypto): frames and ciphertexts carry exactly their chunk,
      at its place.
    - Pairing (PairingText, Pake): links and codes survive their round trips, the
      key exchange's confirmation holds.
    - Sessions (Session, Screens): the shape of a session, fifteen attempts to
      reconnect, release of everything a screen held, and the transfer screen in
      use is the session's.
    - Interface (TransferUi, FileWriter, I18n, AppPage, Screens, QrEncode): rows
      follow the calls, sinks save what was written, every text is translated,
      the toggles follow the stored preferences, the canvas shows the code's
      modules.
    - Where the code does not do what it means to: runs in which a late event
      does harm (Races, LateAnswer, and theorems of Transfer, CodePair and
      TransferUi), the epochs of two pages that drop together (DoubleDrop), a
      screen that keeps the language it was rendered in (AppPage), sessions that
      end but stay on their address's count (HubLeak), and joins that overrun the
      limit or a session that ends while a side comes back (HubRaces).

    ** Bounds

    Runs are lists of events, of any length: no fuel bounds them. [run_chain] of
    Receiver recurses on the queue. [dedupe_loop] has one unit of fuel per used
    name and one more, which [dedupeFilename_fresh] shows to be enough. The JSON
    parser's fuel is the length of its text, enough by [parse_stringify]. A file
    has fewer than 2^53 bytes ([file_ok]); chunk indices are below 2^63. The
    relay reads messages of up to 2^20 bytes ([maxMessageSize]); its counts are
    integers without bound.

    ** Not modelled

    The DOM and the style sheets: a screen is its texts and buttons, a row its
    fields. The QR libraries under vendor/: what a scan decodes is an event's
    argument. Time in the client: a timer may fire at any moment while it runs,
    so that its delay is no part of the model. Two coercions of values that only
    another client would send: an [ackedUpTo] that is a text or a fraction counts
    as [NaN] ([to_number]), and the reason of a [file_abort] is kept when it is a
    text ([to_text]).

    In the relay: in Network each call of the hub is one step, so that the
    theorems about pages and relay together are about handlers that do not
    overlap within a call. The reaper may run at any point of a network
    ([Reaps]); a connection it closes is found broken by a later step
    ([Breaks], [SockClose]). The theorems about one pair between drops (SwapNet,
    ReconnectNet, DoubleDrop, LateAnswer) are about runs in which it does not end
    the pair's session. Left out are pings (one that fails is the end of the
    connection), a write that fails (the connection is then found broken),
    logging, the address a connection is counted under ([clientIP]: an event's
    argument), start-up and configuration, cryptoutil (which only tests use). The
    container and proxy files are configuration.
    [json.Unmarshal] also takes field names in another case, and [json.Marshal]
    escapes some characters that [JSON.stringify] does not: no message between
    this client and this server has either. *)

From stdpp Require Import base list list_numbers strings gmap.
From Stdlib Require Import ZArith Lia.

(** ** JavaScript values shared by the components

    A [Uint8Array] is a list of integers in [0, 256); a JavaScript string is
    the list of its UTF-16 code units. *)

Abbreviation bytes := (list Z) (only parsing).
Abbreviation jsstr := (list Z) (only parsing).

(** The code units of an ASCII literal of the source. *)
Definition js (s : string) : jsstr :=
  map (λ a, Z.of_N (Ascii.N_of_ascii a)) (String.list_ascii_of_string s).

(** Exceptions. [DOMException]s and errors the code builds itself carry what
    the code later reads of them. *)
Inductive jserror :=
| ErrLength (name : string) (expected got : Z)  (* crypto.js, assertLength *)
| ErrRange                                      (* RangeError *)
| ErrType                                       (* TypeError *)
| ErrSyntax                                     (* SyntaxError of JSON.parse *)
| ErrOperation                                  (* OperationError of Web Crypto *)
| ErrInvalidChar                                (* InvalidCharacterError of atob *)
| ErrAbort (reason : option jsstr)              (* "AbortError", with its [.reason] *)
| ErrConnectionLost                             (* new Error("connection_lost") *)
| ErrOutOfOrder                                 (* "file chunk out of order ..." *)
| ErrCodeMismatch                               (* new Error("code_mismatch") *)
| ErrOther (tag : string).                      (* any other thrown value *)

Inductive result (A : Type) :=
| Ok (a : A)
| Throw (e : jserror).
Arguments Ok {A} a.
Arguments Throw {A} e.

#[export] Instance result_ret : MRet result := λ A a, Ok a.
#[export] Instance result_bind : MBind result := λ A B f r,
  match r with Ok a => f a | Throw e => Throw e end.
#[export] Instance result_fmap : FMap result := λ A B f r,
  match r with Ok a => Ok (f a) | Throw e => Throw e end.

#[export] Instance Ok_inj A : Inj (=) (=) (@Ok A).
Proof. by intros a b [=]. Qed.

(** [new Uint8Array(n)]: zero filled. *)
Definition zeros (n : nat) : bytes := replicate n 0%Z.

(** [dst.set(src, off)], and the store of a [DataView] setter: a [RangeError]
    when the source does not fit. *)
Definition ta_set (dst : bytes) (off : nat) (src : bytes) : result bytes :=
  if bool_decide (off + length src ≤ length dst)
  then Ok (take off dst ++ src ++ drop (off + length src) dst)
  else Throw ErrRange.

(** [arr.slice(a, b)] for [0 <= a <= b]: clamped at the end of the array. *)
Definition slice {A} (a b : nat) (l : list A) : list A := take (b - a) (drop a l).

(** The [n] bytes a big-endian [DataView] setter writes, and what the matching
    getter reads. The value wraps modulo [256 ^ n]. *)
Fixpoint le_bytes (n : nat) (z : Z) : bytes :=
  match n with
  | O => []
  | S n' => (z mod 256)%Z :: le_bytes n' (z / 256)%Z
  end.

Definition be_bytes (n : nat) (z : Z) : bytes := reverse (le_bytes n z).

Fixpoint le_val (l : bytes) : Z :=
  match l with
  | [] => 0
  | b :: l' => (b + 256 * le_val l')%Z
  end.

Definition be_val (l : bytes) : Z := le_val (reverse l).

Definition is_byte (b : Z) : Prop := (0 ≤ b < 256)%Z.
Abbreviation bytes_ok := (Forall is_byte).

#[export] Instance is_byte_dec b : Decision (is_byte b).
Proof. unfold is_byte. apply _. Defined.

(** ** Reachability of a step function over a list of events

    [run step es s] folds the events; a state machine whose step may refuse an
    event is run in the option monad. *)
Fixpoint run {S E} (step : S → E → option S) (es : list E) (s : S) : option S :=
  match es with
  | [] => Some s
  | e :: es' => s' ← step s e; run step es' s'
  end.

Definition reachable {S E} (step : S → E → option S) (s0 s : S) : Prop :=
  ∃ es, run step es s0 = Some s.

(** ** Tactics of the development *)

(** Case analysis on every [match] and [if] of the goal or of a hypothesis. *)
Ltac case_all :=
  repeat (case_match || case_decide || case_bool_decide); simplify_eq/=.

(** Arithmetic with division and modulus by constants. *)
Ltac divlia := Z.to_euclidean_division_equations; lia.

(** ** Lemmas *)

Create HintDb js_db discriminated.

Section Lists.
Context {A : Type}.
Implicit Types l k : list A.

Lemma slice_length a b l :
  a ≤ b → b ≤ length l → length (slice a b l) = b - a.
Proof. intros. unfold slice. rewrite length_take, length_drop. lia. Qed.

Lemma slice_app_mid (p s q : list A) a b :
  length p = a → b = a + length s → slice a b (p ++ s ++ q) = s.
Proof.
  intros <- ->. unfold slice. rewrite drop_app_length.
  replace (length p + length s - length p) with (length s) by lia.
  by rewrite take_app_length.
Qed.

Lemma take_slice a b l : a ≤ b → take a l ++ slice a b l = take b l.
Proof.
  intros. unfold slice. rewrite <- (take_drop a (take b l)).
  rewrite take_take, skipn_firstn_comm. by rewrite Nat.min_l by lia.
Qed.

End Lists.

Lemma length_zeros n : length (zeros n) = n.
Proof. apply length_replicate. Qed.

Lemma ta_set_ok dst off src :
  off + length src ≤ length dst →
  ta_set dst off src = Ok (take off dst ++ src ++ drop (off + length src) dst).
Proof. intros. unfold ta_set. by rewrite bool_decide_true. Qed.

Lemma ta_set_length dst off src dst' :
  ta_set dst off src = Ok dst' → length dst' = length dst.
Proof.
  unfold ta_set. case_bool_decide; [|done]. intros [= <-].
  rewrite !length_app, length_take, length_drop. lia.
Qed.

(** Arrays are built by filling a zeroed buffer from the left. *)
Lemma ta_set_fill p s n m off :
  off = length p → m = length s + n →
  ta_set (p ++ zeros m) off s = Ok (p ++ s ++ zeros n).
Proof.
  intros -> ->. rewrite ta_set_ok by (rewrite length_app, length_zeros; lia).
  rewrite take_app_length, drop_app_add. unfold zeros. rewrite drop_replicate.
  by replace (length s + n - length s) with n by lia.
Qed.

Lemma ta_set_fill0 s n m : m = length s + n → ta_set (zeros m) 0 s = Ok (s ++ zeros n).
Proof. intros ->. by apply (ta_set_fill [] s n). Qed.

(** *** Big-endian integers *)

Lemma length_le_bytes n z : length (le_bytes n z) = n.
Proof. revert z. induction n; intros; simpl; auto. Qed.

Lemma length_be_bytes n z : length (be_bytes n z) = n.
Proof. unfold be_bytes. by rewrite length_reverse, length_le_bytes. Qed.

Lemma le_bytes_ok n z : bytes_ok (le_bytes n z).
Proof.
  revert z. induction n; intros; simpl; constructor; auto.
  unfold is_byte. divlia.
Qed.

Lemma be_bytes_ok n z : bytes_ok (be_bytes n z).
Proof. apply Forall_reverse, le_bytes_ok. Qed.

Lemma le_val_le_bytes n z :
  le_val (le_bytes n z) = (z mod 256 ^ Z.of_nat n)%Z.
Proof.
  revert z. induction n as [|n IH]; intros z.
  - simpl. by rewrite Z.mod_1_r.
  - cbn [le_bytes le_val]. rewrite IH, Nat2Z.inj_succ, Z.pow_succ_r by lia.
    rewrite Z.rem_mul_r by (try apply Z.pow_pos_nonneg; lia). lia.
Qed.

Lemma be_val_be_bytes n z :
  be_val (be_bytes n z) = (z mod 256 ^ Z.of_nat n)%Z.
Proof. unfold be_val, be_bytes. by rewrite reverse_involutive, le_val_le_bytes. Qed.

Lemma le_bytes_le_val l : bytes_ok l → le_bytes (length l) (le_val l) = l.
Proof.
  induction 1 as [|b l [Hb1 Hb2] _ IH]; [done|].
  cbn [length le_bytes le_val].
  replace (b + 256 * le_val l)%Z with (b + le_val l * 256)%Z by lia.
  rewrite Z.mod_add, Z.div_add, Z.mod_small, Z.div_small by lia.
  by rewrite Z.add_0_l, IH.
Qed.

Lemma be_bytes_be_val l : bytes_ok l → be_bytes (length l) (be_val l) = l.
Proof.
  intros. unfold be_bytes, be_val. rewrite <- (length_reverse l).
  rewrite le_bytes_le_val by by apply Forall_reverse. apply reverse_involutive.
Qed.

Lemma be_bytes_inj n a b :
  (0 ≤ a < 256 ^ Z.of_nat n)%Z → (0 ≤ b < 256 ^ Z.of_nat n)%Z →
  be_bytes n a = be_bytes n b → a = b.
Proof.
  intros Ha Hb He. apply (f_equal be_val) in He.
  rewrite !be_val_be_bytes, !Z.mod_small in He by done. done.
Qed.

(** *** Reachability *)

Section Reach.
Context {S E : Type} (step : S → E → option S).

Lemma run_app es1 es2 s :
  run step (es1 ++ es2) s = run step es1 s ≫= run step es2.
Proof.
  revert s. induction es1 as [|e es1 IH]; intros s; simpl; [done|].
  destruct (step s e); simpl; auto.
Qed.

Lemma run_cons e es s s' r : step s e = Some s' → run step es s' = r → run step (e :: es) s = r.
Proof. intros Hs Hr. cbn [run]. by rewrite Hs. Qed.

Lemma reachable_refl s : reachable step s s.
Proof. by exists []. Qed.

Lemma reachable_step s0 s e s' :
  reachable step s0 s → step s e = Some s' → reachable step s0 s'.
Proof.
  intros [es Hes] Hs. exists (es ++ [e]). rewrite run_app, Hes. simpl.
  by rewrite Hs.
Qed.

(** The induction principle of every invariant: it holds initially and each
    step preserves it. *)
Lemma run_ind (P : S → Prop) s0 :
  P s0 → (∀ s e s', P s → step s e = Some s' → P s') →
  ∀ es s, run step es s0 = Some s → P s.
Proof.
  intros H0 Hstep es. revert s0 H0. induction es as [|e es IH]; intros s0 H0 s; simpl.
  - by intros [= <-].
  - destruct (step s0 e) as [s1|] eqn:He; simpl; [|done].
    apply IH. eauto.
Qed.

Lemma reachable_ind (P : S → Prop) s0 :
  P s0 → (∀ s e s', P s → step s e = Some s' → P s') →
  ∀ s, reachable step s0 s → P s.
Proof. intros H0 Hstep s [es Hes]. by eapply run_ind. Qed.

End Reach.

Create HintDb js_len.

#[export] Hint Resolve be_bytes_ok le_bytes_ok length_be_bytes reachable_refl : js_db.
#[export] Hint Rewrite length_be_bytes length_zeros @length_app @length_take
  @length_drop @length_insert : js_len.

(** Lengths of byte lists. *)
Ltac len := autorewrite with js_len in *; simpl in *; lia.
