(* ===== verification/JsText.v ===== *)
(** * JavaScript string and number primitives

    The string methods and conversions of the language that the sources use:
    [Number.prototype.toString(radix)], [parseInt], [padStart], [trim],
    [indexOf], [lastIndexOf], [split] and the whitespace set. Strings are lists
    of UTF-16 code units. *)

From stdpp Require Import base list list_numbers sets strings.
From Stdlib Require Import ZArith Lia.
From S2P Require Import Prelude.
Open Scope Z_scope.

(** ** Numbers to text and back *)

Definition digit_char (d : Z) : Z := if d <? 10 then 48 + d else 87 + d.

Fixpoint digits_aux (fuel : nat) (radix z : Z) (acc : jsstr) : jsstr :=
  match fuel with
  | O => acc
  | S f =>
      let acc' := digit_char (z mod radix) :: acc in
      if z <? radix then acc' else digits_aux f radix (z / radix) acc'
  end.

(** [z.toString(radix)] for an integer [z >= 0]; the fuel is the bit length,
    which is at least the number of digits. *)
Definition num_to_string (radix z : Z) : jsstr :=
  digits_aux (S (Z.to_nat (Z.log2 z))) radix z [].

(** The value of a digit character, in either case for radix 16. *)
Definition digit_val (radix c : Z) : option Z :=
  let d := if (48 <=? c) && (c <=? 57) then Some (c - 48)
           else if (97 <=? c) && (c <=? 122) then Some (c - 87)
           else if (65 <=? c) && (c <=? 90) then Some (c - 55)
           else None in
  d ≫= λ v, if v <? radix then Some v else None.

Definition is_digit (radix c : Z) : bool :=
  match digit_val radix c with Some _ => true | None => false end.

Fixpoint digits_val (radix acc : Z) (s : jsstr) : Z :=
  match s with
  | [] => acc
  | c :: s' => digits_val radix (acc * radix + default 0 (digit_val radix c)) s'
  end.

Fixpoint take_while (f : Z → bool) (s : jsstr) : jsstr :=
  match s with
  | c :: s' => if f c then c :: take_while f s' else []
  | [] => []
  end.

Fixpoint drop_while (f : Z → bool) (s : jsstr) : jsstr :=
  match s with
  | c :: s' => if f c then drop_while f s' else s
  | [] => []
  end.

(** ECMAScript WhiteSpace and LineTerminator. *)
Definition is_space (c : Z) : bool :=
  ((9 <=? c) && (c <=? 13)) || (c =? 32) || (c =? 160) || (c =? 5760)
  || ((8192 <=? c) && (c <=? 8202)) || (c =? 8232) || (c =? 8233)
  || (c =? 8239) || (c =? 8287) || (c =? 12288) || (c =? 65279).

Definition trim_start (s : jsstr) : jsstr := drop_while is_space s.
Definition trim (s : jsstr) : jsstr := reverse (trim_start (reverse (trim_start s))).

(** [parseInt(s, 16)]; [None] is [NaN]. *)
Definition parseInt16 (s : jsstr) : option Z :=
  let s := trim_start s in
  let '(sign, s) := match s with
                    | 45 :: s' => (-1, s')
                    | 43 :: s' => (1, s')
                    | _ => (1, s)
                    end in
  let s := match s with
           | 48 :: x :: s' => if (x =? 120) || (x =? 88) then s' else s
           | _ => s
           end in
  match take_while (is_digit 16) s with
  | [] => None
  | ds => Some (sign * digits_val 16 0 ds)
  end.

(** A number stored into a [Uint8Array]: [NaN] becomes 0, the rest wraps. *)
Definition to_uint8 (n : option Z) : Z :=
  match n with Some z => z mod 256 | None => 0 end.

(** [s.padStart(n, pad)] for a one-unit [pad]. *)
Definition padStart (n : nat) (pad : Z) (s : jsstr) : jsstr :=
  replicate (n - length s) pad ++ s.

(** ** Searching and splitting *)

(** [s.indexOf(c)] and [s.lastIndexOf(c)] of a one-unit needle; [None] is -1. *)
Fixpoint indexOf (c : Z) (s : jsstr) : option nat :=
  match s with
  | [] => None
  | x :: s' => if x =? c then Some 0%nat else S <$> indexOf c s'
  end.

Definition lastIndexOf (c : Z) (s : jsstr) : option nat :=
  (λ i, (length s - S i)%nat) <$> indexOf c (reverse s).

(** [s.split(sep)] for a one-unit separator. *)
Fixpoint split_on (c : Z) (s : jsstr) : list jsstr :=
  match s with
  | [] => [[]]
  | x :: s' =>
      if x =? c then [] :: split_on c s'
      else match split_on c s' with
           | w :: ws => (x :: w) :: ws
           | [] => [[x]]
           end
  end.

Definition replace_all (c d : Z) (s : jsstr) : jsstr :=
  map (λ x, if x =? c then d else x) s.

Definition starts_with (p s : jsstr) : bool := bool_decide (take (length p) s = p).

(** ** Lemmas *)

(** A decidable fact of bytes is proved by running it on all of them. *)
Lemma byte_forallb (P : Z → bool) :
  forallb P (seqZ 0 256) = true → ∀ b, is_byte b → P b = true.
Proof.
  intros H b Hb. rewrite forallb_forall in H. apply H.
  apply list_elem_of_In, elem_of_seqZ. unfold is_byte in Hb. lia.
Qed.

Lemma digit_val_char radix d :
  0 ≤ d < radix → radix ≤ 36 → digit_val radix (digit_char d) = Some d.
Proof.
  intros. unfold digit_val, digit_char.
  destruct (d <? 10) eqn:Hd; [apply Z.ltb_lt in Hd|apply Z.ltb_ge in Hd].
  - rewrite (proj2 (Z.leb_le 48 (48 + d))), (proj2 (Z.leb_le (48 + d) 57)) by lia.
    simpl. rewrite (proj2 (Z.ltb_lt _ _)) by lia. f_equal. lia.
  - rewrite (proj2 (Z.leb_gt (87 + d) 57)), andb_false_r by lia.
    rewrite (proj2 (Z.leb_le 97 (87 + d))), (proj2 (Z.leb_le (87 + d) 122)) by lia.
    simpl. rewrite (proj2 (Z.ltb_lt _ _)) by lia. f_equal. lia.
Qed.

Lemma digits_aux_val fuel radix z acc n :
  2 ≤ radix ≤ 36 → 0 ≤ z < radix ^ Z.of_nat fuel → fuel ≠ 0%nat → n = 0 →
  digits_val radix n (digits_aux fuel radix z acc) = digits_val radix z acc.
Proof.
  intros Hr. revert z acc n. induction fuel as [|f IH]; intros z acc n Hz Hf ->; [done|].
  cbn [digits_aux]. case_match eqn:E.
  - apply Z.ltb_lt in E. cbn [digits_val].
    rewrite Z.mod_small, digit_val_char by lia. simpl. f_equal.
  - apply Z.ltb_ge in E.
    rewrite Nat2Z.inj_succ, Z.pow_succ_r in Hz by lia.
    rewrite IH; [|split; [apply Z.div_pos; lia|apply Z.div_lt_upper_bound; lia]| |done].
    + cbn [digits_val]. f_equal. rewrite digit_val_char; [|apply Z.mod_pos_bound; lia|lia].
      simpl. rewrite (Z.div_mod z radix) at 3 by lia. lia.
    + intros ->. simpl in Hz. lia.
Qed.

Lemma num_to_string_val radix z :
  2 ≤ radix ≤ 36 → 0 ≤ z → digits_val radix 0 (num_to_string radix z) = z.
Proof.
  intros Hr Hz. unfold num_to_string. rewrite digits_aux_val; [done|done| |done|done].
  split; [done|]. rewrite Nat2Z.inj_succ, Z2Nat.id by apply Z.log2_nonneg.
  apply Z.lt_le_trans with (2 ^ Z.succ (Z.log2 z)).
  - destruct (decide (z = 0)) as [->|]; [done|]. apply Z.log2_spec. lia.
  - apply Z.pow_le_mono_l. lia.
Qed.

Lemma digits_aux_digits fuel radix z acc :
  2 ≤ radix ≤ 36 → 0 ≤ z → Forall (λ c, is_digit radix c = true) acc →
  Forall (λ c, is_digit radix c = true) (digits_aux fuel radix z acc).
Proof.
  intros Hr. revert z acc. induction fuel as [|f IH]; intros z acc Hz Ha; [done|].
  cbn [digits_aux].
  assert (is_digit radix (digit_char (z mod radix)) = true).
  { unfold is_digit. rewrite digit_val_char; [done|apply Z.mod_pos_bound; lia|lia]. }
  case_match; [by constructor|]. apply IH; [apply Z.div_pos; lia|by constructor].
Qed.

Lemma num_to_string_digits radix z :
  2 ≤ radix ≤ 36 → 0 ≤ z →
  Forall (λ c, is_digit radix c = true) (num_to_string radix z).
Proof. intros. by apply digits_aux_digits. Qed.

Lemma num_to_string_inj radix a b :
  2 ≤ radix ≤ 36 → 0 ≤ a → 0 ≤ b →
  num_to_string radix a = num_to_string radix b → a = b.
Proof.
  intros Hr Ha Hb He. apply (f_equal (digits_val radix 0)) in He.
  by rewrite !num_to_string_val in He.
Qed.

Lemma take_while_all f s : Forall (λ c, f c = true) s → take_while f s = s.
Proof. induction 1 as [|c s Hc _ IH]; simpl; [done|]. by rewrite Hc, IH. Qed.

Lemma indexOf_Some c s i :
  indexOf c s = Some i →
  s = take i s ++ c :: drop (S i) s ∧ c ∉ take i s.
Proof.
  revert i. induction s as [|x s IH]; intros i; simpl; [done|].
  destruct (x =? c) eqn:E.
  - apply Z.eqb_eq in E as ->. intros [= <-]. simpl. split; [done|set_solver].
  - apply Z.eqb_neq in E. destruct (indexOf c s) as [j|] eqn:Hj; simpl; [|done].
    intros [= <-]. destruct (IH j) as [Heq Hni]; [done|]. simpl. split.
    + by f_equal.
    + set_solver.
Qed.

Lemma indexOf_None c s : indexOf c s = None ↔ c ∉ s.
Proof.
  induction s as [|x s IH]; simpl; [set_solver|].
  destruct (x =? c) eqn:E.
  - apply Z.eqb_eq in E as ->. set_solver.
  - apply Z.eqb_neq in E. destruct (indexOf c s); simpl in *; set_solver.
Qed.

Lemma indexOf_app c p s :
  c ∉ p → indexOf c (p ++ c :: s) = Some (length p).
Proof.
  induction p as [|x p IH]; intros Hp; simpl.
  - by rewrite Z.eqb_refl.
  - rewrite (proj2 (Z.eqb_neq x c)) by set_solver. rewrite IH by set_solver. done.
Qed.

Lemma split_on_none c s : c ∉ s → split_on c s = [s].
Proof.
  induction s as [|x s IH]; intros Hs; simpl; [done|].
  rewrite (proj2 (Z.eqb_neq x c)) by set_solver. by rewrite IH by set_solver.
Qed.

Lemma split_on_app c p s :
  c ∉ p → split_on c (p ++ c :: s) = p :: split_on c s.
Proof.
  induction p as [|x p IH]; intros Hp; simpl.
  - by rewrite Z.eqb_refl.
  - rewrite (proj2 (Z.eqb_neq x c)) by set_solver. by rewrite IH by set_solver.
Qed.

Lemma trim_start_none s :
  Forall (λ c, is_space c = false) s → trim_start s = s.
Proof. destruct 1 as [|c s Hc]; [done|]. unfold trim_start. simpl. by rewrite Hc. Qed.

Lemma trim_none s : Forall (λ c, is_space c = false) s → trim s = s.
Proof.
  intros Hs. unfold trim. rewrite (trim_start_none s) by done.
  rewrite trim_start_none by by apply Forall_reverse. apply reverse_involutive.
Qed.
