(* ===== verification/Hex.v ===== *)
(** * hex.js: bytes to lower-case hexadecimal text and back

    [toHex] and [fromHex] carry file ids, ciphertexts, tags and tokens inside
    JSON envelopes. *)

From stdpp Require Import base list list_numbers sets strings.
From Stdlib Require Import ZArith Lia.
From S2P Require Import Prelude JsText.
Open Scope Z_scope.

(** One byte: [b.toString(16).padStart(2, "0")]. *)
Definition byteHex (b : Z) : jsstr := padStart 2 48 (num_to_string 16 b).

Definition toHex (bs : bytes) : jsstr := concat (map byteHex bs).

(** [new Uint8Array(hex.length / 2)] truncates an odd length; an entry whose
    text is not a number is stored as 0. *)
Definition fromHex (hex : jsstr) : bytes :=
  map (λ i, to_uint8 (parseInt16 (slice (i * 2) (i * 2 + 2) hex)))
      (seq 0 (length hex / 2)).

(** ** Lemmas *)

Lemma byteHex_two b : is_byte b → length (byteHex b) = 2%nat.
Proof.
  intros Hb. pose proof (byte_forallb (λ b, bool_decide (length (byteHex b) = 2%nat))) as H.
  specialize (H ltac:(vm_compute; reflexivity) b Hb). by apply bool_decide_eq_true in H.
Qed.

Lemma byteHex_parse b : is_byte b → to_uint8 (parseInt16 (byteHex b)) = b.
Proof.
  intros Hb.
  pose proof (byte_forallb (λ b, bool_decide (to_uint8 (parseInt16 (byteHex b)) = b))) as H.
  specialize (H ltac:(vm_compute; reflexivity) b Hb). by apply bool_decide_eq_true in H.
Qed.

Lemma fromHex_cons c1 c2 s :
  fromHex (c1 :: c2 :: s) = to_uint8 (parseInt16 [c1; c2]) :: fromHex s.
Proof.
  unfold fromHex. cbn [length].
  pose proof (Nat.div_add (length s) 1 2 ltac:(done)) as Hd.
  replace (S (S (length s)) / 2)%nat with (S (length s / 2))
    by (rewrite Nat.add_comm in Hd; simpl in *; lia).
  rewrite <- cons_seq. cbn [map]. f_equal.
  rewrite <- fmap_S_seq, map_map. apply map_ext. intros i. done.
Qed.

Lemma fromHex_toHex bs : bytes_ok bs → fromHex (toHex bs) = bs.
Proof.
  induction 1 as [|b bs Hb _ IH]; [done|].
  unfold toHex. cbn [map concat].
  pose proof (byteHex_two b Hb) as H2. pose proof (byteHex_parse b Hb) as Hp.
  destruct (byteHex b) as [|c1 [|c2 [|]]]; try done.
  cbn [app]. rewrite fromHex_cons, Hp. by f_equal.
Qed.

Lemma length_toHex bs : bytes_ok bs → length (toHex bs) = (2 * length bs)%nat.
Proof.
  induction 1 as [|b bs Hb _ IH]; [done|].
  unfold toHex in *. cbn [map concat]. rewrite length_app, byteHex_two, IH by done.
  simpl. lia.
Qed.

Lemma toHex_inj a b : bytes_ok a → bytes_ok b → toHex a = toHex b → a = b.
Proof.
  intros Ha Hb He. apply (f_equal fromHex) in He. by rewrite !fromHex_toHex in He.
Qed.

Lemma to_uint8_byte n : is_byte (to_uint8 n).
Proof. destruct n; unfold to_uint8, is_byte; [divlia|lia]. Qed.

Lemma fromHex_ok s : bytes_ok (fromHex s).
Proof. apply Forall_forall. intros b (i & -> & _)%list_elem_of_fmap. apply to_uint8_byte. Qed.

Lemma length_fromHex s : length (fromHex s) = (length s / 2)%nat.
Proof. unfold fromHex. by rewrite length_map, length_seq. Qed.

#[export] Hint Resolve fromHex_ok to_uint8_byte : js_db.
#[export] Hint Rewrite length_fromHex : js_len.
