(* ===== verification/Base64url.v ===== *)
(** * base64url.js: unpadded base64url

    [encode] and [decode] carry the session key in the pairing link. The
    browser's [btoa] and [atob] are written out from the HTML standard
    (forgiving-base64). *)

From stdpp Require Import base list list_numbers sets strings.
From Stdlib Require Import ZArith Lia.
From S2P Require Import Prelude JsText.
Open Scope Z_scope.

(** ** btoa and atob *)

(** The base64 alphabet, and its inverse. *)
Definition b64_char (v : Z) : Z :=
  if v <? 26 then 65 + v
  else if v <? 52 then 71 + v
  else if v <? 62 then v - 4
  else if v =? 62 then 43 else 47.

Definition b64_val (c : Z) : option Z :=
  if (65 <=? c) && (c <=? 90) then Some (c - 65)
  else if (97 <=? c) && (c <=? 122) then Some (c - 71)
  else if (48 <=? c) && (c <=? 57) then Some (c + 4)
  else if c =? 43 then Some 62
  else if c =? 47 then Some 63
  else None.

(** Three bytes become four sextets; one or two bytes become two or three
    sextets and padding. *)
Fixpoint btoa (bs : bytes) : jsstr :=
  match bs with
  | [] => []
  | [a] => [b64_char (a / 4); b64_char (a mod 4 * 16); 61; 61]
  | [a; b] =>
      [b64_char (a / 4); b64_char (a mod 4 * 16 + b / 16);
       b64_char (b mod 16 * 4); 61]
  | a :: b :: c :: bs' =>
      b64_char (a / 4) :: b64_char (a mod 4 * 16 + b / 16)
      :: b64_char (b mod 16 * 4 + c / 64) :: b64_char (c mod 64) :: btoa bs'
  end.

(** ASCII whitespace, which [atob] removes first. *)
Definition ascii_space (c : Z) : bool :=
  (c =? 9) || (c =? 10) || (c =? 12) || (c =? 13) || (c =? 32).

(** Sextets back to bytes: left-over bits are discarded, and a single left-over
    sextet is a failure. *)
Fixpoint sextets (vs : list Z) : option bytes :=
  match vs with
  | [] => Some []
  | [_] => None
  | [u; v] => Some [u * 4 + v / 16]
  | [u; v; w] => Some [u * 4 + v / 16; v mod 16 * 16 + w / 4]
  | u :: v :: w :: x :: vs' =>
      bs ← sextets vs';
      Some (u * 4 + v / 16 :: v mod 16 * 16 + w / 4 :: w mod 4 * 64 + x :: bs)
  end.

(** At most two trailing "=" are removed, and only from a text whose length is
    a multiple of four. *)
Definition strip_padding (s : jsstr) : jsstr :=
  if bool_decide ((length s mod 4)%nat = 0%nat)
  then match reverse s with
       | 61 :: 61 :: r => reverse r
       | 61 :: r => reverse r
       | _ => s
       end
  else s.

Definition atob (s : jsstr) : result bytes :=
  let s := strip_padding (filter (λ c, ascii_space c = false) s) in
  match mapM b64_val s ≫= sextets with
  | Some bs => Ok bs
  | None => Throw ErrInvalidChar
  end.

(** ** base64url.js *)

(** [.replace(/=+$/, "")]. *)
Definition strip_equals (s : jsstr) : jsstr :=
  reverse (drop_while (λ c, c =? 61) (reverse s)).

Definition encode (bs : bytes) : jsstr :=
  strip_equals (replace_all 47 95 (replace_all 43 45 (btoa bs))).

Definition decode (str : jsstr) : result bytes :=
  let normalized := replace_all 95 47 (replace_all 45 43 str) in
  let padded := normalized ++ replicate ((4 - length normalized mod 4) mod 4)%nat 61 in
  atob padded.

(** ** Lemmas *)

(** The characters [encode] produces: letters, digits, "-" and "_". *)
Definition url_char (c : Z) : Prop :=
  65 ≤ c ≤ 90 ∨ 97 ≤ c ≤ 122 ∨ 48 ≤ c ≤ 57 ∨ c = 45 ∨ c = 95.

(** What [encode] emits for a sextet. *)
Definition url_b64 (v : Z) : Z :=
  let c := b64_char v in
  let c := if c =? 43 then 45 else c in
  if c =? 47 then 95 else c.

(** The sextets of a byte string, without padding. *)
Fixpoint sextets_of (bs : bytes) : list Z :=
  match bs with
  | [] => []
  | [a] => [a / 4; a mod 4 * 16]
  | [a; b] => [a / 4; a mod 4 * 16 + b / 16; b mod 16 * 4]
  | a :: b :: c :: bs' =>
      a / 4 :: a mod 4 * 16 + b / 16 :: b mod 16 * 4 + c / 64 :: c mod 64
      :: sextets_of bs'
  end.

Definition pad_of (n : nat) : nat := ((3 - n mod 3) mod 3)%nat.

(** Induction three elements at a time, as [btoa] recurses. *)
Lemma list_ind3 (P : bytes → Prop) :
  P [] → (∀ a, P [a]) → (∀ a b, P [a; b]) →
  (∀ a b c l, P l → P (a :: b :: c :: l)) → ∀ l, P l.
Proof.
  intros H0 H1 H2 H3.
  assert (∀ n l, (length l < n)%nat → P l) as H; [|by eauto].
  induction n as [|n IH]; intros l Hl; [lia|].
  destruct l as [|a [|b [|c l]]]; auto. simpl in Hl. apply H3, IH. lia.
Qed.

Lemma sextets_of_bound bs :
  bytes_ok bs → Forall (λ v, 0 ≤ v < 64) (sextets_of bs).
Proof.
  unfold is_byte.
  induction bs as [|a|a b|a b c bs IH] using list_ind3; intros Hok;
    rewrite ?Forall_cons in Hok; simpl; repeat constructor; try divlia.
  apply IH. naive_solver.
Qed.

Lemma sextets_sextets_of bs : bytes_ok bs → sextets (sextets_of bs) = Some bs.
Proof.
  unfold is_byte.
  induction bs as [|a|a b|a b c bs IH] using list_ind3; intros Hok;
    rewrite ?Forall_cons in Hok; simpl; [done| | |].
  1-2: f_equal; repeat (f_equal; try divlia).
  rewrite IH by naive_solver. simpl.
  f_equal. repeat (f_equal; try divlia).
Qed.

Lemma btoa_sextets bs :
  btoa bs = map b64_char (sextets_of bs) ++ replicate (pad_of (length bs)) 61.
Proof.
  induction bs as [|a|a b|a b c bs IH] using list_ind3; try done.
  cbn [btoa sextets_of map app length]. rewrite IH. do 5 f_equal.
  unfold pad_of. f_equal.
  replace (S (S (S (length bs)))) with (length bs + 1 * 3)%nat by lia.
  by rewrite Nat.Div0.mod_add.
Qed.

(** Facts of the 64 sextets, checked on all of them. *)
Lemma sextet_forallb (P : Z → bool) :
  forallb P (seqZ 0 64) = true → ∀ v, 0 ≤ v < 64 → P v = true.
Proof.
  intros H v Hv. rewrite forallb_forall in H. apply H.
  apply list_elem_of_In, elem_of_seqZ. lia.
Qed.

Ltac sextet_cases f v :=
  intros;
  let H := fresh in
  pose proof (sextet_forallb (λ v, bool_decide (f v))) as H;
  specialize (H ltac:(vm_compute; reflexivity) v ltac:(lia));
  by apply bool_decide_eq_true in H.

Lemma url_b64_char v : 0 ≤ v < 64 → url_char (url_b64 v).
Proof. unfold url_char. sextet_cases (λ v, 65 ≤ url_b64 v ≤ 90 ∨ 97 ≤ url_b64 v ≤ 122 ∨ 48 ≤ url_b64 v ≤ 57 ∨ url_b64 v = 45 ∨ url_b64 v = 95) v. Qed.

Lemma url_b64_not_pad v : 0 ≤ v < 64 → url_b64 v ≠ 61.
Proof. sextet_cases (λ v, url_b64 v ≠ 61) v. Qed.

Definition std_of_url (c : Z) : Z :=
  let c := if c =? 45 then 43 else c in if c =? 95 then 47 else c.

Lemma url_b64_back v :
  0 ≤ v < 64 → b64_val (std_of_url (url_b64 v)) = Some v.
Proof. sextet_cases (λ v, b64_val (std_of_url (url_b64 v)) = Some v) v. Qed.

Lemma url_b64_back_shape v :
  0 ≤ v < 64 →
  ascii_space (std_of_url (url_b64 v)) = false ∧ std_of_url (url_b64 v) ≠ 61.
Proof.
  sextet_cases (λ v, ascii_space (std_of_url (url_b64 v)) = false
                     ∧ std_of_url (url_b64 v) ≠ 61) v.
Qed.

Lemma strip_equals_app s n :
  Forall (λ c, c ≠ 61) s → strip_equals (s ++ replicate n 61) = s.
Proof.
  intros Hs. unfold strip_equals. rewrite reverse_app, reverse_replicate.
  assert (drop_while (λ c, c =? 61) (replicate n 61 ++ reverse s) = reverse s) as ->.
  { induction n as [|n IH]; simpl; [|done].
    apply Forall_reverse in Hs. destruct Hs as [|c l Hc]; simpl; [done|].
    by rewrite (proj2 (Z.eqb_neq c 61)). }
  apply reverse_involutive.
Qed.

Lemma map_pad (f : Z → Z) n : f 61 = 61 → map f (replicate n 61) = replicate n 61.
Proof. intros Hf. induction n; simpl; congruence. Qed.

Lemma encode_sextets bs :
  bytes_ok bs → encode bs = map url_b64 (sextets_of bs).
Proof.
  intros Hok. pose proof (sextets_of_bound bs Hok) as Hb.
  unfold encode, replace_all. rewrite btoa_sextets, !map_app, !map_map.
  rewrite (map_ext _ url_b64) by done.
  rewrite map_pad by done. apply strip_equals_app. apply Forall_fmap.
  eapply Forall_impl; [exact Hb|]. intros v Hv. by apply url_b64_not_pad.
Qed.

Lemma encode_chars bs : bytes_ok bs → Forall url_char (encode bs).
Proof.
  intros Hok. rewrite encode_sextets by done. apply Forall_fmap.
  eapply Forall_impl; [by apply sextets_of_bound|]. intros v Hv. by apply url_b64_char.
Qed.

Lemma length_sextets_of bs :
  length (sextets_of bs) = ((4 * length bs + 2) / 3)%nat.
Proof.
  induction bs as [|a|a b|a b c bs IH] using list_ind3; try done.
  cbn [sextets_of length]. rewrite IH.
  replace (4 * S (S (S (length bs))) + 2)%nat with ((4 * length bs + 2) + 4 * 3)%nat by lia.
  rewrite Nat.div_add by lia. lia.
Qed.

Lemma pad_multiple n : ((n + (4 - n mod 4) mod 4) mod 4)%nat = 0%nat.
Proof.
  pose proof (Nat.mod_upper_bound n 4 ltac:(lia)) as Hu.
  rewrite <- Nat.Div0.add_mod_idemp_l.
  destruct (n mod 4)%nat as [|[|[|[|]]]]; [done..|lia].
Qed.

(** Adding the padding [decode] computes and removing it as [atob] does is the
    identity on a text of a base64 length. *)
Lemma strip_padding_pad s :
  Forall (λ c, c ≠ 61) s → (length s mod 4 ≠ 1)%nat →
  strip_padding (s ++ replicate ((4 - length s mod 4) mod 4)%nat 61) = s.
Proof.
  intros Hs Hl. unfold strip_padding.
  pose proof (Nat.mod_upper_bound (length s) 4 ltac:(lia)) as Hu.
  rewrite bool_decide_true.
  - rewrite reverse_app, reverse_replicate.
    assert (∀ r, match reverse s with
                 | 61 :: 61 :: r => reverse r | 61 :: r => reverse r | _ => r end = r) as Hn.
    { intros r. apply Forall_reverse in Hs. destruct Hs as [|c l Hc]; [done|].
      destruct c as [|p|p]; try done. repeat (destruct p; try done). }
    remember (length s mod 4)%nat as m.
    destruct m as [|[|[|[|]]]]; simpl; try lia.
    + by rewrite app_nil_r.
    + apply reverse_involutive.
    + pose proof (Hn s) as Hn'. apply Forall_reverse in Hs.
      destruct (reverse s) as [|c l] eqn:Hr.
      * simpl. rewrite <- (reverse_involutive s), Hr. done.
      * rewrite <- (reverse_involutive s), Hr. inversion Hs; subst.
        destruct c as [|p|p]; try done. repeat (destruct p; try done).
  - rewrite length_app, length_replicate. apply pad_multiple.
Qed.

Lemma filter_keep (P : Z → Prop) `{!∀ x, Decision (P x)} s :
  Forall P s → filter P s = s.
Proof. induction 1; [done|]. by rewrite filter_cons_True, IHForall. Qed.

Lemma decode_encode bs : bytes_ok bs → decode (encode bs) = Ok bs.
Proof.
  intros Hok. pose proof (sextets_of_bound bs Hok) as Hb.
  rewrite encode_sextets by done. unfold decode, atob, replace_all.
  rewrite !map_map. set (t := map _ (sextets_of bs)).
  assert (t = map (λ v, std_of_url (url_b64 v)) (sextets_of bs)) as Ht by done.
  assert (Forall (λ c, ascii_space c = false) t ∧ Forall (λ c, c ≠ 61) t) as [Hsp Hne].
  { rewrite Ht, !Forall_fmap.
    split; (eapply Forall_impl; [exact Hb|]); intros v Hv; by apply url_b64_back_shape. }
  rewrite filter_keep by (apply Forall_app; split; [done|by apply Forall_replicate]).
  rewrite strip_padding_pad; [|done|].
  - rewrite Ht. replace (mapM b64_val _) with (Some (sextets_of bs)).
    + simpl. by rewrite sextets_sextets_of.
    + symmetry. apply mapM_Some. rewrite <- (map_id (sextets_of bs)) at 2.
      apply Forall2_fmap_2, Forall_Forall2_diag.
      eapply Forall_impl; [exact Hb|]. intros v Hv. by apply url_b64_back.
  - rewrite Ht, length_map, length_sextets_of.
    pose proof (Nat.div_mod_eq (4 * length bs + 2) 3).
    pose proof (Nat.mod_upper_bound (4 * length bs + 2) 3 ltac:(lia)).
    intros H1. pose proof (Nat.div_mod_eq ((4 * length bs + 2) / 3) 4). lia.
Qed.

Lemma encode_inj a b : bytes_ok a → bytes_ok b → encode a = encode b → a = b.
Proof.
  intros Ha Hb He. apply (f_equal decode) in He. rewrite !decode_encode in He by done.
  by injection He.
Qed.
