(* ===== verification/Json.v ===== *)
(** * JSON.stringify and JSON.parse

    The part of the language's JSON object the sources rely on: every envelope
    (ws-client.js) and every file's metadata (transfer.js) goes through it.
    Integers within the safe range are [JNum]; a literal with a fraction, an
    exponent or a larger magnitude is kept as its text, [JFloat], since no code
    of the client computes with one. *)

From stdpp Require Import base list list_numbers sets strings.
From Stdlib Require Import ZArith Lia.
From S2P Require Import Prelude JsText.
Open Scope Z_scope.

Inductive json :=
| JNull
| JBool (b : bool)
| JNum (z : Z)
| JFloat (lexeme : jsstr)
| JStr (s : jsstr)
| JArr (l : list json)
| JObj (kvs : list (jsstr * json)).

(** Property access [v.k] on an object; [None] is [undefined]. *)
Fixpoint assoc (k : jsstr) (kvs : list (jsstr * json)) : option json :=
  match kvs with
  | [] => None
  | (k', v) :: kvs' => if bool_decide (k = k') then Some v else assoc k kvs'
  end.

Definition jget (k : string) (v : json) : option json :=
  match v with JObj kvs => assoc (js k) kvs | _ => None end.

(** ** JSON.stringify *)

Definition max_safe : Z := 9007199254740991.

Definition is_high (c : Z) : bool := (55296 <=? c) && (c <=? 56319).
Definition is_low (c : Z) : bool := (56320 <=? c) && (c <=? 57343).

Definition esc4 (c : Z) : jsstr :=
  [92; 117; digit_char (c / 4096 mod 16); digit_char (c / 256 mod 16);
   digit_char (c / 16 mod 16); digit_char (c mod 16)].

(** One code unit that is not part of a surrogate pair. *)
Definition quote_unit (c : Z) : jsstr :=
  if c =? 8 then [92; 98]
  else if c =? 9 then [92; 116]
  else if c =? 10 then [92; 110]
  else if c =? 12 then [92; 102]
  else if c =? 13 then [92; 114]
  else if c =? 34 then [92; 34]
  else if c =? 92 then [92; 92]
  else if (c <? 32) || is_high c || is_low c then esc4 c
  else [c].

Fixpoint quote_body (s : jsstr) : jsstr :=
  match s with
  | [] => []
  | c :: s1 =>
      match s1 with
      | d :: s2 =>
          if is_high c && is_low d then c :: d :: quote_body s2
          else quote_unit c ++ quote_body s1
      | [] => quote_unit c
      end
  end.

Definition quote (s : jsstr) : jsstr := 34 :: quote_body s ++ [34].

Definition int_text (z : Z) : jsstr :=
  if z <? 0 then 45 :: num_to_string 10 (- z) else num_to_string 10 z.

(** Elements and members, with the closing bracket. *)
Section Join.
Context (text : json → jsstr).

Fixpoint elems_text (l : list json) : jsstr :=
  match l with
  | [] => [93]
  | v :: l' => text v ++ match l' with [] => [93] | _ => 44 :: elems_text l' end
  end.

Fixpoint members_text (kvs : list (jsstr * json)) : jsstr :=
  match kvs with
  | [] => [125]
  | (k, v) :: kvs' =>
      quote k ++ 58 :: text v
      ++ match kvs' with [] => [125] | _ => 44 :: members_text kvs' end
  end.
End Join.

Fixpoint stringify (v : json) : jsstr :=
  match v with
  | JNull => js "null"
  | JBool b => if b then js "true" else js "false"
  | JNum z => int_text z
  | JFloat lexeme => lexeme
  | JStr s => quote s
  | JArr l => 91 :: elems_text stringify l
  | JObj kvs => 123 :: members_text stringify kvs
  end.

(** ** JSON.parse *)

Definition json_space (c : Z) : bool :=
  (c =? 32) || (c =? 9) || (c =? 10) || (c =? 13).

Definition skip_ws (s : jsstr) : jsstr := drop_while json_space s.

Definition hex4 (a b c d : Z) : option Z :=
  a ← digit_val 16 a; b ← digit_val 16 b; c ← digit_val 16 c; d ← digit_val 16 d;
  Some (((a * 16 + b) * 16 + c) * 16 + d).

Definition unescape (e : Z) : option Z :=
  if e =? 34 then Some 34
  else if e =? 92 then Some 92
  else if e =? 47 then Some 47
  else if e =? 98 then Some 8
  else if e =? 102 then Some 12
  else if e =? 110 then Some 10
  else if e =? 114 then Some 13
  else if e =? 116 then Some 9
  else None.

Definition prepend (c : Z) (r : option (jsstr * jsstr)) : option (jsstr * jsstr) :=
  (λ '(s, rest), (c :: s, rest)) <$> r.

(** The rest of a string literal, after its opening quote. *)
Fixpoint pstr (s : jsstr) : option (jsstr * jsstr) :=
  match s with
  | [] => None
  | c :: r =>
      if c =? 34 then Some ([], r)
      else if c =? 92 then
        match r with
        | [] => None
        | e :: r1 =>
            if e =? 117 then
              match r1 with
              | h1 :: h2 :: h3 :: h4 :: r2 =>
                  match hex4 h1 h2 h3 h4 with
                  | Some u => prepend u (pstr r2)
                  | None => None
                  end
              | _ => None
              end
            else match unescape e with
                 | Some u => prepend u (pstr r1)
                 | None => None
                 end
        end
      else if c <? 32 then None
      else prepend c (pstr r)
  end.

Definition dec (c : Z) : bool := is_digit 10 c.

(** Fraction and exponent of a number literal: their text and the rest. *)
Definition pdigits1 (s : jsstr) : option (jsstr * jsstr) :=
  match take_while dec s with
  | [] => None
  | ds => Some (ds, drop_while dec s)
  end.

Definition pfrac (s : jsstr) : option (jsstr * jsstr) :=
  match s with
  | c :: r => if c =? 46 then '(ds, r') ← pdigits1 r; Some (46 :: ds, r') else Some ([], s)
  | [] => Some ([], s)
  end.

Definition pexp (s : jsstr) : option (jsstr * jsstr) :=
  match s with
  | c :: r =>
      if (c =? 101) || (c =? 69) then
        match r with
        | g :: r' =>
            if (g =? 43) || (g =? 45)
            then '(ds, r'') ← pdigits1 r'; Some (c :: g :: ds, r'')
            else '(ds, r'') ← pdigits1 r; Some (c :: ds, r'')
        | [] => None
        end
      else Some ([], s)
  | [] => Some ([], s)
  end.

Definition pnum (s : jsstr) : option (json * jsstr) :=
  let '(neg, s1) := match s with
                    | c :: r => if c =? 45 then (true, r) else (false, s)
                    | [] => (false, s)
                    end in
  '(ds, r) ← pdigits1 s1;
  if bool_decide (head ds = Some 48) && bool_decide (ds ≠ [48]) then None
  else
    '(fr, r1) ← pfrac r;
    '(ex, r2) ← pexp r1;
    let v := digits_val 10 0 ds in
    if bool_decide (fr = []) && bool_decide (ex = []) && (v <=? max_safe)
    then Some (JNum (if neg then - v else v), r2)
    else Some (JFloat ((if neg then [45] else []) ++ ds ++ fr ++ ex), r2).

(** Consumes a literal name. *)
Definition plit (lit : jsstr) (v : json) (s : jsstr) : option (json * jsstr) :=
  if starts_with lit s then Some (v, drop (length lit) s) else None.

(** A repeated key keeps its place and takes the later value. *)
Fixpoint jset (k : jsstr) (v : json) (kvs : list (jsstr * json)) :=
  match kvs with
  | [] => [(k, v)]
  | (k', v') :: kvs' =>
      if bool_decide (k = k') then (k, v) :: kvs' else (k', v') :: jset k v kvs'
  end.

(** [n] is fuel; [2 * length] of the text is enough since every two nested
    calls consume a code unit. *)
Fixpoint pval (n : nat) (s : jsstr) : option (json * jsstr) :=
  match n with
  | O => None
  | S n =>
      match skip_ws s with
      | [] => None
      | c :: r =>
          if c =? 123 then
            match skip_ws r with
            | d :: r' => if d =? 125 then Some (JObj [], r') else pmembers n r []
            | [] => None
            end
          else if c =? 91 then
            match skip_ws r with
            | d :: r' => if d =? 93 then Some (JArr [], r') else pelems n r []
            | [] => None
            end
          else if c =? 34 then '(t, r') ← pstr r; Some (JStr t, r')
          else if c =? 110 then plit (js "null") JNull (c :: r)
          else if c =? 116 then plit (js "true") (JBool true) (c :: r)
          else if c =? 102 then plit (js "false") (JBool false) (c :: r)
          else pnum (c :: r)
      end
  end
with pelems (n : nat) (s : jsstr) (acc : list json) : option (json * jsstr) :=
  match n with
  | O => None
  | S n =>
      '(v, r) ← pval n s;
      match skip_ws r with
      | c :: r' =>
          if c =? 44 then pelems n r' (acc ++ [v])
          else if c =? 93 then Some (JArr (acc ++ [v]), r')
          else None
      | [] => None
      end
  end
with pmembers (n : nat) (s : jsstr) (acc : list (jsstr * json)) :
    option (json * jsstr) :=
  match n with
  | O => None
  | S n =>
      match skip_ws s with
      | q :: r =>
          if q =? 34 then
            '(k, r1) ← pstr r;
            match skip_ws r1 with
            | d :: r2 =>
                if d =? 58 then
                  '(v, r3) ← pval n r2;
                  match skip_ws r3 with
                  | c :: r4 =>
                      if c =? 44 then pmembers n r4 (jset k v acc)
                      else if c =? 125 then Some (JObj (jset k v acc), r4)
                      else None
                  | [] => None
                  end
                else None
            | [] => None
            end
          else None
      | [] => None
      end
  end.

(** [JSON.parse(text)]; [None] is a [SyntaxError]. *)
Definition parse (s : jsstr) : option json :=
  '(v, r) ← pval (2 * length s + 2) s;
  if bool_decide (skip_ws r = []) then Some v else None.

(** ** Lemmas *)

(** Values [stringify] prints exactly: safe integers, 16-bit code units, and
    objects without repeated keys. *)
Definition unit_ok (c : Z) : Prop := 0 ≤ c < 65536.

Fixpoint json_wf (v : json) : Prop :=
  match v with
  | JNull | JBool _ => True
  | JNum z => Z.abs z ≤ max_safe
  | JFloat _ => False
  | JStr s => Forall unit_ok s
  | JArr l => foldr (λ v P, json_wf v ∧ P) True l
  | JObj kvs =>
      NoDup kvs.*1 ∧
      foldr (λ kv P, (Forall unit_ok kv.1 ∧ json_wf kv.2) ∧ P) True kvs
  end.

(** Induction over values, with the hypothesis for every element and member. *)
Lemma json_ind' (P : json → Prop) :
  P JNull → (∀ b, P (JBool b)) → (∀ z, P (JNum z)) → (∀ s, P (JFloat s)) →
  (∀ s, P (JStr s)) → (∀ l, Forall P l → P (JArr l)) →
  (∀ kvs, Forall (λ kv, P kv.2) kvs → P (JObj kvs)) → ∀ v, P v.
Proof.
  intros Hn Hb Hz Hf Hs Ha Ho. fix IH 1. intros [| | | | |l|kvs].
  - apply Hn.
  - apply Hb.
  - apply Hz.
  - apply Hf.
  - apply Hs.
  - apply Ha. induction l as [|v l IHl]; constructor; [apply IH|apply IHl].
  - apply Ho. induction kvs as [|[k v] kvs IHk]; constructor; [apply IH|apply IHk].
Qed.

(** *** Strings *)

Lemma eqb_ne a b : a ≠ b → (a =? b) = false.
Proof. apply Z.eqb_neq. Qed.

Lemma pstr_plain c r : c ≠ 34 → c ≠ 92 → 32 ≤ c → pstr (c :: r) = prepend c (pstr r).
Proof. intros. cbn [pstr]. rewrite !eqb_ne by done. by rewrite (proj2 (Z.ltb_ge c 32)). Qed.

Lemma hex4_digits c :
  unit_ok c →
  hex4 (digit_char (c / 4096 mod 16)) (digit_char (c / 256 mod 16))
       (digit_char (c / 16 mod 16)) (digit_char (c mod 16)) = Some c.
Proof.
  intros Hc. unfold unit_ok in Hc. unfold hex4.
  rewrite !digit_val_char by (try apply Z.mod_pos_bound; lia).
  simpl. f_equal. divlia.
Qed.

Lemma pstr_quote_unit c r : unit_ok c → pstr (quote_unit c ++ r) = prepend c (pstr r).
Proof.
  intros Hc. unfold quote_unit.
  repeat (case_match; [match goal with H : (_ =? _) = true |- _ =>
            apply Z.eqb_eq in H as ->; done end|]).
  rewrite !Z.eqb_neq in *. case_match eqn:Hs.
  - cbn [esc4 app pstr]. simpl. by rewrite hex4_digits.
  - rewrite !orb_false_iff, Z.ltb_ge in Hs. apply pstr_plain; naive_solver.
Qed.

Lemma pstr_quote_body s r :
  Forall unit_ok s → pstr (quote_body s ++ 34 :: r) = Some (s, r).
Proof.
  remember (length s) as n eqn:Hn. revert s Hn.
  induction n as [n IH] using lt_wf_ind. intros s -> Hs.
  destruct s as [|c s1]; [done|]. rewrite Forall_cons in Hs. destruct Hs as [Hc Hs].
  assert (pstr (quote_unit c ++ quote_body s1 ++ 34 :: r) = Some (c :: s1, r)) as Hunit.
  { rewrite pstr_quote_unit, (IH (length s1)) by (simpl; auto with lia). done. }
  cbn [quote_body]. destruct s1 as [|d s2]; [done|].
  destruct (is_high c && is_low d) eqn:Hp.
  - apply andb_prop in Hp as [Hh Hl]. unfold is_high, is_low in *.
    rewrite andb_true_iff, !Z.leb_le in Hh, Hl. rewrite Forall_cons in Hs.
    cbn [app]. rewrite !pstr_plain by lia.
    rewrite (IH (length s2)) by (simpl; naive_solver lia). done.
  - by rewrite <- app_assoc.
Qed.

(** *** Numbers *)

Lemma digits_aux_head fuel z acc :
  0 < z < 10 ^ Z.of_nat fuel →
  ∃ d l, digits_aux fuel 10 z acc = digit_char d :: l ∧ 0 < d < 10.
Proof.
  revert z acc. induction fuel as [|f IH]; intros z acc Hz; [simpl in Hz; lia|].
  cbn [digits_aux]. case_match eqn:E.
  - apply Z.ltb_lt in E. exists z, acc. rewrite Z.mod_small by lia. auto with lia.
  - apply Z.ltb_ge in E. rewrite Nat2Z.inj_succ, Z.pow_succ_r in Hz by lia.
    apply IH. split; [apply Z.div_str_pos; lia|apply Z.div_lt_upper_bound; lia].
Qed.

Lemma num_to_string_head z :
  0 ≤ z →
  ∃ c l, num_to_string 10 z = c :: l ∧ is_digit 10 c = true ∧ (c = 48 → l = []).
Proof.
  intros Hz. destruct (decide (z = 0)) as [->|Hne]; [by eexists _, _|].
  destruct (digits_aux_head (S (Z.to_nat (Z.log2 z))) z []) as (d & l & Heq & Hd).
  - rewrite Nat2Z.inj_succ, Z2Nat.id by apply Z.log2_nonneg.
    split; [lia|]. apply Z.lt_le_trans with (2 ^ Z.succ (Z.log2 z)).
    + apply Z.log2_spec. lia.
    + apply Z.pow_le_mono_l. lia.
  - exists (digit_char d), l. split; [done|]. split.
    + unfold is_digit. by rewrite digit_val_char by lia.
    + unfold digit_char. case_match eqn:E; [|lia]. lia.
Qed.

(** What may follow a value in a printed text. *)
Definition delim (r : jsstr) : Prop :=
  match r with [] => True | c :: _ => c = 44 ∨ c = 93 ∨ c = 125 end.

Lemma take_drop_while f ds r :
  Forall (λ c, f c = true) ds →
  match r with [] => True | c :: _ => f c = false end →
  take_while f (ds ++ r) = ds ∧ drop_while f (ds ++ r) = r.
Proof.
  intros Hds Hr. induction Hds as [|c ds Hc _ [IH1 IH2]]; cbn [app].
  - destruct r as [|c r]; simpl; [done|]. by rewrite Hr.
  - simpl. rewrite Hc, IH1, IH2. done.
Qed.

Lemma pdigits1_num z r :
  0 ≤ z → delim r → pdigits1 (num_to_string 10 z ++ r) = Some (num_to_string 10 z, r).
Proof.
  intros Hz Hr. unfold pdigits1.
  destruct (take_drop_while dec (num_to_string 10 z) r) as [-> ->].
  - by apply num_to_string_digits.
  - destruct r; [done|]. destruct Hr as [-> | [-> | ->]]; done.
  - by destruct (num_to_string_head z Hz) as (c & l & -> & _).
Qed.

Lemma delim_no_frac r : delim r → pfrac r = Some ([], r) ∧ pexp r = Some ([], r).
Proof. destruct r; [done|]. intros [-> | [-> | ->]]; done. Qed.

Lemma pnum_abs (neg : bool) z r :
  0 ≤ z ≤ max_safe → delim r →
  pnum ((if neg then [45] else []) ++ num_to_string 10 z ++ r)
  = Some (JNum (if neg then - z else z), r).
Proof.
  intros [Hz Hm] Hr. unfold pnum.
  destruct (num_to_string_head z Hz) as (c & l & Heq & Hc & Hc0).
  destruct (delim_no_frac r Hr) as [Hf He].
  set (p := match _ ++ _ with [] => _ | _ => _ end).
  assert (p = (neg, num_to_string 10 z ++ r)) as ->.
  { unfold p. destruct neg; [done|]. rewrite Heq. cbn [app].
    destruct (c =? 45) eqn:E; [|done]. apply Z.eqb_eq in E as ->. done. }
  rewrite pdigits1_num by done. simpl.
  replace (_ && _) with false.
  - simpl. rewrite Hf. simpl. rewrite He. simpl.
    rewrite num_to_string_val by lia. by rewrite (proj2 (Z.leb_le _ _)).
  - symmetry. rewrite Heq. apply andb_false_iff.
    destruct (decide (c = 48)) as [->|Hne]; [right|left].
    + rewrite Hc0 by done. done.
    + apply bool_decide_false. simpl. congruence.
Qed.

(** *** Values *)

(** A printed value starts with a character that is neither white space nor a
    closing bracket. *)
Lemma stringify_head v r :
  json_wf v →
  ∃ c t, stringify v ++ r = c :: t ∧ json_space c = false ∧ c ≠ 93 ∧ c ≠ 125.
Proof.
  destruct v as [|[]|z| | | |]; intros Hwf; try done; try by eexists _, _.
  cbn [stringify]. unfold int_text. destruct (z <? 0) eqn:E; [by eexists _, _|].
  apply Z.ltb_ge in E. destruct (num_to_string_head z E) as (c & l & -> & Hc & _).
  exists c, (l ++ r). split; [done|]. unfold json_space.
  repeat split; [|intros ->; done..].
  repeat (rewrite orb_false_iff; split); apply Z.eqb_neq; intros ->; done.
Qed.

Lemma skip_ws_head c t : json_space c = false → skip_ws (c :: t) = c :: t.
Proof. intros H. unfold skip_ws. simpl. by rewrite H. Qed.

Lemma length_stringify_pos v : json_wf v → (0 < length (stringify v))%nat.
Proof.
  intros Hwf. destruct (stringify_head v [] Hwf) as (c & t & Heq & _).
  rewrite app_nil_r in Heq. rewrite Heq. simpl. lia.
Qed.

Lemma pval_int z n r :
  Z.abs z ≤ max_safe → delim r → (0 < n)%nat →
  pval n (int_text z ++ r) = Some (JNum z, r).
Proof.
  intros Hz Hr Hn. destruct n as [|n]; [lia|]. cbn [pval].
  assert (pnum (int_text z ++ r) = Some (JNum z, r)) as Hp.
  { unfold int_text. destruct (z <? 0) eqn:E; [apply Z.ltb_lt in E|apply Z.ltb_ge in E].
    - change (45 :: num_to_string 10 (- z)) with ([45] ++ num_to_string 10 (- z)).
      rewrite <- app_assoc. rewrite (pnum_abs true) by (done || lia).
      by rewrite Z.opp_involutive.
    - apply (pnum_abs false); [lia|done]. }
  assert (∃ c t, int_text z ++ r = c :: t ∧ (c = 45 ∨ is_digit 10 c = true))
    as (c & t & Heq & Hc).
  { unfold int_text. destruct (z <? 0) eqn:E; [by eexists _, _; split; [|left]|].
    apply Z.ltb_ge in E. destruct (num_to_string_head z E) as (c & l & -> & Hc & _).
    exists c, (l ++ r). auto. }
  rewrite Heq in *.
  assert (∀ d, is_digit 10 d = false → d ≠ 45 → c ≠ d) as Hne.
  { intros d Hd Hd' ->. destruct Hc; congruence. }
  rewrite skip_ws_head.
  - rewrite !eqb_ne by (by apply Hne). done.
  - unfold json_space. rewrite !eqb_ne by (by apply Hne). done.
Qed.

Definition printable (v : json) : Prop :=
  json_wf v → ∀ n r, (2 * length (stringify v) ≤ n)%nat → delim r →
  pval n (stringify v ++ r) = Some (v, r).

Lemma pelems_text l n r acc :
  Forall printable l → foldr (λ v P, json_wf v ∧ P) True l → l ≠ [] →
  (2 * length (elems_text stringify l) ≤ n)%nat →
  pelems n (elems_text stringify l ++ r) acc = Some (JArr (acc ++ l), r).
Proof.
  intros Hl. revert n acc. induction Hl as [|v l Hv Hl IH]; intros n acc Hwf Hne Hn; [done|].
  destruct Hwf as [Hwv Hwf]. destruct n as [|n].
  { cbn [elems_text] in Hn. rewrite length_app in Hn.
    pose proof (length_stringify_pos v Hwv). lia. }
  cbn [elems_text pelems] in *. rewrite <- app_assoc.
  rewrite length_app in Hn.
  destruct l as [|w l].
  - rewrite Hv by (simpl in *; naive_solver lia). done.
  - rewrite Hv by (simpl in *; naive_solver lia). simpl app. cbn [mbind option_bind].
    rewrite skip_ws_head by done. rewrite Z.eqb_refl.
    rewrite IH by (simpl in *; naive_solver lia). by rewrite <- app_assoc.
Qed.

Lemma jset_fresh k v kvs : k ∉ kvs.*1 → jset k v kvs = kvs ++ [(k, v)].
Proof.
  induction kvs as [|[k' v'] kvs IH]; intros Hk; cbn [jset fmap list_fmap] in *; [done|].
  rewrite bool_decide_false by set_solver. cbn [app]. f_equal. apply IH. set_solver.
Qed.

Lemma pmembers_text kvs n r acc :
  Forall (λ kv, printable kv.2) kvs →
  foldr (λ kv P, (Forall unit_ok kv.1 ∧ json_wf kv.2) ∧ P) True kvs →
  kvs ≠ [] → NoDup (acc ++ kvs).*1 →
  (2 * length (members_text stringify kvs) ≤ n)%nat →
  pmembers n (members_text stringify kvs ++ r) acc = Some (JObj (acc ++ kvs), r).
Proof.
  intros Hl. revert n acc.
  induction Hl as [|[k v] kvs Hv Hl IH]; intros n acc Hwf Hne Hnd Hn; [done|].
  destruct Hwf as [[Hk Hwv] Hwf]. destruct n as [|n]; [simpl in Hn; lia|].
  cbn [members_text pmembers fst snd] in *. unfold quote in *.
  cbn [app length] in *. rewrite !length_app in Hn. cbn [length] in Hn.
  rewrite <- !app_assoc. rewrite skip_ws_head, Z.eqb_refl by done.
  cbn [app]. rewrite pstr_quote_body by done. cbn [mbind option_bind].
  rewrite skip_ws_head, Z.eqb_refl by done. rewrite <- app_assoc.
  assert (k ∉ acc.*1) as Hfresh.
  { rewrite fmap_app, NoDup_app in Hnd. destruct Hnd as (_ & Hd & _).
    intros Hin. apply (Hd k Hin). simpl. set_solver. }
  rewrite length_app in Hn.
  destruct kvs as [|kv kvs].
  - rewrite Hv by (simpl in *; naive_solver lia). simpl.
    by rewrite jset_fresh.
  - rewrite Hv by (simpl in *; naive_solver lia). cbn [app mbind option_bind].
    rewrite skip_ws_head, Z.eqb_refl by done. rewrite jset_fresh by done.
    rewrite IH; [by rewrite <- app_assoc|done|done|by rewrite <- app_assoc|].
    simpl in *. lia.
Qed.

Lemma stringify_printable v : printable v.
Proof.
  induction v as [|b|z|s|s|l IH|kvs IH] using json_ind'; intros Hwf n r Hn Hr;
    (destruct n as [|n]; [pose proof (length_stringify_pos _ Hwf); lia|]).
  - done.
  - by destruct b.
  - apply pval_int; [done|done|lia].
  - done.
  - cbn [stringify pval]. unfold quote. cbn [app]. rewrite skip_ws_head by done. simpl.
    rewrite <- app_assoc. cbn [app]. by rewrite pstr_quote_body.
  - cbn [stringify pval] in *. cbn [app]. rewrite skip_ws_head by done. cbn [Z.eqb Pos.eqb].
    destruct l as [|v l]; [done|].
    destruct Hwf as [Hwv Hwl].
    destruct (stringify_head v (match l with [] => [93] | _ => 44 :: elems_text stringify l end ++ r) Hwv)
      as (c & t & Heq & Hsp & H93 & _).
    assert (elems_text stringify (v :: l) ++ r = c :: t) as Heq'.
    { cbn [elems_text]. by rewrite <- app_assoc. }
    rewrite Heq'. rewrite skip_ws_head, eqb_ne by done. rewrite <- Heq'.
    apply (pelems_text (v :: l) n r []); [done|done|done|].
    cbn [length] in Hn. lia.
  - cbn [stringify pval] in *. cbn [app]. rewrite skip_ws_head by done. cbn [Z.eqb Pos.eqb].
    destruct Hwf as [Hnd Hwf]. destruct kvs as [|[k v] kvs]; [done|].
    assert (∃ t, members_text stringify ((k, v) :: kvs) ++ r = 34 :: t) as [t Heq]
      by by eexists.
    rewrite Heq. rewrite skip_ws_head by done. cbn [Z.eqb Pos.eqb]. rewrite <- Heq.
    apply (pmembers_text ((k, v) :: kvs) n r []); [done|done|done|done|].
    cbn [length] in Hn. lia.
Qed.

(** [JSON.parse(JSON.stringify(v))] is [v]. *)
Lemma parse_stringify v : json_wf v → parse (stringify v) = Some v.
Proof.
  intros Hwf. unfold parse.
  pose proof (stringify_printable v Hwf (2 * length (stringify v) + 2)%nat []) as H.
  rewrite app_nil_r in H. by rewrite H by (done || lia).
Qed.

#[export] Hint Resolve parse_stringify : js_db.
