(* ===== verification/Utf8.v ===== *)
(** * TextEncoder and TextDecoder

    UTF-8 as the Encoding standard gives it: the encoder replaces a lone
    surrogate by U+FFFD; the decoder (not fatal, as the sources use it) replaces
    each malformed sequence by U+FFFD and drops a leading byte order mark. *)

From stdpp Require Import base list list_numbers sets strings.
From Stdlib Require Import ZArith Lia.
From S2P Require Import Prelude JsText Json.
Open Scope Z_scope.

Definition replacement : Z := 65533.

(** Code units to scalar values. *)
Fixpoint scalars (s : jsstr) : list Z :=
  match s with
  | [] => []
  | c :: s1 =>
      if is_high c then
        match s1 with
        | d :: s2 =>
            if is_low d then 65536 + (c - 55296) * 1024 + (d - 56320) :: scalars s2
            else replacement :: scalars s1
        | [] => [replacement]
        end
      else if is_low c then replacement :: scalars s1
      else c :: scalars s1
  end.

(** A scalar value to code units. *)
Definition units (c : Z) : jsstr :=
  if c <? 65536 then [c]
  else [55296 + (c - 65536) / 1024; 56320 + (c - 65536) mod 1024].

Definition utf8_scalar (c : Z) : bytes :=
  if c <? 128 then [c]
  else if c <? 2048 then [192 + c / 64; 128 + c mod 64]
  else if c <? 65536 then [224 + c / 4096; 128 + c / 64 mod 64; 128 + c mod 64]
  else [240 + c / 262144; 128 + c / 4096 mod 64; 128 + c / 64 mod 64; 128 + c mod 64].

(** [new TextEncoder().encode(s)]. *)
Definition utf8_encode (s : jsstr) : bytes := concat (map utf8_scalar (scalars s)).

(** What a byte outside a sequence starts: a scalar at once, or [need] more
    bytes, the next of them between [lo] and [hi]. *)
Inductive lead_kind :=
| LEmit (c : Z)
| LNeed (need : nat) (cp lo hi : Z).

Definition lead (b : Z) : lead_kind :=
  if b <? 128 then LEmit b
  else if (194 <=? b) && (b <=? 223) then LNeed 1 (b - 192) 128 191
  else if (224 <=? b) && (b <=? 239) then
    LNeed 2 (b - 224) (if b =? 224 then 160 else 128) (if b =? 237 then 159 else 191)
  else if (240 <=? b) && (b <=? 244) then
    LNeed 3 (b - 240) (if b =? 240 then 144 else 128) (if b =? 244 then 143 else 191)
  else LEmit replacement.

Fixpoint utf8_dec (st : option (nat * Z * Z * Z)) (bs : bytes) : list Z :=
  match bs with
  | [] => match st with None => [] | Some _ => [replacement] end
  | b :: bs' =>
      let start :=
        match lead b with
        | LEmit c => c :: utf8_dec None bs'
        | LNeed n cp lo hi => utf8_dec (Some (n, cp, lo, hi)) bs'
        end in
      match st with
      | None => start
      | Some (n, cp, lo, hi) =>
          if (lo <=? b) && (b <=? hi) then
            let cp' := cp * 64 + (b - 128) in
            match n with
            | S (S n') => utf8_dec (Some (S n', cp', 128, 191)) bs'
            | _ => cp' :: utf8_dec None bs'
            end
          else replacement :: start
      end
  end.

(** [new TextDecoder().decode(bs)]. *)
Definition utf8_decode (bs : bytes) : jsstr :=
  let cps := utf8_dec None bs in
  let cps := match cps with c :: r => if c =? 65279 then r else cps | [] => [] end in
  concat (map units cps).

(** ** Lemmas *)

(** A string without lone surrogates. *)
Fixpoint well_paired (s : jsstr) : Prop :=
  match s with
  | [] => True
  | c :: s1 =>
      if is_high c then
        match s1 with d :: s2 => is_low d = true ∧ well_paired s2 | [] => False end
      else is_low c = false ∧ well_paired s1
  end.

Definition scalar_ok (c : Z) : Prop := 0 ≤ c < 1114112 ∧ ¬ (55296 ≤ c ≤ 57343).

(** Turns the comparisons of a goal and context into arithmetic. *)
Ltac bool_arith :=
  rewrite ?andb_true_iff, ?andb_false_iff, ?Z.leb_le, ?Z.leb_gt, ?Z.ltb_lt, ?Z.ltb_ge,
    ?Z.eqb_eq, ?Z.eqb_neq in *.

Lemma lead_2 c : 2 ≤ c < 32 → lead (192 + c) = LNeed 1 c 128 191.
Proof.
  intros. unfold lead. repeat case_match; bool_arith; try lia. f_equal; lia.
Qed.

Lemma lead_3 c :
  0 ≤ c < 16 →
  lead (224 + c) = LNeed 2 c (if c =? 0 then 160 else 128) (if c =? 13 then 159 else 191).
Proof.
  intros. unfold lead. repeat case_match; bool_arith; try lia; f_equal; lia.
Qed.

Lemma lead_4 c :
  0 ≤ c < 5 →
  lead (240 + c) = LNeed 3 c (if c =? 0 then 144 else 128) (if c =? 4 then 143 else 191).
Proof.
  intros. unfold lead. repeat case_match; bool_arith; try lia; f_equal; lia.
Qed.

(** One continuation byte. *)
Lemma utf8_dec_more n cp lo hi v bs :
  lo ≤ 128 + v ≤ hi →
  utf8_dec (Some (n, cp, lo, hi)) (128 + v :: bs)
  = match n with
    | S (S n') => utf8_dec (Some (S n', cp * 64 + v, 128, 191)) bs
    | _ => cp * 64 + v :: utf8_dec None bs
    end.
Proof.
  intros. cbn [utf8_dec].
  rewrite (proj2 (Z.leb_le lo _)), (proj2 (Z.leb_le _ hi)) by lia. simpl.
  replace (128 + v - 128) with v by lia. by destruct n as [|[|n]].
Qed.

Lemma utf8_dec_start b bs :
  utf8_dec None (b :: bs)
  = match lead b with
    | LEmit c => c :: utf8_dec None bs
    | LNeed n cp lo hi => utf8_dec (Some (n, cp, lo, hi)) bs
    end.
Proof. done. Qed.

Lemma utf8_dec_scalar c bs :
  scalar_ok c → utf8_dec None (utf8_scalar c ++ bs) = c :: utf8_dec None bs.
Proof.
  intros [Hc Hs]. unfold utf8_scalar. repeat case_match; bool_arith; cbn [app].
  - rewrite utf8_dec_start. unfold lead. by rewrite (proj2 (Z.ltb_lt _ _)).
  - rewrite utf8_dec_start, lead_2 by divlia. cbv iota.
    rewrite utf8_dec_more by divlia. f_equal. divlia.
  - rewrite utf8_dec_start, lead_3 by divlia. cbv iota.
    rewrite utf8_dec_more by (repeat case_match; bool_arith; divlia).
    rewrite utf8_dec_more by divlia. f_equal. divlia.
  - rewrite utf8_dec_start, lead_4 by divlia. cbv iota.
    rewrite utf8_dec_more by (repeat case_match; bool_arith; divlia).
    rewrite utf8_dec_more by divlia. rewrite utf8_dec_more by divlia. f_equal. divlia.
Qed.

Lemma utf8_dec_scalars cs :
  Forall scalar_ok cs → utf8_dec None (concat (map utf8_scalar cs)) = cs.
Proof.
  induction 1 as [|c cs Hc _ IH]; [done|]. cbn [map concat].
  by rewrite utf8_dec_scalar, IH.
Qed.

(** Strong induction on the length, for the functions that consume pairs. *)
Lemma length_ind (P : jsstr → Prop) :
  (∀ s, (∀ t, (length t < length s)%nat → P t) → P s) → ∀ s, P s.
Proof.
  intros H. assert (∀ n s, (length s < n)%nat → P s) as Hn; [|eauto].
  induction n as [|n IH]; intros s Hs; [lia|]. apply H. intros t Ht. apply IH. lia.
Qed.

Lemma scalars_ok s : Forall unit_ok s → Forall scalar_ok (scalars s).
Proof.
  induction s as [s IH] using length_ind. intros Hs. unfold unit_ok in *.
  destruct s as [|c s1]; [constructor|]. apply Forall_cons in Hs as [Hc Hs].
  assert (scalar_ok replacement) by (unfold scalar_ok, replacement; lia).
  cbn [scalars]. destruct (is_high c) eqn:Hh; [|destruct (is_low c) eqn:Hl].
  - destruct s1 as [|d s2]; [by constructor|].
    destruct (is_low d) eqn:Hl; [|constructor; [done|apply IH; [simpl; lia|done]]].
    apply Forall_cons in Hs as [Hd Hs]. unfold is_high, is_low in *. bool_arith.
    constructor; [unfold scalar_ok; lia|]. apply IH; [simpl; lia|done].
  - constructor; [done|]. apply IH; [simpl; lia|done].
  - constructor; [|apply IH; [simpl; lia|done]].
    unfold is_high, is_low in *. bool_arith. unfold scalar_ok. lia.
Qed.

Lemma units_scalars s :
  Forall unit_ok s → well_paired s → concat (map units (scalars s)) = s.
Proof.
  induction s as [s IH] using length_ind. intros Hs Hw. unfold unit_ok in *.
  destruct s as [|c s1]; [done|]. apply Forall_cons in Hs as [Hc Hs].
  cbn [scalars well_paired] in *. destruct (is_high c) eqn:Hh.
  - destruct s1 as [|d s2]; [done|]. destruct Hw as [Hl Hw]. rewrite Hl.
    apply Forall_cons in Hs as [Hd Hs]. unfold is_high, is_low in *. bool_arith.
    cbn [map concat]. rewrite IH by (simpl; auto with lia). unfold units.
    rewrite (proj2 (Z.ltb_ge _ _)) by lia. cbn [app]. f_equal; [divlia|f_equal; divlia].
  - destruct Hw as [Hl Hw]. rewrite Hl. cbn [map concat].
    rewrite IH by (simpl; auto with lia). unfold units.
    by rewrite (proj2 (Z.ltb_lt _ _)) by lia.
Qed.

(** The round trip, for a text that does not start with a byte order mark. *)
Lemma utf8_decode_encode s :
  Forall unit_ok s → well_paired s → head s ≠ Some 65279 →
  utf8_decode (utf8_encode s) = s.
Proof.
  intros Hs Hw Hb. unfold utf8_decode, utf8_encode.
  rewrite utf8_dec_scalars by by apply scalars_ok.
  destruct (scalars s) as [|c r] eqn:Heq; [by rewrite <- (units_scalars s), Heq|].
  destruct (c =? 65279) eqn:E.
  - apply Z.eqb_eq in E as ->. exfalso. apply Hb.
    rewrite <- (units_scalars s), Heq by done. done.
  - rewrite <- Heq. by apply units_scalars.
Qed.

Lemma well_paired_app s t : well_paired s → well_paired t → well_paired (s ++ t).
Proof.
  induction s as [s IH] using length_ind. intros Hs Ht.
  destruct s as [|c s1]; [done|]. cbn [well_paired app] in *.
  destruct (is_high c).
  - destruct s1 as [|d s2]; [done|]. cbn [app]. destruct Hs as [Hd Hs].
    split; [done|]. apply IH; [simpl; lia|done|done].
  - destruct Hs as [Hl Hs]. split; [done|]. apply IH; [simpl; lia|done|done].
Qed.

Lemma well_paired_ascii s : Forall (λ c, 0 ≤ c < 128) s → well_paired s.
Proof.
  induction 1 as [|c s Hc _ IH]; [done|]. cbn [well_paired]. unfold is_high, is_low.
  rewrite !(proj2 (Z.leb_gt _ c)) by lia. done.
Qed.

(** *** Printed JSON is well formed text

    [JSON.stringify] escapes lone surrogates, so its result survives the
    encoder whatever the strings inside it hold. *)

Definition text_ok (s : jsstr) : Prop := Forall unit_ok s ∧ well_paired s.

Lemma text_ok_app s t : text_ok s → text_ok t → text_ok (s ++ t).
Proof.
  intros [] []. split; [by apply Forall_app|by apply well_paired_app].
Qed.

Lemma text_ok_ascii s : Forall (λ c, 0 ≤ c < 128) s → text_ok s.
Proof.
  intros H. split; [|by apply well_paired_ascii].
  eapply Forall_impl; [exact H|]. unfold unit_ok. simpl. lia.
Qed.

Lemma text_ok_cons c s : 0 ≤ c < 128 → text_ok s → text_ok (c :: s).
Proof. intros Hc Hs. apply (text_ok_app [c] s); [|done]. by apply text_ok_ascii, Forall_singleton. Qed.

Lemma digit_char_ascii d : 0 ≤ d < 16 → 0 ≤ digit_char d < 128.
Proof. intros. unfold digit_char. case_match; bool_arith; lia. Qed.

Lemma quote_unit_ok c : unit_ok c → text_ok (quote_unit c).
Proof.
  intros Hc. unfold quote_unit.
  repeat (case_match; [apply text_ok_ascii; repeat constructor; lia|]).
  case_match eqn:Hs.
  - apply text_ok_ascii. unfold esc4.
    repeat constructor; try lia; apply digit_char_ascii, Z.mod_pos_bound; lia.
  - apply orb_false_iff in Hs as [[_ Hh]%orb_false_iff Hl].
    split; [by constructor|]. cbn [well_paired]. by rewrite Hh, Hl.
Qed.

Lemma quote_body_ok s : Forall unit_ok s → text_ok (quote_body s).
Proof.
  induction s as [s IH] using length_ind. intros Hs.
  destruct s as [|c s1]; [by apply text_ok_ascii|].
  apply Forall_cons in Hs as [Hc Hs]. cbn [quote_body].
  destruct s1 as [|d s2]; [by apply quote_unit_ok|].
  destruct (is_high c && is_low d) eqn:Hp.
  - apply andb_prop in Hp as [Hh Hl]. apply Forall_cons in Hs as [Hd Hs].
    apply (text_ok_app [c; d]); [|apply IH; [simpl; lia|done]].
    split; [by rewrite !Forall_cons|]. cbn [well_paired]. by rewrite Hh.
  - apply text_ok_app; [by apply quote_unit_ok|]. apply IH; [simpl; lia|done].
Qed.

Lemma quote_ok s : Forall unit_ok s → text_ok (quote s).
Proof.
  intros Hs. apply text_ok_cons; [lia|]. apply text_ok_app; [by apply quote_body_ok|].
  apply text_ok_ascii. repeat constructor; lia.
Qed.

Lemma digit_ascii c : is_digit 10 c = true → 0 ≤ c < 128.
Proof.
  unfold is_digit, digit_val. repeat case_match; bool_arith; simplify_eq/=; try done; lia.
Qed.

Lemma num_to_string_ok z : 0 ≤ z → text_ok (num_to_string 10 z).
Proof.
  intros. apply text_ok_ascii. eapply Forall_impl; [by apply num_to_string_digits|].
  apply digit_ascii.
Qed.

Ltac ascii_text := apply text_ok_ascii; repeat constructor; lia.

Lemma stringify_ok v : json_wf v → text_ok (stringify v).
Proof.
  induction v as [|b|z|s|s|l IH|kvs IH] using json_ind'; intros Hwf; cbn [stringify].
  - ascii_text.
  - destruct b; ascii_text.
  - unfold int_text. case_match; bool_arith.
    + apply text_ok_cons; [lia|apply num_to_string_ok; lia].
    + by apply num_to_string_ok.
  - done.
  - by apply quote_ok.
  - apply text_ok_cons; [lia|].
    induction IH as [|v l Hv _ IHl]; [ascii_text|]. destruct Hwf as [Hwv Hwf].
    cbn [elems_text]. apply text_ok_app; [by apply Hv|].
    destruct l; [ascii_text|]. apply text_ok_cons; [lia|by apply IHl].
  - apply text_ok_cons; [lia|]. destruct Hwf as [_ Hwf].
    induction IH as [|[k v] kvs Hv _ IHl]; [ascii_text|].
    destruct Hwf as [[Hk Hwv] Hwf]. cbn [members_text].
    apply text_ok_app; [by apply quote_ok|]. apply text_ok_cons; [lia|].
    apply text_ok_app; [by apply Hv|].
    destruct kvs; [ascii_text|]. apply text_ok_cons; [lia|by apply IHl].
Qed.

(** Metadata travels as the UTF-8 of a printed value. *)
Lemma utf8_json v :
  json_wf v → parse (utf8_decode (utf8_encode (stringify v))) = Some v.
Proof.
  intros Hwf. destruct (stringify_ok v Hwf) as [Hu Hp].
  rewrite utf8_decode_encode; [by apply parse_stringify|done|done|].
  destruct (stringify_head v [] Hwf) as (c & t & Heq & _).
  rewrite app_nil_r in Heq. rewrite Heq. simpl. intros [= ->].
  assert (∃ d t', stringify v = d :: t' ∧ 0 ≤ d < 128) as (d & t' & Heq' & Hd); [|congruence || (rewrite Heq in Heq'; injection Heq' as <- _; lia)].
  destruct v as [|[]|z| | | |]; try done; try (eexists _, _; split; [done|lia]).
  cbn [stringify]. unfold int_text. destruct (z <? 0) eqn:E; [by eexists _, _|].
  bool_arith. destruct (num_to_string_head z E) as (c & l & -> & Hc & _).
  exists c, l. split; [done|]. by apply digit_ascii.
Qed.

(** The encoder produces bytes. *)
Lemma utf8_encode_ok s : Forall unit_ok s → bytes_ok (utf8_encode s).
Proof.
  intros Hs. unfold utf8_encode. induction (scalars_ok s Hs) as [|c cs [Hc _] _ IH]; [done|].
  cbn [map concat]. apply Forall_app. split; [|done].
  unfold utf8_scalar. repeat case_match; bool_arith; repeat constructor; divlia.
Qed.
