(* ===== verification/Crypto.v ===== *)
(** * crypto.js: key derivation and per-chunk encryption

    Web Crypto is the browser's: it is the class [WebCrypto], with the behaviour
    its documentation promises in [WebCryptoLaws]. Everything the module builds
    around it is written out: the salts, the nonce, the additional data, the
    length checks and the order in which they fail. *)

From stdpp Require Import base list list_numbers sets strings.
From Stdlib Require Import ZArith Lia.
From S2P Require Import Prelude JsText Json Utf8.
Open Scope Z_scope.

(** ** Web Crypto *)

Class WebCrypto := {
  hkdf_sha256 : bytes → bytes → bytes → Z → bytes;      (* ikm salt info bits *)
  hmac_sha256 : bytes → bytes → bytes;                  (* key message *)
  aes_gcm_encrypt : bytes → bytes → bytes → bytes → bytes; (* key iv aad plaintext *)
  aes_gcm_decrypt : bytes → bytes → bytes → bytes → option bytes
}.

(** HKDF gives the number of bits asked for, HMAC-SHA-256 gives 32 bytes;
    AES-GCM decryption inverts encryption, appends a 16-byte tag, and accepts
    only what encryption under the same inputs produces. *)
Class WebCryptoLaws `{WebCrypto} := {
  hkdf_length ikm salt info n : 0 ≤ n ≤ 255 * 32 →
    Z.of_nat (length (hkdf_sha256 ikm salt info (8 * n))) = n;
  hkdf_ok ikm salt info n : bytes_ok (hkdf_sha256 ikm salt info n);
  hmac_length key msg : length (hmac_sha256 key msg) = 32%nat;
  hmac_ok key msg : bytes_ok (hmac_sha256 key msg);
  gcm_decrypt_encrypt k iv aad p : aes_gcm_decrypt k iv aad (aes_gcm_encrypt k iv aad p) = Some p;
  gcm_length k iv aad p : length (aes_gcm_encrypt k iv aad p) = (length p + 16)%nat;
  gcm_tidy k iv aad c p : aes_gcm_decrypt k iv aad c = Some p → c = aes_gcm_encrypt k iv aad p;
  gcm_ok k iv aad p : bytes_ok p → bytes_ok (aes_gcm_encrypt k iv aad p)
}.

(** ** The module *)

Definition KEY_SIZE_BITS : Z := 256.
Definition NONCE_SIZE : nat := 12.
Definition FILE_ID_SIZE : Z := 16.
Definition METADATA_CHUNK_INDEX : Z := 18446744073709551615.

Definition EPOCH_INFO : bytes := utf8_encode (js "quicksend-epoch-v1").
Definition FILE_INFO : bytes := utf8_encode (js "quicksend-v1").
Definition RECONNECT_INFO : bytes := utf8_encode (js "quicksend-reconnect").

Definition assertLength (bs : bytes) (expected : Z) (name : string) : result unit :=
  if Z.of_nat (length bs) =? expected then Ok ()
  else Throw (ErrLength name expected (Z.of_nat (length bs))).

(** 4 zero bytes, then the index as 8 big-endian bytes. *)
Definition chunkNonce (chunkIndex : Z) : result bytes :=
  ta_set (zeros NONCE_SIZE) 4 (be_bytes 8 chunkIndex).

Definition chunkAAD (fileID : bytes) (chunkIndex : Z) (last : bool) : result bytes :=
  let aad := zeros (length fileID + 8 + 1) in
  aad ← ta_set aad 0 fileID;
  aad ← ta_set aad (length fileID) (be_bytes 8 chunkIndex);
  Ok (<[(length aad - 1)%nat := if last then 1 else 0]> aad).

Section Module.
Context `{WebCrypto}.

Definition hkdf (ikm salt info : bytes) (lengthBits : Z) : bytes :=
  hkdf_sha256 ikm salt info lengthBits.

(** [setUint32] keeps the epoch modulo 2^32. *)
Definition deriveEpochKey (sessionKey : bytes) (epoch : Z) : result bytes :=
  _ ← assertLength sessionKey 32 "sessionKey";
  salt ← ta_set (zeros 4) 0 (be_bytes 4 epoch);
  Ok (hkdf sessionKey salt EPOCH_INFO KEY_SIZE_BITS).

Definition deriveFileKey (epochKey fileID : bytes) : result bytes :=
  _ ← assertLength epochKey 32 "epochKey";
  _ ← assertLength fileID FILE_ID_SIZE "fileID";
  Ok (hkdf epochKey fileID FILE_INFO KEY_SIZE_BITS).

(** The imported key is the raw key. *)
Definition importAesKey (fileKey : bytes) : result bytes :=
  _ ← assertLength fileKey 32 "fileKey";
  Ok fileKey.

Definition encryptChunk (fileKey fileID : bytes) (chunkIndex : Z) (last : bool)
    (plaintext : bytes) : result bytes :=
  _ ← assertLength fileID FILE_ID_SIZE "fileID";
  key ← importAesKey fileKey;
  nonce ← chunkNonce chunkIndex;
  aad ← chunkAAD fileID chunkIndex last;
  Ok (aes_gcm_encrypt key nonce aad plaintext).

Definition decryptChunk (fileKey fileID : bytes) (chunkIndex : Z) (last : bool)
    (ciphertext : bytes) : result bytes :=
  _ ← assertLength fileID FILE_ID_SIZE "fileID";
  key ← importAesKey fileKey;
  nonce ← chunkNonce chunkIndex;
  aad ← chunkAAD fileID chunkIndex last;
  match aes_gcm_decrypt key nonce aad ciphertext with
  | Some pt => Ok pt
  | None => Throw ErrOperation
  end.

Definition deriveReconnectToken (sessionKey : bytes) (sessionId : jsstr) : result bytes :=
  _ ← assertLength sessionKey 32 "sessionKey";
  let message := zeros (length RECONNECT_INFO + length (utf8_encode sessionId)) in
  message ← ta_set message 0 RECONNECT_INFO;
  message ← ta_set message (length RECONNECT_INFO) (utf8_encode sessionId);
  Ok (hmac_sha256 sessionKey message).

End Module.

(** ** Lemmas *)

Lemma assertLength_ok bs n name :
  Z.of_nat (length bs) = n → assertLength bs n name = Ok ().
Proof. intros <-. unfold assertLength. by rewrite Z.eqb_refl. Qed.

Lemma chunkNonce_eq i : chunkNonce i = Ok (zeros 4 ++ be_bytes 8 i).
Proof. done. Qed.

Lemma chunkAAD_eq f i last :
  chunkAAD f i last = Ok (f ++ be_bytes 8 i ++ [if last then 1 else 0]).
Proof.
  unfold chunkAAD. rewrite (ta_set_fill0 f 9) by lia. cbn [mbind result_bind].
  rewrite (ta_set_fill f (be_bytes 8 i) 1) by (rewrite ?length_be_bytes; lia).
  cbn [mbind result_bind]. f_equal.
  rewrite !length_app, length_be_bytes, length_zeros, app_assoc.
  replace (length f + (8 + 1) - 1)%nat with (length (f ++ be_bytes 8 i) + 0)%nat
    by (rewrite length_app, length_be_bytes; lia).
  by rewrite insert_app_r, <- app_assoc.
Qed.

Section Facts.
Context `{WebCryptoLaws}.

Lemma deriveEpochKey_ok sk e :
  length sk = 32%nat →
  deriveEpochKey sk e = Ok (hkdf_sha256 sk (be_bytes 4 e) EPOCH_INFO 256).
Proof.
  intros Hl. unfold deriveEpochKey. rewrite assertLength_ok by lia.
  cbn [mbind result_bind]. rewrite ta_set_ok by (rewrite length_be_bytes; simpl; lia).
  rewrite length_be_bytes. cbn [mbind result_bind].
  change (drop (0 + 4) (zeros 4)) with (@nil Z). by rewrite app_nil_r.
Qed.

Lemma deriveFileKey_ok ek f :
  length ek = 32%nat → length f = 16%nat →
  deriveFileKey ek f = Ok (hkdf_sha256 ek f FILE_INFO 256).
Proof. intros H1 H2. unfold deriveFileKey. by rewrite !assertLength_ok by (unfold FILE_ID_SIZE; lia). Qed.

Lemma hkdf_length32 ikm salt info : length (hkdf_sha256 ikm salt info 256) = 32%nat.
Proof.
  pose proof (hkdf_length ikm salt info 32 ltac:(lia)) as Hl.
  change (8 * 32) with 256 in Hl. lia.
Qed.

Lemma deriveFileKey_length ek f k : deriveFileKey ek f = Ok k → length k = 32%nat.
Proof.
  unfold deriveFileKey, assertLength. repeat case_match; simpl; try done.
  intros [= <-]. apply hkdf_length32.
Qed.

(** The additional data and nonce of a chunk, as one lemma for both directions. *)
Lemma encryptChunk_ok k f i last p :
  length k = 32%nat → length f = 16%nat →
  encryptChunk k f i last p
  = Ok (aes_gcm_encrypt k (zeros 4 ++ be_bytes 8 i)
          (f ++ be_bytes 8 i ++ [if last then 1 else 0]) p).
Proof.
  intros Hk Hf. unfold encryptChunk, importAesKey.
  rewrite !assertLength_ok by (unfold FILE_ID_SIZE; lia). cbn [mbind result_bind].
  by rewrite chunkNonce_eq, chunkAAD_eq.
Qed.

Lemma decryptChunk_ok k f i last c :
  length k = 32%nat → length f = 16%nat →
  decryptChunk k f i last c
  = match aes_gcm_decrypt k (zeros 4 ++ be_bytes 8 i)
            (f ++ be_bytes 8 i ++ [if last then 1 else 0]) c with
    | Some p => Ok p
    | None => Throw ErrOperation
    end.
Proof.
  intros Hk Hf. unfold decryptChunk, importAesKey.
  rewrite !assertLength_ok by (unfold FILE_ID_SIZE; lia). cbn [mbind result_bind].
  by rewrite chunkNonce_eq, chunkAAD_eq.
Qed.

Lemma encryptChunk_lengths k f i last p c :
  encryptChunk k f i last p = Ok c → length k = 32%nat ∧ length f = 16%nat.
Proof.
  unfold encryptChunk, importAesKey, assertLength.
  repeat case_match; simpl; try done. bool_arith. unfold FILE_ID_SIZE in *. lia.
Qed.

Lemma decrypt_encrypt k f i last p c :
  encryptChunk k f i last p = Ok c → decryptChunk k f i last c = Ok p.
Proof.
  intros He. destruct (encryptChunk_lengths _ _ _ _ _ _ He) as [Hk Hf].
  rewrite encryptChunk_ok in He by done. injection He as <-.
  by rewrite decryptChunk_ok, gcm_decrypt_encrypt.
Qed.

Lemma length_encryptChunk k f i last p c :
  encryptChunk k f i last p = Ok c → length c = (length p + 16)%nat.
Proof.
  intros He. destruct (encryptChunk_lengths _ _ _ _ _ _ He) as [Hk Hf].
  rewrite encryptChunk_ok in He by done. injection He as <-. apply gcm_length.
Qed.

(** Chunk encryption is a faithful channel for one place of one file: what
    [encryptChunk] makes, [decryptChunk] turns back, 16 bytes longer than the
    plaintext; and whatever [decryptChunk] accepts at that place is what
    [encryptChunk] makes of the result there. *)
Theorem chunk_cipher_exact k f i last p c :
  encryptChunk k f i last p = Ok c →
  decryptChunk k f i last c = Ok p ∧ length c = (length p + 16)%nat
  ∧ ∀ c' p', decryptChunk k f i last c' = Ok p' → encryptChunk k f i last p' = Ok c'.
Proof.
  intros He. destruct (encryptChunk_lengths _ _ _ _ _ _ He) as [Hk Hf].
  split_and!; [by apply decrypt_encrypt|by eapply length_encryptChunk|].
  intros c' p' Hd. rewrite decryptChunk_ok in Hd by done.
  destruct (aes_gcm_decrypt _ _ _ _) as [q|] eqn:E; simplify_eq.
  apply gcm_tidy in E as ->. by apply encryptChunk_ok.
Qed.

End Facts.

#[export] Hint Resolve decrypt_encrypt : js_db.

(** No two chunks of a file share a nonce, and a chunk's additional data
    binds it to its file, its place and whether it ends the file: for indices
    below 2^64 - the metadata's reserved index included - equal nonces are of
    one index, and equal additional data of one file id, index and flag. *)
Theorem chunk_place_bound f g i j last last' :
  0 ≤ i < 2 ^ 64 → 0 ≤ j < 2 ^ 64 → length f = length g →
  (chunkNonce i = chunkNonce j → i = j)
  ∧ (chunkAAD f i last = chunkAAD g j last' → f = g ∧ i = j ∧ last = last').
Proof.
  intros Hi Hj Hl. rewrite !chunkNonce_eq, !chunkAAD_eq. split.
  - intros Hb. apply (inj Ok), (app_inj_1 (zeros 4)) in Hb as [_ Hb]; [|done].
    by apply be_bytes_inj in Hb.
  - intros Hb. apply (inj Ok) in Hb. apply app_inj_1 in Hb as [-> Hb]; [|done].
    apply app_inj_1 in Hb as [Hb Hlast]; [|by rewrite !length_be_bytes].
    apply be_bytes_inj in Hb; [|done..]. destruct last, last'; simplify_eq; done.
Qed.
