(* ===== verification/WsClient.v ===== *)
(** * ws-client.js: the relay's WebSocket protocol

    What a socket carries, and the JSON envelope around every text message. *)

From stdpp Require Import base list list_numbers sets strings.
From Stdlib Require Import ZArith Lia.
From S2P Require Import Prelude JsText Hex Json.
Open Scope Z_scope.

(** One WebSocket message: a text frame or a binary frame. *)
Inductive data :=
| DText (text : jsstr)
| DBinary (buffer : bytes).

(** [location.protocol] and [location.host] of the page. *)
Record location := { protocol : jsstr; host : jsstr }.

(** The URL [connect] opens. *)
Definition connect_url (l : location) : jsstr :=
  let scheme := if bool_decide (protocol l = js "https:") then js "wss:" else js "ws:" in
  scheme ++ js "//" ++ host l ++ js "/ws".

Definition envelope (type : string) (payload : json) : json :=
  JObj [(js "type", JStr (js type)); (js "payload", payload)].

(** The message [sendEnvelope] passes to [socket.send]. *)
Definition sendEnvelope (type : string) (payload : json) : data :=
  DText (stringify (envelope type payload)).

(** [None] is [null]: a binary frame or a text that is not JSON. *)
Definition parseEnvelope (d : data) : option json :=
  match d with
  | DText t => parse t
  | DBinary _ => None
  end.

(** JavaScript truthiness, for the callers' [if (!env) return]. *)
Definition truthy (v : json) : bool :=
  match v with
  | JNull => false
  | JBool b => b
  | JNum z => negb (z =? 0)
  | JStr s => bool_decide (s ≠ [])
  | JFloat _ | JArr _ | JObj _ => true
  end.

(** The envelope a listener goes on to handle. *)
Definition received (d : data) : option json :=
  env ← parseEnvelope d; if truthy env then Some env else None.

(** [v === s] for a string [s]. *)
Definition is_str (v : option json) (s : jsstr) : bool :=
  match v with Some (JStr t) => bool_decide (t = s) | _ => false end.

(** [env.type === type]. *)
Definition has_type (env : json) (type : string) : bool :=
  is_str (jget "type" env) (js type).

(** [env.payload.k]; reading a property of [undefined] or [null] throws. *)
Definition payload_get (k : string) (payload : option json) : result (option json) :=
  match payload with
  | None | Some JNull => Throw ErrType
  | Some p => Ok (jget k p)
  end.

(** A received value used as a number: [None] is [NaN]. The protocol sends
    integers; a numeric text is not coerced. *)
Definition to_number (v : option json) : option Z :=
  match v with
  | Some (JNum z) => Some z
  | Some JNull => Some 0
  | Some (JBool b) => Some (if b then 1 else 0)
  | _ => None
  end.

(** A received value used as a non-empty text; anything else counts as absent. *)
Definition to_text (v : option json) : option jsstr :=
  match v with Some (JStr s) => if bool_decide (s = []) then None else Some s | _ => None end.

(** ** Lemmas *)

Lemma js_unit_ok s : Forall unit_ok (js s).
Proof.
  unfold js. apply Forall_fmap, Forall_forall. intros a _. unfold unit_ok. simpl.
  pose proof (Ascii.N_ascii_bounded a). lia.
Qed.

Lemma envelope_wf type p : json_wf p → json_wf (envelope type p).
Proof.
  intros Hp. split.
  - apply (bool_decide_unpack (NoDup [js "type"; js "payload"])). by vm_compute.
  - simpl. pose proof (js_unit_ok). naive_solver.
Qed.

(** What one client sends, the other parses. *)
Lemma received_sendEnvelope type p :
  json_wf p → received (sendEnvelope type p) = Some (envelope type p).
Proof.
  intros Hp. unfold received, parseEnvelope, sendEnvelope.
  by rewrite parse_stringify by by apply envelope_wf.
Qed.

Lemma envelope_type type p : jget "type" (envelope type p) = Some (JStr (js type)).
Proof. done. Qed.

Lemma envelope_payload type p : jget "payload" (envelope type p) = Some p.
Proof. done. Qed.

Lemma js_inj s t : js s = js t → s = t.
Proof.
  unfold js. intros H.
  assert (Inj (=) (=) (λ a, Z.of_N (Ascii.N_of_ascii a))) as Hinj.
  { intros a b He. apply N2Z.inj in He. by apply (f_equal Ascii.ascii_of_N) in He;
      rewrite !Ascii.ascii_N_embedding in He. }
  apply (list_fmap_eq_inj _) in H; [|exact Hinj].
  apply (f_equal String.string_of_list_ascii) in H.
  by rewrite !String.string_of_list_ascii_of_string in H.
Qed.

Lemma has_type_envelope t t' p :
  has_type (envelope t p) t' = bool_decide (t = t').
Proof.
  unfold has_type. rewrite envelope_type. cbn [is_str].
  apply bool_decide_ext. split; [apply js_inj|by intros ->].
Qed.

Lemma sendEnvelope_type t u p q :
  json_wf p → json_wf q → sendEnvelope t p = sendEnvelope u q → t = u.
Proof.
  intros Hp Hq He. apply (f_equal received) in He.
  rewrite !received_sendEnvelope in He by done.
  apply (f_equal (λ v, from_option (λ e, has_type e u) false v)) in He. simpl in He.
  rewrite !has_type_envelope, (bool_decide_true (u = u)) in He by done.
  by apply bool_decide_eq_true in He.
Qed.

Lemma toHex_unit bs : bytes_ok bs → Forall unit_ok (toHex bs).
Proof.
  induction 1 as [|b bs Hb _ IH]; [constructor|]. unfold toHex. cbn [map concat].
  apply Forall_app. split; [|done].
  pose proof (byte_forallb (λ b, bool_decide (Forall unit_ok (byteHex b)))) as Hall.
  unfold unit_ok in *.
  specialize (Hall ltac:(vm_compute; reflexivity) b Hb). by apply bool_decide_eq_true in Hall.
Qed.

Lemma js_keys_distinct a b : a ≠ b → js a ≠ js b.
Proof. intros Hne He. by apply js_inj in He. Qed.

(** One- and two-field payloads are printable. *)
Lemma pair_wf a b u v :
  a ≠ b → json_wf u → json_wf v → json_wf (JObj [(js a, u); (js b, v)]).
Proof.
  intros Hab Hu Hv. split.
  - cbn. apply NoDup_cons. split; [|apply NoDup_singleton].
    rewrite list_elem_of_singleton. by apply js_keys_distinct.
  - simpl. pose proof js_unit_ok. auto.
Qed.

Lemma single_wf a u : json_wf u → json_wf (JObj [(js a, u)]).
Proof. intros Hu. split; [apply NoDup_singleton|]. simpl. pose proof js_unit_ok. auto. Qed.

#[export] Hint Resolve envelope_wf js_unit_ok : js_db.
