(* ===== verification/Frame.v ===== *)
(** * The binary chunk frame of transfer.js

    Byte 0 is the frame type, bit 0 of byte 1 the last-chunk flag, bytes 2 to 17
    the file id, bytes 18 to 25 the chunk index, the rest the ciphertext. *)

From stdpp Require Import base list list_numbers sets strings.
From Stdlib Require Import ZArith Lia.
From S2P Require Import Prelude.
Open Scope Z_scope.

Definition FRAME_TYPE_CHUNK : Z := 1.

Definition buildChunkFrame (fileId : bytes) (index : Z) (isLast : bool)
    (ciphertext : bytes) : result bytes :=
  let frame := zeros (1 + 1 + 16 + 8 + length ciphertext) in
  let frame := <[0%nat := FRAME_TYPE_CHUNK]> frame in
  let frame := <[1%nat := if isLast then 1 else 0]> frame in
  frame ← ta_set frame 2 fileId;
  frame ← ta_set frame 18 (be_bytes 8 index);
  ta_set frame 26 ciphertext.

Record chunk_frame := {
  fr_fileId : bytes;
  fr_index : Z;
  fr_isLast : bool;
  fr_ciphertext : bytes
}.

Definition parseChunkFrame (buffer : bytes) : option chunk_frame :=
  if bool_decide (length buffer < 26)%nat || bool_decide (buffer !! 0%nat ≠ Some FRAME_TYPE_CHUNK)
  then None
  else Some {| fr_fileId := slice 2 18 buffer;
               fr_index := be_val (slice 18 26 buffer);
               fr_isLast := Z.land (default 0 (buffer !! 1%nat)) 1 =? 1;
               fr_ciphertext := drop 26 buffer |}.

(** ** Lemmas *)

Definition frame_bytes (fileId : bytes) (index : Z) (isLast : bool) (ct : bytes) : bytes :=
  [FRAME_TYPE_CHUNK; if isLast then 1 else 0] ++ fileId ++ be_bytes 8 index ++ ct.

Lemma buildChunkFrame_eq f i last ct :
  length f = 16%nat → buildChunkFrame f i last ct = Ok (frame_bytes f i last ct).
Proof.
  intros Hf. unfold buildChunkFrame, frame_bytes. set (b := if last then 1 else 0).
  change (<[1%nat := b]> (<[0%nat := FRAME_TYPE_CHUNK]> (zeros (1 + 1 + 16 + 8 + length ct))))
    with ([FRAME_TYPE_CHUNK; b] ++ zeros (24 + length ct)).
  rewrite (ta_set_fill _ f (8 + length ct)) by (simpl; lia). cbn [mbind result_bind].
  rewrite (app_assoc _ f), (ta_set_fill _ (be_bytes 8 i) (length ct))
    by (rewrite ?length_app, ?length_be_bytes; simpl; lia). cbn [mbind result_bind].
  rewrite (app_assoc _ (be_bytes 8 i)), (ta_set_fill _ ct 0)
    by (rewrite ?length_app, ?length_be_bytes; simpl; lia).
  by rewrite app_nil_r, <- !app_assoc.
Qed.

Lemma parseChunkFrame_bytes f i last ct :
  length f = 16%nat →
  parseChunkFrame (frame_bytes f i last ct)
  = Some {| fr_fileId := f; fr_index := i mod 2 ^ 64; fr_isLast := last;
            fr_ciphertext := ct |}.
Proof.
  intros Hf. unfold parseChunkFrame, frame_bytes.
  rewrite bool_decide_false
    by (rewrite !length_app, length_be_bytes; simpl; lia).
  rewrite bool_decide_false by (by intros Hn; apply Hn). cbn [orb]. f_equal. f_equal.
  - apply slice_app_mid; simpl; lia.
  - rewrite app_assoc. rewrite slice_app_mid
      by (rewrite ?length_app, ?length_be_bytes; simpl; lia).
    by rewrite be_val_be_bytes.
  - by destruct last.
  - rewrite app_assoc, app_assoc. rewrite drop_app_length'; [done|].
    rewrite !length_app, length_be_bytes. simpl. lia.
Qed.

(** C38: A chunk frame carries exactly what it was built from: for a 16-byte file
    id and an index below 2^64, [buildChunkFrame] succeeds, the frame has 26
    bytes more than its ciphertext, and [parseChunkFrame] gives every field back;
    two frames are equal only if all their fields are. *)
Theorem chunk_frame_roundtrip f i last ct :
  length f = 16%nat → 0 ≤ i < 2 ^ 64 →
  ∃ frame, buildChunkFrame f i last ct = Ok frame ∧ length frame = (26 + length ct)%nat
    ∧ parseChunkFrame frame = Some {| fr_fileId := f; fr_index := i; fr_isLast := last;
                                      fr_ciphertext := ct |}
    ∧ ∀ g j last' ct', length g = 16%nat → 0 ≤ j < 2 ^ 64 → buildChunkFrame g j last' ct' = Ok frame →
        g = f ∧ j = i ∧ last' = last ∧ ct' = ct.
Proof.
  intros Hf Hi. exists (frame_bytes f i last ct).
  assert (parseChunkFrame (frame_bytes f i last ct)
          = Some {| fr_fileId := f; fr_index := i; fr_isLast := last; fr_ciphertext := ct |}) as Hp.
  { by rewrite parseChunkFrame_bytes, Z.mod_small by done. }
  split_and!; [by apply buildChunkFrame_eq| |exact Hp|].
  - unfold frame_bytes. rewrite !length_app, length_be_bytes. simpl. lia.
  - intros g j last' ct' Hg Hj He. rewrite buildChunkFrame_eq in He by done.
    apply (inj Ok) in He. rewrite <- He, parseChunkFrame_bytes, Z.mod_small in Hp by done. by simplify_eq.
Qed.
