(* ===== verification/Sender.v ===== *)
(** * sendFile of transfer.js

    The async function as a state machine: a state is what its closure holds at
    one of its [await]s, an event is what may happen next - the awaited promise
    settles, the socket delivers a message or closes, the caller's signal
    aborts - and a step runs the code from that event to the next [await]. A
    waiter the code pushes on [ackWaiters] resumes in the microtask after the
    listener that resolved it, so waking and resuming are one step. *)

From stdpp Require Import base list list_numbers sets strings.
From Stdlib Require Import ZArith Lia.
From S2P Require Import Prelude JsText Hex Json Utf8 Crypto WsClient Frame.
Open Scope Z_scope.

Definition CHUNK_SIZE : Z := 256 * 1024.
Definition WINDOW_SIZE : Z := 8.

(** A [File]: [f_content] is what its slices read when they do not fail. *)
Record file := {
  f_name : jsstr;
  f_type : jsstr;
  f_content : bytes
}.

Definition f_size (f : file) : Z := Z.of_nat (length (f_content f)).

(** [file.slice(start, end)]. *)
Definition f_slice (f : file) (start end_ : Z) : bytes :=
  slice (Z.to_nat start) (Z.to_nat end_) (f_content f).

(** The arguments of one call, and the random file id it draws. *)
Record send_args := {
  sa_epochKey : bytes;
  sa_file : file;
  sa_fileId : bytes;
  sa_signal : bool   (* whether a signal was passed *)
}.

(** [aborted], once either side cancels. *)
Record abort := { a_remote : bool; a_reason : option jsstr }.

Inductive send_pc :=
| PKey                                  (* await deriveFileKey *)
| PMeta                                 (* await encryptChunk of the metadata *)
| PWindow (index : Z)                   (* waiting for the window to open *)
| PRead (index : Z)                     (* await file.slice(..).arrayBuffer() *)
| PEncrypt (index : Z) (plaintext : bytes)
| PFinal                                (* waiting for the last ack *)
| PDone (r : result unit).              (* the returned promise has settled *)

Record sender := {
  s_pc : send_pc;
  s_fileKey : bytes;
  s_acked : option Z;                   (* ackedUpTo; None is NaN *)
  s_lost : bool;                        (* connectionLost *)
  s_aborted : option abort;
  s_sent : list data;                   (* every socket.send, in order *)
  s_progress : list (Z * Z)             (* every onProgress({sent, total}) *)
}.

Inductive send_event :=
| SResume                               (* the awaited crypto promise settles *)
| SRead (failed : option jserror)       (* the awaited read settles *)
| SMessage (d : data)
| SClose
| SSignal.

(** The object that is encrypted as a file's metadata. *)
Definition meta_json (f : file) : json :=
  JObj [(js "name", JStr (f_name f)); (js "size", JNum (f_size f));
        (js "mime", JStr (if bool_decide (f_type f = []) then js "application/octet-stream"
                          else f_type f))].

Definition metaPlaintext (f : file) : bytes := utf8_encode (stringify (meta_json f)).

(** [Math.ceil(size / CHUNK_SIZE)] is exact: the divisor is a power of two. *)
Definition totalChunks (f : file) : Z :=
  Z.max 1 ((f_size f + CHUNK_SIZE - 1) / CHUNK_SIZE).

Definition file_meta (fileId ciphertext : bytes) : data :=
  sendEnvelope "file_meta"
    (JObj [(js "fileId", JStr (toHex fileId)); (js "ciphertext", JStr (toHex ciphertext))]).

Definition file_abort (fileId : bytes) : data :=
  sendEnvelope "file_abort" (JObj [(js "fileId", JStr (toHex fileId))]).

Definition set_pc (s : sender) (pc : send_pc) : sender :=
  {| s_pc := pc; s_fileKey := s_fileKey s; s_acked := s_acked s; s_lost := s_lost s;
     s_aborted := s_aborted s; s_sent := s_sent s; s_progress := s_progress s |}.

Definition set_fileKey (s : sender) (k : bytes) : sender :=
  {| s_pc := s_pc s; s_fileKey := k; s_acked := s_acked s; s_lost := s_lost s;
     s_aborted := s_aborted s; s_sent := s_sent s; s_progress := s_progress s |}.

Definition set_acked (s : sender) (n : option Z) : sender :=
  {| s_pc := s_pc s; s_fileKey := s_fileKey s; s_acked := n; s_lost := s_lost s;
     s_aborted := s_aborted s; s_sent := s_sent s; s_progress := s_progress s |}.

Definition set_lost (s : sender) : sender :=
  {| s_pc := s_pc s; s_fileKey := s_fileKey s; s_acked := s_acked s; s_lost := true;
     s_aborted := s_aborted s; s_sent := s_sent s; s_progress := s_progress s |}.

Definition set_aborted (s : sender) (a : abort) : sender :=
  {| s_pc := s_pc s; s_fileKey := s_fileKey s; s_acked := s_acked s; s_lost := s_lost s;
     s_aborted := Some a; s_sent := s_sent s; s_progress := s_progress s |}.

Definition send (s : sender) (d : data) : sender :=
  {| s_pc := s_pc s; s_fileKey := s_fileKey s; s_acked := s_acked s; s_lost := s_lost s;
     s_aborted := s_aborted s; s_sent := s_sent s ++ [d]; s_progress := s_progress s |}.

Definition progress (s : sender) (sent total : Z) : sender :=
  {| s_pc := s_pc s; s_fileKey := s_fileKey s; s_acked := s_acked s; s_lost := s_lost s;
     s_aborted := s_aborted s; s_sent := s_sent s;
     s_progress := s_progress s ++ [(sent, total)] |}.

Definition init_sender : sender :=
  {| s_pc := PKey; s_fileKey := []; s_acked := Some (-1); s_lost := false;
     s_aborted := None; s_sent := []; s_progress := [] |}.

(** The listeners are attached between the metadata and the end. *)
Definition listening (pc : send_pc) : bool :=
  match pc with PKey | PMeta | PDone _ => false | _ => true end.

Section SendFile.
Context `{WebCrypto}.
Context (args : send_args).

Local Abbreviation f := (sa_file args).
Local Abbreviation fileId := (sa_fileId args).
Local Abbreviation total := (totalChunks f).

(** An error thrown inside the [try]: the [catch] and [finally] blocks. *)
Definition isAbort (e : jserror) : bool :=
  match e with ErrAbort _ => true | _ => false end.

Definition fail (s : sender) (e : jserror) : sender :=
  let s := if negb (isAbort e) && negb (s_lost s) then send s (file_abort fileId) else s in
  set_pc s (PDone (Throw e)).

(** After both loops: resolve, or throw the AbortError, which the [catch]
    block passes on as it is. *)
Definition finish (s : sender) : sender :=
  match s_aborted s with
  | None => set_pc s (PDone (Ok ()))
  | Some a =>
      let s := if a_remote a then s else send s (file_abort fileId) in
      set_pc s (PDone (Throw (ErrAbort (a_reason a))))
  end.

(** [while (!aborted && ackedUpTo < totalChunks - 1)]. *)
Definition final_loop (s : sender) : sender :=
  match s_aborted s, s_acked s with
  | None, Some a => if a <? total - 1 then set_pc s PFinal else finish s
  | _, _ => finish s
  end.

(** The body of the [for] loop after the window opened. *)
Definition read_chunk (s : sender) (index : Z) : sender :=
  match s_aborted s with
  | Some _ => finish s
  | None => set_pc s (PRead index)
  end.

(** [while (index - 1 - ackedUpTo >= WINDOW_SIZE)]. *)
Definition window_loop (s : sender) (index : Z) : sender :=
  match s_acked s with
  | Some a => if WINDOW_SIZE <=? index - 1 - a then set_pc s (PWindow index)
              else read_chunk s index
  | None => read_chunk s index
  end.

Definition for_loop (s : sender) (index : Z) : sender :=
  if index <? total then window_loop s index else final_loop s.

(** [wakeWaiters], and the code after the [await] that was woken. *)
Definition wake (s : sender) : sender :=
  match s_pc s with
  | PWindow index =>
      if s_lost s then fail s ErrConnectionLost
      else match s_aborted s with
           | Some _ => finish s
           | None => window_loop s index
           end
  | PFinal => if s_lost s then fail s ErrConnectionLost else final_loop s
  | _ => s
  end.

Definition onMessage (s : sender) (d : data) : sender :=
  match received d with
  | None => s
  | Some env =>
      if has_type env "chunk_ack" then
        match payload_get "fileId" (jget "payload" env) with
        | Ok v =>
            if is_str v (toHex fileId)
            then wake (set_acked s (to_number (jget "payload" env ≫= jget "ackedUpTo")))
            else s
        | Throw _ => s
        end
      else if has_type env "file_abort" then
        match payload_get "fileId" (jget "payload" env) with
        | Ok v =>
            if is_str v (toHex fileId)
            then wake (set_aborted s {| a_remote := true;
                         a_reason := to_text (jget "payload" env ≫= jget "reason") |})
            else s
        | Throw _ => s
        end
      else s
  end.

Definition onClose (s : sender) : sender := wake (set_lost s).

Definition onSignalAbort (s : sender) : sender :=
  wake (set_aborted s {| a_remote := false; a_reason := None |}).

Definition chunk_end (index : Z) : Z := Z.min (index * CHUNK_SIZE + CHUNK_SIZE) (f_size f).

Definition chunk_plain (index : Z) : bytes :=
  f_slice f (index * CHUNK_SIZE) (chunk_end index).

Definition isLast (index : Z) : bool := index =? total - 1.

(** One chunk is encrypted: frame it, send it, report it. *)
Definition sendChunk (s : sender) (index : Z) (ciphertext : bytes) : sender :=
  match buildChunkFrame fileId index (isLast index) ciphertext with
  | Throw e => fail s e
  | Ok frame =>
      let s := progress (send s (DBinary frame)) (chunk_end index) (f_size f) in
      for_loop s (index + 1)
  end.

(** [None]: the event cannot happen in this state. *)
Definition sendFile_step (s : sender) (e : send_event) : option sender :=
  match e with
  | SResume =>
      match s_pc s with
      | PKey =>
          match deriveFileKey (sa_epochKey args) fileId with
          | Throw e => Some (set_pc s (PDone (Throw e)))
          | Ok k => Some (set_pc (set_fileKey s k) PMeta)
          end
      | PMeta =>
          match encryptChunk (s_fileKey s) fileId METADATA_CHUNK_INDEX true
                  (metaPlaintext f) with
          | Throw e => Some (set_pc s (PDone (Throw e)))
          | Ok ct => Some (for_loop (send s (file_meta fileId ct)) 0)
          end
      | PEncrypt index plaintext =>
          match encryptChunk (s_fileKey s) fileId index (isLast index) plaintext with
          | Throw e => Some (fail s e)
          | Ok ct => Some (sendChunk s index ct)
          end
      | _ => None
      end
  | SRead failed =>
      match s_pc s with
      | PRead index =>
          match failed with
          | Some e => Some (fail s e)
          | None => Some (set_pc s (PEncrypt index (chunk_plain index)))
          end
      | _ => None
      end
  | SMessage d => Some (if listening (s_pc s) then onMessage s d else s)
  | SClose => Some (if listening (s_pc s) then onClose s else s)
  | SSignal => Some (if listening (s_pc s) && sa_signal args then onSignalAbort s else s)
  end.

End SendFile.

(** ** What a call puts on the socket *)

Record file_ok (f : file) : Prop := {
  fo_name : Forall unit_ok (f_name f);
  fo_type : Forall unit_ok (f_type f);
  fo_content : bytes_ok (f_content f);
  fo_size : f_size f ≤ max_safe
}.

Record args_ok (args : send_args) : Prop := {
  ao_epochKey : length (sa_epochKey args) = 32%nat;
  ao_fileId : length (sa_fileId args) = 16%nat;
  ao_fileId_ok : bytes_ok (sa_fileId args);
  ao_file : file_ok (sa_file args)
}.

(** The reading of a file does not itself fail with an AbortError, which the
    [catch] block would take for a cancellation. *)
Definition read_ok (e : send_event) : Prop :=
  match e with SRead (Some (ErrAbort _)) => False | _ => True end.

Section Log.
Context `{WebCrypto}.
Context (args : send_args).

Local Abbreviation f := (sa_file args).
Local Abbreviation fileId := (sa_fileId args).
Local Abbreviation total := (totalChunks f).

Definition fileKey : bytes := hkdf_sha256 (sa_epochKey args) fileId FILE_INFO 256.

Definition sealed (i : Z) (last : bool) (p : bytes) : bytes :=
  aes_gcm_encrypt fileKey (zeros 4 ++ be_bytes 8 i)
    (fileId ++ be_bytes 8 i ++ [if last then 1 else 0]) p.

Definition chunk_ct (i : Z) : bytes := sealed i (isLast args i) (chunk_plain args i).

Definition meta_msg : data :=
  file_meta fileId (sealed METADATA_CHUNK_INDEX true (metaPlaintext f)).

Definition chunk_msg (i : Z) : data :=
  DBinary (frame_bytes fileId i (isLast args i) (chunk_ct i)).

(** The metadata and the first [n] chunks, in order. *)
Definition sent_log (n : Z) : list data := meta_msg :: map chunk_msg (seqZ 0 n).

(** Whether a finished call told the receiver to give up. *)
Definition notified (s : sender) (r : result unit) : bool :=
  match r with
  | Ok _ => false
  | Throw e =>
      if isAbort e
      then match s_aborted s with Some a => negb (a_remote a) | None => false end
      else negb (s_lost s)
  end.

(** The log of a call at each of its awaits. *)
Definition log_inv (s : sender) : Prop :=
  match s_pc s with
  | PKey => s_sent s = []
  | PMeta => s_sent s = [] ∧ s_fileKey s = fileKey
  | PWindow i | PRead i =>
      0 ≤ i < total ∧ s_sent s = sent_log i ∧ s_fileKey s = fileKey
  | PEncrypt i p =>
      0 ≤ i < total ∧ s_sent s = sent_log i ∧ s_fileKey s = fileKey
      ∧ p = chunk_plain args i
  | PFinal => s_sent s = sent_log total ∧ s_fileKey s = fileKey
  | PDone r =>
      ∃ n, 0 ≤ n ≤ total ∧ (r = Ok () → n = total) ∧
           s_sent s = sent_log n ++ (if notified s r then [file_abort fileId] else [])
  end.

End Log.

Lemma total_pos f : 1 ≤ totalChunks f.
Proof. unfold totalChunks. lia. Qed.

Lemma total_covers f : f_size f ≤ totalChunks f * CHUNK_SIZE.
Proof. unfold totalChunks, CHUNK_SIZE. divlia. Qed.

Lemma total_last f : (totalChunks f - 1) * CHUNK_SIZE ≤ f_size f.
Proof.
  assert (0 ≤ f_size f) by (unfold f_size; lia).
  unfold totalChunks, CHUNK_SIZE. divlia.
Qed.

Section Facts.
Context `{WebCryptoLaws}.
Context (args : send_args) (Hargs : args_ok args).

Local Abbreviation f := (sa_file args).
Local Abbreviation fileId := (sa_fileId args).
Local Abbreviation total := (totalChunks f).

Lemma sent_log_S n : 0 ≤ n → sent_log args (n + 1) = sent_log args n ++ [chunk_msg args n].
Proof.
  intros. unfold sent_log. rewrite seqZ_app by lia. rewrite map_app. cbn [app]. f_equal.
Qed.

Lemma encrypt_sealed i last p :
  encryptChunk (fileKey args) fileId i last p = Ok (sealed args i last p).
Proof. apply encryptChunk_ok; [apply hkdf_length32|apply Hargs]. Qed.

(** A state between two awaits, after [n] chunks were sent. *)
Definition running (n : Z) (s : sender) : Prop :=
  0 ≤ n ≤ total ∧ s_sent s = sent_log args n ∧ s_fileKey s = fileKey args.

Ltac run_inv := unfold log_inv, finish, fail, set_pc, send in *; simpl in *.

Lemma fail_inv n s e :
  running n s → (isAbort e = true → s_aborted s = None) → log_inv args (fail args s e).
Proof.
  intros (Hn & Hs & Hk) He. exists n. split; [done|]. split; [done|]. unfold fail, notified.
  destruct (isAbort e) eqn:Ha; simpl.
  - by rewrite He, Hs, app_nil_r.
  - destruct (s_lost s) eqn:Hl; simpl; rewrite Hs, ?Hl; simpl; by rewrite ?app_nil_r.
Qed.

Lemma finish_inv n s :
  running n s → (s_aborted s = None → n = total) → log_inv args (finish args s).
Proof.
  intros (Hn & Hs & Hk) Ha. unfold finish. destruct (s_aborted s) as [a|] eqn:E.
  - exists n. split; [done|]. split; [done|]. unfold notified. simpl.
    destruct (a_remote a) eqn:Hr; simpl; rewrite E, Hr, Hs; simpl; by rewrite ?app_nil_r.
  - exists n. split; [done|]. split; [auto|]. simpl. by rewrite Hs, app_nil_r.
Qed.

Lemma final_loop_inv s : running total s → log_inv args (final_loop args s).
Proof.
  intros Hr. unfold final_loop.
  destruct (s_aborted s) eqn:Ha; [by apply (finish_inv total)|].
  destruct (s_acked s); [|by apply (finish_inv total)].
  case_match; [by destruct Hr as (? & ? & ?)|by apply (finish_inv total)].
Qed.

Lemma read_chunk_inv n s : running n s → n < total → log_inv args (read_chunk args s n).
Proof.
  intros Hr Hn. unfold read_chunk. destruct (s_aborted s) eqn:Ha.
  - apply (finish_inv n); [done|congruence].
  - destruct Hr as (? & ? & ?). run_inv. auto with lia.
Qed.

Lemma window_loop_inv n s : running n s → n < total → log_inv args (window_loop args s n).
Proof.
  intros Hr Hn. unfold window_loop.
  destruct (s_acked s); [|by apply read_chunk_inv].
  case_match; [|by apply read_chunk_inv].
  destruct Hr as (? & ? & ?). run_inv. auto with lia.
Qed.

Lemma for_loop_inv n s : running n s → log_inv args (for_loop args s n).
Proof.
  intros Hr. unfold for_loop. case_match; bool_arith; [by apply window_loop_inv|].
  apply final_loop_inv. destruct Hr as (? & ? & ?).
  replace total with n by lia. unfold running. auto with lia.
Qed.

Lemma running_set n s k r :
  running n s → running n (set_acked s k) ∧ running n (set_lost s) ∧ running n (set_aborted s r).
Proof. by intros (? & ? & ?). Qed.

(** The states in which a listener can run. *)
Lemma listening_running s :
  log_inv args s → listening (s_pc s) = true → ∃ n, running n s.
Proof.
  unfold log_inv, running. destruct (s_pc s); simpl; try done; pose proof (total_pos f).
  all: intros; destruct_and?; eauto with lia.
  exists total. auto with lia.
Qed.

(** Waking a state whose log is right: the three listeners and the waiters. *)
Lemma wake_inv s :
  log_inv args s → listening (s_pc s) = true →
  ∀ s', s_pc s' = s_pc s → s_sent s' = s_sent s → s_fileKey s' = s_fileKey s →
  log_inv args (wake args s').
Proof.
  unfold wake. intros Hi Hl s' Hpc Hsent Hkey. rewrite Hpc. unfold log_inv in Hi.
  pose proof (total_pos f).
  destruct (s_pc s) as [| |i|i|i p| |r] eqn:E; try done.
  - assert (running i s') as Hr by (unfold running; rewrite Hsent, Hkey; naive_solver lia).
    destruct (s_lost s'); [by apply (fail_inv i)|].
    destruct (s_aborted s') eqn:Ha; [apply (finish_inv i); [done|congruence]|].
    apply window_loop_inv; naive_solver.
  - unfold log_inv. rewrite Hpc, Hsent, Hkey. naive_solver.
  - unfold log_inv. rewrite Hpc, Hsent, Hkey. naive_solver.
  - assert (running total s') as Hr by (unfold running; rewrite Hsent, Hkey; naive_solver lia).
    destruct (s_lost s'); [by apply (fail_inv total)|by apply final_loop_inv].
Qed.

Lemma onMessage_inv s d :
  log_inv args s → listening (s_pc s) = true → log_inv args (onMessage args s d).
Proof.
  intros Hi Hl. unfold onMessage. repeat case_match; try done; by apply (wake_inv s).
Qed.

Lemma sendFile_step_inv s e s' :
  log_inv args s → read_ok e → sendFile_step args s e = Some s' → log_inv args s'.
Proof.
  intros Hi He Hstep. destruct e as [|failed|d| |]; simpl in Hstep.
  - unfold log_inv in Hi. destruct (s_pc s) as [| |i|i|i p| |r] eqn:E; try done.
    + rewrite deriveFileKey_ok in Hstep by apply Hargs. by simplify_eq/=.
    + destruct Hi as [Hs Hk]. rewrite Hk, encrypt_sealed in Hstep. simplify_eq/=.
      apply for_loop_inv. unfold running. simpl. rewrite Hs.
      pose proof (total_pos f). split; [lia|by split].
    + destruct Hi as (Hi & Hs & Hk & ->). rewrite Hk, encrypt_sealed in Hstep.
      simplify_eq/=. unfold sendChunk.
      rewrite buildChunkFrame_eq by apply Hargs. apply for_loop_inv.
      unfold running. simpl. rewrite Hs, sent_log_S by lia. split; [lia|by split].
  - destruct (s_pc s) as [| |i|i|i p| |r] eqn:E; try done. unfold log_inv in Hi.
    rewrite E in Hi. destruct Hi as (Hi & Hs & Hk). destruct failed as [err|].
    + simplify_eq/=. apply (fail_inv i); [unfold running; auto with lia|].
      by destruct err.
    + by simplify_eq/=.
  - injection Hstep as <-. case_match; [by apply onMessage_inv|done].
  - injection Hstep as <-. case_match; [by apply (wake_inv s)|done].
  - injection Hstep as <-. destruct (listening (s_pc s)) eqn:Hl; [|done].
    simpl. case_match; [by apply (wake_inv s)|done].
Qed.

(** What stands at each position of the log. *)
Definition msg_at (p : nat) (m : data) : Prop :=
  (p = 0%nat ∧ m = meta_msg args)
  ∨ (∃ i, p = S i ∧ Z.of_nat i < total ∧ m = chunk_msg args (Z.of_nat i))
  ∨ ((0 < p)%nat ∧ m = file_abort fileId).

Lemma sent_log_lookup n p m :
  n ≤ total → sent_log args n !! p = Some m → msg_at p m.
Proof.
  intros Hn. destruct p as [|p]; simpl.
  - intros [= <-]. by left.
  - change (map (chunk_msg args) (seqZ 0 n)) with (chunk_msg args <$> seqZ 0 n).
    rewrite list_lookup_fmap, fmap_Some. intros (i & Hi & ->).
    apply lookup_seqZ in Hi as [-> Hlt]. right; left. exists p.
    rewrite Z.add_0_l. auto with lia.
Qed.

(** The log is a beginning of the whole one, and then at most the abort. *)
Lemma log_shape s :
  log_inv args s →
  ∃ ms l, s_sent s = ms ++ l ∧ ms `prefix_of` sent_log args total
    ∧ (l = [] ∨ ms ≠ [] ∧ l = [file_abort fileId]).
Proof.
  assert (∀ n, n ≤ total → sent_log args n `prefix_of` sent_log args total) as Hpre.
  { intros n Hn. unfold sent_log. destruct (Z.le_gt_cases 0 n).
    - replace total with (n + (total - n)) by lia. rewrite seqZ_app, map_app by lia.
      by eexists.
    - replace (seqZ 0 n) with (@nil Z) by (by rewrite seqZ_nil by lia).
      by eexists. }
  intros Hi. unfold log_inv in Hi.
  assert (s_sent s = [] ∨ ∃ n l, n ≤ total ∧ s_sent s = sent_log args n ++ l
            ∧ (l = [] ∨ l = [file_abort fileId])) as [Hnil | (n & l & Hn & Heq & Hl)].
  { destruct (s_pc s); destruct_and?; auto.
    1-4: right; eexists _, []; rewrite app_nil_r; split; [|by eauto]; lia.
    destruct Hi as (n & Hn & _ & ->). right. exists n.
    destruct (notified s r); eexists; (split; [lia|eauto]). }
  - exists [], []. split_and!; [done|apply prefix_nil|by left].
  - exists (sent_log args n), l. split_and!; [done|by apply Hpre|]. destruct Hl; auto.
Qed.

Lemma log_inv_lookup s p m :
  log_inv args s → s_sent s !! p = Some m → msg_at p m.
Proof.
  intros (ms & l & Heq & Hpre & Hl)%log_shape Hp. rewrite Heq, lookup_app in Hp.
  destruct (ms !! p) eqn:E.
  - injection Hp as <-. eapply (sent_log_lookup total); [done|]. by eapply prefix_lookup_Some.
  - apply lookup_ge_None in E. destruct Hl as [-> | [Hms ->]]; [done|].
    apply list_lookup_singleton_Some in Hp as [_ <-]. right; right. split; [|done].
    destruct ms; [done|simpl in E; lia].
Qed.

Lemma log_inv_run es s :
  Forall read_ok es → run (sendFile_step args) es init_sender = Some s → log_inv args s.
Proof.
  assert (∀ s0, log_inv args s0 → Forall read_ok es →
    run (sendFile_step args) es s0 = Some s → log_inv args s) as Hg; [|by apply Hg].
  induction es as [|e es IH]; intros s0 Hi0 Hok; simpl; [by intros [= <-]|].
  apply Forall_cons in Hok as [He Hok].
  destruct (sendFile_step args s0 e) as [s1|] eqn:E; [|done]. simpl.
  apply IH; [|done]. by eapply sendFile_step_inv.
Qed.

(** ** A connection lost while a chunk is read or encrypted *)

(** What the browser still brings such a call: its reads and encryptions settle. *)
Definition settles (e : send_event) : bool :=
  match e with SResume | SRead None => true | _ => false end.

(** How many of them it can go through before it waits. *)
Definition settling (s : sender) : nat :=
  match s_pc s with
  | PRead i => Z.to_nat (2 * (total - i))
  | PEncrypt i _ => Z.to_nat (2 * (total - i) - 1)
  | _ => 0
  end.

(** The connection is lost, the last acknowledgement is missing, and the call
    has not been told to stop. *)
Definition unheard (s : sender) : Prop :=
  log_inv args s ∧ s_lost s = true ∧ s_aborted s = None
  ∧ (∃ a, s_acked s = Some a ∧ a < total - 1)
  ∧ match s_pc s with PWindow _ | PRead _ | PEncrypt _ _ | PFinal => True | _ => False end.

Lemma close_unheard s i s' :
  log_inv args s → (s_pc s = PRead i ∨ ∃ p, s_pc s = PEncrypt i p) →
  s_aborted s = None → (∃ a, s_acked s = Some a ∧ a < total - 1) →
  sendFile_step args s SClose = Some s' →
  unheard s' ∧ (settling s' ≤ 2 * Z.to_nat total)%nat.
Proof.
  intros Hi Hpc Hab Ha Hclose.
  assert (s' = set_lost s) as ->.
  { simpl in Hclose. unfold onClose, wake in Hclose. simpl in Hclose.
    by destruct Hpc as [E | [p E]]; rewrite E in Hclose; injection Hclose as <-. }
  unfold unheard, settling, log_inv in *. simpl.
  destruct Hpc as [E | [p E]]; rewrite E in *;
    (split; [split; [exact Hi|by split_and!]|destruct Hi as [? _]; lia]).
Qed.

Lemma for_loop_unheard s n :
  running n s → s_lost s = true → s_aborted s = None →
  (∃ a, s_acked s = Some a ∧ a < total - 1) →
  unheard (for_loop args s n) ∧ (settling (for_loop args s n) ≤ Z.to_nat (2 * (total - n)))%nat.
Proof.
  intros Hr Hl Hab (a & Ha & Hlt). split; [split; [by apply for_loop_inv|]|];
    unfold settling, for_loop, window_loop, read_chunk, final_loop; rewrite Hab, Ha;
    destruct (Z.ltb_spec n total), (Z.leb_spec WINDOW_SIZE (n - 1 - a)),
      (Z.ltb_spec a (total - 1)); try lia; simpl; split_and?; eauto; lia.
Qed.

Lemma unheard_step s e s' :
  unheard s → settles e = true → sendFile_step args s e = Some s' →
  unheard s' ∧ (settling s' < settling s)%nat.
Proof.
  intros (Hi & Hl & Hab & Ha & Hpc) He Hstep.
  destruct e as [|[]| | |]; simpl in He, Hstep; try done.
  - unfold settling at 2. unfold log_inv in Hi. destruct (s_pc s) as [| |i|i|i p| |r]; try done.
    destruct Hi as (Hn & Hs & Hk & ->). rewrite Hk, encrypt_sealed in Hstep.
    unfold sendChunk in Hstep. rewrite buildChunkFrame_eq in Hstep by apply Hargs.
    injection Hstep as <-.
    edestruct (for_loop_unheard (progress (send s (chunk_msg args i)) (chunk_end args i)
      (f_size f)) (i + 1)) as [Hu Hm]; [|done..|].
    { unfold running. simpl. rewrite Hs, sent_log_S by lia. split; [lia|by split]. }
    split; [exact Hu|]. eapply Nat.le_lt_trans; [exact Hm|lia].
  - assert (log_inv args s') as Hi' by (by apply (sendFile_step_inv s (SRead None) s' Hi I)).
    unfold settling. unfold log_inv in Hi. destruct (s_pc s) as [| |i|i|i p| |r] eqn:E; try done.
    injection Hstep as <-. simpl. split; [by unfold unheard|].
    lia.
Qed.

Lemma unheard_run es s s' :
  unheard s → Forall (λ e, settles e = true) es → run (sendFile_step args) es s = Some s' →
  unheard s' ∧ (length es + settling s' ≤ settling s)%nat.
Proof.
  intros Hu Hes. revert s Hu. induction Hes as [|e es He _ IH]; intros s Hu; simpl.
  - intros [= <-]. auto with lia.
  - intros (s1 & Hs1 & Hrun)%bind_Some. destruct (unheard_step _ _ _ Hu He Hs1) as [Hu1 Hlt].
    destruct (IH _ Hu1 Hrun) as [Hu' Hle]. split; [done|lia].
Qed.

(** When nothing more settles, the call waits, and only the user's cancel ends
    the wait. *)
Lemma unheard_waits s :
  unheard s → (∀ e, settles e = true → sendFile_step args s e = None) →
  ((∃ i, s_pc s = PWindow i) ∨ s_pc s = PFinal)
  ∧ (∀ failed, sendFile_step args s (SRead failed) = None)
  ∧ ∀ s', sendFile_step args s SSignal = Some s' →
      s_pc s' = if sa_signal args then PDone (Throw ErrConnectionLost) else s_pc s.
Proof.
  intros (Hi & Hl & Hab & Ha & Hpc) Hq.
  pose proof (Hq SResume eq_refl) as H1. pose proof (Hq (SRead None) eq_refl) as H2.
  simpl in *. destruct (s_pc s) as [| |i|i|i p| |r] eqn:E; try done;
    [|by destruct (encryptChunk _ _ _ _ _)|].
  all: split; [by eauto|]; split; [done|]; intros s' [= <-]; simpl;
    destruct (sa_signal args); [|done]; unfold onSignalAbort, wake, set_aborted; simpl;
    by rewrite E, Hl.
Qed.

End Facts.
