(* ===== verification/Receiver.v ===== *)
(** * attachReceiver of transfer.js

    The receiver's closure as a state machine. The promise chain is the queue of
    steps not started yet; the step that runs is at one of its [await]s. A
    listener that finds the chain idle starts its step in the microtask after
    it, so both are one step here. The handlers are the caller's
    (transfer-ui.js): each call is recorded, and when an awaited one settles is
    an event. *)

From stdpp Require Import base list list_numbers sets strings.
From Stdlib Require Import ZArith Lia.
From S2P Require Import Prelude JsText Hex Json Utf8 Crypto WsClient Frame.
Open Scope Z_scope.

(** The file being received. *)
Record current := {
  c_fileIdHex : jsstr;
  c_fileKey : bytes;
  c_expectedIndex : Z
}.

(** A step waiting in the promise chain. *)
Inductive task :=
| TFileMeta (payload : option json)
| TFileAbort (payload : option json)
| TChunkFrame (buffer : bytes).

(** Where the running step waits. *)
Inductive recv_pc :=
| RIdle
| RMetaKey (payload : json) (fileIdHex : jsstr) (fileId : bytes)
| RMetaDecrypt (fileIdHex : jsstr) (fileKey : bytes) (plaintext : result bytes)
| RFileStart
| RDecrypt (fr : chunk_frame) (plaintext : result bytes)
| RChunk (fr : chunk_frame) (index : Z).

(** Calls of the caller's handlers. *)
Inductive handler_call :=
| HFileStart (fileIdHex : jsstr) (name size mime : option json)
| HChunk (fileIdHex : jsstr) (index : Z) (last : bool) (plaintext : bytes)
| HFileComplete (fileIdHex : jsstr)
| HAborted (fileIdHex : jsstr) (reason : option jsstr)
| HError (e : jserror).

Record receiver := {
  r_attached : bool;
  r_current : option current;
  r_pc : recv_pc;
  r_queue : list task;
  r_sent : list data;                   (* every socket.send, in order *)
  r_calls : list handler_call           (* every handler call, in order *)
}.

Inductive recv_event :=
| RMessage (d : data)
| RClose
| RAbortCurrent                         (* the returned abortCurrent() is called *)
| RDetach                               (* the returned detach() is called *)
| RResume                               (* the awaited crypto promise settles *)
| RHandler (failed : option jserror).   (* the awaited handler settles *)

Definition init_receiver : receiver :=
  {| r_attached := true; r_current := None; r_pc := RIdle; r_queue := [];
     r_sent := []; r_calls := [] |}.

Definition set_current (r : receiver) (c : option current) : receiver :=
  {| r_attached := r_attached r; r_current := c; r_pc := r_pc r;
     r_queue := r_queue r; r_sent := r_sent r; r_calls := r_calls r |}.

Definition set_rpc (r : receiver) (pc : recv_pc) : receiver :=
  {| r_attached := r_attached r; r_current := r_current r; r_pc := pc;
     r_queue := r_queue r; r_sent := r_sent r; r_calls := r_calls r |}.

Definition set_queue (r : receiver) (q : list task) : receiver :=
  {| r_attached := r_attached r; r_current := r_current r; r_pc := r_pc r;
     r_queue := q; r_sent := r_sent r; r_calls := r_calls r |}.

Definition call (r : receiver) (c : handler_call) : receiver :=
  {| r_attached := r_attached r; r_current := r_current r; r_pc := r_pc r;
     r_queue := r_queue r; r_sent := r_sent r; r_calls := r_calls r ++ [c] |}.

Definition rsend (r : receiver) (d : data) : receiver :=
  {| r_attached := r_attached r; r_current := r_current r; r_pc := r_pc r;
     r_queue := r_queue r; r_sent := r_sent r ++ [d]; r_calls := r_calls r |}.

Definition detached (r : receiver) : receiver :=
  {| r_attached := false; r_current := r_current r; r_pc := r_pc r;
     r_queue := r_queue r; r_sent := r_sent r; r_calls := r_calls r |}.

(** [fromHex] of a received property: reading [length] of [undefined] or [null]
    throws; a value that is not a text has no length and gives no bytes. *)
Definition fromHexValue (v : option json) : result bytes :=
  match v with
  | None | Some JNull => Throw ErrType
  | Some (JStr s) => Ok (fromHex s)
  | Some (JArr l) => if bool_decide (length l < 2)%nat then Ok [] else Throw ErrType
  | Some _ => Ok []
  end.

Definition chunk_ack (fileIdHex : jsstr) (index : Z) : data :=
  sendEnvelope "chunk_ack"
    (JObj [(js "fileId", JStr fileIdHex); (js "ackedUpTo", JNum index)]).

Definition recv_abort (fileIdHex : jsstr) : data :=
  sendEnvelope "file_abort" (JObj [(js "fileId", JStr fileIdHex)]).

Section Receiver.
Context `{WebCrypto}.
Context (epochKey : bytes).

(** A step ends: with an error, [chainStep]'s [catch] reports it. *)
Definition step_end (r : receiver) : receiver := set_rpc r RIdle.
Definition step_error (r : receiver) (e : jserror) : receiver :=
  step_end (call r (HError e)).

(** [handleFileMeta], up to its first [await]. *)
Definition handleFileMeta (r : receiver) (payload : option json) : receiver :=
  match payload_get "fileId" payload with
  | Throw e => step_error r e
  | Ok v =>
      match fromHexValue v with
      | Throw e => step_error r e
      | Ok fileId =>
          set_rpc r (RMetaKey (default JNull payload)
                       (match v with Some (JStr s) => s | _ => [] end) fileId)
      end
  end.

(** After [deriveFileKey]: the [try] block starts the decryption. *)
Definition handleFileMeta_key (r : receiver) (payload : json) (fileIdHex : jsstr)
    (fileId : bytes) : receiver :=
  match deriveFileKey epochKey fileId with
  | Throw e => step_error r e
  | Ok fileKey =>
      match fromHexValue (jget "ciphertext" payload) with
      | Throw e => step_error r e
      | Ok ct =>
          set_rpc r (RMetaDecrypt fileIdHex fileKey
                       (decryptChunk fileKey fileId METADATA_CHUNK_INDEX true ct))
      end
  end.

(** After the decryption: parse, make the file current, call [onFileStart]. *)
Definition handleFileMeta_plain (r : receiver) (fileIdHex : jsstr) (fileKey : bytes)
    (plaintext : result bytes) : receiver :=
  match plaintext with
  | Throw e => step_error r e
  | Ok pt =>
      match parse (utf8_decode pt) with
      | None => step_error r ErrSyntax
      | Some meta =>
          let r := set_current r (Some {| c_fileIdHex := fileIdHex; c_fileKey := fileKey;
                                          c_expectedIndex := 0 |}) in
          match meta with
          | JNull => step_error r ErrType
          | _ => set_rpc (call r (HFileStart fileIdHex (jget "name" meta)
                                    (jget "size" meta) (jget "mime" meta))) RFileStart
          end
      end
  end.

(** [handleChunkFrame], up to its first [await]. *)
Definition handleChunkFrame (r : receiver) (buffer : bytes) : receiver :=
  match parseChunkFrame buffer with
  | None => step_end r
  | Some fr =>
      match r_current r with
      | None => step_end r
      | Some c =>
          if bool_decide (toHex (fr_fileId fr) ≠ c_fileIdHex c)
             || negb (fr_index fr =? c_expectedIndex c)
          then step_error r ErrOutOfOrder
          else set_rpc r (RDecrypt fr
                 (decryptChunk (c_fileKey c) (fr_fileId fr) (fr_index fr)
                    (fr_isLast fr) (fr_ciphertext fr)))
      end
  end.

(** After the decryption. [current] may be gone by now: reading
    [current.expectedIndex] then throws. *)
Definition handleChunkFrame_plain (r : receiver) (fr : chunk_frame)
    (plaintext : result bytes) : receiver :=
  match plaintext with
  | Throw e => step_error r e
  | Ok pt =>
      match r_current r with
      | None => step_error r ErrType
      | Some c =>
          let index := c_expectedIndex c in
          set_rpc (call r (HChunk (toHex (fr_fileId fr)) index (fr_isLast fr) pt))
            (RChunk fr index)
      end
  end.

(** After [onChunk]: acknowledge, then advance. *)
Definition handleChunkFrame_written (r : receiver) (fr : chunk_frame) (index : Z) : receiver :=
  let fileIdHex := toHex (fr_fileId fr) in
  let r := rsend r (chunk_ack fileIdHex index) in
  match r_current r with
  | None => step_error r ErrType
  | Some c =>
      if fr_isLast fr
      then step_end (call (set_current r None) (HFileComplete fileIdHex))
      else step_end (set_current r (Some {| c_fileIdHex := c_fileIdHex c;
                                            c_fileKey := c_fileKey c;
                                            c_expectedIndex := c_expectedIndex c + 1 |}))
  end.

Definition handleFileAbort (r : receiver) (payload : option json) : receiver :=
  match r_current r with
  | None => step_end r
  | Some c =>
      match payload_get "fileId" payload with
      | Throw e => step_error r e
      | Ok v =>
          if is_str v (c_fileIdHex c)
          then step_end (call (set_current r None)
                 (HAborted (c_fileIdHex c) (to_text (payload ≫= jget "reason"))))
          else step_end r
      end
  end.

Definition start_task (r : receiver) (t : task) : receiver :=
  match t with
  | TFileMeta p => handleFileMeta r p
  | TFileAbort p => handleFileAbort r p
  | TChunkFrame b => handleChunkFrame r b
  end.

(** The chain runs its next steps until one of them waits. *)
Fixpoint run_chain (r : receiver) (q : list task) : receiver :=
  match q with
  | [] => set_queue r []
  | t :: q' =>
      let r := start_task r t in
      match r_pc r with
      | RIdle => run_chain r q'
      | _ => set_queue r q'
      end
  end.

Definition continue (r : receiver) : receiver :=
  match r_pc r with
  | RIdle => run_chain r (r_queue r)
  | _ => r
  end.

Definition chainStep (r : receiver) (t : task) : receiver :=
  continue (set_queue r (r_queue r ++ [t])).

Definition onMessage (r : receiver) (d : data) : receiver :=
  match d with
  | DText _ =>
      match received d with
      | None => r
      | Some env =>
          if has_type env "file_meta" then chainStep r (TFileMeta (jget "payload" env))
          else if has_type env "file_abort" then chainStep r (TFileAbort (jget "payload" env))
          else r
      end
  | DBinary b => chainStep r (TChunkFrame b)
  end.

Definition onClose (r : receiver) : receiver :=
  match r_current r with
  | None => r
  | Some _ => call (set_current r None) (HError ErrConnectionLost)
  end.

Definition abortCurrent (r : receiver) : receiver :=
  match r_current r with
  | None => r
  | Some c =>
      let r := rsend (set_current r None) (recv_abort (c_fileIdHex c)) in
      call r (HAborted (c_fileIdHex c) None)
  end.

(** [None]: the event cannot happen in this state. *)
Definition receiver_step (r : receiver) (e : recv_event) : option receiver :=
  match e with
  | RMessage d => Some (if r_attached r then onMessage r d else r)
  | RClose => Some (if r_attached r then onClose r else r)
  | RAbortCurrent => Some (abortCurrent r)
  | RDetach => Some (detached r)
  | RResume =>
      match r_pc r with
      | RMetaKey p h f => Some (continue (handleFileMeta_key r p h f))
      | RMetaDecrypt h k pt => Some (continue (handleFileMeta_plain r h k pt))
      | RDecrypt fr pt => Some (continue (handleChunkFrame_plain r fr pt))
      | _ => None
      end
  | RHandler failed =>
      match r_pc r with
      | RFileStart =>
          Some (continue (match failed with
                          | Some e => step_error r e
                          | None => step_end r
                          end))
      | RChunk fr index =>
          Some (continue (match failed with
                          | Some e => step_error r e
                          | None => handleChunkFrame_written r fr index
                          end))
      | _ => None
      end
  end.

End Receiver.
