(* ===== verification/Stream.v ===== *)
(** * A receiver fed with one call's messages

    [attachReceiver] listening to the messages of one [sendFile] call, in the
    order they were sent, while anything else happens to it: its connection
    drops, the user cancels, a handler fails, it is detached. The invariant of
    this file says what its handlers have been told. *)

From stdpp Require Import base list list_numbers sets strings.
From Stdlib Require Import ZArith Lia.
From S2P Require Import Prelude JsText Hex Json Utf8 Crypto WsClient Frame Sender Receiver.
Open Scope Z_scope.

(** The chunks handed to [onChunk], in order. *)
Fixpoint chunks_of (calls : list handler_call) : list (Z * bool * bytes) :=
  match calls with
  | [] => []
  | HChunk _ i last p :: calls' => (i, last, p) :: chunks_of calls'
  | _ :: calls' => chunks_of calls'
  end.

(** The bytes handed to [onChunk]. *)
Definition received_bytes (calls : list handler_call) : bytes :=
  concat (map snd (chunks_of calls)).

(** The handler calls that report an error or a cancel, and the others. *)
Definition noise (c : handler_call) : bool :=
  match c with HError _ | HAborted _ _ => true | _ => false end.

Fixpoint told (calls : list handler_call) : list handler_call :=
  match calls with
  | [] => []
  | c :: calls' => if noise c then told calls' else c :: told calls'
  end.

Lemma chunks_of_app a b : chunks_of (a ++ b) = chunks_of a ++ chunks_of b.
Proof. induction a as [|[] a IH]; simpl; by rewrite ?IH. Qed.

Lemma told_app a b : told (a ++ b) = told a ++ told b.
Proof. induction a as [|c a IH]; simpl; [done|]. rewrite IH. by destruct (noise c). Qed.

Lemma chunks_of_told calls : chunks_of (told calls) = chunks_of calls.
Proof. induction calls as [|[] calls IH]; simpl; by rewrite ?IH. Qed.

Section Stream.
Context `{WebCrypto}.
Context (args : send_args).
Context (clean : bool).   (* nothing has gone wrong on either side *)

Local Abbreviation f := (sa_file args).
Local Abbreviation fileId := (sa_fileId args).
Local Abbreviation total := (totalChunks f).
Local Abbreviation hex := (toHex fileId).

(** The steps the messages become in the promise chain, by position. *)
Definition meta_payload : json :=
  JObj [(js "fileId", JStr hex);
        (js "ciphertext", JStr (toHex (sealed args METADATA_CHUNK_INDEX true (metaPlaintext f))))].

Definition abort_payload : json := JObj [(js "fileId", JStr hex)].

Definition chunk_bytes (i : Z) : bytes :=
  frame_bytes fileId i (isLast args i) (chunk_ct args i).

Definition task_at (p : nat) (t : task) : Prop :=
  (p = 0%nat ∧ t = TFileMeta (Some meta_payload))
  ∨ (∃ i, p = S i ∧ Z.of_nat i < total ∧ t = TChunkFrame (chunk_bytes (Z.of_nat i)))
  ∨ (clean = false ∧ (0 < p)%nat ∧ t = TFileAbort (Some abort_payload)).

Definition frame_at (i : Z) : chunk_frame :=
  {| fr_fileId := fileId; fr_index := i; fr_isLast := isLast args i;
     fr_ciphertext := chunk_ct args i |}.

Definition cur (m : Z) : current :=
  {| c_fileIdHex := hex; c_fileKey := fileKey args; c_expectedIndex := m |}.

(** What the handlers of a receiver are told of the file, from its name to its
    completion. *)
Definition start_call : handler_call :=
  HFileStart hex (Some (JStr (f_name f))) (Some (JNum (f_size f)))
    (Some (JStr (if bool_decide (f_type f = []) then js "application/octet-stream"
                 else f_type f))).

Definition chunk_call (i : Z) : handler_call :=
  HChunk hex i (isLast args i) (chunk_plain args i).

Definition story : list handler_call :=
  start_call :: map chunk_call (seqZ 0 total) ++ [HFileComplete hex].

(** The handlers were told the story up to its chunk [k]: nothing for [-1], all
    of it for [total + 1]. *)
Definition calls_ok (k : Z) (calls : list handler_call) : Prop :=
  -1 ≤ k ≤ total + 1 ∧ told calls = take (Z.to_nat (k + 1)) story
  ∧ (clean = true → told calls = calls).

(** The acknowledgements sent are 0, 1, ..., [a - 1], in order; a cancel may
    stand between them. *)
Inductive ack_log : Z → list data → Prop :=
| ack_nil : ack_log 0 []
| ack_next a l : ack_log a l → ack_log (a + 1) (l ++ [chunk_ack hex a])
| ack_abort a l : clean = false → ack_log a l → ack_log a (l ++ [recv_abort hex]).

(** Where the running step may wait: before the file is current, in step with
    the sender, or after the file is gone. *)
Definition before_pc (j : nat) (pc : recv_pc) : Prop :=
  match pc with
  | RIdle => j = 0%nat
  | RMetaKey p h b => j = 1%nat ∧ p = meta_payload ∧ h = hex ∧ b = fileId
  | RMetaDecrypt h k pt => j = 1%nat ∧ h = hex ∧ k = fileKey args ∧ pt = Ok (metaPlaintext f)
  | _ => False
  end.

Definition sync_pc (j : nat) (m k : Z) (pc : recv_pc) : Prop :=
  match pc with
  | RIdle => Z.of_nat j = m + 1 ∧ k = m
  | RFileStart => j = 1%nat ∧ m = 0 ∧ k = m
  | RDecrypt fr pt => Z.of_nat j = m + 2 ∧ k = m ∧ fr = frame_at m ∧ pt = Ok (chunk_plain args m)
  | RChunk fr i => Z.of_nat j = m + 2 ∧ k = m + 1 ∧ fr = frame_at m ∧ i = m
  | _ => False
  end.

Definition over_pc (a k : Z) (pc : recv_pc) : Prop :=
  match pc with
  | RIdle | RFileStart | RDecrypt _ _ => True
  | RChunk fr i => fr_fileId fr = fileId ∧ i = a ∧ a < k ≤ total
  | _ => False
  end.

(** After [j] steps of the chain were started. *)
Inductive phase (j : nat) (r : receiver) : Prop :=
| ph_before :
    r_current r = None → before_pc j (r_pc r) →
    calls_ok (-1) (r_calls r) → r_sent r = [] → phase j r
| ph_sync m k :
    r_current r = Some (cur m) → 0 ≤ m < total → sync_pc j m k (r_pc r) →
    calls_ok k (r_calls r) → ack_log m (r_sent r) → phase j r
| ph_complete :
    r_current r = None → Z.of_nat j = total + 1 → r_pc r = RIdle →
    calls_ok (total + 1) (r_calls r) → ack_log total (r_sent r) → phase j r
| ph_stuck m k a :
    clean = false →
    r_current r = Some (cur m) → 0 ≤ m → m + 2 ≤ Z.of_nat j → r_pc r = RIdle →
    calls_ok k (r_calls r) → ack_log a (r_sent r) → a ≤ Z.min k total → phase j r
| ph_over k a :
    clean = false →
    r_current r = None → (0 < j)%nat → over_pc a k (r_pc r) →
    calls_ok k (r_calls r) → ack_log a (r_sent r) → a ≤ Z.min k total → phase j r.

Definition queue_ok (j : nat) (q : list task) : Prop :=
  ∀ i t, q !! i = Some t → task_at (j + i) t.

(** The invariant, with the number of messages delivered so far. *)
Definition stream_inv (d : nat) (r : receiver) : Prop :=
  ∃ j, phase j r ∧ queue_ok j (r_queue r)
       ∧ (r_pc r = RIdle → r_queue r = [])
       ∧ (j + length (r_queue r) ≤ d)%nat
       ∧ (r_attached r = true → d = (j + length (r_queue r))%nat)
       ∧ (clean = true → r_attached r = true).

End Stream.

Section Facts.
Context `{WebCryptoLaws}.
Context (args : send_args) (Hargs : args_ok args).

Local Abbreviation f := (sa_file args).
Local Abbreviation fileId := (sa_fileId args).
Local Abbreviation total := (totalChunks f).
Local Abbreviation hex := (toHex fileId).

Lemma total_small : total < 2 ^ 64.
Proof.
  destruct Hargs as [_ _ _ [_ _ _ Hs]]. unfold totalChunks, CHUNK_SIZE, max_safe in *.
  divlia.
Qed.

Lemma sealed_ok i last p : bytes_ok p → bytes_ok (sealed args i last p).
Proof. apply gcm_ok. Qed.

Lemma meta_json_wf : json_wf (meta_json f).
Proof.
  destruct Hargs as [_ _ _ [Hn Ht _ Hs]]. split.
  - apply (bool_decide_unpack (NoDup [js "name"; js "size"; js "mime"])). by vm_compute.
  - pose proof js_unit_ok. assert (0 ≤ f_size f) by (unfold f_size; lia).
    simpl. split_and!; auto; [lia|]. by case_bool_decide.
Qed.

Lemma meta_payload_wf : json_wf (meta_payload args).
Proof.
  apply pair_wf; [done|apply toHex_unit, Hargs|]. apply toHex_unit, sealed_ok, utf8_encode_ok.
  apply stringify_ok, meta_json_wf.
Qed.

Lemma hex_unit : Forall unit_ok hex.
Proof. apply toHex_unit, Hargs. Qed.

(** A message of the call becomes the step at its position. *)
Lemma onMessage_task clean p m r :
  msg_at args p m → (clean = true → m ≠ file_abort fileId) →
  ∃ t, task_at args clean p t ∧ onMessage r m = chainStep r t.
Proof.
  intros Hm Hcl. destruct Hm as [[-> ->] | [(i & -> & Hi & ->) | [Hp ->]]].
  - exists (TFileMeta (Some (meta_payload args))). split; [by left|].
    unfold meta_msg, file_meta, onMessage.
    cbn [sendEnvelope]. change (DText _) with (sendEnvelope "file_meta" (meta_payload args)).
    rewrite received_sendEnvelope by apply meta_payload_wf.
    by rewrite !has_type_envelope, envelope_payload.
  - exists (TChunkFrame (chunk_bytes args (Z.of_nat i))). split; [|done].
    right; left. eauto.
  - exists (TFileAbort (Some (abort_payload args))). split.
    { right; right. destruct clean; [by destruct Hcl|done]. }
    unfold file_abort, onMessage. cbn [sendEnvelope].
    change (DText _) with (sendEnvelope "file_abort" (abort_payload args)).
    rewrite received_sendEnvelope by apply single_wf, hex_unit.
    by rewrite !has_type_envelope, envelope_payload.
Qed.

Lemma parse_chunk_bytes i :
  0 ≤ i < total → parseChunkFrame (chunk_bytes args i) = Some (frame_at args i).
Proof.
  intros Hi. unfold chunk_bytes. rewrite parseChunkFrame_bytes by apply Hargs.
  pose proof total_small. by rewrite Z.mod_small by lia.
Qed.

Lemma decrypt_sealed i last p :
  decryptChunk (fileKey args) fileId i last (sealed args i last p) = Ok p.
Proof. eapply decrypt_encrypt, encrypt_sealed, Hargs. Qed.

Context (clean : bool).

(** The story, by position. *)
Lemma story_start : story args !! 0%nat = Some (start_call args).
Proof. done. Qed.

Lemma story_chunk i : 0 ≤ i < total → story args !! Z.to_nat (i + 1) = Some (chunk_call args i).
Proof.
  intros Hi. unfold story. replace (Z.to_nat (i + 1)) with (S (Z.to_nat i)) by lia. simpl.
  rewrite lookup_app_l by (rewrite length_map, length_seqZ; lia).
  change (map (chunk_call args) (seqZ 0 total)) with (chunk_call args <$> seqZ 0 total).
  rewrite list_lookup_fmap, lookup_seqZ_lt by lia. simpl. do 2 f_equal. lia.
Qed.

Lemma story_complete : story args !! Z.to_nat (total + 1) = Some (HFileComplete hex).
Proof.
  pose proof (total_pos f). unfold story.
  replace (Z.to_nat (total + 1)) with (S (Z.to_nat total)) by lia. simpl.
  rewrite lookup_app_r by (rewrite length_map, length_seqZ; lia).
  rewrite length_map, length_seqZ. by rewrite Nat.sub_diag.
Qed.

Lemma calls_neutral k calls c :
  calls_ok args clean k calls → clean = false → noise c = true →
  calls_ok args clean k (calls ++ [c]).
Proof.
  intros (Hk & Hc & Hcl) Hf Hn. split; [done|]. rewrite told_app. simpl.
  rewrite Hn, app_nil_r. split; [done|congruence].
Qed.

Lemma calls_next k calls c :
  calls_ok args clean k calls → story args !! Z.to_nat (k + 1) = Some c → noise c = false →
  k ≤ total → calls_ok args clean (k + 1) (calls ++ [c]).
Proof.
  intros (Hk & Hc & Hcl) Hs Hn Hkt. split; [lia|]. rewrite told_app. simpl. rewrite Hn.
  split; [|by intros ->%Hcl]. rewrite Hc.
  replace (Z.to_nat (k + 1 + 1)) with (S (Z.to_nat (k + 1))) by lia.
  symmetry. by apply take_S_r.
Qed.

Lemma calls_error k calls e :
  calls_ok args clean k calls → clean = false → calls_ok args clean k (calls ++ [HError e]).
Proof. intros Hk Hf. by apply calls_neutral. Qed.

Lemma calls_aborted k calls h reason :
  calls_ok args clean k calls → clean = false →
  calls_ok args clean k (calls ++ [HAborted h reason]).
Proof. intros Hk Hf. by apply calls_neutral. Qed.

Lemma calls_start calls :
  calls_ok args clean (-1) calls → calls_ok args clean 0 (calls ++ [start_call args]).
Proof.
  intros Hc. pose proof (total_pos f).
  apply (calls_next (-1)); [done|apply story_start|done|lia].
Qed.

Lemma calls_chunk k calls :
  calls_ok args clean k calls → 0 ≤ k < total →
  calls_ok args clean (k + 1) (calls ++ [HChunk hex k (isLast args k) (chunk_plain args k)]).
Proof. intros Hc Hk. apply calls_next; [done|by apply story_chunk|done|lia]. Qed.

Lemma calls_complete calls :
  calls_ok args clean total calls → calls_ok args clean (total + 1) (calls ++ [HFileComplete hex]).
Proof. intros Hc. apply calls_next; [done|apply story_complete|done|lia]. Qed.

(** ** Steps of the chain *)

Local Abbreviation phase := (phase args clean).
Local Abbreviation task_at := (task_at args clean).
Local Abbreviation queue_ok := (queue_ok args clean).
Local Abbreviation ack_log := (ack_log args clean).

(** The events the running step still needs, when nothing goes wrong. *)
Definition pending (pc : recv_pc) : nat :=
  match pc with
  | RIdle => 0
  | RMetaKey _ _ _ => 3
  | RMetaDecrypt _ _ _ | RDecrypt _ _ => 2
  | RFileStart | RChunk _ _ => 1
  end.

Definition task_cost (j : nat) : nat := match j with O => 3 | S _ => 2 end.

Ltac phase_cases Hp :=
  destruct Hp as [Hc Hb Hk Ha|m k Hc Hm Hb Hk Ha|Hc Hj Hb Hk Ha
                 |m k a Hcl Hc Hm Hj Hb Hk Ha Hak|k a Hcl Hc Hj Hb Hk Ha Hak].

Lemma phase_proj j r r' :
  phase j r → r_current r' = r_current r → r_pc r' = r_pc r →
  r_calls r' = r_calls r → r_sent r' = r_sent r → phase j r'.
Proof.
  intros Hp Hc Hpc Hcalls Hs. destruct Hp;
    [eapply ph_before|eapply ph_sync|eapply ph_complete|eapply ph_stuck|eapply ph_over];
    rewrite ?Hc, ?Hpc, ?Hcalls, ?Hs; eauto.
Qed.

(** A step starts in the phase after the ones before it, and waits unless
    something went wrong. *)
Definition starts (j : nat) (r : receiver) : Prop :=
  phase (S j) r ∧ (clean = true → pending (r_pc r) = task_cost j).

Lemma start_meta j r :
  phase j r → r_pc r = RIdle → j = 0%nat →
  starts j (handleFileMeta r (Some (meta_payload args))).
Proof.
  intros Hp Hpc ->. pose proof (total_pos f).
  phase_cases Hp; rewrite ?Hpc in Hb; simpl in *; try lia.
  unfold handleFileMeta. simpl. rewrite fromHex_toHex by apply Hargs.
  split; [by eapply ph_before|done].
Qed.

Lemma start_chunk j r i :
  phase j r → r_pc r = RIdle → j = S i → Z.of_nat i < total →
  starts j (handleChunkFrame r (chunk_bytes args (Z.of_nat i))).
Proof.
  intros Hp Hpc -> Hi. unfold handleChunkFrame. rewrite parse_chunk_bytes by lia.
  phase_cases Hp; rewrite ?Hpc in Hb;
    rewrite Hc; cbn [cur frame_at c_fileIdHex c_fileKey c_expectedIndex fr_fileId fr_index
                     fr_isLast fr_ciphertext].
  - simpl in Hb. lia.
  - simpl in Hb. destruct Hb as [Hj ->].
    assert (Z.of_nat i = m) as -> by lia.
    rewrite bool_decide_false by (by intros Hn; apply Hn).
    rewrite Z.eqb_refl. simpl orb. unfold chunk_ct. rewrite decrypt_sealed.
    split; [|done]. eapply (ph_sync _ _ _ _ m m); simpl; try done. split; [lia|done].
  - lia.
  - rewrite (proj2 (Z.eqb_neq (Z.of_nat i) m)) by lia. rewrite orb_true_r.
    split; [|congruence].
    eapply (ph_stuck _ _ _ _ m k a); simpl; auto using calls_error; lia.
  - split; [|congruence]. eapply (ph_over _ _ _ _ k a); simpl; auto; lia.
Qed.

Lemma start_abort j r :
  clean = false → phase j r → r_pc r = RIdle → (0 < j)%nat →
  starts j (handleFileAbort r (Some (abort_payload args))).
Proof.
  intros Hf Hp Hpc Hj0. split; [|congruence]. unfold handleFileAbort.
  phase_cases Hp; rewrite ?Hpc in Hb; simpl in Hb; rewrite Hc; simpl;
    rewrite ?(bool_decide_true (hex = hex)) by done.
  - lia.
  - eapply (ph_over _ _ _ _ k m); simpl; auto using calls_aborted; lia.
  - eapply (ph_over _ _ _ _ (total + 1) total); simpl; auto; lia.
  - eapply (ph_over _ _ _ _ k a); simpl; auto using calls_aborted; lia.
  - eapply (ph_over _ _ _ _ k a); simpl; auto.
Qed.

Lemma start_phase j r t :
  phase j r → r_pc r = RIdle → task_at j t → starts j (start_task r t).
Proof.
  intros Hp Hpc [[Hj ->] | [(i & Hj & Hi & ->) | (Hf & Hj & ->)]]; simpl.
  - by apply start_meta.
  - by apply (start_chunk j r i).
  - by apply start_abort.
Qed.

Lemma start_attached r t : r_attached (start_task r t) = r_attached r.
Proof.
  destruct t; simpl;
    unfold handleFileMeta, handleFileAbort, handleChunkFrame, step_error, step_end;
    by repeat case_match.
Qed.

Lemma run_chain_attached r q : r_attached (run_chain r q) = r_attached r.
Proof.
  revert r. induction q as [|t q IH]; intros r; simpl; [done|].
  case_match; rewrite ?IH; apply start_attached.
Qed.

Lemma queue_ok_cons j t q :
  queue_ok j (t :: q) ↔ task_at j t ∧ queue_ok (S j) q.
Proof.
  split.
  - intros Hq. split.
    + specialize (Hq 0%nat t eq_refl). by rewrite Nat.add_0_r in Hq.
    + intros i u Hi. specialize (Hq (S i) u Hi). by rewrite Nat.add_succ_r in Hq.
  - intros [Ht Hq] [|i] u; simpl.
    + intros [= <-]. by rewrite Nat.add_0_r.
    + intros Hi. rewrite Nat.add_succ_r. by apply (Hq i).
Qed.

Lemma queue_ok_snoc j q t :
  queue_ok j q → task_at (j + length q) t → queue_ok j (q ++ [t]).
Proof.
  intros Hq Ht i u. rewrite lookup_app. destruct (q !! i) eqn:E.
  - intros [= <-]. by apply Hq.
  - apply lookup_ge_None in E. intros [Hi ->]%list_lookup_singleton_Some.
    by replace i with (length q) by lia.
Qed.

(** The events the receiver has lived through once [j] steps were started, in
    a clean run. *)
Definition steps_cost (j : nat) : nat := match j with O => 0 | S i => 3 + 2 * i end.

Lemma steps_cost_S j : steps_cost (S j) = (steps_cost j + task_cost j)%nat.
Proof. destruct j; simpl; lia. Qed.

Definition work (d : nat) (r : receiver) : nat :=
  steps_cost (d - length (r_queue r)) - pending (r_pc r).

Lemma run_chain_phase q j r :
  phase j r → r_pc r = RIdle → queue_ok j q →
  ∃ j', phase j' (run_chain r q) ∧ queue_ok j' (r_queue (run_chain r q))
        ∧ (r_pc (run_chain r q) = RIdle → r_queue (run_chain r q) = [])
        ∧ (j' + length (r_queue (run_chain r q)) = j + length q)%nat
        ∧ (clean = true → steps_cost j' = steps_cost j + pending (r_pc (run_chain r q)))%nat.
Proof.
  revert j r. induction q as [|t q IH]; intros j r Hp Hpc Hq; simpl.
  - exists j. rewrite Hpc. split_and!; try done; by eapply phase_proj.
  - apply queue_ok_cons in Hq as [Ht Hq].
    destruct (start_phase j r t Hp Hpc Ht) as [Hs Hw].
    destruct (r_pc (start_task r t)) eqn:E.
    1: { destruct (IH (S j) (start_task r t)) as (j' & ? & ? & ? & ? & ?); [done..|].
         exists j'. split_and!; [done..|lia|].
         intros Hcl. specialize (Hw Hcl). by destruct j. }
    all: exists (S j); split_and!;
      [by eapply phase_proj|done|by simpl; rewrite E|simpl; lia|];
      intros Hcl; rewrite steps_cost_S, <- (Hw Hcl); cbn [set_queue r_pc]; by rewrite E.
Qed.

Lemma pending_le j r : clean = true → phase j r → (pending (r_pc r) ≤ steps_cost j)%nat.
Proof.
  intros Hcn Hp. phase_cases Hp; try congruence; destruct (r_pc r); try done; simpl in *;
    destruct_and?; try (destruct j as [|[]]; simpl in *; lia); lia.
Qed.

(** What an event does: the invariant holds, and a clean run has worked on. *)
Definition moves (d w : nat) (r : receiver) : Prop :=
  stream_inv args clean d r ∧ (clean = true → work d r = w).

Lemma continue_inv d j r :
  phase j r → queue_ok j (r_queue r) → (j + length (r_queue r) ≤ d)%nat →
  (r_attached r = true → d = (j + length (r_queue r))%nat) →
  (clean = true → r_attached r = true) →
  moves d (steps_cost j - pending (r_pc r)) (continue r).
Proof.
  intros Hp Hq Hle Hd Hat. unfold continue. destruct (r_pc r) eqn:E.
  1: { destruct (run_chain_phase (r_queue r) j r) as (j' & ? & ? & ? & Hl & Hw); [done..|].
       split.
       - exists j'. rewrite run_chain_attached. split_and!; [done..|lia| |done].
         intros Ha. rewrite Hl. auto.
       - intros Hcl. specialize (Hw Hcl). specialize (Hd (Hat Hcl)). unfold work.
         replace (d - _)%nat with j' by lia. simpl. lia. }
  all: (split; [exists j; split_and!; [done|done|by rewrite E|done..]|]);
    intros Hcl; specialize (Hd (Hat Hcl)); unfold work;
    replace (d - _)%nat with j by lia; by rewrite E.
Qed.

(** The file is given up: whatever step was running finds no current file. *)
Lemma phase_drop j r r' c :
  clean = false → phase j r → r_current r ≠ None → r_current r' = None → r_pc r' = r_pc r →
  noise c = true → r_calls r' = r_calls r ++ [c] →
  (r_sent r' = r_sent r ∨ r_sent r' = r_sent r ++ [recv_abort hex]) → phase j r'.
Proof.
  intros Hcn Hp Hcur Hc' Hpc Hn Hcalls Hs.
  assert (∀ a, ack_log a (r_sent r) → ack_log a (r_sent r')) as Hack.
  { intros a Ha. destruct Hs as [-> | ->]; [done|by constructor]. }
  phase_cases Hp; try done.
  - eapply (ph_over _ _ _ _ k m); rewrite ?Hpc, ?Hcalls; auto using calls_neutral.
    all: clear -Hb Hm; destruct (r_pc r); simpl in *; destruct_and?; subst;
      auto with lia; lia.
  - eapply (ph_over _ _ _ _ k a); rewrite ?Hpc, ?Hcalls, ?Hb; simpl;
      auto using calls_neutral; lia.
Qed.

Lemma metaPlaintext_ok : bytes_ok (metaPlaintext f).
Proof. apply utf8_encode_ok, stringify_ok, meta_json_wf. Qed.

(** The running step goes on, by one event. *)
Definition advances (j : nat) (r r' : receiver) : Prop :=
  phase j r' ∧ (clean = true → pending (r_pc r) = S (pending (r_pc r'))).

Lemma resume_key j r :
  phase j r → ∀ p h b, r_pc r = RMetaKey p h b →
  advances j r (handleFileMeta_key (sa_epochKey args) r p h b).
Proof.
  intros Hp p h b Hpc. unfold advances. rewrite Hpc.
  phase_cases Hp; rewrite Hpc in Hb; try done. destruct Hb as (-> & -> & -> & ->).
  unfold handleFileMeta_key. rewrite deriveFileKey_ok by apply Hargs.
  change (hkdf_sha256 (sa_epochKey args) fileId FILE_INFO 256) with (fileKey args).
  simpl. rewrite fromHex_toHex by apply sealed_ok, metaPlaintext_ok.
  rewrite decrypt_sealed. split; [by eapply ph_before|done].
Qed.

Lemma resume_meta j r :
  phase j r → ∀ h k pt, r_pc r = RMetaDecrypt h k pt →
  advances j r (handleFileMeta_plain r h k pt).
Proof.
  intros Hp h key pt Hpc. unfold advances. rewrite Hpc.
  phase_cases Hp; rewrite Hpc in Hb; try done. destruct Hb as (-> & -> & -> & ->).
  unfold handleFileMeta_plain, metaPlaintext. rewrite utf8_json by apply meta_json_wf.
  pose proof (total_pos f). split; [|done].
  eapply (ph_sync _ _ _ _ 0 0); simpl; try done; [lia|by apply calls_start|].
  rewrite Ha. constructor.
Qed.

Lemma resume_chunk j r :
  phase j r → ∀ fr pt, r_pc r = RDecrypt fr pt →
  advances j r (handleChunkFrame_plain r fr pt).
Proof.
  intros Hp fr pt Hpc. unfold advances, handleChunkFrame_plain. rewrite Hpc.
  phase_cases Hp; rewrite Hpc in Hb; try done.
  - destruct Hb as (Hj & -> & -> & ->). rewrite Hc. split; [|done].
    eapply (ph_sync _ _ _ _ m (m + 1)); simpl; try done. by apply calls_chunk; [|lia].
  - rewrite Hc. split; [|congruence].
    destruct pt; eapply (ph_over _ _ _ _ k a); simpl; auto using calls_error.
Qed.

(** A handler settles; when it fails, the step reports it. *)
Definition settled (r : receiver) (failed : option jserror) (r' : receiver) : receiver :=
  match failed with Some e => step_error r e | None => r' end.

Lemma handler_start j r failed :
  phase j r → r_pc r = RFileStart → (clean = true → failed = None) →
  advances j r (settled r failed (step_end r)).
Proof.
  intros Hp Hpc Hf. unfold advances. rewrite Hpc.
  phase_cases Hp; rewrite Hpc in Hb; try done.
  - destruct Hb as (-> & -> & ->). pose proof (total_pos f). split; [|by destruct failed].
    destruct failed; eapply (ph_sync _ _ _ _ 0 0); simpl; auto with lia.
    apply calls_error; [done|]. destruct clean; [by discriminate Hf|done].
  - split; [|by destruct failed].
    destruct failed; eapply (ph_over _ _ _ _ k a); simpl; auto using calls_error.
Qed.

Lemma handler_chunk j r fr i failed :
  phase j r → r_pc r = RChunk fr i → (clean = true → failed = None) →
  advances j r (settled r failed (handleChunkFrame_written r fr i)).
Proof.
  intros Hp Hpc Hf. unfold advances. rewrite Hpc.
  phase_cases Hp; rewrite Hpc in Hb; try done.
  - destruct Hb as (Hj & -> & -> & ->). destruct failed as [e|]; simpl.
    { split; [|done]. assert (clean = false) by (destruct clean; [by discriminate Hf|done]).
      eapply (ph_stuck _ _ _ _ m (m + 1) m); simpl; auto using calls_error; lia. }
    unfold handleChunkFrame_written. simpl. rewrite Hc. unfold isLast.
    destruct (m =? total - 1) eqn:E; bool_arith; (split; [|done]).
    + replace (m + 1) with total in Hk by lia.
      eapply ph_complete; simpl; auto using calls_complete; [lia|].
      replace total with (m + 1) by lia. by constructor.
    + eapply (ph_sync _ _ _ _ (m + 1) (m + 1)); simpl; auto using ack_next; lia.
  - destruct Hb as (Hf' & -> & Hlt). split; [|congruence]. destruct failed as [e|]; simpl.
    { eapply (ph_over _ _ _ _ k a); simpl; auto using calls_error. }
    unfold handleChunkFrame_written. simpl. rewrite Hc, Hf'.
    eapply (ph_over _ _ _ _ k (a + 1)); simpl; auto using calls_error, ack_next; lia.
Qed.

Lemma phase_current_hex j r c :
  phase j r → r_current r = Some c → c_fileIdHex c = hex.
Proof. destruct 1; intros; simplify_eq; first [done|congruence]. Qed.

Lemma stream_inv_message d r m :
  stream_inv args clean d r → msg_at args d m → (clean = true → m ≠ file_abort fileId) →
  moves (S d) (work d r) (if r_attached r then onMessage r m else r).
Proof.
  intros (j & Hp & Hq & Hi & Hle & Hd & Hat) Hm Hcl. destruct (r_attached r) eqn:Ha.
  - destruct (onMessage_task clean d m r Hm Hcl) as (t & Ht & ->). unfold chainStep.
    assert (work d r = steps_cost j - pending (r_pc r))%nat as ->.
    { unfold work. rewrite Hd by done. by replace (j + _ - _)%nat with j by lia. }
    apply (continue_inv (S d) j (set_queue r (r_queue r ++ [t]))).
    + by eapply phase_proj.
    + simpl. apply queue_ok_snoc; [done|]. by rewrite <- Hd.
    + simpl. rewrite length_app. simpl. lia.
    + simpl. intros _. rewrite length_app, Hd by done. simpl. lia.
    + done.
  - split; [|by intros ?%Hat]. exists j. rewrite Ha. split_and!; try done. lia.
Qed.

(** The events of a run in which nothing goes wrong. *)
Definition calm (e : recv_event) : bool :=
  match e with RResume | RHandler None => true | _ => false end.

Lemma advance_inv d j r r' :
  advances j r r' → queue_ok j (r_queue r) → (j + length (r_queue r) ≤ d)%nat →
  (r_attached r = true → d = (j + length (r_queue r))%nat) →
  (clean = true → r_attached r = true) →
  r_queue r' = r_queue r → r_attached r' = r_attached r → phase j r →
  moves d (S (work d r)) (continue r').
Proof.
  intros [Hp Hw] Hq Hle Hd Hat Hq' Ha' Hp0.
  destruct (continue_inv d j r') as [Hi Hm]; rewrite ?Hq', ?Ha'; [done..|].
  split; [done|]. intros Hcl. rewrite (Hm Hcl). specialize (Hd (Hat Hcl)). unfold work.
  replace (d - length (r_queue r))%nat with j by lia. rewrite (Hw Hcl).
  pose proof (pending_le j r Hcl Hp0) as Hle'. rewrite (Hw Hcl) in Hle'. lia.
Qed.

(** Every other event keeps the invariant. *)
Lemma stream_inv_step d r e r' :
  stream_inv args clean d r → (∀ m, e ≠ RMessage m) → (clean = true → calm e = true) →
  receiver_step (sa_epochKey args) r e = Some r' → moves d (S (work d r)) r'.
Proof.
  intros (j & Hp & Hq & Hi & Hle & Hd & Hat) Hm Hcl Hstep.
  assert (stream_inv args clean d r) as Hr by (by exists j).
  destruct e as [m| | | | |failed]; simpl in Hstep; [by destruct (Hm m)|..].
  - split; [|by intros Hc; discriminate (Hcl Hc)].
    injection Hstep as <-. destruct (r_attached r) eqn:Ha; [|done].
    unfold onClose. destruct (r_current r) eqn:Hc; [|done].
    exists j. split_and!; simpl; rewrite ?Ha; try done.
    eapply phase_drop; simpl; eauto; [|congruence|done].
    destruct clean; [by discriminate Hcl|done].
  - split; [|by intros Hc; discriminate (Hcl Hc)].
    injection Hstep as <-. unfold abortCurrent.
    destruct (r_current r) as [c|] eqn:Hc; [|done].
    exists j. split_and!; simpl; try done.
    eapply phase_drop; simpl; eauto; [|congruence|done|].
    + destruct clean; [by discriminate Hcl|done].
    + right. by erewrite phase_current_hex.
  - split; [|by intros Hc; discriminate (Hcl Hc)].
    injection Hstep as <-. exists j. split_and!; simpl; try done.
    by eapply phase_proj.
  - destruct (r_pc r) eqn:E; simplify_eq/=; apply (advance_inv d j r);
      eauto using resume_key, resume_meta, resume_chunk;
      unfold handleFileMeta_key, handleFileMeta_plain, handleChunkFrame_plain,
        step_error, step_end; by repeat case_match.
  - destruct (r_pc r) eqn:E; simplify_eq/=; apply (advance_inv d j r); try done.
    + apply handler_start; [done..|]. intros Hc. specialize (Hcl Hc). by destruct failed.
    + by destruct failed.
    + by destruct failed.
    + apply handler_chunk; [done..|]. intros Hc. specialize (Hcl Hc). by destruct failed.
    + unfold handleChunkFrame_written, step_error, step_end; by repeat case_match.
    + unfold handleChunkFrame_written, step_error, step_end; by repeat case_match.
Qed.

Lemma stream_inv_init : stream_inv args clean 0 init_receiver.
Proof.
  exists 0%nat. split_and!; try done. eapply ph_before; simpl; try done.
  unfold calls_ok. pose proof (total_pos f). split; [lia|done].
Qed.

End Facts.
