(* ===== verification/Pacing.v ===== *)
(** * The pace of sendFile

    How far a call may run ahead of the acknowledgements, what it has seen
    acknowledged when it resolves, and how each event moves it forward. *)

From stdpp Require Import base list list_numbers sets strings.
From Stdlib Require Import ZArith Lia.
From S2P Require Import Prelude JsText Hex Json Utf8 Crypto WsClient Frame Sender Receiver.
From S2P Require Import Stream.
Open Scope Z_scope.

(** The chunk frames among messages. *)
Fixpoint chunk_frames (l : list data) : Z :=
  match l with
  | [] => 0
  | DBinary _ :: l' => 1 + chunk_frames l'
  | DText _ :: l' => chunk_frames l'
  end.

Definition chunks_sent (s : sender) : Z := chunk_frames (s_sent s).

(** The sender at one of its awaits, with [ackedUpTo = a]. *)
Definition paced (args : send_args) (s : sender) : Prop :=
  ∀ a, s_acked s = Some a →
  chunks_sent s ≤ a + 1 + WINDOW_SIZE ∧
  match s_pc s with
  | PRead _ | PEncrypt _ _ => chunks_sent s ≤ a + WINDOW_SIZE
  | PWindow i => WINDOW_SIZE ≤ i - 1 - a
  | PFinal => a < totalChunks (sa_file args) - 1
  | PDone (Ok _) => totalChunks (sa_file args) - 1 ≤ a
  | _ => True
  end.

(** No failure on the sender's side. *)
Definition smooth (s : sender) : Prop :=
  s_lost s = false ∧ s_aborted s = None ∧
  match s_pc s with PDone (Throw _) => False | _ => True end.

(** The events of its own a call needs to get where it is. *)
Definition position (args : send_args) (s : sender) : nat :=
  match s_pc s with
  | PKey => 0
  | PMeta => 1
  | PRead i | PWindow i => 2 + 2 * Z.to_nat i
  | PEncrypt i _ => 3 + 2 * Z.to_nat i
  | PFinal | PDone _ => 2 + 2 * Z.to_nat (totalChunks (sa_file args))
  end.

Section Facts.
Context `{WebCryptoLaws}.
Context (args : send_args) (Hargs : args_ok args).

Local Abbreviation f := (sa_file args).
Local Abbreviation fileId := (sa_fileId args).
Local Abbreviation total := (totalChunks f).
Local Abbreviation hex := (toHex fileId).
Local Abbreviation running := (running args).

Lemma chunk_frames_app a b : chunk_frames (a ++ b) = chunk_frames a + chunk_frames b.
Proof. induction a as [|[] a IH]; cbn [app chunk_frames]; rewrite ?IH; lia. Qed.

Lemma chunk_frames_log n : 0 ≤ n → chunk_frames (sent_log args n) = n.
Proof.
  intros Hn. pattern n. apply natlike_ind; [done| |done]. intros x Hx IH.
  unfold Z.succ. rewrite sent_log_S, chunk_frames_app, IH by lia. done.
Qed.

Lemma running_chunks n s : running n s → chunks_sent s = n.
Proof. intros (Hn & Hs & _). unfold chunks_sent. rewrite Hs. apply chunk_frames_log; lia. Qed.

(** A state between two awaits that may send chunk [n]. *)
Definition ready (n : Z) (s : sender) : Prop :=
  running n s ∧ ∀ a, s_acked s = Some a → n ≤ a + 1 + WINDOW_SIZE.

Lemma ready_chunks n s : ready n s → chunks_sent s = n.
Proof. intros [Hr _]. by apply running_chunks. Qed.

Lemma fail_paced n s e : ready n s → paced args (fail args s e).
Proof.
  intros Hr a. unfold fail. pose proof (ready_chunks n s Hr) as Hc. destruct Hr as [_ Hr].
  destruct (_ && _); intros Ha; specialize (Hr a Ha); cbn [set_pc s_pc];
    (split; [|done]); unfold chunks_sent in *; cbn [set_pc send s_sent];
    rewrite ?chunk_frames_app; simpl; lia.
Qed.

Lemma finish_paced n s :
  ready n s →
  (s_aborted s = None → ∀ a, s_acked s = Some a → total - 1 ≤ a) → paced args (finish args s).
Proof.
  intros Hr Hok a. unfold finish. pose proof (ready_chunks n s Hr) as Hc.
  destruct Hr as [_ Hr]. destruct (s_aborted s) as [ab|] eqn:E.
  - destruct (a_remote ab); intros Ha; specialize (Hr a Ha); cbn [set_pc s_pc];
      (split; [|done]); unfold chunks_sent in *; cbn [set_pc send s_sent];
      rewrite ?chunk_frames_app; simpl; lia.
  - intros Ha. specialize (Hr a Ha). cbn [set_pc s_pc].
    split; [unfold chunks_sent in *; simpl; lia|auto].
Qed.

Lemma final_loop_paced s : ready total s → paced args (final_loop args s).
Proof.
  intros Hr. unfold final_loop. destruct (s_aborted s) eqn:E; [eapply finish_paced; [done|congruence]|].
  destruct (s_acked s) as [b|] eqn:Hb; [|eapply finish_paced; [done|congruence]].
  destruct (b <? total - 1) eqn:Hlt; bool_arith.
  - intros a Ha. pose proof (ready_chunks _ _ Hr) as Hc. destruct Hr as [_ Hr].
    specialize (Hr a Ha). simpl in *. split; [|congruence || simplify_eq; lia].
    unfold chunks_sent in *. simpl. lia.
  - eapply finish_paced; [done|]. intros _ a Ha. simplify_eq. lia.
Qed.

Lemma window_loop_paced n s : ready n s → n < total → paced args (window_loop args s n).
Proof.
  intros Hr Hn. unfold window_loop.
  assert (∀ b, s_acked s = Some b → WINDOW_SIZE <=? n - 1 - b = false →
          paced args (read_chunk args s n)) as Hread.
  { intros b Hb Hlt. unfold read_chunk. bool_arith.
    destruct (s_aborted s) eqn:E; [eapply finish_paced; [done|congruence]|].
    intros a Ha. simpl in Ha. simplify_eq. pose proof (ready_chunks _ _ Hr) as Hc.
    destruct Hr as [_ Hr]. specialize (Hr _ Hb).
    unfold chunks_sent in *. simpl. lia. }
  destruct (s_acked s) as [b|] eqn:Hb.
  - case_match eqn:Hlt; [|eauto]. bool_arith.
    intros a Ha. simpl in Ha. simplify_eq. pose proof (ready_chunks _ _ Hr) as Hc.
    destruct Hr as [_ Hr]. specialize (Hr _ Hb).
    unfold chunks_sent in *. simpl. lia.
  - unfold read_chunk. destruct (s_aborted s) eqn:E; [eapply finish_paced; [done|congruence]|].
    intros a Ha. simpl in Ha. congruence.
Qed.

Lemma for_loop_paced n s : ready n s → paced args (for_loop args s n).
Proof.
  intros Hr. unfold for_loop. case_match; bool_arith; [by apply window_loop_paced|].
  apply final_loop_paced. by replace total with n by (destruct Hr as [(? & ? & ?) _]; lia).
Qed.

Lemma wake_paced s s' :
  log_inv args s → listening (s_pc s) = true → paced args s →
  s_pc s' = s_pc s → s_sent s' = s_sent s → s_fileKey s' = s_fileKey s →
  (∀ a', s_acked s' = Some a' → ∃ a, s_acked s = Some a ∧ a ≤ a') →
  paced args (wake args s').
Proof.
  intros Hi Hl Hp Hpc Hsent Hkey Hup.
  assert (∀ n, running n s → ready n s') as Hready.
  { intros n Hr. split; [unfold Sender.running; by rewrite Hsent, Hkey|].
    intros a' Ha'. destruct (Hup a' Ha') as (a & Ha & Hle). specialize (Hp a Ha).
    rewrite (running_chunks n s Hr) in Hp. lia. }
  unfold wake. rewrite Hpc. unfold log_inv in Hi. pose proof (total_pos f).
  destruct (s_pc s) as [| |i|i|i p| |r] eqn:E; try done.
  - assert (ready i s') as Hr by (apply Hready; unfold Sender.running; naive_solver lia).
    destruct (s_lost s'); [by apply (fail_paced i)|].
    destruct (s_aborted s') eqn:Ha; [apply (finish_paced i); [done|congruence]|].
    apply window_loop_paced; naive_solver.
  - intros a' Ha'. destruct (Hup a' Ha') as (a & Ha & Hle). specialize (Hp a Ha).
    unfold chunks_sent in *. rewrite Hsent, Hpc. rewrite E in Hp. lia.
  - intros a' Ha'. destruct (Hup a' Ha') as (a & Ha & Hle). specialize (Hp a Ha).
    unfold chunks_sent in *. rewrite Hsent, Hpc. rewrite E in Hp. lia.
  - assert (ready total s') as Hr by (apply Hready; unfold Sender.running; naive_solver lia).
    destruct (s_lost s'); [by apply (fail_paced total)|by apply final_loop_paced].
Qed.

(** ** One event of the sender's own *)

Lemma wake_smooth s : 
  smooth s → smooth (wake args s) ∧ position args (wake args s) = position args s.
Proof.
  intros (Hl & Ha & Hd). unfold wake, smooth, position.
  destruct (s_pc s) as [| |i|i|i p| |r] eqn:E; rewrite ?E; rewrite ?Hl, ?Ha; try done.
  - unfold window_loop, read_chunk. rewrite Ha.
    by destruct (s_acked s); [destruct (_ <=? _)|].
  - unfold final_loop, finish. rewrite Ha. by destruct (s_acked s); [destruct (_ <? _)|].
Qed.

(** The sender's own events in a run in which nothing goes wrong. *)
Definition calm_send (e : send_event) : bool :=
  match e with SResume | SRead None => true | _ => false end.

Lemma for_loop_smooth s n :
  0 ≤ n ≤ total → s_lost s = false → s_aborted s = None →
  smooth (for_loop args s n) ∧ position args (for_loop args s n) = (2 + 2 * Z.to_nat n)%nat.
Proof.
  intros Hn Hl Ha.
  unfold for_loop, window_loop, final_loop, read_chunk, finish, smooth, position. rewrite Ha.
  destruct (n <? total) eqn:E; bool_arith.
  - by destruct (s_acked s); [destruct (_ <=? _)|].
  - replace n with total by lia. by destruct (s_acked s); [destruct (_ <? _)|].
Qed.

Lemma step_smooth s e s' :
  log_inv args s → smooth s → calm_send e = true → sendFile_step args s e = Some s' →
  smooth s' ∧ position args s' = S (position args s).
Proof.
  intros Hi (Hl & Ha & Hd) He Hs. destruct e as [|[]| | |]; try done; simpl in Hs;
    unfold log_inv in Hi; destruct (s_pc s) as [| |i|i|i p| |r] eqn:E; try done.
  - rewrite deriveFileKey_ok in Hs by apply Hargs. simplify_eq/=.
    by unfold smooth, position; simpl; rewrite E.
  - destruct Hi as [Hsent Hk]. rewrite Hk, encrypt_sealed in Hs by done. simplify_eq/=.
    pose proof (total_pos f). unfold position at 2. rewrite E.
    apply for_loop_smooth; [lia|done..].
  - destruct Hi as (Hi & Hsent & Hk & ->). rewrite Hk, encrypt_sealed in Hs by done.
    simplify_eq/=. unfold sendChunk. rewrite buildChunkFrame_eq by apply Hargs.
    edestruct for_loop_smooth as [Hsm Hpos]; [| | |split; [exact Hsm|]]; [lia|done..|].
    rewrite Hpos. unfold position. rewrite E. lia.
  - simplify_eq/=. unfold smooth, position. simpl. by rewrite E.
Qed.

Lemma step_paced s e s' :
  log_inv args s → paced args s → (∀ m, e ≠ SMessage m) →
  sendFile_step args s e = Some s' → paced args s'.
Proof.
  intros Hi Hp He Hs. destruct e as [|failed|m| |]; [..|by destruct (He m)| |]; simpl in Hs.
  - unfold log_inv in Hi. destruct (s_pc s) as [| |i|i|i p| |r] eqn:E; try done.
    + rewrite deriveFileKey_ok in Hs by apply Hargs. simplify_eq/=.
      intros a Ha. specialize (Hp a Ha). by rewrite E in Hp.
    + destruct Hi as [Hsent Hk]. rewrite Hk, encrypt_sealed in Hs by done. simplify_eq/=.
      pose proof (total_pos f). apply for_loop_paced. split.
      * unfold Sender.running. simpl. rewrite Hsent. by split_and!; try lia.
      * intros a Ha. specialize (Hp a Ha). unfold chunks_sent in Hp.
        rewrite Hsent in Hp. simpl in Hp. lia.
    + destruct Hi as (Hi & Hsent & Hk & ->). rewrite Hk, encrypt_sealed in Hs by done.
      simplify_eq/=. unfold sendChunk. rewrite buildChunkFrame_eq by apply Hargs.
      apply for_loop_paced. split.
      * unfold Sender.running. simpl. rewrite Hsent, sent_log_S by lia. by split_and!; try lia.
      * intros a Ha. specialize (Hp a Ha). unfold chunks_sent in Hp.
        rewrite Hsent, chunk_frames_log, E in Hp by lia. lia.
  - destruct (s_pc s) as [| |i|i|i p| |r] eqn:E; try done. unfold log_inv in Hi.
    rewrite E in Hi. destruct failed; simplify_eq/=.
    + apply (fail_paced i). split; [unfold Sender.running; naive_solver lia|].
      intros a Ha. specialize (Hp a Ha). unfold chunks_sent in Hp. destruct Hi as (? & Hsent & ?).
      rewrite Hsent, chunk_frames_log in Hp by lia. lia.
    + intros a Ha. specialize (Hp a Ha). by rewrite E in Hp.
  - injection Hs as <-. case_match; [|done]. apply (wake_paced s); eauto with lia.
  - injection Hs as <-. destruct (listening _) eqn:?; [|done]. simpl.
    case_match; [|done]. apply (wake_paced s); eauto with lia.
Qed.

(** ** The receiver's messages *)

Lemma onMessage_ack s i :
  Z.abs i ≤ max_safe → Sender.onMessage args s (chunk_ack hex i) = wake args (set_acked s (Some i)).
Proof.
  intros Hi. unfold Sender.onMessage, chunk_ack. rewrite received_sendEnvelope.
  - rewrite has_type_envelope, envelope_payload. simpl. by rewrite bool_decide_true.
  - apply pair_wf; [done|apply toHex_unit, Hargs|simpl; lia].
Qed.

Lemma onMessage_abort s :
  Sender.onMessage args s (recv_abort hex)
  = wake args (set_aborted s {| a_remote := true; a_reason := None |}).
Proof.
  unfold Sender.onMessage, recv_abort. rewrite received_sendEnvelope.
  - rewrite !has_type_envelope, envelope_payload. simpl. by rewrite bool_decide_true.
  - apply single_wf, toHex_unit, Hargs.
Qed.

(** A clean call sends no [file_abort]. *)
Lemma smooth_no_abort s p m :
  log_inv args s → smooth s → s_sent s !! p = Some m → m ≠ file_abort fileId.
Proof.
  intros Hi (Hl & Ha & Hd) Hm ->.
  assert (s_sent s = [] ∨ ∃ n, s_sent s = sent_log args n) as [Hn|[n Hn]].
  { unfold log_inv in Hi. destruct (s_pc s) as [| |i|i|i q| |r]; try naive_solver.
    destruct Hi as (n & _ & _ & ->). right. exists n. destruct r as [u|e]; [|done].
    simpl. by rewrite app_nil_r. }
  - by rewrite Hn in Hm.
  - rewrite Hn in Hm. destruct p as [|p]; simpl in Hm.
    + apply (inj Some) in Hm. apply sendEnvelope_type in Hm; [done|by apply meta_payload_wf|].
      apply single_wf, toHex_unit, Hargs.
    + change (map (chunk_msg args) (seqZ 0 n)) with (chunk_msg args <$> seqZ 0 n) in Hm.
      apply list_lookup_fmap_Some in Hm as (i & Hm & _). done.
Qed.

End Facts.
