(* ===== verification/Link.v ===== *)
(** * sendFile and attachReceiver over one connection

    One [sendFile] call and one [attachReceiver], joined by the socket: each
    side's messages reach the other in the order they were sent. Either side
    may drop, cancel or fail at any time, and a message may never arrive. *)

From stdpp Require Import base list list_numbers sets strings.
From Stdlib Require Import ZArith Lia.
From S2P Require Import Prelude JsText Hex Json Utf8 Crypto WsClient Frame Sender Receiver.
From S2P Require Import Stream Pacing.
Open Scope Z_scope.

Record link := {
  l_tx : sender;
  l_rx : receiver;
  l_fwd : nat;    (* messages delivered to the receiver *)
  l_back : nat    (* messages delivered to the sender *)
}.

Inductive link_event :=
| EvSend (e : send_event)     (* an event of the sender's own *)
| EvRecv (e : recv_event)     (* an event of the receiver's own *)
| EvForward                   (* the sender's next message arrives *)
| EvBack.                     (* the receiver's next message arrives *)

Definition init_link : link :=
  {| l_tx := init_sender; l_rx := init_receiver; l_fwd := 0; l_back := 0 |}.

Section Link.
Context `{WebCrypto}.
Context (args : send_args).

Definition link_step (l : link) (e : link_event) : option link :=
  match e with
  | EvSend (SMessage _) => None
  | EvSend e =>
      s ← sendFile_step args (l_tx l) e;
      Some {| l_tx := s; l_rx := l_rx l; l_fwd := l_fwd l; l_back := l_back l |}
  | EvRecv (RMessage _) => None
  | EvRecv e =>
      r ← receiver_step (sa_epochKey args) (l_rx l) e;
      Some {| l_tx := l_tx l; l_rx := r; l_fwd := l_fwd l; l_back := l_back l |}
  | EvForward =>
      m ← s_sent (l_tx l) !! l_fwd l;
      r ← receiver_step (sa_epochKey args) (l_rx l) (RMessage m);
      Some {| l_tx := l_tx l; l_rx := r; l_fwd := S (l_fwd l); l_back := l_back l |}
  | EvBack =>
      m ← r_sent (l_rx l) !! l_back l;
      s ← sendFile_step args (l_tx l) (SMessage m);
      Some {| l_tx := s; l_rx := l_rx l; l_fwd := l_fwd l; l_back := S (l_back l) |}
  end.

End Link.

(** A file read does not fail with an [AbortError]. *)
Definition link_event_ok (e : link_event) : Prop :=
  match e with EvSend e => read_ok e | _ => True end.

(** The events of a run in which nothing goes wrong. *)
Definition calm_link (e : link_event) : bool :=
  match e with
  | EvSend e => calm_send e
  | EvRecv e => calm e
  | EvForward | EvBack => true
  end.

(** Every event of a clean run does one unit of work. *)
Definition progress_made (args : send_args) (l : link) : nat :=
  position args (l_tx l) + l_fwd l + work (l_fwd l) (l_rx l) + l_back l.

(** ** What both sides only ever add to *)

Section Grow.
Context `{WebCrypto}.
Context (args : send_args).

Lemma fail_grows s e : s_sent s `prefix_of` s_sent (fail args s e).
Proof. unfold fail. case_match; simpl; [by apply prefix_app_r|done]. Qed.

Lemma finish_grows s : s_sent s `prefix_of` s_sent (finish args s).
Proof. unfold finish. repeat case_match; simpl; first [done|by apply prefix_app_r]. Qed.

Lemma window_loop_grows s i : s_sent s `prefix_of` s_sent (window_loop args s i).
Proof. unfold window_loop, read_chunk. repeat case_match; first [done|apply finish_grows]. Qed.

Lemma final_loop_grows s : s_sent s `prefix_of` s_sent (final_loop args s).
Proof. unfold final_loop. repeat case_match; first [done|apply finish_grows]. Qed.

Lemma for_loop_grows s i : s_sent s `prefix_of` s_sent (for_loop args s i).
Proof. unfold for_loop. case_match; [apply window_loop_grows|apply final_loop_grows]. Qed.

Lemma wake_grows s : s_sent s `prefix_of` s_sent (wake args s).
Proof.
  unfold wake. repeat case_match;
    first [done|apply fail_grows|apply finish_grows|apply window_loop_grows|apply final_loop_grows].
Qed.

Lemma sendChunk_grows s i ct : s_sent s `prefix_of` s_sent (sendChunk args s i ct).
Proof.
  unfold sendChunk. case_match; [|apply fail_grows].
  etrans; [|apply for_loop_grows]. simpl. by apply prefix_app_r.
Qed.

Lemma wake_sent_grows s s' : s_sent s' = s_sent s → s_sent s `prefix_of` s_sent (wake args s').
Proof. intros <-. apply wake_grows. Qed.

Lemma send_grows s e s' : sendFile_step args s e = Some s' → s_sent s `prefix_of` s_sent s'.
Proof.
  intros Hs. destruct e; simpl in Hs.
  - repeat case_match; simplify_eq/=; try done.
    all: first [apply fail_grows|apply sendChunk_grows
               |etrans; [|apply for_loop_grows]; simpl; by apply prefix_app_r].
  - repeat case_match; simplify_eq/=; first [done|apply fail_grows].
  - injection Hs as <-. case_match; [|done]. unfold Sender.onMessage.
    repeat case_match; try done; by apply wake_sent_grows.
  - injection Hs as <-. case_match; [|done]. by apply wake_sent_grows.
  - injection Hs as <-. case_match; [|done]. by apply wake_sent_grows.
Qed.

Lemma start_grows r t : r_sent r `prefix_of` r_sent (start_task r t).
Proof.
  destruct t; simpl;
    unfold handleFileMeta, handleFileAbort, handleChunkFrame, step_error, step_end;
    by repeat case_match.
Qed.

Lemma run_chain_grows r q : r_sent r `prefix_of` r_sent (run_chain r q).
Proof.
  revert r. induction q as [|t q IH]; intros r; simpl; [done|].
  etrans; [apply (start_grows r t)|]. case_match; [apply IH|done..].
Qed.

Lemma continue_grows r r' : r_sent r `prefix_of` r_sent r' → r_sent r `prefix_of` r_sent (continue r').
Proof.
  intros Hp. unfold continue. case_match; [|done..]. etrans; [done|apply run_chain_grows].
Qed.

Lemma recv_grows ek r e r' : receiver_step ek r e = Some r' → r_sent r `prefix_of` r_sent r'.
Proof.
  intros Hs. destruct e; simpl in Hs.
  - injection Hs as <-. case_match; [|done]. unfold Receiver.onMessage.
    repeat case_match; try done; by apply continue_grows.
  - injection Hs as <-. case_match; [|done]. unfold Receiver.onClose. by case_match.
  - injection Hs as <-. unfold abortCurrent. case_match; [|done]. simpl. by apply prefix_app_r.
  - by injection Hs as <-.
  - case_match; simplify_eq; apply continue_grows;
      unfold handleFileMeta_key, handleFileMeta_plain, handleChunkFrame_plain, step_error, step_end;
      by repeat case_match.
  - case_match; simplify_eq; apply continue_grows.
    + by case_match.
    + case_match; [done|]. unfold handleChunkFrame_written, step_error, step_end.
      repeat case_match; simpl; by apply prefix_app_r.
Qed.

End Grow.

(** ** The invariant of the pair *)

Section Facts.
Context `{WebCryptoLaws}.
Context (args : send_args) (Hargs : args_ok args).
Context (clean : bool).

Local Abbreviation f := (sa_file args).
Local Abbreviation fileId := (sa_fileId args).
Local Abbreviation total := (totalChunks f).
Local Abbreviation hex := (toHex fileId).
Local Abbreviation ack_log := (ack_log args clean).

Lemma chunk_ack_not_abort a : Z.abs a ≤ max_safe → chunk_ack hex a ≠ recv_abort hex.
Proof.
  intros Ha He. assert (Forall unit_ok hex) by apply toHex_unit, Hargs.
  apply sendEnvelope_type in He; [done|by apply pair_wf|by apply single_wf].
Qed.

Lemma ack_log_nonneg a l : ack_log a l → 0 ≤ a.
Proof. induction 1; lia. Qed.

Lemma ack_log_inv b l :
  ack_log b l →
  (b = 0 ∧ l = []) ∨ (∃ a l', b = a + 1 ∧ l = l' ++ [chunk_ack hex a] ∧ ack_log a l')
  ∨ (∃ l', l = l' ++ [recv_abort hex] ∧ ack_log b l').
Proof. destruct 1; naive_solver. Qed.

Lemma ack_log_fun a b l : a ≤ total → ack_log a l → ack_log b l → a = b.
Proof.
  assert (total ≤ max_safe) as Ht.
  { destruct Hargs as [_ _ _ [_ _ _ Hs]]. unfold totalChunks, CHUNK_SIZE, max_safe in *. divlia. }
  intros Hle Ha. revert b. induction Ha as [|a l Ha IH|a l Hc Ha IH]; intros b Hb;
    destruct (ack_log_inv _ _ Hb) as [[-> Hn]|[(b' & l' & -> & Hn & Hb')|(l' & Hn & Hb')]].
  - done.
  - symmetry in Hn. by apply app_nil in Hn as [].
  - symmetry in Hn. by apply app_nil in Hn as [].
  - by apply app_nil in Hn as [].
  - apply app_inj_tail in Hn as [-> _]. rewrite (IH ltac:(lia) b'); [lia|done].
  - apply ack_log_nonneg in Ha. apply app_inj_tail in Hn as [_ Hn].
    apply chunk_ack_not_abort in Hn; [done|lia].
  - by apply app_nil in Hn as [].
  - apply app_inj_tail in Hn as [-> Hn]. pose proof (ack_log_nonneg _ _ Hb').
    assert (a = b') as <- by (apply IH; [lia|done]).
    symmetry in Hn. apply chunk_ack_not_abort in Hn; [done|lia].
  - apply app_inj_tail in Hn as [-> _]. by apply IH.
Qed.

(** The message at a position, and what was acknowledged before it. *)
Lemma ack_log_lookup n l b m :
  ack_log n l → l !! b = Some m →
  ∃ a, ack_log a (take b l) ∧ a ≤ n ∧
       ((m = chunk_ack hex a ∧ a < n) ∨ (clean = false ∧ m = recv_abort hex)).
Proof.
  assert (∀ (l : list data) x b, b = length l → take b (l ++ [x]) = l) as Htake.
  { intros ? ? ? ->. apply take_app_length. }
  induction 1 as [|n l Hn IH|n l Hc Hn IH]; [done|..]; intros Hl;
    apply lookup_app_Some in Hl as [Hl|[Hge Hl]].
  - destruct (IH Hl) as (a & Ha & Hle & Hm). exists a.
    rewrite take_app_le by (apply lookup_lt_Some in Hl; lia). naive_solver lia.
  - apply list_lookup_singleton_Some in Hl as [Hb <-]. exists n.
    rewrite Htake by lia. split_and!; [done|lia|left; split; [done|lia]].
  - destruct (IH Hl) as (a & Ha & Hle & Hm). exists a.
    rewrite take_app_le by (apply lookup_lt_Some in Hl; lia). naive_solver lia.
  - apply list_lookup_singleton_Some in Hl as [Hb <-]. exists n.
    rewrite Htake by lia. split_and!; [done|lia|by right].
Qed.

Lemma ack_log_length n l : clean = true → ack_log n l → Z.of_nat (length l) = n.
Proof. intros Hc. induction 1; [done|rewrite length_app; simpl; lia|congruence]. Qed.

(** What the receiver's handlers and messages say, whatever happened to it. *)
Lemma stream_told d r :
  stream_inv args clean d r →
  ∃ k n, calls_ok args clean k (r_calls r) ∧ ack_log n (r_sent r) ∧ n ≤ total ∧ n ≤ Z.max 0 k
         ∧ (d = 0%nat → r_sent r = []).
Proof.
  intros (j & Hp & _ & _ & Hle & _). pose proof (total_pos f).
  destruct Hp as [Hc Hb Hk Ha|m k Hc Hm Hb Hk Ha|Hc Hj Hb Hk Ha
                 |m k a Hcl Hc Hm Hj Hb Hk Ha Hak|k a Hcl Hc Hj Hb Hk Ha Hak].
  - exists (-1), 0. rewrite Ha. split_and!; [done|constructor|lia|lia|done].
  - exists k, m. split_and!; [done|done|lia| |]; destruct (r_pc r); simpl in Hb; try done; lia.
  - exists (total + 1), total. split_and!; [done|done|lia..].
  - exists k, a. split_and!; [done|done|lia..].
  - exists k, a. split_and!; [done|done|lia..].
Qed.

Definition settled_pc (pc : send_pc) : bool :=
  match pc with PDone _ => true | _ => false end.

Record link_inv (l : link) : Prop := {
  li_log : log_inv args (l_tx l);
  li_paced : paced args (l_tx l);
  li_stream : stream_inv args clean (l_fwd l) (l_rx l);
  li_fwd : (l_fwd l ≤ length (s_sent (l_tx l)))%nat;
  li_back : (l_back l ≤ length (r_sent (l_rx l)))%nat;
  li_acked : ∃ a b, s_acked (l_tx l) = Some (a - 1) ∧ ack_log a (take b (r_sent (l_rx l)))
             ∧ (b ≤ l_back l)%nat ∧ (b = l_back l ∨ settled_pc (s_pc (l_tx l)) = true);
  li_smooth : clean = true → smooth (l_tx l)
}.

Lemma link_inv_init : link_inv init_link.
Proof.
  constructor; simpl; try done.
  - intros a [= <-]. by vm_compute.
  - by apply stream_inv_init.
  - exists 0, 0%nat. split_and!; [done|constructor|done|by left].
Qed.

Lemma wake_acked s : s_acked (wake args s) = s_acked s.
Proof.
  unfold wake, window_loop, final_loop, read_chunk, finish, fail, set_pc, send.
  by repeat case_match.
Qed.

Lemma for_loop_acked s n : s_acked (for_loop args s n) = s_acked s.
Proof.
  unfold for_loop, window_loop, final_loop, read_chunk, finish, fail, set_pc, send.
  by repeat case_match.
Qed.

Lemma own_step_acked s e s' :
  (∀ m, e ≠ SMessage m) → sendFile_step args s e = Some s' →
  s_acked s' = s_acked s ∧ (settled_pc (s_pc s) = true → s' = s).
Proof.
  intros He Hs. destruct e as [|failed|m| |]; [..|by destruct (He m)| |]; simpl in Hs.
  - destruct (s_pc s) eqn:E; repeat case_match; simplify_eq/=;
      try (split; [|done]); rewrite ?for_loop_acked; try done.
    all: unfold sendChunk, fail, set_pc, send; repeat case_match; by rewrite ?for_loop_acked.
  - destruct (s_pc s) eqn:E; repeat case_match; simplify_eq/=; (split; [|done]);
      unfold fail, set_pc, send; by repeat case_match.
  - injection Hs as <-. destruct (s_pc s) eqn:E; simpl; try done;
      unfold Sender.onClose; rewrite wake_acked; (split; [done|by intros [=]]).
  - injection Hs as <-. destruct (s_pc s) eqn:E; simpl; try done; (case_match; [|done]);
      unfold onSignalAbort; rewrite wake_acked; (split; [done|by intros [=]]).
Qed.


(** What one event does to the pair. *)
Definition link_moves (l l' : link) : Prop :=
  link_inv l' ∧ (clean = true → progress_made args l' = S (progress_made args l)).

Lemma own_send_inv l e s :
  link_inv l → (∀ m, e ≠ SMessage m) → read_ok e → (clean = true → calm_send e = true) →
  sendFile_step args (l_tx l) e = Some s →
  link_moves l {| l_tx := s; l_rx := l_rx l; l_fwd := l_fwd l; l_back := l_back l |}.
Proof.
  intros [Hlog Hp Hst Hfwd Hback (a & b & Ha & Hk & Hb & Hd) Hsm] He Hok Hcl Hs.
  destruct (own_step_acked _ _ _ He Hs) as [Hack Hset].
  split; [constructor; simpl; try done|].
  - by eapply sendFile_step_inv.
  - by eapply step_paced.
  - pose proof (prefix_length _ _ (send_grows args _ _ _ Hs)). lia.
  - exists a, b. rewrite Hack. split_and!; try done.
    destruct Hd as [-> | Hd]; [by left|]. right. by rewrite Hset.
  - intros Hc. eapply step_smooth; eauto.
  - intros Hc. unfold progress_made. simpl.
    edestruct (step_smooth args Hargs (l_tx l)) as [_ ->]; eauto.
Qed.

Lemma rx_inv l r fwd :
  link_inv l → r_sent (l_rx l) `prefix_of` r_sent r → stream_inv args clean fwd r →
  (fwd ≤ length (s_sent (l_tx l)))%nat →
  link_inv {| l_tx := l_tx l; l_rx := r; l_fwd := fwd; l_back := l_back l |}.
Proof.
  intros [Hlog Hp Hst Hfwd Hback (a & b & Ha & Hk & Hb & Hd) Hsm] [l' Hgrow] Hst' Hlen.
  constructor; simpl; try done.
  - rewrite Hgrow, length_app. lia.
  - exists a, b. rewrite Hgrow, take_app_le by lia. done.
Qed.

Lemma own_recv_inv l e r :
  link_inv l → (∀ m, e ≠ RMessage m) → (clean = true → calm e = true) →
  receiver_step (sa_epochKey args) (l_rx l) e = Some r →
  link_moves l {| l_tx := l_tx l; l_rx := r; l_fwd := l_fwd l; l_back := l_back l |}.
Proof.
  intros Hl He Hcl Hr.
  destruct (stream_inv_step args Hargs clean _ _ _ _ (li_stream l Hl) He Hcl Hr) as [Hst Hw].
  split; [|intros Hc; unfold progress_made; simpl; rewrite (Hw Hc); lia].
  apply rx_inv; [done|by eapply recv_grows|done|apply Hl].
Qed.

Lemma forward_inv l m r :
  link_inv l → s_sent (l_tx l) !! l_fwd l = Some m →
  receiver_step (sa_epochKey args) (l_rx l) (RMessage m) = Some r →
  link_moves l {| l_tx := l_tx l; l_rx := r; l_fwd := S (l_fwd l); l_back := l_back l |}.
Proof.
  intros Hl Hm Hr.
  assert (moves args clean (S (l_fwd l)) (work (l_fwd l) (l_rx l)) r) as [Hst Hw].
  { simpl in Hr. injection Hr as <-. apply stream_inv_message; [done|apply Hl| |].
    - by eapply log_inv_lookup; [apply Hl|].
    - intros Hc. eapply smooth_no_abort; [done|apply Hl|by apply Hl|done]. }
  split; [|intros Hc; unfold progress_made; simpl; rewrite (Hw Hc); lia].
  apply rx_inv; [done|by eapply recv_grows|done|]. by apply lookup_lt_Some in Hm.
Qed.

(** A message for a call that is over. *)
Lemma back_settled l m :
  link_inv l → r_sent (l_rx l) !! l_back l = Some m → listening (s_pc (l_tx l)) = false →
  link_moves l {| l_tx := l_tx l; l_rx := l_rx l; l_fwd := l_fwd l; l_back := S (l_back l) |}.
Proof.
  intros [Hlog Hp Hst Hfwd Hback (a & b & Ha & Hk & Hb & Hd) Hsm] Hm El.
  pose proof (lookup_lt_Some _ _ _ Hm) as Hlt.
  assert (settled_pc (s_pc (l_tx l)) = true) as Hdone.
  { destruct (stream_told _ _ Hst) as (_ & _ & _ & _ & _ & _ & Hz).
    assert (s_sent (l_tx l) ≠ []) as Hne.
    { intros Hnil. rewrite Hnil in Hfwd. simpl in Hfwd. rewrite Hz in Hlt by lia.
      simpl in Hlt. lia. }
    unfold log_inv in Hlog. destruct (s_pc (l_tx l)); try done; by destruct_and?. }
  split; [constructor; simpl; try done; exists a, b; split_and!; try done; [lia|by right]|].
  intros Hc. unfold progress_made. simpl. lia.
Qed.

Lemma back_inv l m s :
  link_inv l → r_sent (l_rx l) !! l_back l = Some m →
  sendFile_step args (l_tx l) (SMessage m) = Some s →
  link_moves l {| l_tx := s; l_rx := l_rx l; l_fwd := l_fwd l; l_back := S (l_back l) |}.
Proof.
  intros Hl Hm Hs. pose proof (lookup_lt_Some _ _ _ Hm) as Hlt.
  pose proof (send_grows args _ _ _ Hs) as Hgrow.
  pose proof Hl as [Hlog Hp Hst Hfwd Hback (a & b & Ha & Hk & Hb & Hd) Hsm].
  simpl in Hs. destruct (listening (s_pc (l_tx l))) eqn:El; injection Hs as <-.
  - destruct Hd as [-> | Hd]; [|by destruct (s_pc (l_tx l))].
    destruct (stream_told _ _ Hst) as (k & n & Hcalls & Hn & Hnt & Hnk & _).
    destruct (ack_log_lookup _ _ _ _ Hn Hm) as (a' & Ha' & Hle & Hcase).
    assert (a' = a) as -> by (eapply ack_log_fun; [|done|done]; lia).
    apply ack_log_nonneg in Hk as Ha0.
    assert (take (S (l_back l)) (r_sent (l_rx l)) = take (l_back l) (r_sent (l_rx l)) ++ [m])
      as Htake by by apply take_S_r.
    pose proof (prefix_length _ _ Hgrow).
    destruct Hcase as [[-> Hlt'] | [Hc ->]].
    + rewrite onMessage_ack in * by
        (try done; destruct Hargs as [_ _ _ [_ _ _ Hsz]];
         unfold totalChunks, CHUNK_SIZE, max_safe in *; divlia).
      assert (clean = true → smooth (set_acked (l_tx l) (Some a))) as Hsm'.
      { intros Hc. by destruct (Hsm Hc) as (? & ? & ?). }
      split; [constructor; simpl; try done|].
      * eapply wake_inv; eauto.
      * eapply wake_paced; eauto. intros a' [= <-]. exists (a - 1). split; [done|lia].
      * lia.
      * exists (a + 1), (S (l_back l)). rewrite wake_acked, Htake. simpl.
        split_and!; [f_equal; lia|by constructor|done|by left].
      * intros Hc. by apply wake_smooth, Hsm'.
      * intros Hc. unfold progress_made. simpl.
        destruct (wake_smooth args _ (Hsm' Hc)) as [_ ->].
        change (position args (set_acked (l_tx l) (Some a))) with (position args (l_tx l)). lia.
    + rewrite onMessage_abort in * by done.
      split; [constructor; simpl; try done|congruence].
      * eapply wake_inv; eauto.
      * eapply wake_paced; eauto with lia.
      * lia.
      * exists a, (S (l_back l)). rewrite wake_acked, Htake. simpl.
        split_and!; [done|by constructor|done|by left].
      * congruence.
  - by apply (back_settled l m).
Qed.

Lemma link_step_inv l e l' :
  link_inv l → link_event_ok e → (clean = true → calm_link e = true) →
  link_step args l e = Some l' → link_moves l l'.
Proof.
  intros Hl Hok Hcl Hstep. destruct e as [e|e| |]; cbn [link_step] in Hstep.
  - destruct e; try done; apply bind_Some in Hstep as (s & Hs & [= <-]);
      (eapply own_send_inv; [..|exact Hs]; done).
  - destruct e; try done; apply bind_Some in Hstep as (s & Hs & [= <-]);
      (eapply own_recv_inv; [..|exact Hs]; done).
  - apply bind_Some in Hstep as (m & Hm & Hstep).
    apply bind_Some in Hstep as (r & Hr & [= <-]). by eapply forward_inv.
  - apply bind_Some in Hstep as (m & Hm & Hstep).
    apply bind_Some in Hstep as (s & Hs & [= <-]). by eapply back_inv.
Qed.

End Facts.
