(* ===== verification/Transfer.v ===== *)
(** * What a transfer guarantees

    The theorems about [sendFile] and [attachReceiver] over one connection, for
    every interleaving of their events. *)

From stdpp Require Import base list list_numbers sets strings.
From Stdlib Require Import ZArith Lia.
From S2P Require Import Prelude JsText Hex Json Utf8 Crypto WsClient Frame Sender Receiver.
From S2P Require Import Stream Pacing Link.
Open Scope Z_scope.

Section Facts.
Context `{WebCryptoLaws}.
Context (args : send_args) (Hargs : args_ok args).

Local Abbreviation f := (sa_file args).
Local Abbreviation fileId := (sa_fileId args).
Local Abbreviation total := (totalChunks f).
Local Abbreviation hex := (toHex fileId).

Lemma link_run_inv es l :
  Forall link_event_ok es → run (link_step args) es init_link = Some l → link_inv args false l.
Proof.
  intros Hok. assert (∀ l0, link_inv args false l0 →
    run (link_step args) es l0 = Some l → link_inv args false l) as Hg.
  { induction Hok as [|e es He Hok IH]; intros l0 Hl0; simpl; [by intros [= <-]|].
    intros (l1 & Hl1 & Hrun)%bind_Some. eapply IH; [|done].
    by eapply link_step_inv. }
  apply Hg. by apply link_inv_init.
Qed.

Lemma clean_run_inv es l :
  Forall (λ e, calm_link e = true) es → run (link_step args) es init_link = Some l →
  link_inv args true l ∧ progress_made args l = length es.
Proof.
  intros Hok. assert (∀ l0, link_inv args true l0 →
    run (link_step args) es l0 = Some l →
    link_inv args true l ∧ progress_made args l = progress_made args l0 + length es)%nat as Hg.
  { induction Hok as [|e es He Hok IH]; intros l0 Hl0; simpl; [by intros [= <-]|].
    intros (l1 & Hl1 & Hrun)%bind_Some.
    assert (link_event_ok e) by by destruct e as [[|[]| | |]| | |].
    destruct (link_step_inv args Hargs true l0 e l1) as [Hi Hp]; [done..|].
    destruct (IH l1) as [Hi' Hp']; [done..|]. split; [done|]. rewrite Hp' , Hp by done. lia. }
  apply Hg. by apply link_inv_init.
Qed.

(** The chunks of the file, put together. *)
Lemma plain_concat n :
  Z.of_nat n ≤ total →
  concat (map (chunk_plain args) (seqZ 0 (Z.of_nat n)))
  = take (Z.to_nat (Z.of_nat n * CHUNK_SIZE)) (f_content f).
Proof.
  induction n as [|n IH]; intros Hn; [reflexivity|].
  rewrite Nat2Z.inj_succ. unfold Z.succ. rewrite seqZ_app by lia.
  rewrite map_app, concat_app, IH by lia. cbn [seqZ map concat seq Z.to_nat Pos.to_nat].
  change (seqZ (0 + Z.of_nat n) 1) with [0 + 0 + Z.of_nat n]. cbn [map concat].
  rewrite app_nil_r, Z.add_0_l. unfold chunk_plain, chunk_end, f_slice.
  pose proof (total_last f). unfold f_size, CHUNK_SIZE in *.
  rewrite take_slice by lia.
  destruct (Z.le_gt_cases (Z.of_nat n * (256 * 1024) + 256 * 1024)
              (Z.of_nat (length (f_content f)))).
  - f_equal. lia.
  - rewrite !take_ge; [reflexivity|lia..].
Qed.

Lemma chunks_of_calls l :
  chunks_of (map (chunk_call args) l) = map (λ i, (i, isLast args i, chunk_plain args i)) l.
Proof. induction l as [|i l IH]; simpl; by rewrite ?IH. Qed.

(** The chunks among the first events of the story. *)
Lemma story_chunks k :
  0 ≤ k ≤ total →
  chunks_of (take (Z.to_nat (k + 1)) (story args))
  = map (λ i, (i, isLast args i, chunk_plain args i)) (seqZ 0 k).
Proof.
  intros Hk. unfold story. replace (Z.to_nat (k + 1)) with (S (Z.to_nat k)) by lia.
  replace total with (k + (total - k)) by lia. rewrite seqZ_app, map_app by lia. simpl.
  rewrite <- app_assoc. rewrite take_app_length' by (rewrite length_map, length_seqZ; lia).
  apply chunks_of_calls.
Qed.

Lemma calls_chunks clean k calls :
  calls_ok args clean k calls →
  chunks_of calls
  = map (λ i, (i, isLast args i, chunk_plain args i)) (seqZ 0 (Z.max 0 (Z.min k total))).
Proof.
  intros (Hk & Hc & _). rewrite <- chunks_of_told, Hc. pose proof (total_pos f).
  destruct (decide (k = -1)) as [-> | Hne].
  { by replace (Z.max 0 (Z.min (-1) total)) with 0 by lia. }
  destruct (decide (k = total + 1)) as [-> | Hne'].
  - replace (Z.max 0 (Z.min (total + 1) total)) with total by lia. rewrite <- story_chunks by lia.
    unfold story. replace (Z.to_nat (total + 1 + 1)) with (S (S (Z.to_nat total))) by lia.
    replace (Z.to_nat (total + 1)) with (S (Z.to_nat total)) by lia.
    rewrite !firstn_cons. cbn [chunks_of start_call].
    rewrite take_ge by (rewrite length_app, length_map, length_seqZ; simpl; lia).
    rewrite take_app_length' by (rewrite length_map, length_seqZ; lia).
    rewrite chunks_of_app. apply app_nil_r.
  - replace (Z.max 0 (Z.min k total)) with k by lia. apply story_chunks. lia.
Qed.

Lemma received_take clean k calls :
  calls_ok args clean k calls →
  received_bytes calls
  = take (Z.to_nat (Z.max 0 (Z.min k total) * CHUNK_SIZE)) (f_content f).
Proof.
  intros Hc. unfold received_bytes. rewrite (calls_chunks _ _ _ Hc), map_map. cbn [snd].
  pose proof (total_pos f). set (n := Z.max 0 (Z.min k total)).
  replace n with (Z.of_nat (Z.to_nat n)) by lia. apply plain_concat. lia.
Qed.

Lemma received_all clean k calls :
  calls_ok args clean k calls → total ≤ k → received_bytes calls = f_content f.
Proof.
  intros Hc Hk. rewrite (received_take _ _ _ Hc). apply take_ge.
  pose proof (total_covers f). pose proof (total_pos f).
  replace (Z.max 0 (Z.min k total)) with total by lia. unfold f_size in *. lia.
Qed.

Lemma calls_whole calls :
  calls_ok args true (total + 1) calls → calls = story args.
Proof.
  intros (_ & Hc & Hcl). rewrite <- (Hcl eq_refl), Hc. apply take_ge. unfold story. cbn [length].
  rewrite length_app, length_map, length_seqZ. simpl. pose proof (total_pos f). lia.
Qed.

Lemma calls_completed clean k calls :
  calls_ok args clean k calls → HFileComplete hex ∈ calls → k = total + 1.
Proof.
  intros (Hk & Hc & _) Hin. destruct (decide (k = total + 1)) as [|Hne]; [done|]. exfalso.
  assert (HFileComplete hex ∈ told calls) as Ht.
  { clear -Hin. induction calls as [|c calls IH]; [set_solver|]. simpl.
    apply elem_of_cons in Hin as [<- | Hin]; [left|]. destruct (noise c); [auto|right; auto]. }
  rewrite Hc in Ht. destruct (decide (k = -1)) as [-> | Hne']; [simpl in Ht; set_solver|].
  unfold story in Ht. replace (Z.to_nat (k + 1)) with (S (Z.to_nat k)) in Ht by lia.
  rewrite firstn_cons in Ht. apply elem_of_cons in Ht as [Ht|Ht]; [done|].
  rewrite take_app_le in Ht by (rewrite length_map, length_seqZ; lia).
  rewrite firstn_map in Ht. apply list_elem_of_fmap in Ht as (i & Hi & _). done.
Qed.

(** The acknowledgements the sender has taken in were sent, and no more were
    sent than the handlers were given chunks. *)
Lemma acked_told clean l :
  link_inv args clean l →
  ∃ k a, calls_ok args clean k (r_calls (l_rx l)) ∧ s_acked (l_tx l) = Some (a - 1)
         ∧ a ≤ Z.max 0 k ∧ a ≤ Z.of_nat (l_back l).
Proof.
  intros Hl. destruct (li_acked _ _ _ Hl) as (a & b & Ha & Hk & Hb & _).
  destruct (stream_told _ _ _ _ (li_stream _ _ _ Hl)) as (k & n & Hcalls & Hn & Hnt & Hnk & _).
  pose proof (li_back _ _ _ Hl) as Hback.
  exists k, a. split_and!; [done|done| |].
  - destruct (r_sent (l_rx l) !! b) as [m|] eqn:Hm.
    + destruct (ack_log_lookup args clean _ _ _ _ Hn Hm) as (a' & Ha' & Hle & _).
      enough (a' = a) by lia. eapply ack_log_fun; [done| |done..]. lia.
    + apply lookup_ge_None in Hm. rewrite take_ge in Hk by lia.
      enough (n = a) by lia. eapply ack_log_fun; [done| |done..]. lia.
  - assert (∀ x l', ack_log args clean x l' → x ≤ Z.of_nat (length l')) as Hlen.
    { induction 1; [done|rewrite length_app; simpl; lia..]. }
    apply Hlen in Hk. rewrite length_take in Hk. lia.
Qed.

(** C4: Whatever the two sides do and however their events interleave - drops,
    cancels, failing reads and handlers, a receiver detached half way, messages
    that never arrive - what the receiver's handlers are told, apart from errors
    and cancels, is the beginning of one story: the file with its id, name, size
    and type (a file without one is announced as [application/octet-stream]),
    then its chunks from the first to the last, each once, with its plaintext
    and the flag that marks the last one, then its completion. *)
Theorem receiver_told_story es l :
  Forall link_event_ok es → run (link_step args) es init_link = Some l →
  told (r_calls (l_rx l)) `prefix_of`
    HFileStart hex (Some (JStr (f_name f))) (Some (JNum (f_size f)))
      (Some (JStr (if bool_decide (f_type f = []) then js "application/octet-stream"
                   else f_type f)))
    :: map (λ i, HChunk hex i (isLast args i) (chunk_plain args i)) (seqZ 0 total)
    ++ [HFileComplete hex].
Proof.
  intros Hok Hrun. destruct (acked_told _ _ (link_run_inv es l Hok Hrun)) as (k & a & (_ & Hc & _) & _).
  rewrite Hc. change (_ :: _) with (story args). apply prefix_take.
Qed.

(** C5: What the handlers have been given is a prefix of the file that ends at a
    chunk boundary or is the whole file, and a file is reported complete only
    when it is the whole file - under every interleaving and every failure. *)
Theorem receiver_gets_prefix es l :
  Forall link_event_ok es → run (link_step args) es init_link = Some l →
  let calls := r_calls (l_rx l) in
  (∃ k, 0 ≤ k ≤ total ∧ received_bytes calls = take (Z.to_nat (k * CHUNK_SIZE)) (f_content f))
  ∧ (HFileComplete hex ∈ calls → received_bytes calls = f_content f).
Proof.
  intros Hok Hrun calls. destruct (acked_told _ _ (link_run_inv es l Hok Hrun)) as (k & a & Hcalls & _).
  pose proof (total_pos f). split.
  - eexists. split; [|exact (received_take _ _ _ Hcalls)]. lia.
  - intros Hin. pose proof (calls_completed _ _ _ Hcalls Hin). eapply received_all; [done|lia].
Qed.

(** C6: When the promise of [sendFile] resolves, the receiver's handlers have
    been given the whole file - even if the connection, the receiver or both
    fail afterwards or had trouble on the way. *)
Theorem resolved_delivered es l :
  Forall link_event_ok es → run (link_step args) es init_link = Some l →
  s_pc (l_tx l) = PDone (Ok ()) → received_bytes (r_calls (l_rx l)) = f_content f.
Proof.
  intros Hok Hrun Hpc. pose proof (link_run_inv es l Hok Hrun) as Hl.
  destruct (acked_told _ _ Hl) as (k & a & Hcalls & Ha & Hak & _).
  destruct (li_paced _ _ _ Hl _ Ha) as [_ Hdone]. rewrite Hpc in Hdone.
  apply (received_all false k); [done|]. pose proof (total_pos f). lia.
Qed.

(** C7: The sender never has more than [WINDOW_SIZE] chunk frames on the way:
    those it has sent exceed the messages it has received back by 8 at most. *)
Theorem window_respected es l :
  Forall link_event_ok es → run (link_step args) es init_link = Some l →
  chunks_sent (l_tx l) ≤ Z.of_nat (l_back l) + WINDOW_SIZE.
Proof.
  intros Hok Hrun. pose proof (link_run_inv es l Hok Hrun) as Hl.
  destruct (acked_told _ _ Hl) as (k & a & _ & Ha & _ & Hb).
  destruct (li_paced _ _ _ Hl _ Ha) as [Hc _]. lia.
Qed.

(** ** Termination *)

Lemma phase_bounds d r :
  stream_inv args true d r →
  (d ≤ S (Z.to_nat total))%nat →
  (work d r ≤ 3 + 2 * Z.to_nat total)%nat ∧ (length (r_sent r) ≤ Z.to_nat total)%nat.
Proof.
  intros Hst Hd. destruct (stream_told _ _ _ _ Hst) as (k & n & _ & Hn & Hnt & _).
  apply (ack_log_length args) in Hn; [|done..]. split; [|lia].
  unfold work. transitivity (steps_cost d); [|destruct d; simpl; lia].
  destruct (d - _)%nat eqn:E, d; simpl; lia.
Qed.

Lemma clean_sent l :
  link_inv args true l →
  ∃ n, 0 ≤ n ≤ total ∧ (s_sent (l_tx l) = [] ∨ s_sent (l_tx l) = sent_log args n)
  ∧ match s_pc (l_tx l) with
    | PWindow i => n = i ∧ i < total ∧ s_sent (l_tx l) = sent_log args n
    | PFinal | PDone _ => n = total ∧ s_sent (l_tx l) = sent_log args n
    | _ => True
    end.
Proof.
  intros Hl. destruct (li_smooth _ _ _ Hl eq_refl) as (Hlost & Hab & Hd).
  pose proof (li_log _ _ _ Hl) as Hlog. unfold log_inv in Hlog. pose proof (total_pos f).
  destruct (s_pc (l_tx l)) as [| |i|i|i p| |[[]|e]]; try done.
  - exists 0. auto with lia.
  - exists 0. destruct_and?. auto with lia.
  - exists i. destruct_and?. auto with lia.
  - exists i. destruct_and?. auto with lia.
  - exists i. destruct_and?. auto with lia.
  - exists total. destruct_and?. auto with lia.
  - destruct Hlog as (n & Hn & Hok & Hs). exists n. simpl in Hs. rewrite app_nil_r in Hs.
    specialize (Hok eq_refl). auto with lia.
Qed.

Lemma length_sent_log n : 0 ≤ n → length (sent_log args n) = S (Z.to_nat n).
Proof. intros. unfold sent_log. simpl. by rewrite length_map, length_seqZ. Qed.

Lemma progress_bound l :
  link_inv args true l → (progress_made args l ≤ 6 + 6 * Z.to_nat total)%nat.
Proof.
  intros Hl. destruct (clean_sent l Hl) as (n & Hn & Hs & Hpc).
  assert (length (s_sent (l_tx l)) ≤ S (Z.to_nat total))%nat as Hlen.
  { destruct Hs as [-> | ->]; [simpl; lia|]. rewrite length_sent_log; lia. }
  pose proof (li_fwd _ _ _ Hl). pose proof (li_back _ _ _ Hl).
  destruct (phase_bounds _ _ (li_stream _ _ _ Hl)) as [Hw Hb]; [lia|].
  assert (position args (l_tx l) ≤ 2 + 2 * Z.to_nat total)%nat.
  { unfold position. pose proof (li_log _ _ _ Hl) as Hlog. unfold log_inv in Hlog.
    pose proof (total_pos f).
    destruct (s_pc (l_tx l)); destruct_and?; lia. }
  unfold progress_made. lia.
Qed.

(** A clean pair that has nothing left to do has done everything. *)
Definition quiet (l : link) : Prop :=
  ∀ e l', calm_link e = true → link_step args l e ≠ Some l'.

Lemma quiet_sender l :
  quiet l → link_inv args true l →
  match s_pc (l_tx l) with PWindow _ | PFinal | PDone (Ok _) => True | _ => False end.
Proof.
  intros Hq Hl. destruct (li_smooth _ _ _ Hl eq_refl) as (_ & _ & Hd).
  pose proof (Hq (EvSend SResume)) as H1. pose proof (Hq (EvSend (SRead None))) as H2.
  simpl in H1, H2. destruct (s_pc (l_tx l)) as [| |i|i|i p| |[]] eqn:E; try done; simpl in *.
  - destruct (deriveFileKey _ _); by eapply H1.
  - destruct (encryptChunk _ _ _ _ _); by eapply H1.
  - by eapply H2.
  - destruct (encryptChunk _ _ _ _ _); by eapply H1.
Qed.

Lemma quiet_receiver l : quiet l → r_pc (l_rx l) = RIdle.
Proof.
  intros Hq. pose proof (Hq (EvRecv RResume)) as H1. pose proof (Hq (EvRecv (RHandler None))) as H2.
  simpl in H1, H2. destruct (r_pc (l_rx l)); try done; exfalso;
    first [by eapply H1|by eapply H2].
Qed.

Lemma quiet_delivered l :
  quiet l → link_inv args true l →
  l_fwd l = length (s_sent (l_tx l)) ∧ l_back l = length (r_sent (l_rx l)).
Proof.
  intros Hq Hl. pose proof (Hq EvForward) as H1. pose proof (Hq EvBack) as H2. simpl in H1, H2.
  pose proof (li_fwd _ _ _ Hl). pose proof (li_back _ _ _ Hl). split.
  - destruct (s_sent (l_tx l) !! l_fwd l) eqn:E; [by edestruct H1|].
    apply lookup_ge_None in E. lia.
  - destruct (r_sent (l_rx l) !! l_back l) eqn:E; [by edestruct H2|].
    apply lookup_ge_None in E. lia.
Qed.

Lemma quiet_done l :
  quiet l → link_inv args true l →
  s_pc (l_tx l) = PDone (Ok ()) ∧ r_calls (l_rx l) = story args
  ∧ received_bytes (r_calls (l_rx l)) = f_content f
  ∧ progress_made args l = (6 + 6 * Z.to_nat total)%nat.
Proof.
  intros Hq Hl. pose proof (quiet_sender l Hq Hl) as Hpc. pose proof (quiet_receiver l Hq) as Hr.
  destruct (quiet_delivered l Hq Hl) as [Hfwd Hback].
  destruct (clean_sent l Hl) as (n & Hn & _ & Hs).
  destruct (li_acked _ _ _ Hl) as (a & b & Ha & Hk & Hb & Hd).
  destruct (li_paced _ _ _ Hl _ Ha) as [_ Hp].
  destruct (li_stream _ _ _ Hl) as (j & Hph & _ & Hidle & _ & Hj & Hat).
  specialize (Hidle Hr). specialize (Hj (Hat eq_refl)). rewrite Hidle, Nat.add_0_r in Hj.
  pose proof (total_pos f).
  assert (s_sent (l_tx l) = sent_log args n ∧ (∀ i, s_pc (l_tx l) = PWindow i → i = n ∧ i < total)
          ∧ ((∀ i, s_pc (l_tx l) ≠ PWindow i) → n = total)) as (Hsent & Hwin & Hend).
  { destruct (s_pc (l_tx l)) as [| |i|i|i p| |[]] eqn:E; try done; naive_solver. }
  rewrite Hsent, length_sent_log in Hfwd by lia.
  assert (settled_pc (s_pc (l_tx l)) = false → a = Z.of_nat (l_back l)) as Hab.
  { intros Hset. destruct Hd as [-> | Hd]; [|congruence].
    rewrite Hback, firstn_all in Hk. symmetry. rewrite Hback. by eapply ack_log_length. }
  destruct Hph as [Hc Hbf Hcalls Hsr|m k Hc Hm Hb' Hcalls Hack|Hc Hjt Hb' Hcalls Hack| |];
    try done.
  - rewrite Hr in Hbf. simpl in Hbf. lia.
  - rewrite Hr in Hb'. simpl in Hb'. apply (ack_log_length args) in Hack; [|done..].
    destruct (s_pc (l_tx l)) as [| |i|i|i p| |[]] eqn:E; try done.
    + destruct (Hwin i eq_refl) as [-> Hlt]. specialize (Hab eq_refl). unfold WINDOW_SIZE in *. lia.
    + rewrite Hend in Hfwd by done. lia.
    + rewrite Hend in Hfwd by done. lia.
  - apply (ack_log_length args) in Hack; [|done..].
    destruct (s_pc (l_tx l)) as [| |i|i|i p| |[[]|]] eqn:E; try done.
    + destruct (Hwin i eq_refl) as [-> Hlt]. lia.
    + specialize (Hab eq_refl). lia.
    + split_and!; [done|by apply calls_whole|apply (received_all _ _ _ Hcalls); lia|].
      unfold progress_made, position, work. rewrite E, Hidle, Hr. simpl length.
      rewrite Nat.sub_0_r, Nat.sub_0_r. rewrite Hend in Hfwd by done. rewrite Hfwd. simpl. lia.
Qed.

(** C3: When nothing goes wrong, every schedule of the events comes to an end,
    after 6 events for each chunk and 6 more, and then the promise of [sendFile]
    has resolved and the receiver's handlers have been told the whole story of
    the file and nothing else. No schedule gets stuck before: neither side
    waits for the other for ever. *)
Theorem transfer_completes es l :
  Forall (λ e, calm_link e = true) es → run (link_step args) es init_link = Some l →
  (length es ≤ 6 + 6 * Z.to_nat total)%nat ∧
  ((∀ e l', calm_link e = true → link_step args l e ≠ Some l') →
   length es = (6 + 6 * Z.to_nat total)%nat ∧ s_pc (l_tx l) = PDone (Ok ())
   ∧ r_calls (l_rx l) = story args
   ∧ received_bytes (r_calls (l_rx l)) = f_content f).
Proof.
  intros Hok Hrun. destruct (clean_run_inv es l Hok Hrun) as [Hl Hp]. rewrite <- Hp.
  split; [by apply progress_bound|]. intros Hq.
  by destruct (quiet_done l Hq Hl) as (? & ? & ? & ?).
Qed.

(** C34: A connection that is lost while [sendFile] reads or encrypts a chunk,
    with the last acknowledgement still missing, is not noticed. [onClose] wakes
    the waiters of that moment and there are none; the call goes on for at most
    twice as many events as the file has chunks and never settles by itself.
    When nothing more settles it waits for the window or for the last
    acknowledgement, which no message can bring any more; no read is under way
    that could fail, and only the user's cancel is left to end it - with the
    error [connection_lost] it should have thrown at once. *)
Theorem drop_while_reading_hangs es s s1 es' s2 a :
  Forall read_ok es → run (sendFile_step args) es init_sender = Some s →
  (∃ i, s_pc s = PRead i ∨ ∃ p, s_pc s = PEncrypt i p) →
  s_aborted s = None → s_acked s = Some a → a < total - 1 →
  sendFile_step args s SClose = Some s1 →
  Forall (λ e, settles e = true) es' → run (sendFile_step args) es' s1 = Some s2 →
  (length es' ≤ 2 * Z.to_nat total)%nat ∧ (∀ r, s_pc s2 ≠ PDone r)
  ∧ ((∀ e, settles e = true → sendFile_step args s2 e = None) →
     ((∃ i, s_pc s2 = PWindow i) ∨ s_pc s2 = PFinal)
     ∧ (∀ failed, sendFile_step args s2 (SRead failed) = None)
     ∧ ∀ s3, sendFile_step args s2 SSignal = Some s3 →
         s_pc s3 = if sa_signal args then PDone (Throw ErrConnectionLost) else s_pc s2).
Proof.
  intros Hok Hrun (i & Hpc) Hab Ha Hlt Hclose Hes Hrun'.
  pose proof (log_inv_run args Hargs es s Hok Hrun) as Hi.
  destruct (close_unheard args s i s1) as [Hu Hm]; [by eauto..|].
  destruct (unheard_run args Hargs _ _ _ Hu Hes Hrun') as [Hu2 Hle]. split; [lia|].
  split; [|by apply unheard_waits].
  intros r Hr. destruct Hu2 as (_ & _ & _ & _ & Hw). by rewrite Hr in Hw.
Qed.

(** ** What is sealed, and under which nonces *)







End Facts.
