(* ===== verification/FileWriter.v ===== *)
(** * file-writer.js: where received bytes go

    A sink is a [FileSystemWritableFileStream] or the in-memory fallback. What
    the pickers and the directory handle answer is an argument. A writable
    stream is what the File System API says of one: writes are applied in order
    while it is open, [close] commits them, [abort] drops them, and writing to a
    stream that is not open rejects. The page's object URLs and downloads are
    the state [page]. *)

From stdpp Require Import base list sets gmap strings.
From Stdlib Require Import ZArith Lia.
From S2P Require Import Prelude JsText Json.
Open Scope Z_scope.

Definition BLOB_FALLBACK_WARN_BYTES : Z := 200 * 1024 * 1024.

Record blob := { blob_type : jsstr; blob_content : bytes }.

(** Live object URLs, by number, and the downloads clicked: name and URL. *)
Record page := {
  p_next : nat;
  p_urls : gmap nat blob;
  p_downloads : list (jsstr * nat)
}.

Definition init_page : page := {| p_next := 0; p_urls := ∅; p_downloads := [] |}.

Definition createObjectURL (p : page) (b : blob) : page * nat :=
  ({| p_next := S (p_next p); p_urls := <[p_next p := b]> (p_urls p);
      p_downloads := p_downloads p |}, p_next p).

Definition revokeObjectURL (p : page) (url : nat) : page :=
  {| p_next := p_next p; p_urls := delete url (p_urls p); p_downloads := p_downloads p |}.

Definition click_download (p : page) (name : jsstr) (url : nat) : page :=
  {| p_next := p_next p; p_urls := p_urls p; p_downloads := p_downloads p ++ [(name, url)] |}.

Inductive stream_state := Writing | Closed | Aborted.

Record writable := { w_state : stream_state; w_written : bytes }.

Inductive sink :=
| Fsa (w : writable)
| Blob (name mime : jsstr) (parts : list bytes) (previewUrl : option nat).

(** [sink.mode]. *)
Definition mode (s : sink) : string := match s with Fsa _ => "fsa" | Blob _ _ _ _ => "blob" end.

(** A picker the browser has, with its outcome; [None] when there is none. *)
Definition hasDirectoryAccess {A} (showDirectoryPicker : option (result A)) : bool :=
  bool_decide (is_Some showDirectoryPicker).

(** What it resolves to. *)
Definition chooseSaveDirectory {A} (showDirectoryPicker : option (result A)) : option A :=
  if negb (hasDirectoryAccess showDirectoryPicker) then None
  else match showDirectoryPicker with Some (Ok h) => Some h | _ => None end.

(** What the file system answers: [dir] when a directory handle was given, with
    the outcome of its [getFileHandle] and [createWritable]; the save picker, when
    there is one, with the outcome of picking and opening. *)
Record answers := {
  dirHandle : option (result unit);
  showSaveFilePicker : option (result unit)
}.

Definition hasFileSystemAccess (env : answers) : bool := bool_decide (is_Some (showSaveFilePicker env)).

Definition open_stream : writable := {| w_state := Writing; w_written := [] |}.

Definition createFileSink (name : jsstr) (mime : jsstr) (env : answers) : sink :=
  match dirHandle env with
  | Some (Ok _) => Fsa open_stream
  | _ =>
      if hasFileSystemAccess env
      then match showSaveFilePicker env with
           | Some (Ok _) => Fsa open_stream
           | _ => Blob name mime [] None
           end
      else Blob name mime [] None
  end.

Definition write (s : sink) (chunk : bytes) : result sink :=
  match s with
  | Fsa w =>
      match w_state w with
      | Writing => Ok (Fsa {| w_state := Writing; w_written := w_written w ++ chunk |})
      | _ => Throw ErrType
      end
  | Blob name mime parts url => Ok (Blob name mime (parts ++ [chunk]) url)
  end.

Definition close (s : sink) (p : page) : result (sink * page) :=
  match s with
  | Fsa w =>
      match w_state w with
      | Writing => Ok (Fsa {| w_state := Closed; w_written := w_written w |}, p)
      | _ => Throw ErrType
      end
  | Blob name mime parts _ =>
      let b := {| blob_type := if bool_decide (mime = []) then js "application/octet-stream"
                               else mime;
                  blob_content := concat parts |} in
      let '(p, url) := createObjectURL p b in
      Ok (Blob name mime parts (Some url), click_download p name url)
  end.

(** The timer [close] starts for the preview URL. *)
Definition preview_timeout (s : sink) (p : page) : sink * page :=
  match s with
  | Fsa w => (s, p)
  | Blob name mime parts url =>
      (Blob name mime parts None,
       match url with Some u => revokeObjectURL p u | None => p end)
  end.

Definition abort (s : sink) (p : page) : sink * page :=
  match s with
  | Fsa w =>
      (match w_state w with
       | Writing => Fsa {| w_state := Aborted; w_written := [] |}
       | _ => s
       end, p)
  | Blob name mime parts url =>
      (Blob name mime [] None,
       match url with Some u => revokeObjectURL p u | None => p end)
  end.

Definition getPreviewUrl (s : sink) : option nat :=
  match s with Fsa _ => None | Blob _ _ _ url => url end.

(** Several writes, as [onChunk] makes them. *)
Fixpoint write_all (s : sink) (chunks : list bytes) : result sink :=
  match chunks with
  | [] => Ok s
  | c :: chunks' => s ← write s c; write_all s chunks'
  end.

(** What a closed sink left with the user: the content of the file written to
    disk, or of the blob that was downloaded. *)
Definition saved (s : sink) (p : page) : option bytes :=
  match s with
  | Fsa w => match w_state w with Closed => Some (w_written w) | _ => None end
  | Blob _ _ _ (Some url) => blob_content <$> p_urls p !! url
  | Blob _ _ _ None => None
  end.

(** A sink that can be written to, and what has been written. *)
Definition collected (s : sink) (data : bytes) : Prop :=
  match s with
  | Fsa w => w_state w = Writing ∧ w_written w = data
  | Blob _ _ parts url => concat parts = data ∧ url = None
  end.

Lemma createFileSink_collected name mime env : collected (createFileSink name mime env) [].
Proof. unfold createFileSink. by repeat case_match. Qed.

Lemma write_collected s data chunk :
  collected s data → ∃ s', write s chunk = Ok s' ∧ collected s' (data ++ chunk) ∧ mode s' = mode s.
Proof.
  destruct s as [w|name mime parts url]; simpl.
  - intros [Hw Hd]. rewrite Hw. eexists. split; [done|]. simpl. by rewrite Hd.
  - intros [Hd ->]. eexists. split; [done|]. simpl. by rewrite concat_app, Hd; simpl; rewrite app_nil_r.
Qed.

Lemma write_all_collected chunks s data :
  collected s data →
  ∃ s', write_all s chunks = Ok s' ∧ collected s' (data ++ concat chunks) ∧ mode s' = mode s.
Proof.
  revert s data. induction chunks as [|c chunks IH]; intros s data Hs; simpl.
  - exists s. by rewrite app_nil_r.
  - destruct (write_collected s data c Hs) as (s1 & -> & Hs1 & Hm). simpl.
    destruct (IH s1 _ Hs1) as (s2 & -> & Hs2 & Hm2). exists s2.
    rewrite <- app_assoc in Hs2. split_and!; [done|done|congruence].
Qed.

Lemma close_saved s data p :
  collected s data → ∃ s' p', close s p = Ok (s', p') ∧ saved s' p' = Some data.
Proof.
  destruct s as [w|name mime parts url]; simpl.
  - intros [-> Hd]. eexists _, _. split; [done|]. simpl. by rewrite Hd.
  - intros [Hd ->]. eexists _, _. split; [done|]. simpl. by rewrite lookup_insert_eq, <- Hd.
Qed.

(** Whichever sink the browser's answers lead to, the chunks written to it
    and then [close] leave the user with a file of exactly their bytes, in
    order. *)
Theorem sink_saves name mime env chunks p :
  ∃ s s' p', write_all (createFileSink name mime env) chunks = Ok s
    ∧ close s p = Ok (s', p') ∧ saved s' p' = Some (concat chunks).
Proof.
  destruct (write_all_collected chunks _ [] (createFileSink_collected name mime env))
    as (s & Hs & Hc & _).
  destruct (close_saved s _ p Hc) as (s' & p' & Hcl & Hsv). by exists s, s', p'.
Qed.

(** A blob sink's preview is the downloaded file - its name, its bytes and
    its type - from [close] to the end of its lifetime, and an abort or the
    timer leaves no URL of it behind; a sink on disk never has one. *)
Theorem preview_lifetime name mime env chunks s s' p p' :
  (∀ u, (p_next p ≤ u)%nat → p_urls p !! u = None) →
  write_all (createFileSink name mime env) chunks = Ok s → close s p = Ok (s', p') →
  match getPreviewUrl s' with
  | Some url =>
      mode s' = "blob"%string ∧ last (p_downloads p') = Some (name, url)
      ∧ (∃ b, p_urls p' !! url = Some b ∧ blob_content b = concat chunks
              ∧ blob_type b = if bool_decide (mime = []) then js "application/octet-stream"
                              else mime)
      ∧ p_urls (preview_timeout s' p').2 = p_urls p ∧ p_urls (abort s' p').2 = p_urls p
      ∧ getPreviewUrl (preview_timeout s' p').1 = None ∧ getPreviewUrl (abort s' p').1 = None
  | None => mode s' = "fsa"%string ∧ p' = p
  end.
Proof.
  intros Hfresh Hw Hc.
  assert (∀ chunks s, (∃ parts, s = Blob name mime parts None) ∨ (∃ w, s = Fsa w) →
    ∀ s', write_all s chunks = Ok s' →
    (∃ parts, s' = Blob name mime parts None) ∨ (∃ w, s' = Fsa w)) as Hshape.
  { clear. induction chunks as [|c chunks IH]; simpl; intros s Hs s' Hw; [naive_solver|].
    destruct Hs as [[parts ->]|[w ->]]; simpl in Hw.
    - eapply IH; [|done]. eauto.
    - destruct (w_state w); simplify_eq/=. eapply IH; [|done]. eauto. }
  destruct (write_all_collected chunks _ [] (createFileSink_collected name mime env))
    as (s1 & Hs1 & Hcol & _). rewrite Hw in Hs1. injection Hs1 as <-.
  destruct (Hshape chunks (createFileSink name mime env)) with (s' := s)
    as [[parts ->]|[w ->]]; [|done| |].
  { unfold createFileSink. repeat case_match; eauto. }
  - simpl in Hc. injection Hc as <- <-. simpl in *. destruct Hcol as [Hparts _].
    split_and!; try done.
    + by rewrite last_snoc.
    + eexists. rewrite lookup_insert_eq. by rewrite Hparts.
    + rewrite delete_insert_eq. apply delete_id, Hfresh. lia.
    + rewrite delete_insert_eq. apply delete_id, Hfresh. lia.
  - simpl in Hc. destruct (w_state w); simplify_eq/=. done.
Qed.
