(* ===== verification/TransferUi.v ===== *)
(** * transfer-ui.js

    The screen of a paired session: the sender's batches of files and the
    receiver's list of incoming files. A text on the screen is the key [t] is
    called with. *)

From stdpp Require Import base list list_numbers gmap sets strings.
From Stdlib Require Import ZArith Lia SpecFloat.
From S2P Require Import Prelude JsText Json WsClient Sender Receiver FileWriter.
Open Scope Z_scope.

(** [reason] is the rejected error's, or the one [onAborted] is given. *)
Definition abortStatusText (reason : option jsstr) : string :=
  if bool_decide (reason = Some (js "size_limit_exceeded"))
  then "transferTooLarge" else "transferCanceled".

(** [(num / den).toFixed(d)] for a [den] that is a power of two: the division is
    exact and a tie goes to the larger digit. *)
Definition toFixed (d : nat) (num den : Z) : jsstr :=
  let k := (2 * num * 10 ^ Z.of_nat d + den) / (2 * den) in
  num_to_string 10 (k / 10 ^ Z.of_nat d) ++ js "."
  ++ padStart d 48 (num_to_string 10 (k mod 10 ^ Z.of_nat d)).

(** [formatBytes(n)] for an integer [n >= 0]. *)
Definition formatBytes (n : Z) : jsstr :=
  if n <? 1024 then num_to_string 10 n ++ js " B"
  else if n <? 1024 * 1024 then toFixed 1 n 1024 ++ js " KB"
  else if n <? 1024 * 1024 * 1024 then toFixed 1 n (1024 * 1024) ++ js " MB"
  else toFixed 2 n (1024 * 1024 * 1024) ++ js " GB".

(** Double-precision arithmetic of the progress bars. *)
Definition double (z : Z) : spec_float := binary_normalize 53 1024 z 0 false.

(** [Math.round]: the nearest integer, a tie going up. *)
Definition Math_round (x : spec_float) : Z :=
  match x with
  | S754_finite sign m e =>
      let z := if sign then Zneg m else Zpos m in
      if 0 <=? e then z * 2 ^ e else (2 * z + 2 ^ (- e)) / (2 * 2 ^ (- e))
  | _ => 0
  end.

(** [total > 0 ? Math.round((sent / total) * 100) : 100]. *)
Definition percent (sent total : Z) : Z :=
  if 0 <? total
  then Math_round (SFmul 53 1024 (SFdiv 53 1024 (double sent) (double total)) (double 100))
  else 100.

(** The name part of a row: with the size when it is known. *)
Definition row_label (name : jsstr) (size : option Z) : jsstr :=
  match size with
  | Some n => name ++ js " (" ++ formatBytes n ++ js ")"
  | None => name
  end.

(** ** dedupeFilename *)

Definition candidate (base ext : jsstr) (i : Z) : jsstr :=
  base ++ js " (" ++ num_to_string 10 i ++ js ")" ++ ext.

(** The [do ... while] loop: the first candidate not in [usedNames]. *)
Fixpoint dedupe_loop (fuel : nat) (usedNames : gset jsstr) (base ext : jsstr) (i : Z) : option jsstr :=
  match fuel with
  | O => None
  | S fuel' =>
      let c := candidate base ext i in
      if bool_decide (c ∈ usedNames) then dedupe_loop fuel' usedNames base ext (i + 1) else Some c
  end.

Definition stem (name : jsstr) : jsstr :=
  match lastIndexOf 46 name with Some (S i) => take (S i) name | _ => name end.
Definition extension (name : jsstr) : jsstr :=
  match lastIndexOf 46 name with Some (S i) => drop (S i) name | _ => [] end.

(** The name used and the set afterwards; [None] only if the fuel were too
    little. *)
Definition dedupeFilename (usedNames : gset jsstr) (name : jsstr) : option (jsstr * gset jsstr) :=
  if bool_decide (name ∉ usedNames) then Some (name, {[ name ]} ∪ usedNames)
  else
    c ← dedupe_loop (S (size usedNames)) usedNames (stem name) (extension name) 1;
    Some (c, {[ c ]} ∪ usedNames).

Lemma candidate_inj base ext i j :
  0 ≤ i → 0 ≤ j → candidate base ext i = candidate base ext j → i = j.
Proof.
  intros Hi Hj He. unfold candidate in He. apply app_inv_head in He.
  apply app_inv_head in He. apply app_inv_tail in He.
  by apply num_to_string_inj in He.
Qed.

Lemma dedupe_loop_spec fuel used base ext i :
  match dedupe_loop fuel used base ext i with
  | Some c => c ∉ used ∧ ∃ j, i ≤ j ∧ c = candidate base ext j
                ∧ ∀ l, i ≤ l < j → candidate base ext l ∈ used
  | None => ∀ l, i ≤ l < i + Z.of_nat fuel → candidate base ext l ∈ used
  end.
Proof.
  revert i. induction fuel as [|fuel IH]; intros i; cbn [dedupe_loop]; [lia|].
  case_bool_decide as Hc.
  - specialize (IH (i + 1)). destruct (dedupe_loop fuel used base ext (i + 1)) as [c|].
    + destruct IH as (Hn & j & Hj & -> & Hl). split; [done|]. exists j.
      split_and!; [lia|done|]. intros l Hl'.
      destruct (decide (l = i)) as [->|]; [done|]. apply Hl. lia.
    + intros l Hl. destruct (decide (l = i)) as [->|]; [done|]. apply IH. lia.
  - split; [done|]. exists i. split_and!; [lia|done|lia].
Qed.

(** The names used so far cannot hold one more candidate than they are. *)
Lemma dedupe_loop_total used base ext : is_Some (dedupe_loop (S (size used)) used base ext 1).
Proof.
  pose proof (dedupe_loop_spec (S (size used)) used base ext 1) as Hs.
  destruct (dedupe_loop _ _ _ _ _) as [c|] eqn:E; [by eexists|]. exfalso.
  set (l := candidate base ext <$> seqZ 1 (Z.of_nat (S (size used)))).
  assert (NoDup l) as Hnd.
  { apply NoDup_fmap_2_strong; [|apply NoDup_seqZ]. intros x y Hx Hy.
    apply elem_of_seqZ in Hx, Hy. apply candidate_inj; lia. }
  assert (list_to_set l ⊆ used) as Hsub.
  { intros c Hc%elem_of_list_to_set. apply list_elem_of_fmap in Hc as (i & -> & Hi).
    apply elem_of_seqZ in Hi. apply Hs. lia. }
  apply subseteq_size in Hsub. rewrite size_list_to_set in Hsub by done.
  unfold l in Hsub. rewrite length_fmap, length_seqZ in Hsub. lia.
Qed.

Lemma stem_extension name : stem name ++ extension name = name.
Proof.
  unfold stem, extension. destruct (lastIndexOf 46 name) as [[|i]|];
    rewrite ?app_nil_r; try done. apply take_drop.
Qed.

(** [dedupeFilename] always returns, with a name not used before, which it
    records and nothing else: the file's own name when it is free, otherwise its
    stem, the first free number in brackets, and its extension. *)
Theorem dedupeFilename_fresh used name :
  ∃ name', dedupeFilename used name = Some (name', {[ name' ]} ∪ used) ∧ name' ∉ used
    ∧ (name ∉ used → name' = name)
    ∧ (name ∈ used → ∃ i, 1 ≤ i
         ∧ name' = stem name ++ js " (" ++ num_to_string 10 i ++ js ")" ++ extension name
         ∧ ∀ j, 1 ≤ j < i → candidate (stem name) (extension name) j ∈ used).
Proof.
  unfold dedupeFilename. case_bool_decide as Hn.
  - exists name. split_and!; try done.
  - destruct (dedupe_loop_total used (stem name) (extension name)) as [c Hc].
    pose proof (dedupe_loop_spec (S (size used)) used (stem name) (extension name) 1) as Hs.
    rewrite Hc in *. destruct Hs as (Hf & j & Hj & -> & Hl). eexists.
    split_and!; [done|done|by intros|]. intros _. by exists j.
Qed.

(** ** renderSenderTransfer *)

Module SenderUi.

Record row := {
  row_text : jsstr;
  row_progress : Z;
  row_status : string;
  row_cancelHidden : bool
}.

Record state := {
  sending : bool;
  detached : bool;
  input_disabled : bool;
  rows : list row;                       (* in the order of the list *)
  batch : option (list file);            (* the files the running loop has left *)
  calls : list file;                     (* every file sendFile was called with *)
  aborts : list nat;                     (* rows whose controller was aborted *)
  stale : list (list file)               (* what onStaleFiles was given *)
}.

(** Right after the render. *)
Definition init : state :=
  {| sending := false; detached := false; input_disabled := false; rows := []; batch := None;
     calls := []; aborts := []; stale := [] |}.

Definition createFileRow (f : file) : row :=
  {| row_text := row_label (f_name f) (Some (f_size f)); row_progress := 0;
     row_status := "transferSending"; row_cancelHidden := false |}.

Definition update_last (g : row → row) (l : list row) : list row :=
  alter g (length l - 1)%nat l.

Definition with_rows (s : state) (l : list row) : state :=
  {| sending := sending s; detached := detached s; input_disabled := input_disabled s;
     rows := l; batch := batch s; calls := calls s; aborts := aborts s; stale := stale s |}.

(** The loop of [sendFiles] up to its next [await sendFile(..)], or its end. *)
Definition next_file (s : state) (files : list file) : state :=
  match files with
  | f :: files' =>
      if detached s
      then {| sending := false; detached := true; input_disabled := false; rows := rows s;
              batch := None; calls := calls s; aborts := aborts s; stale := stale s |}
      else {| sending := true; detached := false; input_disabled := true;
              rows := rows s ++ [createFileRow f]; batch := Some files';
              calls := calls s ++ [f]; aborts := aborts s; stale := stale s |}
  | [] =>
      {| sending := false; detached := detached s; input_disabled := false; rows := rows s;
         batch := None; calls := calls s; aborts := aborts s; stale := stale s |}
  end.

Definition sendFiles (s : state) (files : list file) : state :=
  if sending s || detached s || bool_decide (files = []) then s else next_file s files.

(** The awaited [sendFile] settles. *)
Definition sendFile_settled (s : state) (files : list file) (outcome : result unit) : state :=
  let finish r :=
    match outcome with
    | Ok _ => {| row_text := row_text r; row_progress := 100; row_status := "transferSent";
                 row_cancelHidden := true |}
    | Throw e =>
        {| row_text := row_text r; row_progress := row_progress r;
           row_status := match e with
                         | ErrAbort reason => abortStatusText reason
                         | _ => "transferError"
                         end;
           row_cancelHidden := true |}
    end in
  next_file (with_rows s (update_last finish (rows s))) files.

Definition onProgress (s : state) (sent total : Z) : state :=
  with_rows s (update_last (λ r,
    {| row_text := row_text r; row_progress := percent sent total; row_status := row_status r;
       row_cancelHidden := row_cancelHidden r |}) (rows s)).

Definition handlePicked (s : state) (open : bool) (files : list file) : state :=
  if detached s || negb open
  then {| sending := sending s; detached := detached s; input_disabled := input_disabled s;
          rows := rows s; batch := batch s; calls := calls s; aborts := aborts s;
          stale := stale s ++ [files] |}
  else sendFiles s files.

Definition detach (s : state) : state :=
  {| sending := sending s; detached := true; input_disabled := input_disabled s; rows := rows s;
     batch := batch s; calls := calls s; aborts := aborts s; stale := stale s |}.

Definition isActive (s : state) : bool := sending s.

Inductive event :=
| Picked (open : bool) (files : list file)   (* the picker or a drop; is the socket open? *)
| SendFiles (files : list file)              (* the handle's sendFiles is called *)
| Progress (sent total : Z)
| Settled (outcome : result unit)
| CancelClick                                (* on the row being sent *)
| Detach.

Definition step (s : state) (e : event) : option state :=
  match e with
  | Picked open files => Some (handlePicked s open files)
  | SendFiles files => Some (sendFiles s files)
  | Detach => Some (detach s)
  | Progress sent total =>
      match batch s with Some _ => Some (onProgress s sent total) | None => None end
  | Settled outcome =>
      match batch s with
      | Some files => Some (sendFile_settled s files outcome)
      | None => None
      end
  | CancelClick =>
      match batch s with
      | Some _ =>
          Some {| sending := sending s; detached := detached s; input_disabled := input_disabled s;
                  rows := rows s; batch := batch s; calls := calls s;
                  aborts := if bool_decide ((length (rows s) - 1)%nat ∈ aborts s) then aborts s
                            else aborts s ++ [(length (rows s) - 1)%nat];
                  stale := stale s |}
      | None => None
      end
  end.

(** The files a run asked for, in order: the batches that were accepted. *)
Definition accepted (s : state) (e : event) : list file :=
  match e with
  | Picked open files =>
      if detached s || negb open || sending s then [] else files
  | SendFiles files => if sending s || detached s then [] else files
  | _ => []
  end.

Definition final_status (r : row) : Prop :=
  row_status r ∈ ["transferSent"; "transferTooLarge"; "transferCanceled"; "transferError"]
  ∧ row_cancelHidden r = true.

Definition sending_status (r : row) : Prop :=
  row_status r = "transferSending"%string ∧ row_cancelHidden r = false.

Record inv (s : state) : Prop := {
  inv_sending : sending s = match batch s with Some _ => true | None => false end;
  inv_disabled : input_disabled s = sending s;
  inv_rows : length (rows s) = length (calls s);
  inv_text : row_text <$> rows s = (λ f, row_label (f_name f) (Some (f_size f))) <$> calls s;
  inv_status : if sending s
               then ∃ done r, rows s = done ++ [r] ∧ Forall final_status done ∧ sending_status r
               else Forall final_status (rows s)
}.

Lemma init_inv : inv init.
Proof. by split; simpl. Qed.

Lemma update_last_snoc g l r : update_last g (l ++ [r]) = l ++ [g r].
Proof.
  unfold update_last. rewrite length_app. simpl.
  replace (length l + 1 - 1)%nat with (length l + 0)%nat by lia.
  by rewrite alter_app_r.
Qed.

(** Between two files every row is final. *)
Definition rested (s : state) : Prop :=
  length (rows s) = length (calls s)
  ∧ row_text <$> rows s = (λ f, row_label (f_name f) (Some (f_size f))) <$> calls s
  ∧ Forall final_status (rows s).

Lemma next_file_inv s files : rested s → inv (next_file s files).
Proof.
  intros (Hl & Ht & Hs). destruct files as [|f files]; [by split|]. simpl.
  destruct (detached s); [by split|]. split; simpl; try done.
  - rewrite !length_app. simpl. lia.
  - rewrite !fmap_app, Ht. done.
  - by exists (rows s), (createFileRow f).
Qed.

Lemma idle_rested s : inv s → sending s = false → rested s.
Proof. intros [H1 H2 H3 H4 H5] Hs. rewrite Hs in H5. done. Qed.

Lemma settled_rested s files outcome :
  inv s → batch s = Some files →
  ∃ s', sendFile_settled s files outcome = next_file s' files ∧ rested s'
        ∧ detached s' = detached s ∧ calls s' = calls s.
Proof.
  intros [H1 H2 H3 H4 H5] Hb. eexists. split; [reflexivity|].
  rewrite H1, Hb in H5. destruct H5 as (dn & r & Hr & Hd & Hs).
  unfold rested, with_rows. simpl. rewrite Hr, update_last_snoc in *.
  rewrite length_app in *. split; [|done]. split; [done|]. split.
  - etrans; [|exact H4]. rewrite !fmap_app. simpl. by destruct outcome.
  - apply Forall_app. split; [done|]. apply Forall_singleton.
    destruct outcome as [|[]]; split; try done; simpl; unfold abortStatusText;
      try case_bool_decide; set_solver.
Qed.

Lemma sendFiles_inv s files : inv s → inv (sendFiles s files).
Proof.
  intros Hi. unfold sendFiles. destruct (sending s) eqn:Hs; [done|].
  destruct (detached s); [done|]. simpl. case_bool_decide; [done|].
  by apply next_file_inv, idle_rested.
Qed.

Lemma step_inv s e s' : inv s → step s e = Some s' → inv s'.
Proof.
  intros Hi Hstep. destruct e as [open files|files|sent total|outcome| |]; simpl in Hstep.
  - injection Hstep as <-. unfold handlePicked. case_match; [|by apply sendFiles_inv].
    by destruct Hi.
  - injection Hstep as <-. by apply sendFiles_inv.
  - destruct (batch s) as [fs|] eqn:Hb; simplify_eq. destruct Hi as [H1 H2 H3 H4 H5].
    rewrite Hb in H1. rewrite H1 in H5.
    destruct H5 as (dn & r & Hr & Hd & Hs).
    split; unfold onProgress; simpl; rewrite ?Hb, ?Hr, ?update_last_snoc; try done.
    + rewrite Hr, length_app in H3. rewrite length_app. done.
    + etrans; [|exact H4]. by rewrite Hr, !fmap_app.
    + rewrite H1. by eexists _, _.
  - destruct (batch s) as [fs|] eqn:Hb; simplify_eq.
    destruct (settled_rested s fs outcome Hi Hb) as (s1 & -> & Hr & _). by apply next_file_inv.
  - destruct (batch s) as [fs|] eqn:Hb; simplify_eq. destruct Hi as [H1 H2 H3 H4 H5].
    split; simpl; try done. by rewrite Hb in *.
  - injection Hstep as <-. by destruct Hi.
Qed.

(** What is left to call when the next file starts. *)
Definition to_send (s : state) : list file := if detached s then [] else default [] (batch s).

Lemma next_file_calls s files :
  calls (next_file s files) ++ to_send (next_file s files)
  = calls s ++ if detached s then [] else files.
Proof.
  unfold to_send. destruct files as [|f files]; simpl.
  - by destruct (detached s).
  - destruct (detached s); simpl; [done|]. by rewrite <- app_assoc.
Qed.

Lemma step_calls s e s' :
  inv s → step s e = Some s' →
  (detached s' = true → detached s = true) →
  calls s' ++ to_send s' = calls s ++ to_send s ++ accepted s e.
Proof.
  intros Hi Hstep Hdet.
  assert (∀ files, sending s = false → detached s = false →
    calls (sendFiles s files) ++ to_send (sendFiles s files) = calls s ++ to_send s ++ files) as Hsend.
  { intros files Hs Hd. destruct Hi as [H1 _ _ _ _]. rewrite Hs in H1.
    assert (batch s = None) as Hb by by destruct (batch s).
    unfold sendFiles. rewrite Hs, Hd. simpl. case_bool_decide as Hf.
    - subst. by rewrite app_nil_r.
    - rewrite next_file_calls, Hd. unfold to_send. by rewrite Hd, Hb. }
  destruct e as [open files|files|sent total|outcome| |]; simpl in Hstep; simpl.
  - injection Hstep as <-. unfold handlePicked in *.
    destruct (detached s) eqn:Hd; simpl; [by unfold to_send; simpl; rewrite Hd, !app_nil_r|].
    destruct open; simpl; [|by unfold to_send; simpl; rewrite Hd, app_nil_r].
    destruct (sending s) eqn:Hs; [|by apply Hsend].
    unfold sendFiles. rewrite Hs. simpl. by rewrite app_nil_r.
  - injection Hstep as <-. destruct (sending s) eqn:Hs; simpl.
    { unfold sendFiles. rewrite Hs. simpl. by rewrite app_nil_r. }
    destruct (detached s) eqn:Hd; [|by apply Hsend].
    unfold sendFiles. rewrite Hs, Hd. simpl. by rewrite app_nil_r.
  - destruct (batch s) eqn:Hb; simplify_eq. rewrite app_nil_r. done.
  - destruct (batch s) as [fs|] eqn:Hb; simplify_eq.
    destruct (settled_rested s fs outcome Hi Hb) as (s1 & -> & Hr & Hd & Hc).
    rewrite next_file_calls, Hd, Hc. unfold to_send. rewrite Hb, app_nil_r.
    by destruct (detached s).
  - destruct (batch s) eqn:Hb; simplify_eq. rewrite app_nil_r. unfold to_send. simpl.
    by rewrite Hb.
  - injection Hstep as <-. simpl in Hdet. unfold to_send. simpl.
    rewrite Hdet by done. by rewrite !app_nil_r.
Qed.

Lemma detached_stays s e s' : step s e = Some s' → detached s = true → detached s' = true.
Proof.
  intros Hs Hd. destruct e; simpl in Hs; repeat case_match; simplify_eq/=; try done.
  - unfold handlePicked. by rewrite Hd.
  - unfold sendFiles. by rewrite Hd, orb_true_r.
  - unfold sendFile_settled, next_file, with_rows. simpl. by destruct l; rewrite ?Hd.
Qed.

(** The files the accepted picks of a run brought, in order. *)
Fixpoint accepted_run (es : list event) (s : state) : list file :=
  match es with
  | [] => []
  | e :: es' => accepted s e ++ match step s e with Some s' => accepted_run es' s' | None => [] end
  end.

Lemma run_inv es s : run step es init = Some s → inv s.
Proof. apply run_ind; [apply init_inv|]. intros. by eapply step_inv. Qed.

Lemma run_calls es s0 s :
  inv s0 → run step es s0 = Some s → detached s = false →
  calls s ++ to_send s = calls s0 ++ to_send s0 ++ accepted_run es s0.
Proof.
  revert s0. induction es as [|e es IH]; simpl; intros s0 Hi Hrun Hd.
  - simplify_eq. by rewrite app_nil_r.
  - destruct (step s0 e) as [s1|] eqn:E; [|done]. simpl in Hrun.
    rewrite (IH s1), app_assoc, (step_calls s0 e s1), <- !app_assoc; try done.
    + intros Hd1. exfalso. revert Hrun Hd Hd1. clear.
      intros Hrun Hd Hd1.
      assert (detached s = true); [|congruence].
      revert Hrun. apply (run_ind step (λ s, detached s = true)); [done|].
      intros. by eapply detached_stays.
    + by eapply step_inv.
Qed.

(** C30: Picks, drops and the handle's [sendFiles] are sent one file at a time, in
    the order they came: the files [sendFile] has been called with and those the
    running batch still holds are the accepted batches one after another, never
    interleaved, none lost, none sent twice - as long as the screen is not
    detached. A pick is accepted unless the socket is dead or a batch runs. *)
Theorem batches_in_order es s :
  run step es init = Some s → detached s = false →
  calls s ++ default [] (batch s) = accepted_run es init.
Proof.
  intros Hrun Hd. pose proof (run_calls es init s init_inv Hrun Hd) as Hc.
  unfold to_send in Hc. by rewrite Hd in Hc.
Qed.

(** C31: The list shows every file [sendFile] was called with, in order; while a
    send runs exactly the last row says "sending" and offers a cancel, the
    handle reports itself active and the picker is disabled; otherwise every row
    has its final status, nothing can be cancelled and the picker is enabled. *)
Theorem rows_follow_calls es s :
  run step es init = Some s →
  row_text <$> rows s = (λ f, row_label (f_name f) (Some (f_size f))) <$> calls s
  ∧ input_disabled s = isActive s
  ∧ if isActive s
    then ∃ done r, rows s = done ++ [r] ∧ Forall final_status done ∧ sending_status r
    else Forall final_status (rows s).
Proof. intros Hrun. by destruct (run_inv es s Hrun). Qed.

End SenderUi.

(** ** renderReceiverTransfer *)

Module ReceiverUi.

Record row := {
  row_text : jsstr;
  row_sink : sink;
  row_received : Z;
  row_size : option Z;
  row_done : bool;
  row_cancelHidden : bool;
  row_progress : Z;
  row_status : string;
  row_open : option nat                  (* the URL of the "Open" link *)
}.

(** An [onFileStart] that awaits its sink. *)
Record starting := {
  st_fileId : jsstr;
  st_text : jsstr;
  st_saveName : jsstr;
  st_size : option Z;
  st_mime : jsstr
}.

Record state := {
  u_page : page;
  u_status : string;
  u_receiving : bool;
  u_saveDir : bool;                      (* saveDirHandle is set *)
  u_usedNames : gset jsstr;
  u_rows : gmap jsstr row;
  u_starting : option starting
}.

Definition init (p : page) : state :=
  {| u_page := p; u_status := "transferWaitingForFiles"; u_receiving := false;
     u_saveDir := false; u_usedNames := ∅; u_rows := ∅; u_starting := None |}.

(** The folder button, once the picker resolves to a handle. *)
Definition folder_chosen (u : state) : state :=
  {| u_page := u_page u; u_status := u_status u; u_receiving := u_receiving u;
     u_saveDir := true; u_usedNames := ∅; u_rows := u_rows u; u_starting := u_starting u |}.

Definition put_row (u : state) (p : page) (fileId : jsstr) (r : row) : state :=
  {| u_page := p; u_status := u_status u; u_receiving := u_receiving u;
     u_saveDir := u_saveDir u; u_usedNames := u_usedNames u;
     u_rows := <[fileId := r]> (u_rows u); u_starting := u_starting u |}.

(** [onFileStart], up to [await createFileSink(..)]. *)
Definition onFileStart (u : state) (fileId name : jsstr) (size : option Z) (mime : jsstr) : state :=
  let '(saveName, used) :=
    if u_saveDir u then default (name, u_usedNames u) (dedupeFilename (u_usedNames u) name)
    else (name, u_usedNames u) in
  {| u_page := u_page u; u_status := "transferReceivingFiles"; u_receiving := true;
     u_saveDir := u_saveDir u; u_usedNames := used; u_rows := u_rows u;
     u_starting := Some {| st_fileId := fileId; st_text := row_label name size;
                           st_saveName := saveName; st_size := size; st_mime := mime |} |}.

(** Its end, once the sink is there. *)
Definition sink_created (u : state) (st : starting) (env : answers) : state :=
  let sink := createFileSink (st_saveName st) (st_mime st) env in
  let large := match st_size st with Some n => BLOB_FALLBACK_WARN_BYTES <? n | None => false end in
  let u := put_row u (u_page u) (st_fileId st)
    {| row_text := st_text st; row_sink := sink; row_received := 0; row_size := st_size st;
       row_done := false; row_cancelHidden := false; row_progress := 0;
       row_status := if bool_decide (mode sink = "blob"%string) && large
                     then "transferLargeFileWarning" else "";
       row_open := None |} in
  {| u_page := u_page u; u_status := u_status u; u_receiving := u_receiving u;
     u_saveDir := u_saveDir u; u_usedNames := u_usedNames u; u_rows := u_rows u;
     u_starting := None |}.

(** [onChunk]: the write, and the counters once it is through. *)
Definition onChunk (u : state) (fileId : jsstr) (plaintext : bytes) : result state :=
  match u_rows u !! fileId with
  | None => Ok u
  | Some r =>
      if row_done r then Ok u
      else
        s ← write (row_sink r) plaintext;
        let received := row_received r + Z.of_nat (length plaintext) in
        Ok (put_row u (u_page u) fileId
              {| row_text := row_text r; row_sink := s; row_received := received;
                 row_size := row_size r; row_done := row_done r;
                 row_cancelHidden := row_cancelHidden r;
                 row_progress := match row_size r with
                                 | Some n => percent received n
                                 | None => 100
                                 end;
                 row_status := row_status r; row_open := row_open r |})
  end.

Definition set_receiving (u : state) (b : bool) (status : string) : state :=
  {| u_page := u_page u; u_status := status; u_receiving := b; u_saveDir := u_saveDir u;
     u_usedNames := u_usedNames u; u_rows := u_rows u; u_starting := u_starting u |}.

(** [onFileComplete]; a failing [close] ends it early. *)
Definition onFileComplete (u : state) (fileId : jsstr) : state :=
  let u := set_receiving u false (u_status u) in
  match u_rows u !! fileId with
  | None => u
  | Some r =>
      match close (row_sink r) (u_page u) with
      | Throw _ =>
          put_row u (u_page u) fileId
            {| row_text := row_text r; row_sink := row_sink r; row_received := row_received r;
               row_size := row_size r; row_done := true; row_cancelHidden := true;
               row_progress := row_progress r; row_status := row_status r;
               row_open := row_open r |}
      | Ok (s, p) =>
          put_row u p fileId
            {| row_text := row_text r; row_sink := s; row_received := row_received r;
               row_size := row_size r; row_done := true; row_cancelHidden := true;
               row_progress := 100;
               row_status := if bool_decide (mode s = "fsa"%string) then "transferSavedToDisk"
                             else "transferDownloaded";
               row_open := match getPreviewUrl s with Some url => Some url | None => row_open r end |}
      end
  end.

(** A row given up with [status]: its sink is aborted. *)
Definition abandon (r : row) (p : page) (status : string) : row * page :=
  let '(s, p) := abort (row_sink r) p in
  ({| row_text := row_text r; row_sink := s; row_received := row_received r;
      row_size := row_size r; row_done := true; row_cancelHidden := true;
      row_progress := row_progress r; row_status := status; row_open := row_open r |}, p).

Definition onAborted (u : state) (fileId : jsstr) (reason : option jsstr) : state :=
  let u := set_receiving u false "transferWaitingForFiles" in
  match u_rows u !! fileId with
  | None => u
  | Some r => let '(r, p) := abandon r (u_page u) (abortStatusText reason) in put_row u p fileId r
  end.

Fixpoint abandon_all (rs : list (jsstr * row)) (u : state) : state :=
  match rs with
  | [] => u
  | (fileId, r) :: rs' =>
      abandon_all rs'
        (if row_done r then u
         else let '(r, p) := abandon r (u_page u) "transferError" in put_row u p fileId r)
  end.

Definition onError (u : state) : state :=
  let u := set_receiving u false "transferError" in
  abandon_all (map_to_list (u_rows u)) u.

Definition isActive (u : state) : bool := u_receiving u.

(** Whole handlers, as [attachReceiver] calls them; what a browser answers for
    the file's sink is an argument. A name or size of another type is not
    modelled. *)
Definition handle (env : answers) (u : state) (c : handler_call) : option state :=
  match c with
  | HFileStart h (Some (JStr name)) (Some (JNum size)) (Some (JStr mime)) =>
      let u := onFileStart u h name (Some size) mime in
      st ← u_starting u; Some (sink_created u st env)
  | HFileStart _ _ _ _ => None
  | HChunk h _ _ p => match onChunk u h p with Ok u => Some u | Throw _ => None end
  | HFileComplete h => Some (onFileComplete u h)
  | HAborted h reason => Some (onAborted u h reason)
  | HError _ => Some (onError u)
  end.

(** *** Lemmas *)

Lemma abort_page s p p' : (abort s p).1 = (abort s p').1.
Proof. by destruct s. Qed.

Lemma abandon_page r p p' status : (abandon r p status).1 = (abandon r p' status).1.
Proof.
  unfold abandon. pose proof (abort_page (row_sink r) p p') as Ha.
  destruct (abort (row_sink r) p), (abort (row_sink r) p'). simpl in *. by subst.
Qed.

Lemma abandon_all_rows rs u k :
  NoDup rs.*1 → (∀ k r, (k, r) ∈ rs → u_rows u !! k = Some r) →
  u_rows (abandon_all rs u) !! k
  = (λ r, if row_done r then r
          else if bool_decide (k ∈ rs.*1) then (abandon r (u_page u) "transferError").1 else r)
      <$> u_rows u !! k.
Proof.
  revert u. induction rs as [|[k0 r0] rs IH]; intros u Hnd Hin.
  - simpl. destruct (u_rows u !! k) as [r|]; simpl; [|done]. by destruct (row_done r).
  - rewrite fmap_cons in *. cbn [abandon_all fst] in *. apply NoDup_cons in Hnd as [Hk0 Hnd].
    set (u1 := if row_done r0 then u else _).
    assert (∀ k, k ≠ k0 → u_rows u1 !! k = u_rows u !! k) as Hother.
    { intros k1 Hne. unfold u1. destruct (row_done r0); [done|].
      destruct (abandon r0 _ _). simpl. by rewrite lookup_insert_ne. }
    rewrite IH; [|done|].
    2: { intros k1 r1 Hr1. rewrite Hother; [apply Hin; by right|].
         intros ->. apply Hk0, list_elem_of_fmap. by exists (k0, r1). }
    assert (u_rows u !! k0 = Some r0) as Hr0 by (apply Hin; left).
    destruct (decide (k = k0)) as [-> | Hne].
    + rewrite Hr0. simpl. unfold u1. destruct (row_done r0) eqn:Hd; [by rewrite Hr0; simpl; rewrite Hd|].
      pose proof (abandon_page r0 (u_page u)) as Hp.
      rewrite (bool_decide_true (k0 ∈ k0 :: rs.*1)) by left.
      destruct (abandon r0 (u_page u) "transferError") as [r1 p1] eqn:E. simpl.
      rewrite lookup_insert_eq. simpl. unfold abandon in E.
      destruct (abort (row_sink r0) (u_page u)). by simplify_eq/=.
    + rewrite (Hother k Hne). destruct (u_rows u !! k) as [r|]; simpl; [|done].
      destruct (row_done r); [done|]. f_equal.
      rewrite (bool_decide_ext (k ∈ k0 :: rs.*1) (k ∈ rs.*1)) by (rewrite elem_of_cons; naive_solver).
      case_bool_decide; [|done]. apply abandon_page.
Qed.

Lemma abandon_all_receiving rs u : u_receiving (abandon_all rs u) = u_receiving u.
Proof.
  revert u. induction rs as [|[k r] rs IH]; intros u; simpl; [done|]. rewrite IH.
  destruct (row_done r); [done|]. by destruct (abandon r _ _).
Qed.

(** An error leaves no file half open: every row that was not finished is
    marked as failed, its cancel button is gone and its sink is aborted - the
    partial file dropped -, and a finished row stays as it is. *)
Theorem error_closes_rows u k r :
  u_rows u !! k = Some r →
  ∃ r', u_rows (onError u) !! k = Some r' ∧ row_done r' = true
    ∧ (row_done r = true → r' = r)
    ∧ (row_done r = false →
         row_status r' = "transferError"%string ∧ row_cancelHidden r' = true
         ∧ row_sink r' = (abort (row_sink r) (u_page u)).1).
Proof.
  intros Hr. unfold onError. cbn [set_receiving u_rows].
  rewrite abandon_all_rows.
  - cbn [set_receiving u_rows u_page]. rewrite Hr. cbn [fmap option_fmap option_map].
    eexists. split; [reflexivity|]. destruct (row_done r) eqn:Hd; [by rewrite Hd|].
    rewrite bool_decide_true.
    2: { apply list_elem_of_fmap. exists (k, r). split; [done|]. by apply elem_of_map_to_list. }
    unfold abandon. destruct (abort (row_sink r) (u_page u)) eqn:E. by simpl; rewrite ?E.
  - apply NoDup_fst_map_to_list.
  - intros k' r' Hin. by apply elem_of_map_to_list in Hin.
Qed.

(** A chunk of a file that was given up, or that never got a row, writes
    nothing and changes nothing. *)
Theorem late_chunk_ignored u k p :
  match u_rows u !! k with Some r => row_done r = true | None => True end →
  onChunk u k p = Ok u.
Proof. intros Hr. unfold onChunk. destruct (u_rows u !! k) as [r|]; [|done]. by rewrite Hr. Qed.

(** When the connection drops (or the file is aborted) while [onFileStart]
    awaits its sink - a save dialog is open -, the row that appears afterwards is
    never finished: nothing is being received any more, yet the row is not done,
    shows no failure, has an open sink and offers a cancel. *)
Theorem drop_while_choosing_file_leaves_row u st env :
  u_starting u = Some st →
  let u' := sink_created (onError u) st env in
  isActive u' = false ∧
  ∃ r, u_rows u' !! st_fileId st = Some r ∧ row_done r = false ∧ row_cancelHidden r = false
       ∧ row_status r ≠ "transferError"%string ∧ collected (row_sink r) [].
Proof.
  intros _ u'. split.
  - unfold u', onError, isActive. simpl. by rewrite abandon_all_receiving.
  - eexists. split; [apply lookup_insert_eq|]. simpl. split_and!; try done.
    + by destruct (_ && _).
    + apply createFileSink_collected.
Qed.

End ReceiverUi.
