(* ===== verification/Delivery.v ===== *)
(** * From the sender's file to the receiver's disk

    The transfer of Link, with the receiver's screen as its handlers and the
    sinks of file-writer.js behind it. *)

From stdpp Require Import base list list_numbers gmap sets strings.
From Stdlib Require Import ZArith Lia.
From S2P Require Import Prelude JsText Hex Json Utf8 Crypto WsClient Frame Sender Receiver.
From S2P Require Import Stream Pacing Link Transfer FileWriter TransferUi.
Open Scope Z_scope.

Section Facts.
Context `{WebCryptoLaws}.
Context (args : send_args) (Hargs : args_ok args).
Context (env : answers).

Local Abbreviation f := (sa_file args).
Local Abbreviation fileId := (sa_fileId args).
Local Abbreviation total := (totalChunks f).
Local Abbreviation hex := (toHex fileId).
Local Abbreviation handle := (ReceiverUi.handle env).

(** The file's row while its chunks come in. *)
Definition collecting (u : ReceiverUi.state) (data : bytes) : Prop :=
  ∃ r, ReceiverUi.u_rows u !! hex = Some r ∧ ReceiverUi.row_done r = false
       ∧ collected (ReceiverUi.row_sink r) data
       ∧ ReceiverUi.row_received r = Z.of_nat (length data).

Lemma handle_start u :
  ∃ u', handle u (start_call args) = Some u' ∧ collecting u' [].
Proof.
  unfold start_call, ReceiverUi.handle, ReceiverUi.onFileStart.
  destruct (if ReceiverUi.u_saveDir u then _ else _) as [saveName used]. simpl.
  eexists. split; [done|]. eexists. split; [apply lookup_insert_eq|]. simpl.
  split_and!; [done|apply createFileSink_collected|done].
Qed.

Lemma handle_chunk u i data :
  collecting u data →
  ∃ u', handle u (chunk_call args i) = Some u' ∧ collecting u' (data ++ chunk_plain args i).
Proof.
  intros (r & Hr & Hd & Hc & Hn). unfold chunk_call, ReceiverUi.handle, ReceiverUi.onChunk.
  rewrite Hr, Hd. destruct (write_collected _ _ (chunk_plain args i) Hc) as (s & -> & Hs & _).
  eexists. split; [done|]. eexists. split; [apply lookup_insert_eq|]. simpl.
  split_and!; [done|done|]. rewrite Hn, length_app. lia.
Qed.

Lemma handle_chunks l u data :
  collecting u data →
  ∃ u', run handle (map (chunk_call args) l) u = Some u'
        ∧ collecting u' (data ++ concat (map (chunk_plain args) l)).
Proof.
  revert u data. induction l as [|i l IH]; intros u data Hu; cbn [map run concat].
  - exists u. by rewrite app_nil_r.
  - destruct (handle_chunk u i data Hu) as (u1 & -> & Hu1). cbn [mbind option_bind].
    destruct (IH u1 _ Hu1) as (u2 & -> & Hu2). exists u2. by rewrite app_assoc.
Qed.

Lemma handle_story u :
  ∃ u' r, run handle (story args) u = Some u'
    ∧ ReceiverUi.u_rows u' !! hex = Some r
    ∧ saved (ReceiverUi.row_sink r) (ReceiverUi.u_page u') = Some (f_content f)
    ∧ ReceiverUi.row_done r = true ∧ ReceiverUi.row_progress r = 100
    ∧ ReceiverUi.row_received r = f_size f ∧ ReceiverUi.isActive u' = false.
Proof.
  unfold story. cbn [run]. destruct (handle_start u) as (u1 & -> & Hu1). cbn [mbind option_bind].
  rewrite run_app. destruct (handle_chunks (seqZ 0 total) u1 [] Hu1) as (u2 & -> & Hu2).
  cbn [mbind option_bind run]. simpl in Hu2.
  assert (concat (map (chunk_plain args) (seqZ 0 total)) = f_content f) as Hall.
  { pose proof (total_pos f). pose proof (total_covers f).
    replace total with (Z.of_nat (Z.to_nat total)) by lia.
    rewrite plain_concat by lia. apply take_ge. unfold f_size in *. lia. }
  rewrite Hall in Hu2. destruct Hu2 as (r & Hr & Hd & Hc & Hn).
  unfold ReceiverUi.handle, ReceiverUi.onFileComplete. cbn [ReceiverUi.set_receiving ReceiverUi.u_rows].
  rewrite Hr. cbn [ReceiverUi.set_receiving ReceiverUi.u_page].
  destruct (close_saved _ _ (ReceiverUi.u_page u2) Hc) as (s & p & -> & Hs).
  eexists _, _. split; [reflexivity|]. split; [apply lookup_insert_eq|]. simpl.
  split_and!; [done..|by rewrite Hn|done].
Qed.

(** End to end: when nothing goes wrong, whatever the schedule and whatever
    the browser answers for the sink, a transfer that has run to its end leaves
    the receiver's user with the sender's file, byte for byte - on disk or
    downloaded -, its row finished at 100 %, and the sender's promise resolved. *)
Theorem file_delivered es l p :
  Forall (λ e, calm_link e = true) es → run (link_step args) es init_link = Some l →
  (∀ e l', calm_link e = true → link_step args l e ≠ Some l') →
  s_pc (l_tx l) = PDone (Ok ()) ∧
  ∃ u r, run handle (r_calls (l_rx l)) (ReceiverUi.init p) = Some u
    ∧ ReceiverUi.u_rows u !! hex = Some r
    ∧ saved (ReceiverUi.row_sink r) (ReceiverUi.u_page u) = Some (f_content f)
    ∧ ReceiverUi.row_done r = true ∧ ReceiverUi.row_progress r = 100
    ∧ ReceiverUi.row_received r = f_size f ∧ ReceiverUi.isActive u = false.
Proof.
  intros Hok Hrun Hq. destruct (clean_run_inv args Hargs es l Hok Hrun) as [Hl _].
  destruct (quiet_done args l Hq Hl) as (Hpc & Hcalls & _).
  split; [done|]. rewrite Hcalls. apply handle_story.
Qed.

End Facts.
