(* ===== verification/QrEncode.v ===== *)
(** * qr-encode.js: drawing a QR code

    The encoder is a vendored library: what it makes of a text is an argument.
    A canvas is its size and the rectangles painted on it, in order. *)

From stdpp Require Import base list list_numbers sets.
From Stdlib Require Import ZArith Lia.
From S2P Require Import Prelude.
Open Scope Z_scope.

Definition QUIET_ZONE_MODULES : Z := 4.

Inductive color := White | Black.

#[export] Instance color_eq : EqDecision color.
Proof. solve_decision. Defined.

(** [fillRect] with the [fillStyle] of the time. *)
Record rect := { r_x : Z; r_y : Z; r_w : Z; r_h : Z; r_color : color }.

Record canvas := { c_width : Z; c_height : Z; c_painted : list rect }.

(** What the library made: [getModuleCount] and [isDark(row, col)]. *)
Record qr := { moduleCount : Z; isDark : Z → Z → bool }.

(** [Math.max(1, Math.floor(targetSizePx / ..))]. *)
Definition cell_size (q : qr) (targetSizePx : Z) : Z :=
  Z.max 1 (targetSizePx / (moduleCount q + QUIET_ZONE_MODULES * 2)).

Definition canvas_size (q : qr) (targetSizePx : Z) : Z :=
  cell_size q targetSizePx * (moduleCount q + QUIET_ZONE_MODULES * 2).

Definition module_rect (cellSize row col : Z) : rect :=
  {| r_x := (col + QUIET_ZONE_MODULES) * cellSize; r_y := (row + QUIET_ZONE_MODULES) * cellSize;
     r_w := cellSize; r_h := cellSize; r_color := Black |}.

(** The two loops. *)
Definition modules (q : qr) (cellSize : Z) : list rect :=
  row ← seqZ 0 (moduleCount q);
  col ← seqZ 0 (moduleCount q);
  if isDark q row col then [module_rect cellSize row col] else [].

(** [make] is the library on the text; it throws if the text is too long. *)
Definition renderQR (make : jsstr → result qr) (text : jsstr) (targetSizePx : Z) : result canvas :=
  q ← make text;
  let cellSize := cell_size q targetSizePx in
  let size := canvas_size q targetSizePx in
  Ok {| c_width := size; c_height := size;
        c_painted := {| r_x := 0; r_y := 0; r_w := size; r_h := size; r_color := White |}
                     :: modules q cellSize |}.

Definition covers (x y : Z) (r : rect) : Prop :=
  r_x r ≤ x < r_x r + r_w r ∧ r_y r ≤ y < r_y r + r_h r.

#[export] Instance covers_dec x y r : Decision (covers x y r).
Proof. unfold covers. apply _. Defined.

(** The colour of a pixel: that of the last rectangle over it; [None] outside
    the canvas and where nothing was painted. *)
Definition pixel (c : canvas) (x y : Z) : option color :=
  if bool_decide (0 ≤ x < c_width c ∧ 0 ≤ y < c_height c)
  then r_color <$> last (filter (covers x y) (c_painted c))
  else None.

(** ** Lemmas *)

Lemma cell_size_pos q t : 0 < cell_size q t.
Proof. unfold cell_size. lia. Qed.

(** A pixel is in one module. *)
Lemma covers_module x y cell row col :
  0 < cell →
  covers x y (module_rect cell row col) ↔ col = x / cell - QUIET_ZONE_MODULES ∧ row = y / cell - QUIET_ZONE_MODULES.
Proof.
  intros Hc. unfold covers, module_rect. simpl.
  assert (∀ z i, (i + QUIET_ZONE_MODULES) * cell ≤ z < (i + QUIET_ZONE_MODULES) * cell + cell
            ↔ i = z / cell - QUIET_ZONE_MODULES) as Hz.
  { intros z i. split.
    - intros Hi. assert (z / cell = i + QUIET_ZONE_MODULES); [|lia].
      symmetry. apply (Z.div_unique_pos _ _ _ (z - (i + QUIET_ZONE_MODULES) * cell)); lia.
    - intros ->. pose proof (Z.div_mod z cell). pose proof (Z.mod_pos_bound z cell). lia. }
  rewrite !Hz. tauto.
Qed.

Lemma elem_of_modules q cell r :
  r ∈ modules q cell ↔ ∃ row col, 0 ≤ row < moduleCount q ∧ 0 ≤ col < moduleCount q
    ∧ isDark q row col = true ∧ r = module_rect cell row col.
Proof.
  unfold modules. rewrite list_elem_of_bind. split.
  - intros (row&Hr&Hrow). apply list_elem_of_bind in Hr as (col&Hr&Hcol).
    apply elem_of_seqZ in Hrow, Hcol. destruct (isDark q row col) eqn:E; [|set_solver].
    apply list_elem_of_singleton in Hr. exists row, col. split_and!; lia || done.
  - intros (row&col&Hrow&Hcol&Hd&->). exists row. split; [|apply elem_of_seqZ; lia].
    apply list_elem_of_bind. exists col. split; [|apply elem_of_seqZ; lia].
    rewrite Hd. by apply list_elem_of_singleton.
Qed.

Lemma modules_black q cell : Forall (λ r, r_color r = Black) (modules q cell).
Proof. apply Forall_forall. intros r Hr. by apply elem_of_modules in Hr as (?&?&_&_&_&->). Qed.

(** The code as a picture: the module a pixel is in, and none in the margin. *)
Definition module_at (q : qr) (cell x y : Z) : bool :=
  let col := x / cell - QUIET_ZONE_MODULES in
  let row := y / cell - QUIET_ZONE_MODULES in
  bool_decide (0 ≤ row < moduleCount q ∧ 0 ≤ col < moduleCount q) && isDark q row col.

(** C33: The canvas shows the code the library made: it is a square of whole
    modules, no larger than the target when the code and its margin fit in it;
    every pixel of it is painted, black exactly where the module it is in is
    dark, and white in the margin of four modules around the code. *)
Theorem renderQR_shows make text target q :
  make text = Ok q → 0 ≤ moduleCount q →
  ∃ c, renderQR make text target = Ok c
    ∧ c_width c = c_height c
    ∧ c_width c = cell_size q target * (moduleCount q + 2 * QUIET_ZONE_MODULES)
    ∧ (moduleCount q + 2 * QUIET_ZONE_MODULES ≤ target → c_width c ≤ target)
    ∧ (∀ x y, 0 ≤ x < c_width c → 0 ≤ y < c_height c →
         pixel c x y = Some (if module_at q (cell_size q target) x y then Black else White)).
Proof.
  intros Hm Hn. unfold renderQR. rewrite Hm. eexists. split; [reflexivity|]. cbn [c_width c_height].
  pose proof (cell_size_pos q target) as Hc. unfold canvas_size.
  split_and!; [done|unfold QUIET_ZONE_MODULES in *; lia| |].
  - intros Ht. unfold cell_size. unfold QUIET_ZONE_MODULES in *.
    pose proof (Z.mul_div_le target (moduleCount q + 4 * 2)).
    assert (1 ≤ target / (moduleCount q + 4 * 2)) by (apply Z.div_le_lower_bound; lia). lia.
  - intros x y Hx Hy. unfold pixel. cbn [c_width c_height c_painted].
    rewrite bool_decide_true by done. rewrite filter_cons, decide_True by (split; simpl; lia).
    destruct (filter (covers x y) (modules q (cell_size q target))) as [|r l] eqn:E.
    + simpl. destruct (module_at q _ x y) eqn:Em; [|done]. exfalso.
      apply andb_prop in Em as [Hb Hd]. apply bool_decide_eq_true in Hb as [Hrow Hcol].
      assert (module_rect (cell_size q target) (y / cell_size q target - QUIET_ZONE_MODULES)
                (x / cell_size q target - QUIET_ZONE_MODULES) ∈ @nil rect); [|set_solver].
      rewrite <- E. apply list_elem_of_filter. split; [by apply covers_module|].
      apply elem_of_modules. eauto 8.
    + rewrite last_cons_cons. destruct (last (r :: l)) as [r'|] eqn:El; [|by apply last_None in El].
      assert (r' ∈ r :: l) as Hr by (by apply last_Some_elem_of).
      rewrite <- E in Hr. apply list_elem_of_filter in Hr as [Hcov Hr].
      apply elem_of_modules in Hr as (row&col&Hrow&Hcol&Hd&->).
      apply covers_module in Hcov as [-> ->]; [|done]. simpl. unfold module_at.
      by rewrite bool_decide_true, Hd.
Qed.
