(* ===== verification/PakeLoad.v ===== *)
(** * pake.js: loading the WASM module

    [ensureLoaded] runs once and keeps its promise; [waitFor] polls for the
    object the module installs. An event is the awaited step settling, a poll of
    the timer, or a call of one of the exported functions. *)

From stdpp Require Import base list list_numbers sets strings.
From Stdlib Require Import ZArith Lia.
From S2P Require Import Prelude.
Open Scope Z_scope.

Definition WAIT_TIMEOUT_MS : Z := 5000.
Definition POLL_INTERVAL_MS : Z := 10.

(** One run of [poll] at the time [now]: [None] asks for another. *)
Definition poll (start now : Z) (present : bool) : option (result unit) :=
  if present then Some (Ok ())
  else if WAIT_TIMEOUT_MS <? now - start then Some (Throw (ErrOther "timed out waiting for WASM PAKE module"%string))
  else None.

(** [waitFor] started at [start]: the times of its polls, and whether the object
    is there at each. [None]: it is still waiting. *)
Fixpoint waitFor (start : Z) (polls : list (Z * bool)) : option (result unit) :=
  match polls with
  | [] => None
  | (now, present) :: l =>
      match poll start now present with Some r => Some r | None => waitFor start l end
  end.

(** [setTimeout(poll, 10)]: a poll is that much later than the one before it,
    or more. *)
Fixpoint spaced (t : Z) (polls : list (Z * bool)) : Prop :=
  match polls with
  | [] => True
  | (now, _) :: l => t ≤ now ∧ spaced (now + POLL_INTERVAL_MS) l
  end.

(** ** ensureLoaded *)

(** The awaits of the loading function, and how it ended. *)
Inductive loading :=
| Importing | Fetching | Instantiating | Polling (start : Z) | Loaded | Failed (e : jserror).

Record loader := { readyPromise : option loading; goInstanceStarted : bool }.

Definition init_loader : loader := {| readyPromise := None; goInstanceStarted := false |}.

Inductive load_event :=
| Call                                     (* init, update, sessionKey or free *)
| Settles (r : result unit) (now : Z) (present : bool)
    (* the awaited step; the clock and the object, should the first poll run *)
| Polls (now : Z) (present : bool).        (* the timer of waitFor *)

Definition with_ready (l : loader) (s : loading) (started : bool) : loader :=
  {| readyPromise := Some s; goInstanceStarted := started |}.

(** [waitFor]'s state after a poll. *)
Definition polled (start now : Z) (present : bool) : loading :=
  match poll start now present with
  | Some (Ok _) => Loaded
  | Some (Throw e) => Failed e
  | None => Polling start
  end.

Definition load_step (l : loader) (e : load_event) : option loader :=
  match e, readyPromise l with
  | Call, None => Some (with_ready l Importing (goInstanceStarted l))
  | Call, Some _ => Some l
  | Settles (Throw x) _ _, Some (Importing | Fetching | Instantiating) =>
      Some (with_ready l (Failed x) (goInstanceStarted l))
  | Settles (Ok _) _ _, Some Importing => Some (with_ready l Fetching (goInstanceStarted l))
  | Settles (Ok _) _ _, Some Fetching => Some (with_ready l Instantiating (goInstanceStarted l))
  | Settles (Ok _) now present, Some Instantiating => Some (with_ready l (polled now now present) true)
  | Polls now present, Some (Polling start) =>
      Some (with_ready l (polled start now present) (goInstanceStarted l))
  | _, _ => None
  end.

(** What a call made now waits for: [None] while the loading runs. *)
Definition ready (l : loader) : option (result unit) :=
  match readyPromise l with
  | Some Loaded => Some (Ok ())
  | Some (Failed e) => Some (Throw e)
  | _ => None
  end.

(** ** Theorems *)

Lemma waitFor_spaced start t polls :
  spaced t polls → WAIT_TIMEOUT_MS < t - start + POLL_INTERVAL_MS * (Z.of_nat (length polls) - 1) →
  polls ≠ [] → is_Some (waitFor start polls).
Proof.
  revert t. induction polls as [|[now present] l IH]; intros t Hs Ht Hn; [done|].
  simpl in Hs. destruct Hs as [Hnow Hs]. simpl. unfold poll.
  destruct present; [by eexists|]. destruct (Z.ltb_spec WAIT_TIMEOUT_MS (now - start)); [by eexists|].
  unfold POLL_INTERVAL_MS, WAIT_TIMEOUT_MS in *. simpl length in Ht.
  destruct l as [|q l]; [simpl in Ht; lia|]. apply (IH (now + 10)); [done| |done].
  simpl length in *. lia.
Qed.

Lemma waitFor_resolves start polls :
  waitFor start polls = Some (Ok ()) → ∃ now, (now, true) ∈ polls.
Proof.
  induction polls as [|[now present] l IH]; [done|]. simpl. unfold poll.
  destruct present; [intros; exists now; by left|]. destruct (_ <? _); [done|].
  intros Hw. destruct (IH Hw) as [n Hn]. exists n. by right.
Qed.

(** [waitFor] always ends: with a poll every ten milliseconds or less often,
    it has settled by its 502nd poll, however long the module takes - and it
    resolves only if the module was there at a poll. *)
Theorem waitFor_ends start polls :
  spaced start polls → length polls = 502%nat →
  ∃ r, waitFor start polls = Some r ∧ (r = Ok () → ∃ now, (now, true) ∈ polls).
Proof.
  intros Hs Hl. destruct (waitFor_spaced start start polls Hs) as [r Hr].
  - rewrite Hl. unfold WAIT_TIMEOUT_MS, POLL_INTERVAL_MS. lia.
  - by destruct polls.
  - exists r. split; [done|]. intros ->. by eapply waitFor_resolves.
Qed.

(** A loading that failed is never tried again: once the import, the fetch,
    the instantiation or the wait has failed, every later call of an exported
    function fails with the same error, whatever happens - a network that is
    back does not bring pairing by code back until the page is loaded again. *)
Theorem load_failure_sticks l e es l' :
  ready l = Some (Throw e) → run load_step es l = Some l' →
  ready l' = Some (Throw e) ∧ Forall (λ x, x = Call) es.
Proof.
  intros Hr. revert l' . induction es as [|x es IH] using rev_ind; intros l' Hrun.
  { simpl in Hrun. by simplify_eq. }
  rewrite run_app in Hrun. destruct (run load_step es l) as [m|]; simpl in Hrun; [|done].
  destruct (IH m eq_refl) as [Hm Hf]. unfold ready in Hm.
  destruct (readyPromise m) as [[]|] eqn:E; try done. simplify_eq.
  destruct x; simpl in Hrun; rewrite E in Hrun; simplify_eq/=; [|by destruct r].
  unfold ready. rewrite E. split; [done|]. apply Forall_app. split; [done|by apply Forall_singleton].
Qed.
