(* ===== verification/Pake.v ===== *)
(** * pake.js and the key exchange of pairing.js

    schollz/pake is a third-party library: it is the class [PakeLib]. wasm/pake
    keeps its instances by handle; pake.js calls it; [runPakeExchange] of
    pairing.js runs it over a paired socket, waiting for the peer's messages
    with [waitForType], whose listener is attached only when it is called. *)

From stdpp Require Import base list list_numbers gmap sets strings.
From Stdlib Require Import ZArith Lia.
From S2P Require Import Prelude JsText Hex Json Utf8 Crypto WsClient Receiver.
Open Scope Z_scope.

(** ** The library and its WASM wrapper *)

Class PakeLib := {
  pake_t : Type;
  InitCurve : jsstr → Z → Z → result pake_t;      (* password role randomness *)
  Bytes : pake_t → jsstr;
  Update : pake_t → jsstr → result pake_t;
  SessionKey : pake_t → result bytes
}.

Definition CONFIRM_INFO : bytes := utf8_encode (js "quicksend-pake-confirm").

(** [diff |= a[i] ^ b[i]] over equal lengths. *)
Fixpoint diff_loop (diff : Z) (a b : bytes) : Z :=
  match a, b with
  | x :: a', y :: b' => diff_loop (Z.lor diff (Z.lxor x y)) a' b'
  | _, _ => diff
  end.

Definition bytesEqual (a b : bytes) : bool :=
  if negb (Nat.eqb (length a) (length b)) then false else diff_loop 0 a b =? 0.

Section Pake.
Context `{WebCrypto, PakeLib}.

(** The instances of wasm/pake, by handle. *)
Record wasm := { nextID : Z; byHandle : gmap Z pake_t }.

Definition jsInit (w : wasm) (password : jsstr) (role rand : Z) : wasm * result (Z * jsstr) :=
  match InitCurve password role rand with
  | Throw e => (w, Throw e)
  | Ok p =>
      let handle := nextID w + 1 in
      ({| nextID := handle; byHandle := <[handle := p]> (byHandle w) |},
       Ok (handle, if role =? 0 then Bytes p else []))
  end.

(** The response is empty for the initiator. *)
Definition jsUpdate (w : wasm) (role handle : Z) (message : jsstr) : wasm * result jsstr :=
  match byHandle w !! handle with
  | None => (w, Throw (ErrOther "unknown pake handle"))
  | Some p =>
      match Update p message with
      | Throw e => (w, Throw e)
      | Ok p => ({| nextID := nextID w; byHandle := <[handle := p]> (byHandle w) |},
                 Ok (if role =? 1 then Bytes p else []))
      end
  end.

Definition jsSessionKey (w : wasm) (handle : Z) : result jsstr :=
  match byHandle w !! handle with
  | None => Throw (ErrOther "unknown pake handle")
  | Some p => key ← SessionKey p; Ok (toHex key)
  end.

Definition jsFree (w : wasm) (handle : Z) : wasm :=
  {| nextID := nextID w; byHandle := delete handle (byHandle w) |}.

(** pake.js: an error in the result is thrown; [sessionKey] decodes the
    hexadecimal text. *)
Definition init (w : wasm) (password : jsstr) (role rand : Z) : wasm * result (Z * jsstr) :=
  jsInit w password role rand.
Definition update (w : wasm) (role handle : Z) (message : jsstr) : wasm * result jsstr :=
  jsUpdate w role handle message.
Definition free (w : wasm) (handle : Z) : wasm := jsFree w handle.
Definition sessionKey (w : wasm) (handle : Z) : result bytes :=
  hex ← jsSessionKey w handle; Ok (fromHex hex).

Definition computeConfirmTag (sessionKeyBytes : bytes) : bytes :=
  hmac_sha256 sessionKeyBytes CONFIRM_INFO.

Definition verifyConfirmTag (sessionKeyBytes receivedTag : bytes) : bool :=
  bytesEqual (computeConfirmTag sessionKeyBytes) receivedTag.

(** ** runPakeExchange *)

Definition pake_msg (message : jsstr) : data :=
  sendEnvelope "pake_msg" (JObj [(js "message", JStr message)]).

Definition pake_confirm (tag : bytes) : data :=
  sendEnvelope "pake_confirm" (JObj [(js "tagHex", JStr (toHex tag))]).

(** A received value as Go's [js.Value.String] gives it: a value that is not a
    string gives a text in angle brackets. *)
Definition go_string (v : option json) : jsstr :=
  match v with
  | None => js "<undefined>"
  | Some (JStr s) => s
  | Some JNull => js "<null>"
  | Some (JBool b) => js "<boolean: " ++ stringify (JBool b) ++ js ">"
  | Some (JNum z) => js "<number: " ++ stringify (JNum z) ++ js ">"
  | Some (JFloat lexeme) => js "<number: " ++ lexeme ++ js ">"
  | Some (JArr _) | Some (JObj _) => js "<object>"
  end.

(** The awaits of the function. *)
Inductive xpc :=
| XInit
| XWaitMsg (handle : Z)
| XUpdate (handle : Z) (message : jsstr)
| XKey (handle : Z)
| XTag (handle : Z) (key : bytes)
| XWaitConfirm (handle : Z) (key : bytes)
| XVerify (handle : Z) (key peerTag : bytes)
| XFree (handle : Z) (key : bytes) (ok : bool)
| XDone (r : result bytes).

Record peer := { x_pc : xpc; x_wasm : wasm; x_sent : list data }.

Definition init_peer : peer :=
  {| x_pc := XInit; x_wasm := {| nextID := 0; byHandle := ∅ |}; x_sent := [] |}.

Definition xgo (p : peer) (pc : xpc) : peer :=
  {| x_pc := pc; x_wasm := x_wasm p; x_sent := x_sent p |}.

Definition xsend (p : peer) (d : data) : peer :=
  {| x_pc := x_pc p; x_wasm := x_wasm p; x_sent := x_sent p ++ [d] |}.

Definition set_wasm (p : peer) (w : wasm) : peer :=
  {| x_pc := x_pc p; x_wasm := w; x_sent := x_sent p |}.

(** One side of the exchange: its code, its role and its randomness. *)
Record side := { x_code : jsstr; x_role : Z; x_rand : Z }.

(** The awaited promise settles. *)
Definition xresume (s : side) (p : peer) : option peer :=
  match x_pc p with
  | XInit =>
      let '(w, r) := init (x_wasm p) (x_code s) (x_role s) (x_rand s) in
      let p := set_wasm p w in
      match r with
      | Throw e => Some (xgo p (XDone (Throw e)))
      | Ok (handle, message) =>
          let p := if x_role s =? 0 then xsend p (pake_msg message) else p in
          Some (xgo p (XWaitMsg handle))
      end
  | XUpdate handle message =>
      let '(w, r) := update (x_wasm p) (x_role s) handle message in
      let p := set_wasm p w in
      match r with
      | Throw e => Some (xgo p (XDone (Throw e)))
      | Ok response =>
          let p := if x_role s =? 1 then xsend p (pake_msg response) else p in
          Some (xgo p (XKey handle))
      end
  | XKey handle =>
      match sessionKey (x_wasm p) handle with
      | Throw e => Some (xgo p (XDone (Throw e)))
      | Ok key => Some (xgo p (XTag handle key))
      end
  | XTag handle key =>
      Some (xgo (xsend p (pake_confirm (computeConfirmTag key))) (XWaitConfirm handle key))
  | XVerify handle key peerTag => Some (xgo p (XFree handle key (verifyConfirmTag key peerTag)))
  | XFree handle key ok =>
      Some (xgo (set_wasm p (free (x_wasm p) handle))
              (XDone (if ok then Ok key else Throw ErrCodeMismatch)))
  | _ => None
  end.

(** A message arrives: only the listener [waitForType] has attached, if any,
    looks at it. *)
Definition xmessage (p : peer) (d : data) : peer :=
  match received d with
  | None => p
  | Some env =>
      match x_pc p with
      | XWaitMsg handle =>
          if has_type env "pake_msg"
          then match payload_get "message" (jget "payload" env) with
               | Throw e => xgo p (XDone (Throw e))
               | Ok v => xgo p (XUpdate handle (go_string v))
               end
          else p
      | XWaitConfirm handle key =>
          if has_type env "pake_confirm"
          then match payload_get "tagHex" (jget "payload" env) ≫= fromHexValue with
               | Throw e => xgo p (XDone (Throw e))
               | Ok tag => xgo p (XVerify handle key tag)
               end
          else p
      | _ => p
      end
  end.

(** The host (role 0) and the guest (role 1) over the relay, each side's
    messages in order. *)
Record exchange := { x_host : peer; x_guest : peer; x_toGuest : nat; x_toHost : nat }.

Inductive xevent := HostResumes | GuestResumes | ToGuest | ToHost.

Definition init_exchange : exchange :=
  {| x_host := init_peer; x_guest := init_peer; x_toGuest := 0; x_toHost := 0 |}.

Definition xstep (host guest : side) (x : exchange) (e : xevent) : option exchange :=
  match e with
  | HostResumes =>
      p ← xresume host (x_host x);
      Some {| x_host := p; x_guest := x_guest x; x_toGuest := x_toGuest x; x_toHost := x_toHost x |}
  | GuestResumes =>
      p ← xresume guest (x_guest x);
      Some {| x_host := x_host x; x_guest := p; x_toGuest := x_toGuest x; x_toHost := x_toHost x |}
  | ToGuest =>
      d ← x_sent (x_host x) !! x_toGuest x;
      Some {| x_host := x_host x; x_guest := xmessage (x_guest x) d;
              x_toGuest := S (x_toGuest x); x_toHost := x_toHost x |}
  | ToHost =>
      d ← x_sent (x_guest x) !! x_toHost x;
      Some {| x_host := xmessage (x_host x) d; x_guest := x_guest x;
              x_toGuest := x_toGuest x; x_toHost := S (x_toHost x) |}
  end.

(** A peer is waiting for a message: it would take one that arrives now. *)
Definition waiting (p : peer) : bool :=
  match x_pc p with XWaitMsg _ | XWaitConfirm _ _ => true | _ => false end.

End Pake.

(** ** Lemmas *)

Lemma diff_loop_zero d a b :
  0 ≤ d → bytes_ok a → bytes_ok b → length a = length b →
  0 ≤ diff_loop d a b ∧ (diff_loop d a b = 0 ↔ d = 0 ∧ a = b).
Proof.
  intros Hd Ha. revert d b Hd. induction Ha as [|x a Hx Ha IH]; intros d [|y b] Hd Hb Hl;
    try done; simpl; [naive_solver|].
  apply Forall_cons in Hb as [Hy Hb]. unfold is_byte in *.
  assert (0 ≤ Z.lor d (Z.lxor x y)) as Hn.
  { apply Z.lor_nonneg. split; [done|]. apply Z.lxor_nonneg. lia. }
  destruct (IH (Z.lor d (Z.lxor x y)) b Hn Hb) as [H1 H2]; [simpl in Hl; lia|].
  split; [done|]. rewrite H2, Z.lor_eq_0_iff, Z.lxor_eq_0_iff. naive_solver.
Qed.

(** [bytesEqual], which looks at every byte whatever it finds, decides
    equality of two byte arrays. *)
Lemma bytesEqual_spec a b : bytes_ok a → bytes_ok b → bytesEqual a b = true ↔ a = b.
Proof.
  intros Ha Hb. unfold bytesEqual. destruct (Nat.eqb_spec (length a) (length b)) as [Hl|Hl]; simpl.
  - destruct (diff_loop_zero 0 a b) as [_ Heq]; [lia|done..|]. rewrite Z.eqb_eq, Heq. naive_solver.
  - split; [done|]. by intros ->.
Qed.

(** Messages of the library are JSON texts, so they survive the envelope. *)
Class PakeLaws `{PakeLib} := { Bytes_unit p : Forall unit_ok (Bytes p) }.

Section Exchange.
Context `{WebCryptoLaws, PakeLaws}.
Context (host guest : side) (Hhost : x_role host = 0) (Hguest : x_role guest = 1).

Local Abbreviation tag := computeConfirmTag.

Lemma tag_ok k : bytes_ok (tag k).
Proof. apply hmac_ok. Qed.

Lemma received_pake_msg m :
  Forall unit_ok m → received (pake_msg m) = Some (envelope "pake_msg" (JObj [(js "message", JStr m)])).
Proof. intros Hm. apply received_sendEnvelope, single_wf, Hm. Qed.

Lemma received_pake_confirm t :
  bytes_ok t →
  received (pake_confirm t) = Some (envelope "pake_confirm" (JObj [(js "tagHex", JStr (toHex t))])).
Proof. intros Ht. apply received_sendEnvelope, single_wf, toHex_unit, Ht. Qed.

Lemma pake_confirm_inj t u : bytes_ok t → bytes_ok u → pake_confirm t = pake_confirm u → t = u.
Proof.
  intros Ht Hu He. apply (f_equal received) in He.
  rewrite !received_pake_confirm in He by done.
  apply (f_equal (λ o : option json, v ← o; p ← jget "payload" v; jget "tagHex" p)) in He.
  simpl in He.
  injection He as He. by apply toHex_inj.
Qed.

Lemma pake_msg_confirm m t : Forall unit_ok m → bytes_ok t → pake_msg m ≠ pake_confirm t.
Proof.
  intros Hm Ht He.
  apply sendEnvelope_type in He; [discriminate|by apply single_wf|by apply single_wf, toHex_unit].
Qed.

(** *** What the two sides may hold *)

Definition sent_key (pc : xpc) (k : bytes) : Prop :=
  match pc with
  | XWaitConfirm _ k' | XVerify _ k' _ | XFree _ k' _ | XDone (Ok k') => k = k'
  | XDone (Throw _) => True
  | _ => False
  end.

Definition log_ok (p : peer) : Prop :=
  Forall (λ d, (∃ m, Forall unit_ok m ∧ d = pake_msg m)
               ∨ ∃ k, d = pake_confirm (tag k) ∧ sent_key (x_pc p) k) (x_sent p).

Definition checked (p q : peer) : Prop :=
  match x_pc p with
  | XVerify _ _ t => ∃ k', pake_confirm (tag k') ∈ x_sent q ∧ t = tag k'
  | XFree _ k true | XDone (Ok k) => ∃ k', pake_confirm (tag k') ∈ x_sent q ∧ tag k = tag k'
  | _ => True
  end.

Lemma log_ok_impl p p' :
  log_ok p → x_sent p' = x_sent p → (∀ k, sent_key (x_pc p) k → sent_key (x_pc p') k) → log_ok p'.
Proof.
  intros Hp Hs Hk. unfold log_ok. rewrite Hs. eapply Forall_impl; [exact Hp|]. simpl.
  intros d [Hm|(k & -> & Hkey)]; [by left|right; eauto].
Qed.

Lemma log_ok_go p pc :
  log_ok p → (∀ k, sent_key (x_pc p) k → sent_key pc k) → log_ok (xgo p pc).
Proof. intros Hp Hk. by apply (log_ok_impl p). Qed.

Lemma log_ok_send p d :
  log_ok p → ((∃ m, Forall unit_ok m ∧ d = pake_msg m)
              ∨ ∃ k, d = pake_confirm (tag k) ∧ sent_key (x_pc p) k) → log_ok (xsend p d).
Proof. intros Hp Hd. apply Forall_app. split; [done|]. by apply Forall_singleton. Qed.

Lemma log_ok_pake_msg p w m :
  log_ok p → Forall unit_ok m → log_ok (xsend (set_wasm p w) (pake_msg m)).
Proof.
  intros Hp Hm. apply log_ok_send; [by apply (log_ok_impl p)|]. left. by exists m.
Qed.

Lemma xresume_log s p p' : log_ok p → xresume s p = Some p' → log_ok p'.
Proof.
  intros Hp Hr. unfold xresume in Hr. destruct (x_pc p) eqn:E; try done.
  - destruct (init _ _ _ _) as [w [[handle m]|e]] eqn:Hj; simplify_eq/=.
    + apply log_ok_go; [|case_match; simpl; by rewrite E].
      case_match; [|by apply (log_ok_impl p)]. apply log_ok_pake_msg; [done|].
      unfold init, jsInit in Hj. repeat case_match; simplify_eq; first [apply Bytes_unit|constructor].
    + apply (log_ok_impl p); [done..|]. by rewrite E.
  - destruct (update _ _ _ _) as [w [m|e]] eqn:Hj; simplify_eq/=.
    + apply log_ok_go; [|case_match; simpl; by rewrite E].
      case_match; [|by apply (log_ok_impl p)]. apply log_ok_pake_msg; [done|].
      unfold update, jsUpdate in Hj. repeat case_match; simplify_eq; first [apply Bytes_unit|constructor].
    + apply (log_ok_impl p); [done..|]. by rewrite E.
  - case_match; simplify_eq/=; (apply (log_ok_impl p); [done..|]); by rewrite E.
  - simplify_eq. unfold log_ok. simpl. apply Forall_app. split.
    + eapply Forall_impl; [exact Hp|]. rewrite E. simpl.
      intros d [Hm|(k & -> & [])]; by left.
    + apply Forall_singleton. right. by exists key.
  - simplify_eq. apply log_ok_go; [done|]. by rewrite E.
  - simplify_eq. apply log_ok_go; [by apply (log_ok_impl p)|]. simpl. rewrite E. by destruct ok.
Qed.

Lemma xmessage_log p d : log_ok p → log_ok (xmessage p d).
Proof.
  intros Hp. unfold xmessage. repeat case_match; try done; (apply log_ok_go; [done|]);
    by repeat match goal with E : x_pc p = _ |- _ => rewrite E end.
Qed.

Lemma xresume_sent s p p' : xresume s p = Some p' → x_sent p `prefix_of` x_sent p'.
Proof.
  unfold xresume. intros Hr. repeat (case_match; simplify_eq/=);
    first [done|by apply prefix_app_r].
Qed.

Lemma checked_mono p q q' : checked p q → x_sent q `prefix_of` x_sent q' → checked p q'.
Proof.
  intros Hc [l Hl]. unfold checked in *. rewrite Hl.
  destruct (x_pc p) as [| | | | | |h k t|h k [|]|[k|]]; try done;
    destruct Hc as (k' & Hin & Ht); exists k'; (split; [|done]); apply elem_of_app; by left.
Qed.

Lemma xresume_checked s p p' q : checked p q → xresume s p = Some p' → checked p' q.
Proof.
  intros Hc Hr. unfold xresume in Hr. unfold checked in *.
  destruct (x_pc p) as [|h|h m|h|h k|h k|h k t|h k ok|r] eqn:E; try done.
  - repeat (case_match; simplify_eq/=); done.
  - repeat (case_match; simplify_eq/=); done.
  - repeat (case_match; simplify_eq/=); done.
  - by simplify_eq/=.
  - simplify_eq/=. destruct (verifyConfirmTag k t) eqn:Hv; [|done].
    destruct Hc as (k' & Hin & ->). exists k'. split; [done|].
    apply bytesEqual_spec in Hv; [done|apply tag_ok..].
  - simplify_eq/=. by destruct ok.
Qed.

Lemma xmessage_checked p q d : log_ok q → d ∈ x_sent q → checked p q → checked (xmessage p d) q.
Proof.
  intros Hq Hd Hc. unfold log_ok in Hq. rewrite Forall_forall in Hq.
  destruct (Hq d Hd) as [(m & Hm & ->)|(k & -> & _)]; unfold xmessage.
  - rewrite received_pake_msg by done.
    destruct (x_pc p) eqn:E; try done; by rewrite has_type_envelope.
  - rewrite received_pake_confirm by apply tag_ok.
    destruct (x_pc p) eqn:E; try done. rewrite has_type_envelope.
    rewrite envelope_payload. simpl. rewrite fromHex_toHex by apply tag_ok.
    unfold checked. simpl. by exists k.
Qed.

Record exchange_inv (x : exchange) : Prop := {
  xi_host : log_ok (x_host x);
  xi_guest : log_ok (x_guest x);
  xi_hostChecked : checked (x_host x) (x_guest x);
  xi_guestChecked : checked (x_guest x) (x_host x)
}.

Lemma xstep_inv x e x' : exchange_inv x → xstep host guest x e = Some x' → exchange_inv x'.
Proof.
  intros [H1' H2' H3' H4'] Hs. destruct e; simpl in Hs;
    apply bind_Some in Hs as (y & Hy & [= <-]); constructor; simpl; try done.
  - eapply xresume_log; [|exact Hy]; done.
  - eapply xresume_checked; [|exact Hy]; done.
  - eapply checked_mono; [done|]. by eapply xresume_sent.
  - eapply xresume_log; [|exact Hy]; done.
  - eapply checked_mono; [done|]. by eapply xresume_sent.
  - eapply xresume_checked; [|exact Hy]; done.
  - by apply xmessage_log.
  - unfold xmessage. eapply checked_mono; [done|]. by repeat case_match.
  - apply xmessage_checked; [done| |done]. by eapply list_elem_of_lookup_2.
  - by apply xmessage_log.
  - apply xmessage_checked; [done| |done]. by eapply list_elem_of_lookup_2.
  - unfold xmessage. eapply checked_mono; [done|]. by repeat case_match.
Qed.

Lemma exchange_reached es x :
  run (xstep host guest) es init_exchange = Some x → exchange_inv x.
Proof.
  apply run_ind; [by split; try constructor|]. intros. by eapply xstep_inv.
Qed.

(** C28: Key confirmation works: however the two sides' codes, steps and messages
    interleave, when both calls of [runPakeExchange] resolve, the keys they
    resolve to have one confirmation tag: different keys would be a collision of
    HMAC-SHA-256 on one message. *)
Theorem exchange_agrees es x kh kg :
  run (xstep host guest) es init_exchange = Some x →
  x_pc (x_host x) = XDone (Ok kh) → x_pc (x_guest x) = XDone (Ok kg) →
  hmac_sha256 kh CONFIRM_INFO = hmac_sha256 kg CONFIRM_INFO.
Proof.
  intros Hrun Hh Hg. change (computeConfirmTag kh = computeConfirmTag kg).
  destruct (exchange_reached es x Hrun) as [_ Hlg Hch _].
  unfold checked in Hch. rewrite Hh in Hch. destruct Hch as (k' & Hin & ->).
  unfold log_ok in Hlg. rewrite Forall_forall in Hlg.
  destruct (Hlg _ Hin) as [(m & Hm & He)|(k & He & Hk)].
  - symmetry in He. by apply pake_msg_confirm in He; [| |apply tag_ok].
  - rewrite Hg in Hk. simpl in Hk. subst. apply pake_confirm_inj in He; [done|apply tag_ok..].
Qed.

(** *** The exchange with one code *)

(** What SPAKE2 promises when both sides have the same code. *)
Record pake_agree (a b a' b' : pake_t) (k : bytes) : Prop := {
  pa_host : InitCurve (x_code host) 0 (x_rand host) = Ok a;
  pa_guest : InitCurve (x_code guest) 1 (x_rand guest) = Ok b;
  pa_guestUpdate : Update b (Bytes a) = Ok b';
  pa_hostUpdate : Update a (Bytes b') = Ok a';
  pa_hostKey : SessionKey a' = Ok k;
  pa_guestKey : SessionKey b' = Ok k;
  pa_key : bytes_ok k
}.

Context (a b a' b' : pake_t) (k : bytes) (Hpake : pake_agree a b a' b' k).

Definition wasm1 (p : pake_t) : wasm := {| nextID := 1; byHandle := {[ 1 := p ]} |}.

(** The peers after their [n]-th step of a run without early messages. *)
Definition host_at (n : nat) : peer :=
  let m0 := pake_msg (Bytes a) in
  let t := pake_confirm (tag k) in
  match n with
  | 0%nat => init_peer
  | 1%nat => {| x_pc := XWaitMsg 1; x_wasm := wasm1 a; x_sent := [m0] |}
  | 2%nat => {| x_pc := XUpdate 1 (Bytes b'); x_wasm := wasm1 a; x_sent := [m0] |}
  | 3%nat => {| x_pc := XKey 1; x_wasm := wasm1 a'; x_sent := [m0] |}
  | 4%nat => {| x_pc := XTag 1 k; x_wasm := wasm1 a'; x_sent := [m0] |}
  | 5%nat => {| x_pc := XWaitConfirm 1 k; x_wasm := wasm1 a'; x_sent := [m0; t] |}
  | 6%nat => {| x_pc := XVerify 1 k (tag k); x_wasm := wasm1 a'; x_sent := [m0; t] |}
  | 7%nat => {| x_pc := XFree 1 k true; x_wasm := wasm1 a'; x_sent := [m0; t] |}
  | _ => {| x_pc := XDone (Ok k); x_wasm := jsFree (wasm1 a') 1; x_sent := [m0; t] |}
  end.

Definition guest_at (n : nat) : peer :=
  let m1 := pake_msg (Bytes b') in
  let t := pake_confirm (tag k) in
  match n with
  | 0%nat => init_peer
  | 1%nat => {| x_pc := XWaitMsg 1; x_wasm := wasm1 b; x_sent := [] |}
  | 2%nat => {| x_pc := XUpdate 1 (Bytes a); x_wasm := wasm1 b; x_sent := [] |}
  | 3%nat => {| x_pc := XKey 1; x_wasm := wasm1 b'; x_sent := [m1] |}
  | 4%nat => {| x_pc := XTag 1 k; x_wasm := wasm1 b'; x_sent := [m1] |}
  | 5%nat => {| x_pc := XWaitConfirm 1 k; x_wasm := wasm1 b'; x_sent := [m1; t] |}
  | 6%nat => {| x_pc := XVerify 1 k (tag k); x_wasm := wasm1 b'; x_sent := [m1; t] |}
  | 7%nat => {| x_pc := XFree 1 k true; x_wasm := wasm1 b'; x_sent := [m1; t] |}
  | _ => {| x_pc := XDone (Ok k); x_wasm := jsFree (wasm1 b') 1; x_sent := [m1; t] |}
  end.

(** Messages a peer has taken by its [n]-th step. *)
Definition taken (n : nat) : nat :=
  (if n <=? 1 then 0 else if n <=? 5 then 1 else 2)%nat.

Lemma key_decoded : fromHex (toHex k) = k.
Proof. apply fromHex_toHex, Hpake. Qed.

Lemma tag_verified : verifyConfirmTag k (tag k) = true.
Proof. by apply bytesEqual_spec; [apply tag_ok..|]. Qed.

Ltac exch := unfold xresume, init, update, jsInit, jsUpdate, sessionKey, jsSessionKey; simpl.

Lemma host_resumes i p :
  xresume host (host_at i) = Some p → (i ≤ 8)%nat → p = host_at (S i) ∧ i ≠ 8%nat.
Proof.
  destruct Hpake. intros Hr Hi. destruct i as [|[|[|[|[|[|[|[|[|i]]]]]]]]]; [..|lia];
    try done; revert Hr; exch.
  - rewrite Hhost, pa_host0. simpl. by intros [= <-].
  - rewrite lookup_singleton_eq, pa_hostUpdate0. simpl. rewrite Hhost. simpl. intros [= <-].
    split; [|done]. unfold xgo, set_wasm, wasm1. simpl. by rewrite insert_singleton_eq.
  - rewrite lookup_singleton_eq, pa_hostKey0. simpl. rewrite key_decoded. by intros [= <-].
  - by intros [= <-].
  - rewrite tag_verified. by intros [= <-].
  - by intros [= <-].
Qed.

Lemma guest_resumes i p :
  xresume guest (guest_at i) = Some p → (i ≤ 8)%nat → p = guest_at (S i) ∧ i ≠ 8%nat.
Proof.
  destruct Hpake. intros Hr Hi. destruct i as [|[|[|[|[|[|[|[|[|i]]]]]]]]]; [..|lia];
    try done; revert Hr; exch.
  - rewrite Hguest, pa_guest0. simpl. by intros [= <-].
  - rewrite lookup_singleton_eq, pa_guestUpdate0. simpl. rewrite Hguest. simpl. intros [= <-].
    split; [|done]. unfold xgo, set_wasm, wasm1. simpl. by rewrite insert_singleton_eq.
  - rewrite lookup_singleton_eq, pa_guestKey0. simpl. rewrite key_decoded. by intros [= <-].
  - by intros [= <-].
  - rewrite tag_verified. by intros [= <-].
  - by intros [= <-].
Qed.

Lemma guest_takes i j d :
  waiting (guest_at j) = true → x_sent (host_at i) !! taken j = Some d → (j ≤ 8)%nat →
  xmessage (guest_at j) d = guest_at (S j) ∧ taken (S j) = S (taken j) ∧ j ≠ 8%nat.
Proof.
  intros Hw Hd Hj. destruct j as [|[|[|[|[|[|[|[|[|j]]]]]]]]]; [..|lia]; try done.
  - assert (d = pake_msg (Bytes a)) as ->.
    { destruct i as [|[|[|[|[|[|[|[|i]]]]]]]]; simpl in Hd; by simplify_eq. }
    unfold xmessage. rewrite received_pake_msg by apply Bytes_unit.
    cbn [guest_at host_at x_pc]. by rewrite has_type_envelope.
  - assert (d = pake_confirm (tag k)) as ->.
    { destruct i as [|[|[|[|[|[|[|[|i]]]]]]]]; simpl in Hd; by simplify_eq. }
    unfold xmessage. rewrite received_pake_confirm by apply tag_ok.
    cbn [guest_at host_at x_pc]. rewrite has_type_envelope. simpl. by rewrite fromHex_toHex by apply tag_ok.
Qed.

Lemma host_takes i j d :
  waiting (host_at i) = true → x_sent (guest_at j) !! taken i = Some d → (i ≤ 8)%nat →
  xmessage (host_at i) d = host_at (S i) ∧ taken (S i) = S (taken i) ∧ i ≠ 8%nat.
Proof.
  intros Hw Hd Hi. destruct i as [|[|[|[|[|[|[|[|[|i]]]]]]]]]; [..|lia]; try done.
  - assert (d = pake_msg (Bytes b')) as ->.
    { destruct j as [|[|[|[|[|[|[|[|j]]]]]]]]; simpl in Hd; by simplify_eq. }
    unfold xmessage. rewrite received_pake_msg by apply Bytes_unit.
    cbn [guest_at host_at x_pc]. by rewrite has_type_envelope.
  - assert (d = pake_confirm (tag k)) as ->.
    { destruct j as [|[|[|[|[|[|[|[|j]]]]]]]]; simpl in Hd; by simplify_eq. }
    unfold xmessage. rewrite received_pake_confirm by apply tag_ok.
    cbn [guest_at host_at x_pc]. rewrite has_type_envelope. simpl. by rewrite fromHex_toHex by apply tag_ok.
Qed.

Lemma taken_resumes i p :
  (∀ s, xresume s (host_at i) = Some p → taken (S i) = taken i)
  ∧ (∀ s, xresume s (guest_at i) = Some p → taken (S i) = taken i).
Proof. split; intros s; by destruct i as [|[|[|[|[|[|[|[|i]]]]]]]]. Qed.

Lemma xresume_total s p :
  match x_pc p with XWaitMsg _ | XWaitConfirm _ _ | XDone _ => True | _ => is_Some (xresume s p) end.
Proof.
  unfold xresume. destruct (x_pc p); try done; repeat case_match; try done; by eexists.
Qed.

End Exchange.
