(* ===== verification/PairingText.v ===== *)
(** * The texts of pairing.js: links and codes

    [buildPairingURL] and [parsePairingText], with the parts of the URL standard
    they use (the fragment setter and [URLSearchParams]) written out, and the
    six-digit code as it is shown, typed and sent. *)

From stdpp Require Import base list list_numbers sets strings.
From Stdlib Require Import ZArith Lia.
From S2P Require Import Prelude JsText Json Utf8 Base64url.
Open Scope Z_scope.

Definition SESSION_KEY_BYTES : nat := 32.

(** ** The URL standard *)

(** An absolute URL without credentials, serialized: everything before the
    query, the query and the fragment. *)
Record url := { u_base : jsstr; u_query : option jsstr; u_fragment : option jsstr }.

Definition url_toString (u : url) : jsstr :=
  u_base u
  ++ match u_query u with Some q => 63 :: q | None => [] end
  ++ match u_fragment u with Some f => 35 :: f | None => [] end.

Definition upper_hex (d : Z) : Z := if d <? 10 then 48 + d else 55 + d.

Definition percent_byte (b : Z) : jsstr := [37; upper_hex (b / 16); upper_hex (b mod 16)].

(** The fragment percent-encode set. *)
Definition in_fragment_set (c : Z) : bool :=
  (c <? 32) || (126 <? c) || (c =? 32) || (c =? 34) || (c =? 60) || (c =? 62) || (c =? 96).

(** [url.hash = s]: a leading "#" and tabs and newlines are dropped, the rest
    percent-encoded. The empty text removes the fragment. *)
Definition set_hash (u : url) (s : jsstr) : url :=
  let s := match s with 35 :: s' => s' | _ => s end in
  let s := filter (λ c, (c =? 9) || (c =? 10) || (c =? 13) = false) s in
  {| u_base := u_base u; u_query := u_query u;
     u_fragment :=
       match s with
       | [] => None
       | _ => Some (concat (map (λ c, if in_fragment_set c then concat (map percent_byte (utf8_scalar c))
                                      else [c]) (scalars s)))
       end |}.

(** [url.search = ""]. *)
Definition clear_search (u : url) : url :=
  {| u_base := u_base u; u_query := None; u_fragment := u_fragment u |}.

Definition hex_digit (c : Z) : option Z := digit_val 16 c.

Fixpoint percent_decode (bs : bytes) : bytes :=
  match bs with
  | 37 :: ((a :: b :: bs') as rest) =>
      match hex_digit a, hex_digit b with
      | Some x, Some y => x * 16 + y :: percent_decode bs'
      | _, _ => 37 :: percent_decode rest
      end
  | b :: bs' => b :: percent_decode bs'
  | [] => []
  end.

(** UTF-8 decode without BOM, lossy. *)
Definition utf8_decode_raw (bs : bytes) : jsstr := concat (map units (utf8_dec None bs)).

Definition form_decode (s : bytes) : jsstr :=
  utf8_decode_raw (percent_decode (replace_all 43 32 s)).

(** The name and value of one sequence of a query. *)
Definition split_pair (s : bytes) : bytes * bytes :=
  match indexOf 61 s with
  | Some i => (take i s, drop (S i) s)
  | None => (s, [])
  end.

(** [new URLSearchParams(init)], as the list of its pairs. *)
Definition URLSearchParams (init : jsstr) : list (jsstr * jsstr) :=
  let init := match init with 63 :: s => s | _ => init end in
  map (λ s, let '(n, v) := split_pair s in (form_decode n, form_decode v))
    (filter (λ s, s ≠ []) (split_on 38 (utf8_encode init))).

Fixpoint params_get (params : list (jsstr * jsstr)) (name : jsstr) : option jsstr :=
  match params with
  | [] => None
  | (n, v) :: params' => if bool_decide (n = name) then Some v else params_get params' name
  end.

(** ** pairing.js *)

Definition buildPairingURL (location : url) (sessionId : jsstr) (sessionKey : bytes) : jsstr :=
  url_toString
    (clear_search
       (set_hash location (js "s=" ++ sessionId ++ js "&k=" ++ encode sessionKey))).

Definition parsePairingText (text : jsstr) : option (jsstr * bytes) :=
  let hash := trim text in
  let hash := match indexOf 35 hash with Some i => drop (S i) hash | None => hash end in
  let params := URLSearchParams hash in
  match params_get params (js "s"), params_get params (js "k") with
  | Some sessionId, Some keyStr =>
      if bool_decide (sessionId = []) || bool_decide (keyStr = []) then None
      else match decode keyStr with
           | Throw _ => None
           | Ok sessionKey =>
               if bool_decide (length sessionKey ≠ SESSION_KEY_BYTES) then None
               else Some (sessionId, sessionKey)
           end
  | _, _ => None
  end.

(** The code as the host shows it. *)
Definition formatCode (code : jsstr) : jsstr := slice 0 3 code ++ js "-" ++ drop 3 code.

(** [s.replace(/\D/g, "")]. *)
Definition only_digits (s : jsstr) : jsstr := filter (λ c, 48 ≤ c ≤ 57) s.

(** The guest's input field after each change. *)
Definition codeInput (value : jsstr) : jsstr :=
  let digits := slice 0 6 (only_digits value) in
  if (3 <? Z.of_nat (length digits)) then slice 0 3 digits ++ js "-" ++ drop 3 digits else digits.

(** The code that is sent, or [None] for the [invalid_code] error. *)
Definition submitCode (value : jsstr) : option jsstr :=
  let digits := only_digits value in
  if bool_decide (length digits ≠ 6%nat) then None else Some digits.

(** ** Lemmas *)

(** The characters of a link's fragment: of session ids and keys, "=" and "&". *)
Definition frag_char (c : Z) : Prop := url_char c ∨ c = 61 ∨ c = 38.

Definition ascii (s : jsstr) : Prop := Forall (λ c, 0 ≤ c < 128) s.

Lemma frag_char_range c : frag_char c → 38 ≤ c ≤ 122 ∧ c ≠ 43 ∧ c ≠ 37 ∧ c ≠ 60 ∧ c ≠ 62 ∧ c ≠ 96 ∧ c ≠ 63.
Proof. unfold frag_char, url_char. lia. Qed.

Lemma frag_ascii s : Forall frag_char s → ascii s.
Proof. intros Hs. eapply Forall_impl; [done|]. intros c Hc%frag_char_range. lia. Qed.

Lemma scalars_ascii s : ascii s → scalars s = s.
Proof.
  induction 1 as [|c s Hc _ IH]; [done|]. cbn [scalars].
  replace (is_high c) with false by (unfold is_high; symmetry; bool_arith; lia).
  replace (is_low c) with false by (unfold is_low; symmetry; bool_arith; lia). by rewrite IH.
Qed.

Lemma utf8_encode_ascii s : ascii s → utf8_encode s = s.
Proof.
  intros Hs. unfold utf8_encode. rewrite scalars_ascii by done.
  induction Hs as [|c s Hc _ IH]; [done|]. simpl. rewrite IH. unfold utf8_scalar.
  by rewrite (proj2 (Z.ltb_lt c 128)) by lia.
Qed.

Lemma utf8_decode_ascii s : ascii s → utf8_decode_raw s = s.
Proof.
  unfold utf8_decode_raw. induction 1 as [|c s Hc _ IH]; [done|]. cbn [utf8_dec]. unfold lead.
  rewrite (proj2 (Z.ltb_lt c 128)) by lia. cbn [map concat]. rewrite IH. unfold units.
  by rewrite (proj2 (Z.ltb_lt c 65536)) by lia.
Qed.

Lemma percent_decode_plain s : 37 ∉ s → percent_decode s = s.
Proof.
  induction s as [|c s IH]; intros Hs; [done|].
  assert (c ≠ 37 ∧ 37 ∉ s) as [Hc Hs'] by set_solver.
  destruct c as [|p|p]; simpl; rewrite ?IH by done; try done.
  do 6 (destruct p as [p|p|]; try done).
Qed.

Lemma replace_all_none c d s : c ∉ s → replace_all c d s = s.
Proof.
  induction s as [|x s IH]; intros Hs; [done|]. simpl.
  rewrite (proj2 (Z.eqb_neq x c)) by set_solver. by rewrite IH by set_solver.
Qed.

Lemma not_elem_char (P : Z → Prop) c s : Forall P s → ¬ P c → c ∉ s.
Proof. intros Hs Hc Hin. rewrite Forall_forall in Hs. by apply Hc, Hs. Qed.

Lemma form_decode_frag s : Forall frag_char s → form_decode s = s.
Proof.
  intros Hs. unfold form_decode.
  rewrite replace_all_none by (eapply not_elem_char; [done|]; unfold frag_char, url_char; lia).
  rewrite percent_decode_plain by (eapply not_elem_char; [done|]; unfold frag_char, url_char; lia).
  by apply utf8_decode_ascii, frag_ascii.
Qed.

Lemma url_frag s : Forall url_char s → Forall frag_char s.
Proof. intros Hs. eapply Forall_impl; [done|]. by left. Qed.

Definition fragment (sessionId keyStr : jsstr) : jsstr :=
  js "s=" ++ sessionId ++ js "&k=" ++ keyStr.

Lemma fragment_chars sid key :
  Forall url_char sid → Forall url_char key → Forall frag_char (fragment sid key).
Proof.
  intros Hs Hk. unfold fragment. rewrite !Forall_app. split_and!; try by apply url_frag.
  - repeat constructor; unfold frag_char, url_char; simpl; lia.
  - repeat constructor; unfold frag_char, url_char; simpl; lia.
Qed.

Lemma URLSearchParams_fragment sid key :
  Forall url_char sid → Forall url_char key →
  URLSearchParams (fragment sid key) = [(js "s", sid); (js "k", key)].
Proof.
  intros Hs Hk. pose proof (fragment_chars sid key Hs Hk) as Hf. unfold URLSearchParams.
  change (match fragment sid key with 63 :: s => s | _ => fragment sid key end)
    with (fragment sid key).
  rewrite utf8_encode_ascii by by apply frag_ascii.
  assert (38 ∉ sid) by (eapply not_elem_char; [done|]; unfold url_char; lia).
  assert (38 ∉ key) by (eapply not_elem_char; [done|]; unfold url_char; lia).
  replace (fragment sid key) with ((js "s=" ++ sid) ++ 38 :: (js "k=" ++ key))
    by (unfold fragment; by rewrite <- app_assoc).
  rewrite split_on_app by (rewrite elem_of_app; intros [Hin|Hin]; [vm_compute in Hin; set_solver|done]).
  rewrite split_on_none by (rewrite elem_of_app; intros [Hin|Hin]; [vm_compute in Hin; set_solver|done]).
  rewrite !filter_cons_True by done. cbn [filter list_filter map].
  change (split_pair (js "s=" ++ sid)) with (js "s", sid).
  change (split_pair (js "k=" ++ key)) with (js "k", key).
  change (filter _ []) with (@nil (list Z)). cbn [map].
  rewrite !form_decode_frag; [done|by apply url_frag|..].
  - repeat constructor; unfold frag_char, url_char; simpl; lia.
  - by apply url_frag.
  - repeat constructor; unfold frag_char, url_char; simpl; lia.
Qed.

Lemma set_hash_fragment u sid key :
  Forall url_char sid → Forall url_char key →
  u_fragment (set_hash u (fragment sid key)) = Some (fragment sid key).
Proof.
  intros Hs Hk. pose proof (fragment_chars sid key Hs Hk) as Hf. unfold set_hash. cbn [u_fragment].
  change (match fragment sid key with 35 :: s => s | _ => fragment sid key end)
    with (fragment sid key).
  rewrite filter_keep.
  2: { eapply Forall_impl; [exact Hf|]. intros c Hc%frag_char_range. bool_arith. lia. }
  rewrite scalars_ascii by by apply frag_ascii.
  replace (concat _) with (fragment sid key); [done|].
  induction Hf as [|c s Hc _ IH]; [done|]. cbn [map concat]. rewrite <- IH.
  replace (in_fragment_set c) with false; [done|].
  apply frag_char_range in Hc. unfold in_fragment_set. symmetry.
  rewrite !orb_false_iff. bool_arith. lia.
Qed.

(** Text pasted with white space around it. *)
Lemma trim_start_pad ws s :
  Forall (λ c, is_space c = true) ws → trim_start (ws ++ s) = trim_start s.
Proof. induction 1 as [|c ws Hc _ IH]; [done|]. unfold trim_start in *. simpl. by rewrite Hc. Qed.

Lemma trim_pad ws1 ws2 s :
  Forall (λ c, is_space c = true) ws1 → Forall (λ c, is_space c = true) ws2 →
  Forall (λ c, is_space c = false) s → s ≠ [] → trim (ws1 ++ s ++ ws2) = s.
Proof.
  intros H1 H2 Hs Hne. unfold trim. rewrite trim_start_pad by done.
  assert (trim_start (s ++ ws2) = s ++ ws2) as ->.
  { destruct Hs as [|c s Hc _]; [done|]. unfold trim_start. simpl. by rewrite Hc. }
  rewrite reverse_app, trim_start_pad by by apply Forall_reverse.
  rewrite trim_start_none by by apply Forall_reverse. apply reverse_involutive.
Qed.

Lemma frag_not_space c : frag_char c → is_space c = false.
Proof.
  intros Hc. unfold is_space, frag_char, url_char in *. rewrite !orb_false_iff. bool_arith. lia.
Qed.

Definition host_char (c : Z) : Prop := c ≠ 35 ∧ is_space c = false.

(** A text whose part after the first "#", or all of it, is a link's fragment. *)
Lemma parse_fragment sid key t :
  Forall url_char sid → sid ≠ [] → bytes_ok key → length key = SESSION_KEY_BYTES →
  (trim t = fragment sid (encode key)
   ∨ ∃ base, trim t = base ++ 35 :: fragment sid (encode key) ∧ 35 ∉ base) →
  parsePairingText t = Some (sid, key).
Proof.
  intros Hs Hne Hk Hl Ht. pose proof (encode_chars key Hk) as He.
  pose proof (fragment_chars sid (encode key) Hs He) as Hf. unfold parsePairingText.
  assert (match indexOf 35 (trim t) with Some i => drop (S i) (trim t) | None => trim t end
          = fragment sid (encode key)) as ->.
  { destruct Ht as [-> | (base & -> & Hbase)].
    - destruct (indexOf 35 _) eqn:E; [|done]. exfalso.
      assert (35 ∉ fragment sid (encode key)) as Hn.
      { eapply not_elem_char; [done|]. unfold frag_char, url_char. lia. }
      apply indexOf_Some in E as [E _]. apply Hn. rewrite E. apply elem_of_app. right. left.
    - rewrite indexOf_app by done. rewrite cons_middle, app_assoc.
      rewrite drop_app_length'; [done|]. rewrite length_app. simpl. lia. }
  rewrite URLSearchParams_fragment by done. cbn [params_get].
  rewrite bool_decide_true by done. rewrite (bool_decide_false (js "s" = js "k")) by done.
  rewrite bool_decide_true by done. rewrite bool_decide_false by done.
  assert (encode key ≠ []) as Hek.
  { intros Hnil. pose proof (decode_encode key Hk) as Hd. rewrite Hnil in Hd.
    vm_compute in Hd. injection Hd as <-. by vm_compute in Hl. }
  rewrite bool_decide_false by done. cbn [orb]. rewrite decode_encode by done.
  rewrite bool_decide_false; [done|]. naive_solver.
Qed.

Lemma buildPairingURL_eq location sid key :
  Forall url_char sid → bytes_ok key →
  buildPairingURL location sid key = u_base location ++ 35 :: fragment sid (encode key).
Proof.
  intros Hs Hk. unfold buildPairingURL, url_toString. cbn [clear_search u_query u_base].
  change (js "s=" ++ sid ++ js "&k=" ++ encode key) with (fragment sid (encode key)).
  change (u_fragment (clear_search ?u)) with (u_fragment u).
  unfold clear_search. cbn [u_fragment].
  rewrite set_hash_fragment; [done|done|by apply encode_chars].
Qed.

(** C29: The link the host shares pairs the guest with it: pasted back - with any
    white space around it -, opened, or scanned, it gives the session id and the
    key it was built from, and so does its fragment on its own, whatever page
    the host was on. *)
Theorem pairing_link_roundtrip location sid key ws1 ws2 :
  Forall url_char sid → sid ≠ [] → bytes_ok key → length key = SESSION_KEY_BYTES →
  Forall host_char (u_base location) →
  Forall (λ c, is_space c = true) ws1 → Forall (λ c, is_space c = true) ws2 →
  parsePairingText (ws1 ++ buildPairingURL location sid key ++ ws2) = Some (sid, key)
  ∧ parsePairingText (js "#" ++ fragment sid (encode key)) = Some (sid, key)
  ∧ parsePairingText (fragment sid (encode key)) = Some (sid, key).
Proof.
  intros Hs Hne Hk Hl Hb H1 H2.
  assert (Forall (λ c, is_space c = false) (fragment sid (encode key))) as Hsp.
  { eapply Forall_impl; [apply fragment_chars; [done|by apply encode_chars]|apply frag_not_space]. }
  split_and!; apply parse_fragment; try done.
  - right. exists (u_base location). rewrite buildPairingURL_eq by done. split.
    + apply trim_pad; try done; [|by destruct (u_base location)].
      apply Forall_app. split; [|by constructor].
      eapply Forall_impl; [exact Hb|]. by intros c [_ Hc].
    + eapply not_elem_char; [exact Hb|]. by intros [Hc _].
  - right. exists []. split; [|set_solver]. rewrite trim_none; [done|]. by constructor.
  - left. by apply trim_none.
Qed.

(** Whatever text is scanned, pasted or found in the address, a pairing that
    is accepted has a session id and a key of 32 bytes. *)
Theorem parsePairingText_sound t sid key :
  parsePairingText t = Some (sid, key) → sid ≠ [] ∧ length key = SESSION_KEY_BYTES.
Proof.
  unfold parsePairingText. intros Hp.
  destruct (params_get _ (js "s")) as [s|]; [|done].
  destruct (params_get _ (js "k")) as [k|]; [|done].
  destruct (bool_decide (s = [])) eqn:E; [done|]. destruct (bool_decide (k = [])); [done|].
  simpl in Hp. destruct (decode k) as [kb|]; [|done]. case_bool_decide; simplify_eq.
  apply bool_decide_eq_false in E. done.
Qed.

(** *** The code *)

Lemma only_digits_all s : Forall (λ c, 48 ≤ c ≤ 57) s → only_digits s = s.
Proof. apply filter_keep. Qed.

Lemma only_digits_app s t : only_digits (s ++ t) = only_digits s ++ only_digits t.
Proof. apply filter_app. Qed.

Lemma only_digits_dash : only_digits (js "-") = [].
Proof. done. Qed.

Lemma only_digits_format c : Forall (λ c, 48 ≤ c ≤ 57) c → only_digits (formatCode c) = c.
Proof.
  intros Hc. unfold formatCode, slice. simpl drop. rewrite !only_digits_app, only_digits_dash.
  rewrite !only_digits_all; [apply take_drop|by apply Forall_drop|by apply Forall_take].
Qed.

Lemma only_digits_ok s : Forall (λ c, 48 ≤ c ≤ 57) (only_digits s).
Proof. apply Forall_forall. intros c Hc. by apply list_elem_of_filter in Hc as [? _]. Qed.

Lemma codeInput_format s :
  codeInput s = (let d := slice 0 6 (only_digits s) in
                 if (3 <? Z.of_nat (length d)) then formatCode d else d).
Proof. done. Qed.

(** The digits of the field are those typed, up to six. *)
Lemma only_digits_codeInput s : only_digits (codeInput s) = take 6 (only_digits s).
Proof.
  rewrite codeInput_format. cbn zeta. unfold slice at 1 2 3. simpl.
  change (take 6 (drop 0 (only_digits s))) with (take 6 (only_digits s)).
  pose proof (Forall_take (λ c, 48 ≤ c ≤ 57) 6 _ (only_digits_ok s)).
  case_match; [by apply only_digits_format|by apply only_digits_all].
Qed.

(** The code the host shows is accepted as it stands: typed with or without
    its dash, through the field's own formatting, it is sent as the six digits
    the relay issued. The field never holds more than its seven characters, and
    formatting it again changes nothing. *)
Theorem code_roundtrip code value :
  (Forall (λ c, 48 ≤ c ≤ 57) code → length code = 6%nat →
   submitCode (codeInput (formatCode code)) = Some code ∧ submitCode (codeInput code) = Some code)
  ∧ (length (codeInput value) ≤ 7)%nat ∧ codeInput (codeInput value) = codeInput value.
Proof.
  split; [intros Hc Hl|split].
  - assert (∀ s, only_digits s = code → submitCode (codeInput s) = Some code) as Hsub.
    { intros s Hs. unfold submitCode. rewrite only_digits_codeInput, Hs, take_ge by lia.
      by rewrite bool_decide_false by lia. }
    split; apply Hsub; [by apply only_digits_format|by apply only_digits_all].
  - rewrite codeInput_format. cbn zeta. set (d := slice 0 6 (only_digits value)).
    assert (length d ≤ 6)%nat by (unfold d, slice; simpl; rewrite length_take; lia).
    case_match; [|lia]. unfold formatCode, slice.
    rewrite !length_app, length_take, !length_drop.
    change (length (js "-")) with 1%nat. lia.
  - rewrite (codeInput_format (codeInput value)), only_digits_codeInput, (codeInput_format value).
    assert (∀ l : jsstr, slice 0 6 l = take 6 l) as Hslice by done.
    by rewrite !Hslice, take_take.
Qed.
