(* ===== verification/PageState.v ===== *)
(** * The state of pairing.js

    The module's variables, every socket with the listeners attached to it, the
    transfer screens, camera scans, timers and pending promises are one state.
    The operations of Pairing are built from the primitive steps defined here:
    what a socket, a handle, a scan and a status line do. A text shown is the
    key [t] is called with. *)

From stdpp Require Import base list list_numbers gmap sets strings.
From Stdlib Require Import ZArith Lia.
From S2P Require Import Prelude JsText Json WsClient.
Open Scope Z_scope.

Definition RECONNECT_MAX_ATTEMPTS : Z := 15.

Inductive screen :=
| RoleSelect | CodeRoleSelect | JoinDetected | ReceiverGenerating | ReceiverWaiting
| SenderScanning | SenderPaste | Joining | CodeReceiverGenerating | CodeReceiverWaiting
| CodeSenderEntry | Verifying | Paired | Error | InsecureContext.

#[export] Instance screen_eq : EqDecision screen.
Proof. solve_decision. Defined.

Inductive role := Host | Guest.
Inductive transfer_role := SenderRole | ReceiverRole.

#[export] Instance transfer_role_eq : EqDecision transfer_role.
Proof. solve_decision. Defined.

(** [currentState]: a property a screen does not set is [undefined]. *)
Record cstate := {
  cs_screen : screen;
  cs_sessionId : option jsstr;
  cs_sessionKey : option bytes;
  cs_url : option jsstr;
  cs_code : option jsstr;
  cs_role : option role;
  cs_epoch : option Z;
  cs_transferRole : option transfer_role;
  cs_reconnectToken : option bytes;
  cs_error : option jsstr
}.

(** [{ screen }]. *)
Definition at_screen (s : screen) : cstate :=
  {| cs_screen := s; cs_sessionId := None; cs_sessionKey := None; cs_url := None;
     cs_code := None; cs_role := None; cs_epoch := None; cs_transferRole := None;
     cs_reconnectToken := None; cs_error := None |}.

Definition error_screen (code : option jsstr) : cstate :=
  {| cs_screen := Error; cs_sessionId := None; cs_sessionKey := None; cs_url := None;
     cs_code := None; cs_role := None; cs_epoch := None; cs_transferRole := None;
     cs_reconnectToken := None; cs_error := code |}.

(** A screen of the QR flow, with its session. *)
Definition session_screen (s : screen) (sessionId : option jsstr) (sessionKey : option bytes)
    (url : option jsstr) : cstate :=
  {| cs_screen := s; cs_sessionId := sessionId; cs_sessionKey := sessionKey; cs_url := url;
     cs_code := None; cs_role := None; cs_epoch := None; cs_transferRole := None;
     cs_reconnectToken := None; cs_error := None |}.

Definition code_screen (code : option jsstr) : cstate :=
  {| cs_screen := CodeReceiverWaiting; cs_sessionId := None; cs_sessionKey := None;
     cs_url := None; cs_code := code; cs_role := None; cs_epoch := None;
     cs_transferRole := None; cs_reconnectToken := None; cs_error := None |}.

Definition paired_screen (sessionId : option jsstr) (sessionKey : option bytes) (r : role) : cstate :=
  {| cs_screen := Paired; cs_sessionId := sessionId; cs_sessionKey := sessionKey;
     cs_url := None; cs_code := None; cs_role := Some r; cs_epoch := Some 0;
     cs_transferRole := Some (match r with Host => ReceiverRole | Guest => SenderRole end);
     cs_reconnectToken := None; cs_error := None |}.

Definition set_epoch (c : cstate) (e : option Z) : cstate :=
  {| cs_screen := cs_screen c; cs_sessionId := cs_sessionId c; cs_sessionKey := cs_sessionKey c;
     cs_url := cs_url c; cs_code := cs_code c; cs_role := cs_role c; cs_epoch := e;
     cs_transferRole := cs_transferRole c; cs_reconnectToken := cs_reconnectToken c;
     cs_error := cs_error c |}.

Definition set_transferRole (c : cstate) (r : transfer_role) : cstate :=
  {| cs_screen := cs_screen c; cs_sessionId := cs_sessionId c; cs_sessionKey := cs_sessionKey c;
     cs_url := cs_url c; cs_code := cs_code c; cs_role := cs_role c; cs_epoch := cs_epoch c;
     cs_transferRole := Some r; cs_reconnectToken := cs_reconnectToken c;
     cs_error := cs_error c |}.

Definition set_token (c : cstate) (token : bytes) : cstate :=
  {| cs_screen := cs_screen c; cs_sessionId := cs_sessionId c; cs_sessionKey := cs_sessionKey c;
     cs_url := cs_url c; cs_code := cs_code c; cs_role := cs_role c; cs_epoch := cs_epoch c;
     cs_transferRole := cs_transferRole c; cs_reconnectToken := Some token;
     cs_error := cs_error c |}.

(** ** Sockets *)

Inductive ready_state := Connecting | Open | Closing | Closed.

#[export] Instance ready_state_eq : EqDecision ready_state.
Proof. solve_decision. Defined.

(** The listeners one function attaches to a socket: open, message and close. *)
Inductive listener :=
| LReceiverFlow                                  (* startReceiverFlow *)
| LReceiverCodeFlow                              (* startReceiverCodeFlow *)
| LJoinByCode (code : jsstr)                     (* startJoinByCode *)
| LJoin (sessionId : jsstr) (sessionKey : bytes) (* startJoin *)
| LPaired                                        (* wirePairedSocket *)
| LReconnect (attempt : Z) (sessionId : option jsstr) (r : option role) (token : bytes).

Record conn := { k_state : ready_state; k_listeners : list listener; k_sent : list data }.

(** What [renderTransferUI] returns, as far as this module uses it. *)
Record handle := {
  h_socket : option nat;
  h_epoch : option Z;
  h_role : option transfer_role;
  h_detached : bool;
  h_active : bool;                 (* isActive() *)
  h_files : list (list nat)        (* the batches sendFiles was called with *)
}.

(** [Abandoned]: [play()] failed; the camera is on and nothing can stop it. *)
Inductive scan_state := Starting | Running | Stopped | Abandoned.
#[export] Instance scan_state_eq : EqDecision scan_state.
Proof. solve_decision. Defined.

Record scan := { sc_state : scan_state; sc_cancelled : bool }.

Inductive promise :=
| PToken (sock : nat) (token : bytes)                         (* deriveReconnectToken *)
| PRender (sock : option nat) (epoch : option Z) (r : option transfer_role)  (* renderTransferUI *)
| PPake (sock : nat) (code sessionId : option jsstr) (r : role).   (* runPakeExchange *)

Inductive timer := TSwap | TReconnect (attempt : Z).

(** The variables of the module. *)
Record page := {
  currentState : cstate;
  activeSocket : option nat;
  activeStopScan : option nat;
  activeTransferHandle : option nat;
  swapAwaitingResponse : bool;
  pendingSendFiles : option (list nat);
  reconnectStatus : option string;   (* the text of reconnectStatusEl *)
  swapStatus : option string;        (* the text of swapStatusEl *)
  swapDisabled : bool                (* swapButtonEl.disabled *)
}.

Record world := {
  vars : page;
  socks : list conn;
  handles : list handle;
  scans : list scan;
  promises : list promise;           (* pending *)
  timers : list timer                (* running *)
}.

Definition with_currentState (p : page) v : page :=
  {| currentState := v; activeSocket := activeSocket p; activeStopScan := activeStopScan
     p; activeTransferHandle := activeTransferHandle p; swapAwaitingResponse :=
     swapAwaitingResponse p; pendingSendFiles := pendingSendFiles p; reconnectStatus :=
     reconnectStatus p; swapStatus := swapStatus p; swapDisabled := swapDisabled p |}.
Definition with_activeSocket (p : page) v : page :=
  {| currentState := currentState p; activeSocket := v; activeStopScan := activeStopScan
     p; activeTransferHandle := activeTransferHandle p; swapAwaitingResponse :=
     swapAwaitingResponse p; pendingSendFiles := pendingSendFiles p; reconnectStatus :=
     reconnectStatus p; swapStatus := swapStatus p; swapDisabled := swapDisabled p |}.
Definition with_activeStopScan (p : page) v : page :=
  {| currentState := currentState p; activeSocket := activeSocket p; activeStopScan := v;
     activeTransferHandle := activeTransferHandle p; swapAwaitingResponse :=
     swapAwaitingResponse p; pendingSendFiles := pendingSendFiles p; reconnectStatus :=
     reconnectStatus p; swapStatus := swapStatus p; swapDisabled := swapDisabled p |}.
Definition with_activeTransferHandle (p : page) v : page :=
  {| currentState := currentState p; activeSocket := activeSocket p; activeStopScan :=
     activeStopScan p; activeTransferHandle := v; swapAwaitingResponse :=
     swapAwaitingResponse p; pendingSendFiles := pendingSendFiles p; reconnectStatus :=
     reconnectStatus p; swapStatus := swapStatus p; swapDisabled := swapDisabled p |}.
Definition with_swapAwaitingResponse (p : page) v : page :=
  {| currentState := currentState p; activeSocket := activeSocket p; activeStopScan :=
     activeStopScan p; activeTransferHandle := activeTransferHandle p;
     swapAwaitingResponse := v; pendingSendFiles := pendingSendFiles p; reconnectStatus
     := reconnectStatus p; swapStatus := swapStatus p; swapDisabled := swapDisabled p |}.
Definition with_pendingSendFiles (p : page) v : page :=
  {| currentState := currentState p; activeSocket := activeSocket p; activeStopScan :=
     activeStopScan p; activeTransferHandle := activeTransferHandle p;
     swapAwaitingResponse := swapAwaitingResponse p; pendingSendFiles := v;
     reconnectStatus := reconnectStatus p; swapStatus := swapStatus p; swapDisabled :=
     swapDisabled p |}.
Definition with_reconnectStatus (p : page) v : page :=
  {| currentState := currentState p; activeSocket := activeSocket p; activeStopScan :=
     activeStopScan p; activeTransferHandle := activeTransferHandle p;
     swapAwaitingResponse := swapAwaitingResponse p; pendingSendFiles := pendingSendFiles
     p; reconnectStatus := v; swapStatus := swapStatus p; swapDisabled := swapDisabled p |}.
Definition with_swapStatus (p : page) v : page :=
  {| currentState := currentState p; activeSocket := activeSocket p; activeStopScan :=
     activeStopScan p; activeTransferHandle := activeTransferHandle p;
     swapAwaitingResponse := swapAwaitingResponse p; pendingSendFiles := pendingSendFiles
     p; reconnectStatus := reconnectStatus p; swapStatus := v; swapDisabled :=
     swapDisabled p |}.
Definition with_swapDisabled (p : page) v : page :=
  {| currentState := currentState p; activeSocket := activeSocket p; activeStopScan :=
     activeStopScan p; activeTransferHandle := activeTransferHandle p;
     swapAwaitingResponse := swapAwaitingResponse p; pendingSendFiles := pendingSendFiles
     p; reconnectStatus := reconnectStatus p; swapStatus := swapStatus p; swapDisabled :=
     v |}.

Definition put_vars (w : world) v : world :=
  {| vars := v; socks := socks w; handles := handles w; scans := scans w; promises :=
     promises w; timers := timers w |}.
Definition put_socks (w : world) v : world :=
  {| vars := vars w; socks := v; handles := handles w; scans := scans w; promises :=
     promises w; timers := timers w |}.
Definition put_handles (w : world) v : world :=
  {| vars := vars w; socks := socks w; handles := v; scans := scans w; promises :=
     promises w; timers := timers w |}.
Definition put_scans (w : world) v : world :=
  {| vars := vars w; socks := socks w; handles := handles w; scans := v; promises :=
     promises w; timers := timers w |}.
Definition put_promises (w : world) v : world :=
  {| vars := vars w; socks := socks w; handles := handles w; scans := scans w; promises
     := v; timers := timers w |}.
Definition put_timers (w : world) v : world :=
  {| vars := vars w; socks := socks w; handles := handles w; scans := scans w; promises
     := promises w; timers := v |}.

Definition set_vars (w : world) (f : page → page) : world := put_vars w (f (vars w)).

Definition cs (w : world) : cstate := currentState (vars w).
Definition set_cs (w : world) (c : cstate) : world := set_vars w (λ p, with_currentState p c).

Definition set_ready (c : conn) (s : ready_state) : conn :=
  {| k_state := s; k_listeners := k_listeners c; k_sent := k_sent c |}.

(** [socket.close()]. *)
Definition close_socket (w : world) (k : nat) : world :=
  put_socks w (alter (λ c, match k_state c with
                           | Connecting | Open => set_ready c Closing
                           | _ => c
                           end) k (socks w)).

(** [socket.send(d)]; [None] while the socket is connecting, which throws. *)
Definition send_on (w : world) (k : nat) (d : data) : option world :=
  match socks w !! k with
  | None => None
  | Some c =>
      match k_state c with
      | Connecting => None
      | Open => Some (put_socks w (<[k := {| k_state := Open; k_listeners := k_listeners c;
                                             k_sent := k_sent c ++ [d] |}]> (socks w)))
      | _ => Some w
      end
  end.

Definition try_send (w : world) (k : nat) (d : data) : world := default w (send_on w k d).

(** A new socket with its listeners, as [connect] and its caller make it. *)
Definition new_socket (w : world) (l : listener) : world * nat :=
  (put_socks w (socks w ++ [{| k_state := Connecting; k_listeners := [l]; k_sent := [] |}]),
   length (socks w)).

Definition add_listener (w : world) (k : nat) (l : listener) : world :=
  put_socks w (alter (λ c, {| k_state := k_state c; k_listeners := k_listeners c ++ [l];
                              k_sent := k_sent c |}) k (socks w)).

(** ** Moving between screens *)

Definition with_handle (w : world) (h : nat) (f : handle → handle) : world :=
  put_handles w (alter f h (handles w)).

Definition detached (h : handle) : handle :=
  {| h_socket := h_socket h; h_epoch := h_epoch h; h_role := h_role h; h_detached := true;
     h_active := h_active h; h_files := h_files h |}.

Definition send_files (files : list nat) (h : handle) : handle :=
  {| h_socket := h_socket h; h_epoch := h_epoch h; h_role := h_role h; h_detached := h_detached h;
     h_active := h_active h; h_files := h_files h ++ [files] |}.

Definition set_active (b : bool) (h : handle) : handle :=
  {| h_socket := h_socket h; h_epoch := h_epoch h; h_role := h_role h; h_detached := h_detached h;
     h_active := b; h_files := h_files h |}.

Definition detachActiveTransfer (w : world) : world :=
  match activeTransferHandle (vars w) with
  | Some h => set_vars (with_handle w h detached) (λ p, with_activeTransferHandle p None)
  | None => w
  end.

(** The [stop] function of a scan: releases the camera if it runs. *)
Definition stop_scan (w : world) (i : nat) : world :=
  put_scans w (alter (λ s, {| sc_state := match sc_state s with Running => Stopped | x => x end;
                              sc_cancelled := sc_cancelled s |}) i (scans w)).

Definition cleanupActive (w : world) : world :=
  let w := match activeStopScan (vars w) with
           | Some i => set_vars (stop_scan w i) (λ p, with_activeStopScan p None)
           | None => w
           end in
  let w := match activeSocket (vars w) with
           | Some k => set_vars (close_socket w k) (λ p, with_activeSocket p None)
           | None => w
           end in
  set_vars (detachActiveTransfer w) (λ p, with_pendingSendFiles p None).

Definition showReconnectStatus (w : world) (text : option string) : world :=
  set_vars w (λ p, with_reconnectStatus p text).

Definition showSwapStatus (w : world) (text : option string) : world :=
  set_vars w (λ p, with_swapStatus p text).

Definition add_promise (w : world) (x : promise) : world := put_promises w (promises w ++ [x]).
Definition add_timer (w : world) (x : timer) : world := put_timers w (timers w ++ [x]).
