(* ===== verification/Pairing.v ===== *)
(** * pairing.js: the screens and the paired session

    One function per function of the module and per listener it attaches. An
    event is a click, something a socket, a timer or the camera does, or a
    promise that settles; a step runs the code that event runs. The messages of
    the key exchange are those of Pake: here the exchange is a promise, and CodeNet
    runs it on the promise's socket. *)

From stdpp Require Import base list list_numbers gmap sets strings.
From Stdlib Require Import ZArith Lia.
From S2P Require Import Prelude JsText Hex Json Utf8 Crypto WsClient PairingText PageState.
Open Scope Z_scope.

(** ** Error messages *)

Definition ERROR_MESSAGE_KEYS : list (jsstr * string) :=
  [(js "session_not_found", "errSessionNotFound"%string);
   (js "session_full", "errSessionFull"%string);
   (js "too_many_sessions", "errTooManySessions"%string);
   (js "invalid_qr", "senderPasteInvalid"%string);
   (js "invalid_link", "senderPasteInvalid"%string);
   (js "camera_error", "senderCameraError"%string);
   (js "invalid_code", "errInvalidCode"%string);
   (js "too_many_attempts", "errTooManyAttempts"%string);
   (js "code_mismatch", "errCodeMismatch"%string);
   (js "connection_lost", "errConnectionLost"%string);
   (js "session_ended", "errSessionEnded"%string);
   (js "ended_by_peer", "errEndedByPeer"%string);
   (js "peer_timeout", "errSessionEnded"%string);
   (js "inactivity_timeout", "errInactivityTimeout"%string);
   (js "invalid_reconnect_token", "errConnectionLost"%string)].

(** What every object inherits. *)
Definition object_prototype : list jsstr :=
  map js ["constructor"; "toString"; "toLocaleString"; "valueOf"; "hasOwnProperty";
          "isPrototypeOf"; "propertyIsEnumerable"; "__proto__"; "__defineGetter__";
          "__defineSetter__"; "__lookupGetter__"; "__lookupSetter__"]%string.

(** [ERROR_MESSAGE_KEYS[code] || "errGeneric"]; [None] for a code that names an
    inherited property, which is then taken for the key. *)
Definition error_key (code : option jsstr) : option string :=
  match code with
  | None => Some "errGeneric"%string
  | Some code =>
      match list_find (λ e, e.1 = code) ERROR_MESSAGE_KEYS with
      | Some (_, (_, key)) => Some key
      | None => if bool_decide (code ∈ object_prototype) then None else Some "errGeneric"%string
      end
  end.

Section Pairing.
Context `{WebCrypto}.
Context (location : url).              (* of the page *)
Context (randomKey : nat → bytes).     (* crypto.getRandomValues for a socket's session *)

(** What the transfer screen is handed of the session. *)
Record paired_session := {
  ps_socket : option nat; ps_sessionId : option jsstr; ps_sessionKey : option bytes;
  ps_role : option role; ps_epoch : option Z; ps_transferRole : option transfer_role
}.

Definition getPairedSession (w : world) : option paired_session :=
  let c := cs w in
  if negb (bool_decide (cs_screen c = Paired)) then None
  else Some {| ps_socket := activeSocket (vars w); ps_sessionId := cs_sessionId c;
               ps_sessionKey := cs_sessionKey c; ps_role := cs_role c; ps_epoch := cs_epoch c;
               ps_transferRole := cs_transferRole c |}.

(** The key that [renderTransferUI] derives before it shows either screen; a
    session without a key makes it reject. *)
Definition transfer_key (session : paired_session) : result bytes :=
  match ps_sessionKey session with
  | Some key => deriveEpochKey key (default 0 (ps_epoch session))
  | None => Throw ErrType
  end.

(** Without a session, or without an epoch key, its promise is rejected. *)
Definition renderTransferUI (w : world) : world :=
  match getPairedSession w with
  | Some s =>
      match transfer_key s with
      | Ok _ => add_promise w (PRender (ps_socket s) (ps_epoch s) (ps_transferRole s))
      | Throw _ => w
      end
  | None => w
  end.

Definition renderPaired (w : world) : world :=
  let w := detachActiveTransfer w in
  let w := set_vars w (λ p, with_swapAwaitingResponse p false) in
  let w := showReconnectStatus w None in
  let w := set_vars (showSwapStatus w None) (λ p, with_swapDisabled p false) in
  renderTransferUI w.

(** Only two screens do more than show something. *)
Definition render (w : world) : world :=
  match cs_screen (cs w) with
  | Paired => renderPaired w
  | SenderScanning => put_scans w (scans w ++ [{| sc_state := Starting; sc_cancelled := false |}])
  | _ => w
  end.

Definition setState (w : world) (next : cstate) : world := render (set_cs (cleanupActive w) next).

Definition advance (w : world) (next : cstate) : world := render (set_cs w next).

Definition initPairing (isSecureContext : bool) (hash : jsstr) (w : world) : world :=
  let next :=
    if negb isSecureContext then at_screen InsecureContext
    else match (if 1 <? Z.of_nat (length hash) then parsePairingText hash else None) with
         | Some (sid, key) => session_screen JoinDetected (Some sid) (Some key) None
         | None => at_screen RoleSelect
         end in
  render (set_cs w next).

(** ** The flows *)

(** [connect()] and [activeSocket = socket]. *)
Definition open_flow (w : world) (next : cstate) (l : listener) : world :=
  let w := advance w next in
  let '(w, k) := new_socket w l in
  set_vars w (λ p, with_activeSocket p (Some k)).

Definition startReceiverFlow (w : world) : world :=
  open_flow w (at_screen ReceiverGenerating) LReceiverFlow.

Definition startReceiverCodeFlow (w : world) : world :=
  open_flow w (at_screen CodeReceiverGenerating) LReceiverCodeFlow.

Definition startJoinByCode (w : world) (code : jsstr) : world :=
  open_flow w (at_screen Joining) (LJoinByCode code).

Definition startJoin (w : world) (sessionId : jsstr) (sessionKey : bytes) : world :=
  let w := set_vars w (λ p, with_activeStopScan p None) in
  open_flow w (session_screen Joining (Some sessionId) (Some sessionKey) None)
    (LJoin sessionId sessionKey).

Definition finalizePaired (w : world) (k : nat) (sessionId : option jsstr)
    (sessionKey : option bytes) (r : role) : world :=
  let w := set_cs w (paired_screen sessionId sessionKey r) in
  let w := match sessionKey with
           | Some key =>
               match deriveReconnectToken key (default [] sessionId) with
               | Ok token => add_promise w (PToken k token)
               | Throw _ => w
               end
           | None => w
           end in
  render (add_listener w k LPaired).

(** ** The paired session *)

Definition flipTransferRole (w : world) : world :=
  let r := if bool_decide (cs_transferRole (cs w) = Some SenderRole) then ReceiverRole
           else SenderRole in
  render (set_cs w (set_transferRole (cs w) r)).

(** [activeTransferHandle && activeTransferHandle.isActive()]. *)
Definition transferActive (w : world) : bool :=
  match activeTransferHandle (vars w) ≫= λ h, handles w !! h with
  | Some h => h_active h
  | None => false
  end.

Definition role_swap_request : data := sendEnvelope "role_swap_request" JNull.
Definition role_swap_response (accepted : bool) : data :=
  sendEnvelope "role_swap_response" (JObj [(js "accepted", JBool accepted)]).

(** Without an active socket, or on one still connecting, [sendEnvelope] throws
    before the timer is set. *)
Definition requestRoleSwap (w : world) : world :=
  if transferActive w then showSwapStatus w (Some "swapBusyLocal"%string)
  else if swapAwaitingResponse (vars w) then w
  else
    let w := set_vars w (λ p, with_swapDisabled (with_swapAwaitingResponse p true) true) in
    let w := showSwapStatus w (Some "swapRequesting"%string) in
    match activeSocket (vars w) ≫= λ k, send_on w k role_swap_request with
    | Some w => add_timer w TSwap
    | None => w
    end.

(** The timer of [requestRoleSwap]. *)
Definition swap_timeout (w : world) : world :=
  if negb (swapAwaitingResponse (vars w)) then w
  else showSwapStatus (set_vars w (λ p, with_swapDisabled (with_swapAwaitingResponse p false) false))
         (Some "swapTimedOut"%string).

Definition disconnectSession (w : world) : world :=
  let w := match activeSocket (vars w) with
           | Some k => try_send w k (sendEnvelope "end_session" JNull)
           | None => w
           end in
  setState w (at_screen RoleSelect).

Definition attemptReconnect (w : world) (attempt : Z) : world :=
  if negb (bool_decide (cs_screen (cs w) = Paired)) then w
  else
    let w := showReconnectStatus w (Some "reconnecting"%string) in
    match cs_reconnectToken (cs w) with
    | None => setState w (error_screen (Some (js "connection_lost")))
    | Some token =>
        (new_socket w (LReconnect attempt (cs_sessionId (cs w)) (cs_role (cs w)) token)).1
    end.

(** [onStaleFiles], as [renderPaired] passes it. *)
Definition staleFiles (w : world) (files : list nat) : world :=
  let ready :=
    bool_decide (cs_screen (cs w) = Paired)
    && match activeSocket (vars w) ≫= λ k, socks w !! k with
       | Some c => bool_decide (k_state c = Open)
       | None => false
       end in
  match activeTransferHandle (vars w) ≫= λ h, (h,.) <$> handles w !! h with
  | Some (i, h) =>
      if bool_decide (h_role h ≠ Some ReceiverRole) && ready
      then with_handle w i (send_files files)
      else set_vars w (λ p, with_pendingSendFiles p (Some files))
  | None => set_vars w (λ p, with_pendingSendFiles p (Some files))
  end.

(** A sending screen that hands picked files to [onStaleFiles]: it was detached,
    or its socket is not open. *)
Definition stale_screen (w : world) (h : handle) : bool :=
  bool_decide (h_role h ≠ Some ReceiverRole)
  && match h_socket h ≫= λ k, socks w !! k with
     | Some c => h_detached h || negb (bool_decide (k_state c = Open))
     | None => false
     end.

(** The [then] of [renderPaired]. *)
Definition transfer_rendered (w : world) (sock : option nat) (epoch : option Z)
    (r : option transfer_role) : world :=
  let h := length (handles w) in
  let w := put_handles w (handles w ++ [{| h_socket := sock; h_epoch := epoch; h_role := r;
                                           h_detached := false; h_active := false;
                                           h_files := [] |}]) in
  let w := set_vars w (λ p, with_activeTransferHandle p (Some h)) in
  match pendingSendFiles (vars w) with
  | Some files =>
      if bool_decide (r ≠ Some ReceiverRole)
      then with_handle (set_vars w (λ p, with_pendingSendFiles p None)) h (send_files files)
      else w
  | None => w
  end.

(** ** The listeners *)

(** [env.payload && env.payload.k], as a text; [None] for anything else. *)
Definition payload_text (env : json) (k : string) : option jsstr :=
  match jget "payload" env with
  | Some p => if truthy p then to_text (jget k p) else None
  | None => None
  end.

(** A reconnecting socket's first message; a property that is [undefined] is
    left out. *)
Definition reconnect_request (sid : option jsstr) (r : option role) (token : bytes) : data :=
  sendEnvelope "reconnect"
    (JObj (match sid with Some s => [(js "sessionId", JStr s)] | None => [] end
           ++ match r with
              | Some Host => [(js "role", JStr (js "host"))]
              | Some Guest => [(js "role", JStr (js "guest"))]
              | None => []
              end
           ++ [(js "tokenHex", JStr (toHex token))])).

(** The [open] listeners. *)
Definition on_open (w : world) (k : nat) (l : listener) : world :=
  match l with
  | LReceiverFlow => try_send w k (sendEnvelope "create_session" JNull)
  | LReceiverCodeFlow => try_send w k (sendEnvelope "create_code_session" JNull)
  | LJoinByCode code =>
      try_send w k (sendEnvelope "join_by_code" (JObj [(js "code", JStr code)]))
  | LJoin sid _ => try_send w k (sendEnvelope "join" (JObj [(js "sessionId", JStr sid)]))
  | LPaired => w
  | LReconnect _ sid r token => try_send w k (reconnect_request sid r token)
  end.

(** The [message] listener of [startReceiverFlow]. *)
Definition receiverFlow_message (w : world) (k : nat) (env : json) : world :=
  if has_type env "session_created" then
    match payload_get "sessionId" (jget "payload" env) with
    | Throw _ => w
    | Ok v =>
        let sid := match v with Some (JStr s) => s | _ => js "undefined" end in
        advance w (session_screen ReceiverWaiting (Some sid) (Some (randomKey k))
                     (Some (buildPairingURL location sid (randomKey k))))
    end
  else if has_type env "paired" then
    finalizePaired w k (cs_sessionId (cs w)) (cs_sessionKey (cs w)) Host
  else if has_type env "error" then setState w (error_screen (payload_text env "code"))
  else w.

(** That of [startReceiverCodeFlow]: [runPakeExchange] is a promise. *)
Definition receiverCodeFlow_message (w : world) (k : nat) (env : json) : world :=
  if has_type env "code_session_created" then
    match payload_get "code" (jget "payload" env) with
    | Throw _ => w
    | Ok v => advance w (code_screen (match v with Some (JStr s) => Some s | _ => None end))
    end
  else if has_type env "paired" then
    add_promise (advance w (at_screen Verifying))
      (PPake k (cs_code (cs w)) (payload_text env "sessionId") Host)
  else if has_type env "error" then setState w (error_screen (payload_text env "code"))
  else w.

(** That of [startJoinByCode]. *)
Definition joinByCode_message (w : world) (k : nat) (code : jsstr) (env : json) : world :=
  if has_type env "paired" then
    add_promise (advance w (at_screen Verifying))
      (PPake k (Some code) (payload_text env "sessionId") Guest)
  else if has_type env "error" then setState w (error_screen (payload_text env "code"))
  else w.

(** That of [startJoin]. *)
Definition join_message (w : world) (k : nat) (sid : jsstr) (key : bytes) (env : json) : world :=
  if has_type env "paired" then finalizePaired w k (Some sid) (Some key) Guest
  else if has_type env "error" then setState w (error_screen (payload_text env "code"))
  else w.

(** The [close] listener of all four. *)
Definition flow_closed (w : world) : world :=
  if negb (bool_decide (cs_screen (cs w) = Paired)) && negb (bool_decide (cs_screen (cs w) = Error))
  then setState w (error_screen (Some (js "connection_lost")))
  else w.

Definition incr_epoch (w : world) : world :=
  set_cs w (set_epoch (cs w) ((λ e, e + 1) <$> cs_epoch (cs w))).

(** The request of [wirePairedSocket]: refuse while busy, else accept and flip. *)
Definition swap_requested (w : world) (k : nat) : world :=
  let busy := transferActive w || swapAwaitingResponse (vars w) in
  match send_on w k (role_swap_response (negb busy)) with
  | None => w
  | Some w => if busy then w else flipTransferRole w
  end.

(** [env.payload && env.payload.accepted]. *)
Definition accepted_of (env : json) : bool :=
  match jget "payload" env with
  | Some p => truthy p && match jget "accepted" p with Some v => truthy v | None => false end
  | None => false
  end.

(** Its answer. *)
Definition swap_answered (w : world) (accepted : bool) : world :=
  if negb (swapAwaitingResponse (vars w)) then w
  else
    let w := set_vars w (λ p, with_swapAwaitingResponse p false) in
    if accepted then flipTransferRole w
    else set_vars (showSwapStatus w (Some "swapRejected"%string)) (λ p, with_swapDisabled p false).

Definition paired_message (w : world) (k : nat) (env : json) : world :=
  if has_type env "session_ended" then
    setState w (error_screen (Some (default (js "session_ended") (payload_text env "reason"))))
  else if has_type env "peer_disconnected" then showReconnectStatus w (Some "reconnecting"%string)
  else if has_type env "peer_reconnected" then render (incr_epoch w)
  else if has_type env "role_swap_request" then swap_requested w k
  else if has_type env "role_swap_response" then swap_answered w (accepted_of env)
  else w.

Definition paired_closed (w : world) (k : nat) : world :=
  if negb (bool_decide (cs_screen (cs w) = Paired))
     || negb (bool_decide (activeSocket (vars w) = Some k)) then w
  else attemptReconnect (set_vars w (λ p, with_activeSocket p None)) 1.

Definition reconnect_message (w : world) (k : nat) (env : json) : world :=
  if has_type env "reconnected" then
    let w := set_vars w (λ p, with_activeSocket p (Some k)) in
    let w := showReconnectStatus w None in
    render (add_listener (incr_epoch w) k LPaired)
  else if has_type env "error" then
    setState w (error_screen (Some (default (js "connection_lost") (payload_text env "code"))))
  else w.

Definition reconnect_closed (w : world) (k : nat) (attempt : Z) : world :=
  if negb (bool_decide (cs_screen (cs w) = Paired))
     || bool_decide (activeSocket (vars w) = Some k) then w
  else if RECONNECT_MAX_ATTEMPTS <=? attempt
       then setState w (error_screen (Some (js "connection_lost")))
       else add_timer w (TReconnect (attempt + 1)).

Definition on_message (w : world) (k : nat) (l : listener) (env : json) : world :=
  match l with
  | LReceiverFlow => receiverFlow_message w k env
  | LReceiverCodeFlow => receiverCodeFlow_message w k env
  | LJoinByCode code => joinByCode_message w k code env
  | LJoin sid key => join_message w k sid key env
  | LPaired => paired_message w k env
  | LReconnect _ _ _ _ => reconnect_message w k env
  end.

Definition on_close (w : world) (k : nat) (l : listener) : world :=
  match l with
  | LPaired => paired_closed w k
  | LReconnect attempt _ _ _ => reconnect_closed w k attempt
  | _ => flow_closed w
  end.

(** An event goes to the listeners attached when it is dispatched, in order. *)
Definition dispatch (w : world) (k : nat) (f : world → listener → world) : world :=
  match socks w !! k with
  | Some c => fold_left f (k_listeners c) w
  | None => w
  end.

(** ** The screens

    The texts and the buttons of a screen, by the key of their label, in order;
    a button's action gets the text of the screen's input field. *)

Record view := {
  v_texts : list string;
  v_buttons : list (string * (jsstr → world → world))
}.

Definition goto (s : screen) : jsstr → world → world := λ _ w, setState w (at_screen s).
Definition onwards (s : screen) : jsstr → world → world := λ _ w, advance w (at_screen s).

Definition renderInsecureContext : view :=
  {| v_texts := ["insecureContextTitle"; "insecureContextBody"]%string; v_buttons := [] |}.

Definition renderStatus (key : string) : view := {| v_texts := [key]; v_buttons := [] |}.

Definition renderRoleSelect : view :=
  {| v_texts := ["appTagline"%string];
     v_buttons := [("startReceive"%string, λ _, startReceiverFlow);
                   ("startSend"%string, onwards SenderScanning);
                   ("remoteCodeLink"%string, onwards CodeRoleSelect)] |}.

Definition renderCodeRoleSelect : view :=
  {| v_texts := ["codeRoleChooseTitle"%string];
     v_buttons := [("roleReceive"%string, λ _, startReceiverCodeFlow);
                   ("roleSend"%string, onwards CodeSenderEntry);
                   ("backButton"%string, goto RoleSelect)] |}.

Definition join_detected (w : world) : world :=
  match cs_sessionId (cs w), cs_sessionKey (cs w) with
  | Some sid, Some key => startJoin w sid key
  | _, _ => w
  end.

Definition renderJoinDetected : view :=
  {| v_texts := ["joinDetectedTitle"%string];
     v_buttons := [("joinDetectedButton"%string, λ _, join_detected);
                   ("joinDetectedCancel"%string, goto RoleSelect)] |}.

(** What sharing or copying does leaves this state alone: see [shareOrCopy]. *)
Definition renderReceiverWaiting : view :=
  {| v_texts := ["receiverWaiting"; "receiverLinkLabel"; "shareSecurityWarning"]%string;
     v_buttons := [("shareButton"%string, λ _ w, w); ("backButton"%string, goto RoleSelect)] |}.

Definition renderCodeReceiverWaiting : view :=
  {| v_texts := ["codeReceiverWaiting"; "codeExpiryNote"]%string;
     v_buttons := [("copyCodeButton"%string, λ _ w, w);
                   ("backButton"%string, goto CodeRoleSelect)] |}.

Definition join_code (value : jsstr) (w : world) : world :=
  match submitCode value with
  | None => setState w (error_screen (Some (js "invalid_code")))
  | Some code => startJoinByCode w code
  end.

Definition renderCodeSenderEntry : view :=
  {| v_texts := ["codeSenderLabel"%string];
     v_buttons := [("senderPasteButton"%string, join_code);
                   ("backButton"%string, goto CodeRoleSelect)] |}.

(** [cancelled = true], for the scan of the screen shown. *)
Definition cancel_scan (w : world) : world :=
  put_scans w (alter (λ s, {| sc_state := sc_state s; sc_cancelled := true |})
                 (length (scans w) - 1)%nat (scans w)).

Definition renderSenderScanning : view :=
  {| v_texts := ["senderScanHint"%string];
     v_buttons := [("pasteLinkInsteadButton"%string, λ _ w, setState (cancel_scan w) (at_screen SenderPaste));
                   ("backButton"%string, λ _ w, setState (cancel_scan w) (at_screen RoleSelect))] |}.

Definition join_pasted (value : jsstr) (w : world) : world :=
  match parsePairingText value with
  | None => setState w (error_screen (Some (js "invalid_link")))
  | Some (sid, key) => startJoin w sid key
  end.

Definition renderSenderPaste : view :=
  {| v_texts := ["senderPasteLabel"%string];
     v_buttons := [("senderPasteButton"%string, join_pasted);
                   ("backButton"%string, goto SenderScanning)] |}.

(** The texts and buttons of [renderPaired]. *)
Definition paired_view (r : option role) : view :=
  {| v_texts := [match r with Some Host => "statusPairedHost" | _ => "statusPairedGuest" end%string];
     v_buttons := [("swapRolesButton"%string, λ _, requestRoleSwap);
                   ("disconnectButton"%string, λ _, disconnectSession)] |}.

Definition renderError (code : option jsstr) : view :=
  {| v_texts := option_list (error_key code); v_buttons := [("tryAgain"%string, goto RoleSelect)] |}.

(** What [render] shows. *)
Definition screen_view (c : cstate) : view :=
  match cs_screen c with
  | RoleSelect => renderRoleSelect
  | CodeRoleSelect => renderCodeRoleSelect
  | JoinDetected => renderJoinDetected
  | ReceiverGenerating | CodeReceiverGenerating => renderStatus "receiverGenerating"
  | ReceiverWaiting => renderReceiverWaiting
  | SenderScanning => renderSenderScanning
  | SenderPaste => renderSenderPaste
  | Joining => renderStatus "statusJoining"
  | CodeReceiverWaiting => renderCodeReceiverWaiting
  | CodeSenderEntry => renderCodeSenderEntry
  | Verifying => renderStatus "statusVerifying"
  | Paired => paired_view (cs_role c)
  | Error => renderError (cs_error c)
  | InsecureContext => renderInsecureContext
  end.

(** A click on the button with that label; [None] when the screen has none. *)
Definition click (w : world) (key : string) (input : jsstr) : option world :=
  '(_, b) ← list_find (λ b, b.1 = key) (v_buttons (screen_view (cs w)));
  Some (b.2 input w).

(** The keys of the texts and buttons of a screen. *)
Definition screen_keys (c : cstate) : list string :=
  v_texts (screen_view c) ++ (v_buttons (screen_view c)).*1.

(** ** The camera *)

(** What [startScanning]'s caller does with a decoded text. *)
Definition on_decode (w : world) (text : jsstr) : world :=
  match parsePairingText text with
  | None => setState w (error_screen (Some (js "invalid_qr")))
  | Some (sid, key) => startJoin w sid key
  end.

Definition set_scan (w : world) (i : nat) (s : scan_state) : world :=
  put_scans w (alter (λ x, {| sc_state := s; sc_cancelled := sc_cancelled x |}) i (scans w)).

(** [startScanning(..).then(..)]. *)
Definition scan_resolved (w : world) (i : nat) : world :=
  match scans w !! i with
  | Some s => if sc_cancelled s then stop_scan w i
              else set_vars w (λ p, with_activeStopScan p (Some i))
  | None => w
  end.

(** The camera answers and the video plays: the first frame is looked at, with
    what it decodes to. *)
Definition scan_started (w : world) (i : nat) (first : option jsstr) : world :=
  match first with
  | None => scan_resolved (set_scan w i Running) i
  | Some text => scan_resolved (on_decode (set_scan w i Stopped) text) i
  end.

(** What the caller does with a camera's error. *)
Definition on_scan_error (w : world) : world := setState w (error_screen (Some (js "camera_error"))).

(** [getUserMedia] is refused: [onError], then a [stop] that does nothing. *)
Definition scan_refused (w : world) (i : nat) : world :=
  scan_resolved (on_scan_error (set_scan w i Stopped)) i.

(** A later frame decodes: [stop()], then [onDecode]. *)
Definition scan_decoded (w : world) (i : nat) (text : jsstr) : world :=
  on_decode (set_scan w i Stopped) text.

(** ** Promises *)

(** The [then] of [finalizePaired]. *)
Definition token_derived (w : world) (k : nat) (token : bytes) : world :=
  try_send (set_cs w (set_token (cs w) token)) k
    (sendEnvelope "reconnect_token" (JObj [(js "tokenHex", JStr (toHex token))])).

(** The [then] and [catch] of [runPakeExchange]. *)
Definition exchange_settled (w : world) (k : nat) (sid : option jsstr) (r : role)
    (exchanged : result bytes) : world :=
  match exchanged with
  | Ok key => finalizePaired w k sid (Some key) r
  | Throw _ => setState w (error_screen (Some (js "code_mismatch")))
  end.

Definition settle (w : world) (x : promise) (exchanged : result bytes) : world :=
  match x with
  | PToken k token => token_derived w k token
  | PRender sock epoch r => transfer_rendered w sock epoch r
  | PPake k _ sid r => exchange_settled w k sid r exchanged
  end.

(** ** Events *)

Inductive event :=
(* a click on a button, by the key of its label; the text of the input field *)
| Click (key : string) (input : jsstr)
(* sockets *)
| SockOpen (k : nat) | SockMessage (k : nat) (d : data) | SockClose (k : nat)
(* timers and promises, by position *)
| TimerFires (i : nat) | PromiseSettles (i : nat) (exchanged : result bytes)
(* the camera: started; refused; its video does not play; a later frame decodes *)
| ScanStarts (i : nat) (first : option jsstr) | ScanRefused (i : nat) | ScanPlayFails (i : nat)
| ScanDecodes (i : nat) (text : jsstr)
(* the transfer screens *)
| TransferBusy (h : nat) (active : bool) | StaleFiles (files : list nat).

Definition delete_at {A} (i : nat) (l : list A) : list A := take i l ++ drop (S i) l.

(** A scan in the given state, else the event cannot happen. *)
Definition scan_in (w : world) (i : nat) (s : scan_state) (w' : world) : option world :=
  x ← scans w !! i;
  if bool_decide (sc_state x = s) then Some w' else None.

(** [None]: the event cannot happen in this state. *)
Definition step (w : world) (e : event) : option world :=
  match e with
  | Click key input => click w key input
  | SockOpen k =>
      c ← socks w !! k;
      match k_state c with
      | Connecting =>
          let w := put_socks w (<[k := set_ready c Open]> (socks w)) in
          Some (dispatch w k (λ w l, on_open w k l))
      | _ => None
      end
  | SockMessage k d =>
      c ← socks w !! k;
      match k_state c with
      | Open =>
          match received d with
          | None => Some w
          | Some env => Some (dispatch w k (λ w l, on_message w k l env))
          end
      | _ => None
      end
  | SockClose k =>
      c ← socks w !! k;
      match k_state c with
      | Closed => None
      | _ =>
          let w := put_socks w (<[k := set_ready c Closed]> (socks w)) in
          Some (dispatch w k (λ w l, on_close w k l))
      end
  | TimerFires i =>
      t ← timers w !! i;
      let w := put_timers w (delete_at i (timers w)) in
      Some (match t with
            | TSwap => swap_timeout w
            | TReconnect attempt => attemptReconnect w attempt
            end)
  | PromiseSettles i exchanged =>
      x ← promises w !! i;
      Some (settle (put_promises w (delete_at i (promises w))) x exchanged)
  | ScanStarts i first => scan_in w i Starting (scan_started w i first)
  | ScanRefused i => scan_in w i Starting (scan_refused w i)
  | ScanPlayFails i => scan_in w i Starting (set_scan w i Abandoned)
  | ScanDecodes i text => scan_in w i Running (scan_decoded w i text)
  | TransferBusy h b =>
      _ ← handles w !! h; Some (with_handle w h (set_active b))
  | StaleFiles files =>
      if existsb (stale_screen w) (handles w) then Some (staleFiles w files) else None
  end.

(** The page before [initPairing], and a page that has just loaded. *)
Definition blank : world :=
  {| vars := {| currentState := at_screen RoleSelect; activeSocket := None; activeStopScan := None;
                activeTransferHandle := None; swapAwaitingResponse := false;
                pendingSendFiles := None; reconnectStatus := None; swapStatus := None;
                swapDisabled := false |};
     socks := []; handles := []; scans := []; promises := []; timers := [] |}.

Definition start (isSecureContext : bool) (hash : jsstr) : world :=
  initPairing isSecureContext hash blank.

End Pairing.

(** ** shareOrCopy *)

Inductive share_outcome := Shared | Dismissed | ShareFailed.

(** The browser's answers: [navigator.share], when there is one, and
    [navigator.clipboard.writeText], when there is one. *)
Record share_env := {
  navigator_share : option share_outcome;
  clipboard_writeText : option bool
}.

(** The status line shown, and the texts that left the page. *)
Definition shareOrCopy (url text : jsstr) (env : share_env) : option string * list jsstr :=
  let payload := if bool_decide (url = []) then text else url in
  match navigator_share env with
  | Some Shared => (None, [payload])
  | Some Dismissed => (None, [])
  | _ =>
      match clipboard_writeText env with
      | Some true => (Some "shareCopied"%string, [payload])
      | _ => (Some "shareCopyManually"%string, [])
      end
  end.
