(* ===== verification/Strings.v ===== *)
(** * strings.js: the texts of the interface

    Keys and texts are Rocq strings; a text is its UTF-8 encoding. *)

From stdpp Require Import base list sets strings gmap.
From Stdlib Require Import ZArith Lia.
From S2P Require Import Prelude.

Local Open Scope string_scope.

(** [STRINGS.pl]. *)
Definition STRINGS_pl : list (string * string) := [
  ("langGroupLabel", "Język");
  ("themeGroupLabel", "Motyw");
  ("langAuto", "Auto");
  ("langPl", "PL");
  ("langEn", "EN");
  ("themeSystem", "System");
  ("themeLight", "Jasny");
  ("themeDark", "Ciemny");
  ("appTagline", "Wyślij plik na inne urządzenie w kilka sekund.");
  ("startReceive", "📥 Odbierz");
  ("startSend", "📤 Wyślij");
  ("remoteCodeLink", "Zdalnie? Sparuj kodem zamiast QR");
  ("codeRoleChooseTitle", "Parowanie zdalne kodem");
  ("roleReceive", "Odbierz");
  ("roleSend", "Wyślij");
  ("backButton", "Wstecz");
  ("receiverGenerating", "Generowanie sesji…");
  ("receiverWaiting", "Zeskanuj ten kod na drugim urządzeniu");
  ("receiverLinkLabel", "Lub wklej ten link na drugim urządzeniu:");
  ("shareSecurityWarning", "Każdy, kto ma ten link lub kod QR, może dołączyć do tego transferu. Udostępnij go tylko osobie, do której wysyłasz plik.");
  ("shareButton", "Udostępnij");
  ("shareCopied", "Skopiowano do schowka");
  ("shareCopyManually", "Zaznacz i skopiuj powyższy tekst ręcznie");
  ("copyCodeButton", "Kopiuj kod");
  ("pasteLinkInsteadButton", "Nie możesz zeskanować? Wklej link ręcznie");
  ("senderPasteLabel", "Wklej link z drugiego urządzenia");
  ("senderPasteButton", "Dołącz");
  ("senderScanHint", "Wyceluj kamerą w kod QR");
  ("senderCameraError", "Brak dostępu do kamery. Użyj wklejania linku.");
  ("senderPasteInvalid", "To nie wygląda na poprawny link Quicksend.");
  ("joinDetectedTitle", "Wykryto sesję parowania");
  ("joinDetectedButton", "Dołącz do sesji");
  ("joinDetectedCancel", "Anuluj");
  ("codeReceiverWaiting", "Podaj ten kod drugiej osobie (dowolnym kanałem)");
  ("codeExpiryNote", "Kod jest ważny 5 minut i można go użyć tylko raz.");
  ("codeSenderLabel", "Wpisz kod otrzymany od drugiej osoby");
  ("statusConnecting", "Łączenie…");
  ("statusJoining", "Dołączanie…");
  ("statusVerifying", "Weryfikowanie kodu…");
  ("statusPaired", "Sparowano!");
  ("statusPairedHost", "Sparowano! Drugie urządzenie dołączyło.");
  ("statusPairedGuest", "Sparowano z drugim urządzeniem.");
  ("errSessionNotFound", "Nie znaleziono sesji. Link może być nieaktualny.");
  ("errSessionFull", "Ta sesja ma już dwoje uczestników.");
  ("errTooManySessions", "Zbyt wiele aktywnych sesji z tego urządzenia.");
  ("errInvalidCode", "Nieprawidłowy lub wygasły kod.");
  ("errTooManyAttempts", "Zbyt wiele prób. Poczekaj chwilę i spróbuj ponownie.");
  ("errCodeMismatch", "Kod się nie zgadza po obu stronach. Spróbujcie ponownie z nowym kodem.");
  ("errConnectionLost", "Utracono połączenie i nie udało się go wznowić.");
  ("errSessionEnded", "Sesja zakończona — drugie urządzenie nie wróciło na czas.");
  ("errEndedByPeer", "Druga strona zakończyła sesję.");
  ("errInactivityTimeout", "Sesja zakończona z powodu braku aktywności.");
  ("errGeneric", "Coś poszło nie tak. Spróbuj ponownie.");
  ("tryAgain", "Spróbuj ponownie");
  ("insecureContextTitle", "Brak bezpiecznego połączenia");
  ("insecureContextBody", "Ta strona jest otwarta pod zwykłym http:// pod adresem innym niż localhost, więc przeglądarka blokuje szyfrowanie (Web Crypto), którego Quicksend wymaga do parowania i przesyłania plików. Otwórz stronę przez HTTPS — np. uruchamiając docker-compose.yml z Caddy jako reverse proxy (ustaw QUICKSEND_DOMAIN na adres IP tego urządzenia w sieci lokalnej i zaakceptuj ostrzeżenie o certyfikacie na każdym urządzeniu) — albo testuj wyłącznie przez localhost.");
  ("reconnecting", "Połączenie przerwane, próba wznowienia…");
  ("swapRolesButton", "Zamień się rolami");
  ("swapRequesting", "Czekam na zgodę drugiej strony…");
  ("swapRejected", "Druga strona odrzuciła zamianę (trwa transfer). Spróbuj ponownie za chwilę.");
  ("swapBusyLocal", "Zaczekaj, aż bieżący transfer się zakończy.");
  ("swapTimedOut", "Brak odpowiedzi. Spróbuj ponownie.");
  ("disconnectButton", "Rozłącz");
  ("transferSenderHint", "Wybierz pliki do wysłania");
  ("dropHint", "albo przeciągnij i upuść pliki tutaj");
  ("transferWaitingForFiles", "Czekam na pliki…");
  ("chooseSaveFolderButton", "Wybierz folder zapisu");
  ("changeSaveFolderButton", "Zmień folder zapisu");
  ("saveFolderChosenPrefix", "Pliki będą zapisywane w folderze");
  ("transferReceivingFiles", "Odbieranie plików…");
  ("transferSending", "Wysyłanie…");
  ("transferSent", "Wysłano");
  ("transferSavedToDisk", "Zapisano na dysku");
  ("transferDownloaded", "Pobrano");
  ("openFileLink", "Otwórz");
  ("transferError", "Błąd transferu");
  ("transferCanceled", "Anulowano");
  ("transferTooLarge", "Plik zbyt duży — przekroczono limit rozmiaru");
  ("transferLargeFileWarning", "Duży plik bez wsparcia zapisu na dysk — może zużyć dużo pamięci przeglądarki.");
  ("cancelButton", "Anuluj")
].

(** [STRINGS.en]. *)
Definition STRINGS_en : list (string * string) := [
  ("langGroupLabel", "Language");
  ("themeGroupLabel", "Theme");
  ("langAuto", "Auto");
  ("langPl", "PL");
  ("langEn", "EN");
  ("themeSystem", "System");
  ("themeLight", "Light");
  ("themeDark", "Dark");
  ("appTagline", "Send a file to another device in seconds.");
  ("startReceive", "📥 Receive");
  ("startSend", "📤 Send");
  ("remoteCodeLink", "Remote? Pair with a code instead of QR");
  ("codeRoleChooseTitle", "Remote pairing by code");
  ("roleReceive", "Receive");
  ("roleSend", "Send");
  ("backButton", "Back");
  ("receiverGenerating", "Generating session…");
  ("receiverWaiting", "Scan this code on the other device");
  ("receiverLinkLabel", "Or paste this link on the other device:");
  ("shareSecurityWarning", "Anyone with this link or QR code can join this transfer. Only share it with the person you're sending the file to.");
  ("shareButton", "Share");
  ("shareCopied", "Copied to clipboard");
  ("shareCopyManually", "Select and copy the text above manually");
  ("copyCodeButton", "Copy code");
  ("pasteLinkInsteadButton", "Can't scan? Paste link manually");
  ("senderPasteLabel", "Paste the link from the other device");
  ("senderPasteButton", "Join");
  ("senderScanHint", "Point your camera at the QR code");
  ("senderCameraError", "Camera access unavailable. Use paste instead.");
  ("senderPasteInvalid", "That doesn't look like a valid Quicksend link.");
  ("joinDetectedTitle", "Pairing session detected");
  ("joinDetectedButton", "Join session");
  ("joinDetectedCancel", "Cancel");
  ("codeReceiverWaiting", "Give this code to the other person (any channel)");
  ("codeExpiryNote", "The code is valid for 5 minutes and can only be used once.");
  ("codeSenderLabel", "Enter the code you got from the other person");
  ("statusConnecting", "Connecting…");
  ("statusJoining", "Joining…");
  ("statusVerifying", "Verifying code…");
  ("statusPaired", "Paired!");
  ("statusPairedHost", "Paired! The other device has joined.");
  ("statusPairedGuest", "Paired with the other device.");
  ("errSessionNotFound", "Session not found. The link may be stale.");
  ("errSessionFull", "This session already has two participants.");
  ("errTooManySessions", "Too many active sessions from this device.");
  ("errInvalidCode", "Invalid or expired code.");
  ("errTooManyAttempts", "Too many attempts. Wait a bit and try again.");
  ("errCodeMismatch", "The code didn't match on both sides. Try again with a new code.");
  ("errConnectionLost", "Connection lost and couldn't be resumed.");
  ("errSessionEnded", "Session ended — the other device didn't come back in time.");
  ("errEndedByPeer", "The other device ended the session.");
  ("errInactivityTimeout", "Session ended due to inactivity.");
  ("errGeneric", "Something went wrong. Please try again.");
  ("tryAgain", "Try again");
  ("insecureContextTitle", "No secure connection");
  ("insecureContextBody", "This page is open over plain http:// at an address other than localhost, so the browser blocks the encryption (Web Crypto) Quicksend needs for pairing and file transfer. Open it over HTTPS instead — e.g. run docker-compose.yml with Caddy as a reverse proxy (set QUICKSEND_DOMAIN to this device's LAN IP and accept the certificate warning on each device) — or test over localhost only.");
  ("reconnecting", "Connection lost, trying to reconnect…");
  ("swapRolesButton", "Swap roles");
  ("swapRequesting", "Waiting for the other side to agree…");
  ("swapRejected", "The other side declined (a transfer is in progress). Try again shortly.");
  ("swapBusyLocal", "Wait for the current transfer to finish first.");
  ("swapTimedOut", "No response. Try again.");
  ("disconnectButton", "Disconnect");
  ("transferSenderHint", "Choose files to send");
  ("dropHint", "or drag and drop files here");
  ("transferWaitingForFiles", "Waiting for files…");
  ("chooseSaveFolderButton", "Choose save folder");
  ("changeSaveFolderButton", "Change save folder");
  ("saveFolderChosenPrefix", "Files will be saved to");
  ("transferReceivingFiles", "Receiving files…");
  ("transferSending", "Sending…");
  ("transferSent", "Sent");
  ("transferSavedToDisk", "Saved to disk");
  ("transferDownloaded", "Downloaded");
  ("openFileLink", "Open");
  ("transferError", "Transfer error");
  ("transferCanceled", "Canceled");
  ("transferTooLarge", "File too large — exceeded the size limit");
  ("transferLargeFileWarning", "Large file without disk-write support — may use a lot of browser memory.");
  ("cancelButton", "Cancel")
].
