(* ===== verification/I18n.v ===== *)
(** * i18n.js and theme.js: the interface's language and colours

    Keys, texts and preferences are Rocq strings (a text is its UTF-8
    encoding). The page's state is passed explicitly: what [localStorage] holds,
    the attributes of the document, the text of each [data-i18n] element, and the
    labels and buttons of the two toggles. The language tells its subscribers of
    a change; they are functions on what they are about, and the theme's toggle
    is the one subscriber. AppPage is the page app.js makes of both; it has no
    [data-i18n] element. *)

From stdpp Require Import base list sets strings gmap.
From Stdlib Require Import ZArith Lia.
From S2P Require Import Prelude Strings.
Local Open Scope string_scope.

(** [localStorage]; [None] when the browser refuses it, every access throwing. *)
Definition storage : Type := option (gmap string string).

Definition getItem (st : storage) (k : string) : result (option string) :=
  match st with None => Throw (ErrOther "SecurityError") | Some m => Ok (m !! k) end.

(** [setItem] in the [try] of its callers: a failure changes nothing. *)
Definition setItem (st : storage) (k v : string) : storage := insert k v <$> st.

Definition includes (l : list string) (v : option string) : bool :=
  match v with Some s => bool_decide (s ∈ l) | None => false end.

(** [readStored] of both modules. *)
Definition readStored (key : string) (VALID : list string) (st : storage) : string :=
  match getItem st key with
  | Ok (Some v) => if includes VALID (Some v) then v else "system"
  | _ => "system"
  end.

Lemma readStored_valid key VALID st : "system" ∈ VALID → readStored key VALID st ∈ VALID.
Proof.
  unfold readStored, includes. intros Hs. repeat (case_match; try done).
  by apply bool_decide_eq_true in H1.
Qed.

Lemma readStored_setItem key VALID m v :
  v ∈ VALID → readStored key VALID (setItem (Some m) key v) = v.
Proof.
  intros Hv. unfold readStored, setItem. simpl. rewrite lookup_insert_eq.
  unfold includes. by rewrite bool_decide_true.
Qed.

(** The buttons of a toggle, with their [aria-pressed]. *)
Definition pressed (VALID : list string) (pref : string) : list (string * bool) :=
  map (λ opt, (opt, bool_decide (opt = pref))) VALID.

(** ** strings.js: detectLocale *)

Definition DEFAULT_LOCALE : string := "en".

Definition STRINGS (locale : string) : option (gmap string string) :=
  if bool_decide (locale = "pl") then Some (list_to_map STRINGS_pl)
  else if bool_decide (locale = "en") then Some (list_to_map STRINGS_en)
  else None.

(** [toLowerCase], as far as the comparisons below can tell: no character
    outside ASCII has a lower case that starts with one of their letters. *)
Definition lower (a : Ascii.ascii) : Ascii.ascii :=
  let n := Ascii.nat_of_ascii a in
  if (bool_decide (65 ≤ n ≤ 90)%nat) then Ascii.ascii_of_nat (n + 32) else a.

Fixpoint toLowerCase (s : string) : string :=
  match s with EmptyString => EmptyString | String a s' => String (lower a) (toLowerCase s') end.

Fixpoint first_known (langs : list string) : string :=
  match langs with
  | [] => DEFAULT_LOCALE
  | l :: langs' =>
      let base := String.substring 0 2 (toLowerCase l) in
      if bool_decide (base = "pl") then "pl"
      else if bool_decide (base = "en") then "en"
      else first_known langs'
  end.

(** [navigator.languages] and [navigator.language]. *)
Definition detectLocale (languages : option (list string)) (language : option string) : string :=
  first_known
    match languages with
    | Some (l :: ls) => l :: ls
    | _ => [match language with
            | Some l => if bool_decide (l = "") then DEFAULT_LOCALE else l
            | None => DEFAULT_LOCALE
            end]
    end.

(** ** i18n.js *)

Module Lang.

Definition STORAGE_KEY : string := "quicksend-lang".
Definition VALID : list string := ["system"; "pl"; "en"].
Definition labelKeys : gmap string string :=
  list_to_map [("system", "langAuto"); ("pl", "langPl"); ("en", "langEn")].

Definition dict (locale : string) : gmap string string :=
  match STRINGS locale with
  | Some d => d
  | None => default ∅ (STRINGS DEFAULT_LOCALE)
  end.

Definition t (locale : string) (key : string) : string :=
  match dict locale !! key with Some text => text | None => key end.

(** A toggle's labels: the group's, and that of each button. *)
Definition labelled (locale group : string) (keys : gmap string string) (VALID : list string) :
    string * list (string * string) :=
  (t locale group, map (λ opt, (opt, t locale (default "undefined" (keys !! opt)))) VALID).

(** [X] is what the subscribers change. *)
Record state (X : Type) := {
  currentLocale : string;
  lang_attr : string;                        (* document.documentElement.lang *)
  elements : list (string * string);         (* [data-i18n] elements: key and text *)
  labels : string * list (string * string);
  buttons : list (string * bool);
  subscribers : list (string → X → X);
  outside : X
}.
Arguments currentLocale {X}. Arguments lang_attr {X}. Arguments elements {X}.
Arguments labels {X}. Arguments buttons {X}. Arguments subscribers {X}. Arguments outside {X}.

Section Lang.
Context {X : Type} (languages : option (list string)) (language : option string).

Definition readStored : storage → string := readStored STORAGE_KEY VALID.

Definition resolveLocale (pref : string) : string :=
  if bool_decide (pref = "system") then detectLocale languages language else pref.

Definition applyTranslations (s : state X) : state X :=
  {| currentLocale := currentLocale s; lang_attr := currentLocale s;
     elements := map (λ e, match dict (currentLocale s) !! e.1 with
                           | Some text => (e.1, text)
                           | None => e
                           end) (elements s);
     labels := labels s; buttons := buttons s; subscribers := subscribers s;
     outside := fold_left (λ x fn, fn (currentLocale s) x) (subscribers s) (outside s) |}.

Definition onLocaleChange (fn : string → X → X) (s : state X) : state X :=
  {| currentLocale := currentLocale s; lang_attr := lang_attr s; elements := elements s;
     labels := labels s; buttons := buttons s; subscribers := subscribers s ++ [fn];
     outside := outside s |}.

Definition relabel (s : state X) : state X :=
  {| currentLocale := currentLocale s; lang_attr := lang_attr s; elements := elements s;
     labels := labelled (currentLocale s) "langGroupLabel" labelKeys VALID;
     buttons := buttons s; subscribers := subscribers s; outside := outside s |}.

Definition setPref (st : storage) (s : state X) (newPref : string) : storage * state X :=
  let s := {| currentLocale := resolveLocale newPref; lang_attr := lang_attr s;
              elements := elements s; labels := labels s; buttons := buttons s;
              subscribers := subscribers s; outside := outside s |} in
  let s := relabel (applyTranslations s) in
  (setItem st STORAGE_KEY newPref,
   {| currentLocale := currentLocale s; lang_attr := lang_attr s; elements := elements s;
      labels := labels s; buttons := pressed VALID newPref; subscribers := subscribers s;
      outside := outside s |}).

(** The page as it loads, before [initLangToggle]. *)
Definition loaded (els : list (string * string)) (x : X) : state X :=
  {| currentLocale := DEFAULT_LOCALE; lang_attr := ""; elements := els; labels := ("", []);
     buttons := []; subscribers := []; outside := x |}.

Definition initLangToggle (st : storage) (s : state X) : storage * state X :=
  setPref st s (readStored st).

End Lang.

Arguments dict : simpl never.

(** *** Lemmas *)

Lemma first_known_locale ls : first_known ls = "pl" ∨ first_known ls = "en".
Proof. induction ls as [|l ls IH]; simpl; [by right|]. repeat case_bool_decide; auto. Qed.

Lemma resolve_locale languages language pref :
  pref ∈ VALID → resolveLocale languages language pref = "pl" ∨ resolveLocale languages language pref = "en".
Proof.
  intros Hp. unfold resolveLocale. case_bool_decide; [apply first_known_locale|].
  unfold VALID in Hp. set_solver.
Qed.

(** Both dictionaries have the same keys. *)
Lemma keys_equal : STRINGS_pl.*1 = STRINGS_en.*1.
Proof. by vm_compute. Qed.

Lemma keys_nodup : NoDup (STRINGS_en.*1).
Proof. apply (bool_decide_unpack _). by vm_compute. Qed.

Lemma dict_known locale k :
  locale = "pl" ∨ locale = "en" → k ∈ STRINGS_en.*1 → is_Some (dict locale !! k).
Proof.
  intros [-> | ->] Hk.
  - change (dict "pl") with (list_to_map (M := gmap string string) STRINGS_pl).
    rewrite <- keys_equal in Hk. apply list_elem_of_fmap in Hk as ([k' text] & -> & Hk).
    exists text. apply elem_of_list_to_map_1; [|done]. rewrite keys_equal. apply keys_nodup.
  - change (dict "en") with (list_to_map (M := gmap string string) STRINGS_en).
    apply list_elem_of_fmap in Hk as ([k' text] & -> & Hk).
    exists text. apply elem_of_list_to_map_1; [|done]. apply keys_nodup.
Qed.

(** What the page shows of the language [locale] and the preference [pref]. *)
Record shown {X} (s : state X) (locale pref : string) : Prop := {
  sh_locale : currentLocale s = locale;
  sh_attr : lang_attr s = locale;
  sh_elements k text : (k, text) ∈ elements s → k ∈ STRINGS_en.*1 → text = t locale k;
  sh_labels : labels s = labelled locale "langGroupLabel" labelKeys VALID;
  sh_buttons : buttons s = pressed VALID pref
}.

Section Shown.
Context {X : Type} (languages : option (list string)) (language : option string).

Lemma setPref_shown st (s : state X) pref :
  pref ∈ VALID →
  shown (setPref languages language st s pref).2 (resolveLocale languages language pref) pref.
Proof.
  intros Hp. pose proof (resolve_locale languages language pref Hp) as Hl. split; [done..| |done|done].
  intros k text Hin Hk. cbn [setPref relabel applyTranslations elements currentLocale snd] in *.
  apply list_elem_of_fmap in Hin as ([k' u] & He & _). cbn [fst] in He. unfold t.
  destruct (dict_known _ k Hl Hk) as [v Hv].
  destruct (dict (resolveLocale languages language pref) !! k') as [w|] eqn:E; simplify_eq; by rewrite ?E, ?Hv in *.
Qed.

End Shown.
End Lang.

(** ** theme.js *)

Module Theme.

Definition STORAGE_KEY : string := "quicksend-theme".
Definition VALID : list string := ["system"; "light"; "dark"].
Definition LABEL_KEYS : gmap string string :=
  list_to_map [("system", "themeSystem"); ("light", "themeLight"); ("dark", "themeDark")].

Record state := {
  dataset_theme : option string;             (* document.documentElement.dataset.theme *)
  labels : string * list (string * string);
  buttons : list (string * bool)
}.

Definition readStored : storage → string := readStored STORAGE_KEY VALID.

Definition apply (theme : string) : option string :=
  if bool_decide (theme = "system") then None else Some theme.

Definition relabel (locale : string) (s : state) : state :=
  {| dataset_theme := dataset_theme s;
     labels := Lang.labelled locale "themeGroupLabel" LABEL_KEYS VALID; buttons := buttons s |}.

Definition setTheme (st : storage) (s : state) (theme : string) : storage * state :=
  (setItem st STORAGE_KEY theme,
   {| dataset_theme := apply theme; labels := labels s; buttons := pressed VALID theme |}).

(** The page before [initThemeToggle], which ends by subscribing to the language:
    that is for its caller below, who has the language's state. *)
Definition unset : state := {| dataset_theme := None; labels := ("", []); buttons := [] |}.

Definition initThemeToggle (locale : string) (st : storage) (s : state) : storage * state :=
  let current := readStored st in
  setTheme st
    (relabel locale {| dataset_theme := apply current; labels := labels s; buttons := buttons s |})
    current.

(** What the page shows of the theme. *)
Record themed (s : state) (locale theme : string) : Prop := {
  th_attr : dataset_theme s = apply theme;
  th_labels : labels s = Lang.labelled locale "themeGroupLabel" LABEL_KEYS VALID;
  th_buttons : buttons s = pressed VALID theme
}.

End Theme.

(** The two dictionaries define the same keys, each once, and no text is
    empty, so no screen falls back to showing a key. *)
Theorem translations_complete :
  STRINGS_pl.*1 = STRINGS_en.*1 ∧ NoDup (STRINGS_en.*1)
  ∧ Forall (λ e, e.2 ≠ "") (STRINGS_pl ++ STRINGS_en)
  ∧ ∀ locale k, locale = "pl" ∨ locale = "en" → k ∈ STRINGS_en.*1 →
      is_Some (Lang.dict locale !! k).
Proof.
  split_and!; [apply Lang.keys_equal|apply Lang.keys_nodup| |apply Lang.dict_known].
  apply (bool_decide_unpack _). by vm_compute.
Qed.
