(* ===== verification/Session.v ===== *)
(** * The paired session: invariants of pairing.js

    What holds of the page of Pairing after any events: the shape of a paired
    session, the release of everything a screen held when it is left, the bound
    on reconnection attempts, and that a page that cannot reconnect gives up. *)

From stdpp Require Import base list list_numbers gmap sets strings.
From Stdlib Require Import ZArith Lia.
From S2P Require Import Prelude JsText Hex Json Utf8 Crypto WsClient PairingText PageState.
From S2P Require Import Pairing.
Open Scope Z_scope.

(** ** The invariant *)

(** A paired session has a role, an epoch and a transfer role. *)
Definition session_ok (c : cstate) : Prop :=
  cs_screen c = Paired →
  is_Some (cs_role c) ∧ (∃ e, cs_epoch c = Some e ∧ 0 ≤ e) ∧ is_Some (cs_transferRole c).

Definition listener_ok (l : listener) : Prop :=
  match l with LReconnect a _ _ _ => 1 ≤ a ≤ RECONNECT_MAX_ATTEMPTS | _ => True end.

Definition timer_ok (t : timer) : Prop :=
  match t with TReconnect a => 2 ≤ a ≤ RECONNECT_MAX_ATTEMPTS | TSwap => True end.

Record page_ok (w : world) : Prop := {
  ok_session : session_ok (cs w);
  ok_listeners : Forall (λ c, Forall listener_ok (k_listeners c)) (socks w);
  ok_timers : Forall timer_ok (timers w)
}.

(** The parts of the world the invariant reads. *)
Definition same_frame (w w' : world) : Prop :=
  cs w' = cs w ∧ k_listeners <$> socks w' = k_listeners <$> socks w ∧ timers w' = timers w.

#[export] Instance same_frame_preorder : PreOrder same_frame.
Proof.
  split; [done|]. intros w1 w2 w3 (?&?&?) (?&?&?). repeat split; congruence.
Qed.

Create HintDb page_db discriminated.

Lemma listeners_map w w' :
  k_listeners <$> socks w' = k_listeners <$> socks w →
  Forall (λ c, Forall listener_ok (k_listeners c)) (socks w) →
  Forall (λ c, Forall listener_ok (k_listeners c)) (socks w').
Proof.
  intros He H. apply (Forall_fmap k_listeners (Forall listener_ok)) in H.
  rewrite <- He in H. by apply (Forall_fmap k_listeners (Forall listener_ok)).
Qed.

Lemma page_ok_frame w w' : same_frame w w' → page_ok w → page_ok w'.
Proof.
  intros (Hc&Hs&Ht) []. split; [by rewrite Hc| |by rewrite Ht].
  by eapply listeners_map.
Qed.

(** *** Operations that leave the frame alone *)

Lemma fmap_alter_same {A B} (f : A → B) (g : A → A) (l : list A) (i : nat) :
  (∀ x, f (g x) = f x) → f <$> alter g i l = f <$> l.
Proof.
  intros Hg. apply list_eq. intros j. rewrite !list_lookup_fmap.
  destruct (decide (i = j)) as [->|].
  - rewrite list_lookup_alter_eq. destruct (l !! j); simpl; congruence.
  - by rewrite list_lookup_alter_ne.
Qed.

Lemma set_vars_frame w f : (∀ p, currentState (f p) = currentState p) → same_frame w (set_vars w f).
Proof. intros Hf. repeat split; simpl. apply Hf. Qed.

Lemma put_handles_frame w v : same_frame w (put_handles w v).
Proof. done. Qed.
Lemma put_scans_frame w v : same_frame w (put_scans w v).
Proof. done. Qed.
Lemma put_promises_frame w v : same_frame w (put_promises w v).
Proof. done. Qed.

Lemma close_socket_frame w k : same_frame w (close_socket w k).
Proof.
  repeat split. simpl. apply fmap_alter_same. intros c; simpl. by destruct (k_state c).
Qed.

Lemma send_on_frame w k d w' : send_on w k d = Some w' → same_frame w w'.
Proof.
  unfold send_on. destruct (socks w !! k) as [c|] eqn:E; [|done].
  destruct (k_state c); intros; simplify_eq; [|done..].
  repeat split. simpl. apply list_eq. intros j. rewrite !list_lookup_fmap.
  destruct (decide (k = j)) as [->|]; [|by rewrite list_lookup_insert_ne].
  rewrite list_lookup_insert_eq by (by eapply lookup_lt_Some). by rewrite E.
Qed.

Lemma try_send_frame w k d : same_frame w (try_send w k d).
Proof.
  unfold try_send. destruct (send_on w k d) eqn:E; simpl; [by eapply send_on_frame|done].
Qed.

#[export] Hint Resolve put_handles_frame put_scans_frame put_promises_frame
  close_socket_frame send_on_frame try_send_frame : page_db.
#[export] Hint Extern 1 (same_frame _ (set_vars _ _)) => (apply set_vars_frame; done) : page_db.
#[export] Hint Extern 0 (same_frame ?w ?w) => reflexivity : page_db.

(** A chain of such operations, step by step from the outside. *)
Ltac frame :=
  unfold showReconnectStatus, showSwapStatus, add_promise, with_handle, stop_scan;
  repeat first
    [ reflexivity
    | progress case_match
    | match goal with
      | |- same_frame _ (set_vars ?w _) => transitivity w; [|apply set_vars_frame; done]
      | |- same_frame _ (put_handles ?w _) => transitivity w; [|apply put_handles_frame]
      | |- same_frame _ (put_scans ?w _) => transitivity w; [|apply put_scans_frame]
      | |- same_frame _ (put_promises ?w _) => transitivity w; [|apply put_promises_frame]
      | |- same_frame _ (close_socket ?w _) => transitivity w; [|apply close_socket_frame]
      | |- same_frame _ (try_send ?w _ _) => transitivity w; [|apply try_send_frame]
      end ].

Lemma detachActiveTransfer_frame w : same_frame w (detachActiveTransfer w).
Proof. unfold detachActiveTransfer, with_handle. frame. Qed.

Lemma cleanupActive_frame w : same_frame w (cleanupActive w).
Proof.
  unfold cleanupActive, stop_scan. cbv zeta.
  etrans; [|apply set_vars_frame; done].
  etrans; [|apply detachActiveTransfer_frame]. frame.
Qed.

Section Frames.
Context `{WebCrypto}.

Lemma renderTransferUI_frame w : same_frame w (renderTransferUI w).
Proof. unfold renderTransferUI, add_promise. cbv zeta. frame. Qed.

Lemma renderPaired_frame w : same_frame w (renderPaired w).
Proof.
  unfold renderPaired, showReconnectStatus, showSwapStatus. cbv zeta.
  etrans; [|apply renderTransferUI_frame].
  etrans; [apply detachActiveTransfer_frame|]. frame.
Qed.

Lemma render_frame w : same_frame w (render w).
Proof. unfold render. case_match; try done. apply renderPaired_frame. Qed.

End Frames.

(** *** Operations that preserve the invariant *)

Lemma page_ok_set_cs w c : session_ok c → page_ok w → page_ok (set_cs w c).
Proof. intros ? []. by split. Qed.

Lemma page_ok_add_listener w k l : listener_ok l → page_ok w → page_ok (add_listener w k l).
Proof.
  intros Hl []. split; [done| |done]. simpl. apply Forall_alter; [done|].
  intros c Hc Hf. simpl. by apply Forall_app; split; [|constructor].
Qed.

Lemma page_ok_new_socket w l : listener_ok l → page_ok w → page_ok (new_socket w l).1.
Proof.
  intros Hl []. split; [done| |done]. simpl. apply Forall_app. split; [done|].
  by repeat constructor.
Qed.

Lemma page_ok_add_timer w t : timer_ok t → page_ok w → page_ok (add_timer w t).
Proof. intros Ht []. split; [done..|]. simpl. apply Forall_app. split; [done|by constructor]. Qed.

Lemma not_paired_ok c : cs_screen c ≠ Paired → session_ok c.
Proof. by unfold session_ok. Qed.

Lemma paired_screen_ok sid key r : session_ok (paired_screen sid key r).
Proof. intros _. simpl. eauto with lia. Qed.

Section Preserve.
Context `{WebCrypto}.

Lemma render_ok w : page_ok w → page_ok (render w).
Proof. apply page_ok_frame, render_frame. Qed.

Lemma setState_ok w next : session_ok next → page_ok w → page_ok (setState w next).
Proof.
  intros. unfold setState. apply render_ok, page_ok_set_cs; [done|].
  by eapply page_ok_frame; [apply cleanupActive_frame|].
Qed.

Lemma advance_ok w next : session_ok next → page_ok w → page_ok (advance w next).
Proof. intros. by apply render_ok, page_ok_set_cs. Qed.

Lemma open_flow_ok w next l :
  session_ok next → listener_ok l → page_ok w → page_ok (open_flow w next l).
Proof.
  intros. unfold open_flow.
  pose proof (page_ok_new_socket (advance w next) l) as Hn.
  destruct (new_socket (advance w next) l) as [w' k]. simpl in Hn.
  eapply page_ok_frame; [by apply set_vars_frame|]. auto using advance_ok.
Qed.

Lemma finalizePaired_ok w k sid key r : page_ok w → page_ok (finalizePaired w k sid key r).
Proof.
  intros. unfold finalizePaired. cbv zeta. apply render_ok, page_ok_add_listener; [done|].
  apply (page_ok_frame (set_cs w (paired_screen sid key r))).
  - unfold add_promise. frame.
  - by apply page_ok_set_cs; [apply paired_screen_ok|].
Qed.

Lemma session_ok_transferRole c r : session_ok c → session_ok (set_transferRole c r).
Proof. intros Hc Hp. destruct (Hc Hp) as (?&?&?). simpl. eauto. Qed.

Lemma session_ok_token c t : session_ok c → session_ok (set_token c t).
Proof. done. Qed.

Lemma session_ok_epoch c : session_ok c → session_ok (set_epoch c ((λ e, e + 1) <$> cs_epoch c)).
Proof.
  intros Hc Hp. destruct (Hc Hp) as (?&(e&He&?)&?). simpl. rewrite He. simpl.
  split_and!; [done| |done]. eexists. split; [done|lia].
Qed.

Lemma attemptReconnect_ok w a :
  1 ≤ a ≤ RECONNECT_MAX_ATTEMPTS → page_ok w → page_ok (attemptReconnect w a).
Proof.
  intros Ha Hw. unfold attemptReconnect. case_match; [done|].
  assert (page_ok (showReconnectStatus w (Some "reconnecting"%string))).
  { by eapply page_ok_frame; [apply set_vars_frame|]. }
  case_match; [by apply page_ok_new_socket|by apply setState_ok; [apply not_paired_ok|]].
Qed.

End Preserve.

(** ** The invariant holds of every page *)

#[export] Hint Resolve paired_screen_ok session_ok_transferRole session_ok_token
  session_ok_epoch render_ok setState_ok advance_ok open_flow_ok finalizePaired_ok
  attemptReconnect_ok page_ok_set_cs page_ok_add_listener page_ok_add_timer ok_session
  detachActiveTransfer_frame cleanupActive_frame : page_db.
#[export] Hint Extern 2 (session_ok _) => (apply not_paired_ok; done) : page_db.
#[export] Hint Extern 0 (listener_ok _) => exact I : page_db.
#[export] Hint Extern 0 (timer_ok _) => exact I : page_db.

(** [page_ok] of a world that differs in nothing the invariant reads. *)
Ltac page_frame w := apply (page_ok_frame w); [solve [frame]|].

Section Steps.
Context `{WebCrypto}.
Context (location : url) (randomKey : nat → bytes).

Lemma flipTransferRole_ok w : page_ok w → page_ok (flipTransferRole w).
Proof. unfold flipTransferRole. auto with page_db. Qed.

Lemma startJoin_ok w sid key : page_ok w → page_ok (startJoin w sid key).
Proof.
  intros. unfold startJoin. apply open_flow_ok; [by apply not_paired_ok|done|].
  by page_frame w.
Qed.

Lemma requestRoleSwap_ok w : page_ok w → page_ok (requestRoleSwap w).
Proof.
  intros. unfold requestRoleSwap, showSwapStatus. cbv zeta.
  case_match; [by page_frame w|]. case_match; [done|].
  set (w1 := set_vars (set_vars w _) _). assert (page_ok w1) by (unfold w1; by page_frame w).
  destruct (activeSocket (vars w1) ≫= _) as [w2|] eqn:E; [|done].
  apply page_ok_add_timer; [done|].
  destruct (activeSocket (vars w1)); simpl in E; [|done].
  eapply page_ok_frame; [by eapply send_on_frame|done].
Qed.

Lemma swap_timeout_ok w : page_ok w → page_ok (swap_timeout w).
Proof. intros. unfold swap_timeout, showSwapStatus. case_match; [done|by page_frame w]. Qed.

Lemma disconnectSession_ok w : page_ok w → page_ok (disconnectSession w).
Proof.
  intros. unfold disconnectSession. apply setState_ok; [by apply not_paired_ok|].
  by page_frame w.
Qed.

Lemma on_open_ok w k l : page_ok w → page_ok (on_open w k l).
Proof. intros. apply (page_ok_frame w); [|done]. unfold on_open. frame. Qed.

Lemma incr_epoch_ok w : page_ok w → page_ok (incr_epoch w).
Proof. unfold incr_epoch. auto with page_db. Qed.

Lemma on_decode_ok w text : page_ok w → page_ok (on_decode w text).
Proof.
  intros. unfold on_decode. destruct (parsePairingText text) as [[]|];
    auto using startJoin_ok with page_db.
Qed.

Lemma swap_requested_ok w k : page_ok w → page_ok (swap_requested w k).
Proof.
  intros Hw. unfold swap_requested. cbv zeta.
  destruct (send_on w k _) as [w1|] eqn:E; [|done].
  assert (page_ok w1) by (by eapply page_ok_frame; [eapply send_on_frame|]).
  case_match; auto using flipTransferRole_ok.
Qed.

Lemma swap_answered_ok w b : page_ok w → page_ok (swap_answered w b).
Proof.
  intros Hw. unfold swap_answered, showSwapStatus. case_match; [done|]. cbv zeta.
  set (w1 := set_vars w _). assert (page_ok w1) by (unfold w1; by page_frame w).
  case_match; [by apply flipTransferRole_ok|by page_frame w1].
Qed.

Lemma on_message_ok w k l env :
  page_ok w → page_ok (on_message location randomKey w k l env).
Proof.
  intros Hw. destruct l; simpl.
  - unfold receiverFlow_message. repeat case_match; auto with page_db.
  - unfold receiverCodeFlow_message, add_promise. repeat case_match; auto with page_db;
      eapply page_ok_frame; try apply put_promises_frame; auto with page_db.
  - unfold joinByCode_message, add_promise. repeat case_match; auto with page_db;
      eapply page_ok_frame; try apply put_promises_frame; auto with page_db.
  - unfold join_message. repeat case_match; auto with page_db.
  - unfold paired_message, showReconnectStatus.
    repeat (case_match; [by auto using incr_epoch_ok, swap_requested_ok, swap_answered_ok with page_db
                        || page_frame w|]); done.
  - unfold reconnect_message, showReconnectStatus. cbv zeta.
    case_match; [|case_match; auto with page_db].
    apply render_ok, page_ok_add_listener; [done|]. apply incr_epoch_ok. by page_frame w.
Qed.

Lemma flow_closed_ok w : page_ok w → page_ok (flow_closed w).
Proof. intros. unfold flow_closed. case_match; auto with page_db. Qed.

Lemma on_close_ok w k l : listener_ok l → page_ok w → page_ok (on_close w k l).
Proof.
  intros Hl Hw. destruct l; simpl; try by apply flow_closed_ok.
  - unfold paired_closed. case_match; [done|].
    apply attemptReconnect_ok; [unfold RECONNECT_MAX_ATTEMPTS; lia|]. by page_frame w.
  - unfold reconnect_closed. case_match; [done|]. case_match; [auto with page_db|].
    apply page_ok_add_timer; [|done]. simpl in *. lia.
Qed.

Lemma dispatch_ok w k f :
  (∀ w l, listener_ok l → page_ok w → page_ok (f w l)) → page_ok w → page_ok (dispatch w k f).
Proof.
  intros Hf Hw. unfold dispatch. destruct (socks w !! k) as [c|] eqn:E; [|done].
  pose proof (Forall_lookup_1 _ _ _ _ (ok_listeners _ Hw) E) as Hl. clear E.
  revert w Hw. induction Hl; simpl; auto.
Qed.

Lemma set_ready_ok w k c s :
  socks w !! k = Some c → page_ok w → page_ok (put_socks w (<[k := set_ready c s]> (socks w))).
Proof.
  intros Hk []. split; [done| |done]. simpl. apply Forall_insert; [done|].
  by apply (Forall_lookup_1 _ _ _ _ ok_listeners0 Hk).
Qed.

Lemma transfer_rendered_frame w sock e r : same_frame w (transfer_rendered w sock e r).
Proof. unfold transfer_rendered. cbv zeta. frame. Qed.

Lemma staleFiles_frame w files : same_frame w (staleFiles w files).
Proof. unfold staleFiles. cbv zeta. frame. Qed.

Lemma scan_resolved_frame w i : same_frame w (scan_resolved w i).
Proof. unfold scan_resolved. frame. Qed.

Lemma Forall_delete_at {A} (P : A → Prop) i l : Forall P l → Forall P (delete_at i l).
Proof. intros. apply Forall_app. split; [by apply Forall_take|by apply Forall_drop]. Qed.

(** A click runs the action of a button of the screen shown. *)
Lemma click_inv (P : world → Prop) w key input w' :
  Forall (λ b, P (b.2 input w)) (v_buttons (screen_view (cs w))) →
  click w key input = Some w' → P w'.
Proof.
  intros Hf Hc. unfold click in Hc. destruct (list_find _ _) as [[i b]|] eqn:E; simplify_eq/=.
  apply list_find_Some in E as [E _]. by apply (Forall_lookup_1 _ _ _ _ Hf E).
Qed.

Lemma buttons_ok w input :
  page_ok w → Forall (λ b, page_ok (b.2 input w)) (v_buttons (screen_view (cs w))).
Proof.
  intros Hw. unfold screen_view.
  destruct (cs_screen (cs w)); simpl; repeat apply Forall_cons_2; try apply Forall_nil_2; simpl;
    unfold startReceiverFlow, startReceiverCodeFlow, goto, onwards; auto with page_db.
  - unfold join_detected. repeat case_match; by try apply startJoin_ok.
  - apply setState_ok; [by apply not_paired_ok|]. unfold cancel_scan. by page_frame w.
  - apply setState_ok; [by apply not_paired_ok|]. unfold cancel_scan. by page_frame w.
  - unfold join_pasted. repeat case_match; auto using startJoin_ok with page_db.
  - unfold join_code, startJoinByCode. case_match; auto with page_db.
  - by apply requestRoleSwap_ok.
  - by apply disconnectSession_ok.
Qed.

Lemma settle_ok w x exchanged : page_ok w → page_ok (settle w x exchanged).
Proof.
  intros Hw. destruct x; simpl.
  - unfold token_derived. eapply page_ok_frame; [apply try_send_frame|]. auto with page_db.
  - by eapply page_ok_frame; [apply transfer_rendered_frame|].
  - unfold exchange_settled. case_match; auto with page_db.
Qed.

Lemma scan_in_Some w i s w1 w2 : scan_in w i s w1 = Some w2 → w2 = w1.
Proof.
  unfold scan_in. destruct (scans w !! i); simpl; [|done]. case_match; intros; by simplify_eq.
Qed.

Abbreviation step := (step location randomKey).

Lemma step_ok w e w' : page_ok w → step w e = Some w' → page_ok w'.
Proof.
  intros Hw Hs. destruct e; unfold Pairing.step in Hs; try apply scan_in_Some in Hs as ->.
  - by eapply click_inv; [apply buttons_ok|].
  - destruct (socks w !! k) as [c|] eqn:E; simplify_eq/=. case_match; simplify_eq.
    apply dispatch_ok; [auto using on_open_ok|]. by apply set_ready_ok.
  - destruct (socks w !! k) as [c|] eqn:E; simplify_eq/=. repeat case_match; simplify_eq; [|done].
    apply dispatch_ok; [auto using on_message_ok|done].
  - destruct (socks w !! k) as [c|] eqn:E; simplify_eq/=. repeat case_match; simplify_eq;
      (apply dispatch_ok; [auto using on_close_ok|by apply set_ready_ok]).
  - destruct (timers w !! i) as [t|] eqn:E; simplify_eq/=.
    assert (page_ok (put_timers w (delete_at i (timers w)))).
    { destruct Hw. split; [done..|]. by apply Forall_delete_at. }
    destruct t; [by apply swap_timeout_ok|]. apply attemptReconnect_ok; [|done].
    pose proof (Forall_lookup_1 _ _ _ _ (ok_timers _ Hw) E) as Ht. simpl in Ht. lia.
  - destruct (promises w !! i) as [x|] eqn:E; simplify_eq/=. apply settle_ok. by page_frame w.
  - unfold scan_started, set_scan. case_match; (eapply page_ok_frame; [apply scan_resolved_frame|]);
      [apply on_decode_ok|]; by page_frame w.
  - eapply page_ok_frame; [apply scan_resolved_frame|]. apply setState_ok; [by apply not_paired_ok|].
    unfold set_scan. by page_frame w.
  - unfold set_scan. by page_frame w.
  - apply on_decode_ok. unfold set_scan. by page_frame w.
  - destruct (handles w !! h) as [x|] eqn:E; simplify_eq/=. unfold with_handle. by page_frame w.
  - case_match; simplify_eq. eapply page_ok_frame; [apply staleFiles_frame|done].
Qed.

Lemma start_ok secure hash : page_ok (start secure hash).
Proof.
  apply render_ok, page_ok_set_cs; [|by split; [by apply not_paired_ok|constructor..]].
  repeat case_match; by apply not_paired_ok.
Qed.

(** C14: Whatever the user, the relay, the peer, the camera and the clock do, in
    any order, a page on the paired screen has a pairing role, an epoch that is
    a number, at least 0, and a transfer role: rendering it never derives an
    epoch key from an undefined epoch. No reconnection attempt beyond the
    fifteenth is ever running or scheduled. *)
Theorem session_wellformed secure hash es w :
  run step es (start secure hash) = Some w →
  (cs_screen (cs w) = Paired →
     is_Some (cs_role (cs w)) ∧ (∃ e, cs_epoch (cs w) = Some e ∧ 0 ≤ e)
     ∧ is_Some (cs_transferRole (cs w)))
  ∧ (∀ a, TReconnect a ∈ timers w → 2 ≤ a ≤ RECONNECT_MAX_ATTEMPTS)
  ∧ (∀ k c a sid r token, socks w !! k = Some c → LReconnect a sid r token ∈ k_listeners c →
       1 ≤ a ≤ RECONNECT_MAX_ATTEMPTS).
Proof.
  intros Hrun.
  assert (page_ok w) as [Hc Hl Ht].
  { revert w Hrun. apply run_ind; [apply start_ok|]. intros. by eapply step_ok. }
  split_and!; [done| |].
  - intros a Ha. by apply (proj1 (Forall_forall _ _) Ht _ Ha).
  - intros k c a sid r token Hk Ha. pose proof (Forall_lookup_1 _ _ _ _ Hl Hk) as Hf.
    by apply (proj1 (Forall_forall _ _) Hf _ Ha).
Qed.

End Steps.

(** ** Leaving a screen *)

(** What [close()] makes of a socket. *)
Definition shut (s : ready_state) : ready_state :=
  match s with Connecting | Open => Closing | Closing | Closed => s end.

Section Leaving.
Context `{WebCrypto}.

Lemma render_vars w : cs w = cs (render w) ∧ socks (render w) = socks w ∧ timers (render w) = timers w
  ∧ activeSocket (vars (render w)) = activeSocket (vars w)
  ∧ activeStopScan (vars (render w)) = activeStopScan (vars w)
  ∧ pendingSendFiles (vars (render w)) = pendingSendFiles (vars w)
  ∧ (activeTransferHandle (vars w) = None →
     activeTransferHandle (vars (render w)) = None ∧ handles (render w) = handles w)
  ∧ ∃ more, scans (render w) = scans w ++ more.
Proof.
  unfold render, renderPaired, renderTransferUI, detachActiveTransfer, showReconnectStatus,
    showSwapStatus, add_promise. cbv zeta.
  destruct (activeTransferHandle (vars w)) eqn:E, (cs_screen (cs w)); simpl;
    repeat case_match; simpl; split_and!; try done; try (by exists []); try by eexists.
  all: exists []; by rewrite app_nil_r.
Qed.

Lemma cleanup_socks w :
  socks (cleanupActive w)
  = match activeSocket (vars w) with Some k => socks (close_socket w k) | None => socks w end.
Proof.
  unfold cleanupActive, detachActiveTransfer. cbv zeta.
  destruct (activeStopScan (vars w)); simpl; destruct (activeSocket (vars w)); simpl;
    by destruct (activeTransferHandle (vars w)).
Qed.



Lemma cleanup_vars w :
  let p := vars (cleanupActive w) in
  activeSocket p = None ∧ activeTransferHandle p = None ∧ activeStopScan p = None
  ∧ pendingSendFiles p = None ∧ timers (cleanupActive w) = timers w
  ∧ promises (cleanupActive w) = promises w.
Proof.
  unfold cleanupActive, detachActiveTransfer. cbv zeta.
  destruct (activeStopScan (vars w)) eqn:?; simpl; destruct (activeSocket (vars w)) eqn:?; simpl;
    by destruct (activeTransferHandle (vars w)) eqn:?.
Qed.

(** What [setState] makes of the session, the sockets and the timers. *)
Lemma setState_sockets w next :
  let w' := setState w next in
  cs w' = next ∧ activeSocket (vars w') = None ∧ timers w' = timers w
  ∧ (∀ k c, socks w !! k = Some c → ∃ c', socks w' !! k = Some c'
       ∧ k_sent c' = k_sent c ∧ k_listeners c' = k_listeners c
       ∧ (if bool_decide (activeSocket (vars w) = Some k) then k_state c' = shut (k_state c) else c' = c)).
Proof.
  intros w'. unfold setState in w'.
  destruct (render_vars (set_cs (cleanupActive w) next)) as (Hc&Hs&Ht&Ha&_). fold w' in Hc, Hs, Ht, Ha.
  destruct (cleanup_vars w) as (Hv1&_&_&_&Hv5&_). pose proof (cleanup_socks w) as Hks. clearbody w'.
  generalize dependent (cleanupActive w). intros v **.
  rewrite <- Hc, Hs, Ht, Ha. simpl. rewrite Hks. split_and!; try done.
  intros k c Hk. destruct (activeSocket (vars w)) as [j|]; [|by eexists].
  unfold close_socket. simpl. destruct (decide (j = k)) as [->|].
  - rewrite list_lookup_alter_eq, Hk, bool_decide_true by done.
    eexists. split; [done|]. destruct (k_state c) eqn:E; simpl; auto.
  - rewrite list_lookup_alter_ne, bool_decide_false by congruence. by eexists.
Qed.


End Leaving.

(** ** Giving up *)

Section GivingUp.
Context `{WebCrypto}.
Context (location : url) (randomKey : nat → bytes).
Abbreviation step := (step location randomKey).

(** The page is at its [a]-th attempt: its newest socket, the [n + a]-th, is
    connecting. *)
Record trying (n : nat) (ts : list timer) (a : nat) (w : world) : Prop := {
  try_screen : cs_screen (cs w) = Paired;
  try_token : is_Some (cs_reconnectToken (cs w));
  try_active : activeSocket (vars w) = None;
  try_timers : timers w = ts;
  try_count : length (socks w) = (n + a)%nat;
  try_socket : ∃ c sid r token, socks w !! (n + a - 1)%nat = Some c ∧ k_state c = Connecting
    ∧ k_listeners c = [LReconnect (Z.of_nat a) sid r token]
}.

Lemma attemptReconnect_trying n ts a w :
  cs_screen (cs w) = Paired → is_Some (cs_reconnectToken (cs w)) →
  activeSocket (vars w) = None → timers w = ts → length (socks w) = (n + a - 1)%nat → (0 < a)%nat →
  trying n ts a (attemptReconnect w (Z.of_nat a)).
Proof.
  intros Hs [token Ht] Ha Hts Hn Hpos. unfold attemptReconnect.
  rewrite bool_decide_true by done. cbn [negb]. cbv zeta.
  change (cs (showReconnectStatus w _)) with (cs w). rewrite Ht.
  split; simpl; try done; [rewrite length_app; simpl; lia|].
  rewrite lookup_app_r, Hn, Nat.sub_diag by lia. by repeat eexists.
Qed.

Lemma step_close w k c :
  socks w !! k = Some c → k_state c ≠ Closed →
  step w (SockClose k)
  = Some (dispatch (put_socks w (<[k := set_ready c Closed]> (socks w))) k
            (λ w l, on_close w k l)).
Proof. intros Hk Hc. unfold Pairing.step. rewrite Hk. simpl. by destruct (k_state c). Qed.

Lemma step_timer w i t :
  timers w !! i = Some t →
  step w (TimerFires i)
  = Some (let w := put_timers w (delete_at i (timers w)) in
          match t with TSwap => swap_timeout w | TReconnect a => attemptReconnect w a end).
Proof. intros Hi. unfold Pairing.step. by rewrite Hi. Qed.

Lemma delete_at_end {A} (l : list A) x : delete_at (length l) (l ++ [x]) = l.
Proof.
  unfold delete_at. rewrite take_app_length, drop_ge, app_nil_r; [done|].
  rewrite length_app. simpl. lia.
Qed.

Lemma attempt_fails n ts a w :
  trying n ts a w → (1 ≤ a < Z.to_nat RECONNECT_MAX_ATTEMPTS)%nat →
  ∃ w', run step [SockClose (n + a - 1); TimerFires (length ts)] w = Some w'
    ∧ trying n ts (S a) w'.
Proof.
  intros [Hs Ht Ha Hts Hn (c&sid&r&token&Hc&Hk&Hl)] Hlt. unfold RECONNECT_MAX_ATTEMPTS in Hlt.
  set (w1 := put_socks w (<[(n + a - 1)%nat := set_ready c Closed]> (socks w))).
  assert (step w (SockClose (n + a - 1)) = Some (add_timer w1 (TReconnect (Z.of_nat a + 1)))) as H1.
  { rewrite (step_close _ _ c) by (done || by rewrite Hk). fold w1. unfold dispatch.
    unfold w1 at 1. simpl. rewrite list_lookup_insert_eq by lia. simpl. rewrite Hl. simpl.
    unfold reconnect_closed. change (cs w1) with (cs w). change (activeSocket (vars w1)) with (activeSocket (vars w)).
    rewrite Hs, Ha. simpl.
    by rewrite (proj2 (Z.leb_gt _ _)) by (unfold RECONNECT_MAX_ATTEMPTS; lia). }
  cbn [run]. rewrite H1. cbn [mbind option_bind].
  rewrite (step_timer _ _ (TReconnect (Z.of_nat a + 1)))
    by (simpl; rewrite Hts, lookup_app_r, Nat.sub_diag by lia; done).
  eexists. split; [done|]. cbv zeta. replace (Z.of_nat a + 1) with (Z.of_nat (S a)) by lia.
  apply attemptReconnect_trying; try done; try lia; simpl.
  - by rewrite Hts, delete_at_end.
  - rewrite length_insert. lia.
Qed.

(** The events of the attempts from the [a]-th to the one before [a + m]. *)
Definition failures (n : nat) (ts : list timer) (a m : nat) : list event :=
  concat (map (λ i, [SockClose (n + i - 1); TimerFires (length ts)]) (seq a m)).

Lemma attempts_fail n ts a m w :
  trying n ts a w → (1 ≤ a)%nat → (a + m ≤ Z.to_nat RECONNECT_MAX_ATTEMPTS)%nat →
  ∃ w', run step (failures n ts a m) w = Some w' ∧ trying n ts (a + m) w'.
Proof.
  revert a w. induction m as [|m IH]; intros a w Hw Ha Hm.
  { exists w. by rewrite Nat.add_0_r. }
  destruct (attempt_fails n ts a w Hw) as (w1&Hr1&Hw1); [lia|].
  destruct (IH (S a) w1 Hw1) as (w2&Hr2&Hw2); [lia..|].
  exists w2. replace (a + S m)%nat with (S a + m)%nat by lia. split; [|done].
  unfold failures. cbn [seq map concat]. rewrite run_app, Hr1. exact Hr2.
Qed.

Lemma setState_length w next : length (socks (setState w next)) = length (socks w).
Proof.
  destruct (cleanupActive_frame w) as (_&Hl&_).
  destruct (render_frame (set_cs (cleanupActive w) next)) as (_&Hl'&_).
  apply (f_equal length) in Hl, Hl'. rewrite !length_fmap in Hl, Hl'. simpl in Hl'.
  unfold setState. by rewrite Hl'.
Qed.

Lemma last_attempt_fails n ts w :
  trying n ts (Z.to_nat RECONNECT_MAX_ATTEMPTS) w →
  ∃ w', step w (SockClose (n + Z.to_nat RECONNECT_MAX_ATTEMPTS - 1)) = Some w'
    ∧ cs w' = error_screen (Some (js "connection_lost"))
    ∧ length (socks w') = length (socks w) ∧ timers w' = ts.
Proof.
  intros [Hs Ht Ha Hts Hn (c&sid&r&token&Hc&Hk&Hl)].
  rewrite (step_close _ _ c) by (done || by rewrite Hk).
  unfold dispatch. simpl. rewrite list_lookup_insert_eq by (rewrite Hn; unfold RECONNECT_MAX_ATTEMPTS; lia).
  simpl. rewrite Hl. simpl. unfold reconnect_closed. set (w1 := put_socks w _).
  change (cs w1) with (cs w). change (activeSocket (vars w1)) with (activeSocket (vars w)).
  rewrite Hs, Ha. simpl. eexists. split; [done|].
  pose proof (setState_sockets w1 (error_screen (Some (js "connection_lost")))) as (Hcs&_&Htm&_).
  split_and!; [exact Hcs| |by rewrite Htm].
  rewrite setState_length. unfold w1. simpl. by rewrite length_insert.
Qed.

Lemma paired_close w k c l :
  cs_screen (cs w) = Paired → activeSocket (vars w) = Some k →
  socks w !! k = Some c → k_listeners c = [l; LPaired] → l ≠ LPaired →
  dispatch w k (λ w l, on_close w k l)
  = attemptReconnect (set_vars w (λ p, with_activeSocket p None)) 1.
Proof.
  intros Hs Ha Hk Hl Hn. unfold dispatch. rewrite Hk, Hl. cbn [fold_left].
  assert (on_close w k l = w) as ->.
  { destruct l; simpl; unfold flow_closed, reconnect_closed; rewrite ?Hs; try done.
    by rewrite Ha, orb_comm, bool_decide_true. }
  simpl. unfold paired_closed. by rewrite Hs, Ha, !bool_decide_true.
Qed.

(** C15: A paired page whose connection drops tries to reconnect exactly fifteen
    times and then gives up: if every new socket closes without opening, the
    page opens fifteen sockets, one per timer, shows the error screen
    [connection_lost] after the fifteenth, and leaves no timer of its own. *)
Theorem reconnect_gives_up w k c l :
  cs_screen (cs w) = Paired → is_Some (cs_reconnectToken (cs w)) →
  activeSocket (vars w) = Some k → socks w !! k = Some c → k_state c ≠ Closed →
  k_listeners c = [l; LPaired] → l ≠ LPaired →
  let n := length (socks w) in
  ∃ w', run step (SockClose k :: failures n (timers w) 1 14 ++ [SockClose (n + 14)]) w = Some w'
    ∧ cs w' = error_screen (Some (js "connection_lost"))
    ∧ length (socks w') = (n + 15)%nat ∧ timers w' = timers w.
Proof.
  intros Hs Ht Ha Hk Hc Hl Hn n.
  assert (∃ w1, step w (SockClose k) = Some w1 ∧ trying n (timers w) 1 w1) as (w1&Hw1&Htry).
  { exists (attemptReconnect (set_vars (put_socks w (<[k := set_ready c Closed]> (socks w)))
                                (λ p, with_activeSocket p None)) 1). split.
    - rewrite (step_close _ _ c) by done.
      rewrite (paired_close _ k (set_ready c Closed) l); try done.
      simpl. apply list_lookup_insert_eq. by eapply lookup_lt_Some.
    - apply attemptReconnect_trying; try done; [|lia].
      simpl. rewrite length_insert. unfold n. lia. }
  destruct (attempts_fail n (timers w) 1 14 w1 Htry) as (w2&Hw2&Htry2); [lia|by vm_compute; lia|].
  destruct (last_attempt_fails n (timers w) w2 Htry2) as (w3&Hw3&Hcs&Hlen&Htm).
  exists w3. split_and!; [|done|by rewrite Hlen, (try_count _ _ _ _ Htry2)|done].
  cbn [run]. rewrite Hw1. cbn [mbind option_bind]. rewrite run_app, Hw2. cbn [mbind option_bind run].
  replace (n + 14)%nat with (n + Z.to_nat RECONNECT_MAX_ATTEMPTS - 1)%nat
    by (unfold RECONNECT_MAX_ATTEMPTS; lia).
  by rewrite Hw3.
Qed.

End GivingUp.
