(* ===== verification/Screens.v ===== *)
(** * The transfer screen of a session, and the texts of every screen

    The transfer screen the page shows is built by a promise (the epoch key),
    so a reconnection or a role swap can overtake it: what is shown once
    nothing is pending is the screen of the session's current epoch and role.
    Then the texts: every screen finds its own in both languages. *)

From stdpp Require Import base list list_numbers gmap sets strings.
From Stdlib Require Import ZArith Lia.
From S2P Require Import Prelude JsText Hex Json Utf8 Crypto WsClient PairingText PageState.
From S2P Require Import Pairing Session Strings I18n.
Open Scope Z_scope.

(** ** Transfer screens being built *)

Definition screen_of (x : promise) : option (option Z * option transfer_role) :=
  match x with PRender _ e r => Some (e, r) | _ => None end.

Definition pending_screens (w : world) : list (option Z * option transfer_role) :=
  omap screen_of (promises w).

(** The epoch and role of a transfer screen, and whether it still listens. *)
Definition handle_view (h : handle) : option Z * option transfer_role * bool :=
  (h_epoch h, h_role h, h_detached h).

Definition session_view (w : world) : screen * option Z * option transfer_role * option bytes :=
  (cs_screen (cs w), cs_epoch (cs w), cs_transferRole (cs w), cs_sessionKey (cs w)).

(** Two key derivations settle in the order they were started. *)
Definition in_order (w : world) (e : event) : bool :=
  match e with
  | PromiseSettles i _ =>
      match promises w !! i ≫= screen_of with
      | Some _ => bool_decide (omap screen_of (take i (promises w)) = [])
      | None => true
      end
  | _ => true
  end.

Definition shown (w : world) : option (option Z * option transfer_role) :=
  match last (pending_screens w) with
  | Some x => Some x
  | None =>
      match handle_view <$> (activeTransferHandle (vars w) ≫= λ h, handles w !! h) with
      | Some (e, r, false) => Some (e, r)
      | _ => None
      end
  end.

(** What is shown, or will be, is the session's. *)
Definition screen_current (w : world) : Prop :=
  cs_screen (cs w) = Paired → (∃ key, cs_sessionKey (cs w) = Some key ∧ length key = 32%nat) →
  shown w = Some (cs_epoch (cs w), cs_transferRole (cs w)).

(** Worlds with the same session and the same screens. *)
Definition same_view (w w' : world) : Prop :=
  session_view w' = session_view w ∧ pending_screens w' = pending_screens w
  ∧ activeTransferHandle (vars w') = activeTransferHandle (vars w)
  ∧ handle_view <$> handles w' = handle_view <$> handles w.

#[export] Instance same_view_preorder : PreOrder same_view.
Proof. split; [done|]. intros w1 w2 w3 (?&?&?&?) (?&?&?&?). repeat split; congruence. Qed.

Lemma same_view_current w w' : same_view w w' → screen_current w → screen_current w'.
Proof.
  intros (Hs&Hp&Ha&Hh) Hw. injection Hs as Hs1 Hs2 Hs3 Hs4.
  unfold screen_current. rewrite Hs1, Hs2, Hs3, Hs4. intros Hsc Hk.
  rewrite <- (Hw Hsc Hk). unfold shown. rewrite Hp, Ha.
  destruct (activeTransferHandle (vars w)) as [h|]; [|done]. simpl.
  by rewrite <- !list_lookup_fmap, Hh.
Qed.

Lemma not_paired_current w : cs_screen (cs w) ≠ Paired → screen_current w.
Proof. by unfold screen_current. Qed.

Lemma set_vars_view w f :
  (∀ p, currentState (f p) = currentState p ∧ activeTransferHandle (f p) = activeTransferHandle p) →
  same_view w (set_vars w f).
Proof.
  intros Hf. destruct (Hf (vars w)) as [H1 H2]. repeat split; simpl; [|done].
  unfold session_view, cs. simpl. by rewrite H1.
Qed.

Lemma put_socks_view w v : same_view w (put_socks w v).
Proof. done. Qed.
Lemma put_scans_view w v : same_view w (put_scans w v).
Proof. done. Qed.
Lemma put_timers_view w v : same_view w (put_timers w v).
Proof. done. Qed.
Lemma add_promise_view w x : screen_of x = None → same_view w (add_promise w x).
Proof.
  intros Hx. repeat split. unfold pending_screens. simpl.
  rewrite omap_app. simpl. by rewrite Hx, app_nil_r.
Qed.
Lemma with_handle_view w h f : (∀ x, handle_view (f x) = handle_view x) → same_view w (with_handle w h f).
Proof. intros Hf. repeat split. simpl. by apply fmap_alter_same. Qed.

Lemma send_on_view w k d w' : send_on w k d = Some w' → same_view w w'.
Proof. unfold send_on. repeat case_match; intros; by simplify_eq. Qed.

Lemma try_send_view w k d : same_view w (try_send w k d).
Proof. unfold try_send. destruct (send_on w k d) eqn:E; [by eapply send_on_view|done]. Qed.

Ltac same_view :=
  unfold showReconnectStatus, showSwapStatus, stop_scan, close_socket, add_listener,
    add_timer, cancel_scan, set_scan;
  repeat first
    [ reflexivity
    | progress case_match
    | match goal with
      | |- same_view _ (set_vars ?w _) => transitivity w; [|apply set_vars_view; done]
      | |- same_view _ (put_socks ?w _) => transitivity w; [|apply put_socks_view]
      | |- same_view _ (put_scans ?w _) => transitivity w; [|apply put_scans_view]
      | |- same_view _ (put_timers ?w _) => transitivity w; [|apply put_timers_view]
      | |- same_view _ (add_promise ?w _) => transitivity w; [|apply add_promise_view; done]
      | |- same_view _ (with_handle ?w _ _) => transitivity w; [|apply with_handle_view; done]
      | |- same_view _ (try_send ?w _ _) => transitivity w; [|apply try_send_view]
      end ].

(** [screen_current] of a world with the same view. *)
Ltac view_of w := apply (same_view_current w); [solve [same_view]|].

Section Rendering.
Context `{WebCrypto}.

Lemma session_view_cs w w' : cs w' = cs w → session_view w' = session_view w.
Proof. unfold session_view. by intros ->. Qed.

(** Rendering the paired screen asks for the session's transfer screen. *)
Lemma renderPaired_current w : screen_current (renderPaired w).
Proof.
  intros Hs [key [Hk Hl]].
  destruct (renderPaired_frame w) as [Hc _]. rewrite Hc in *.
  unfold shown, renderPaired. cbv zeta.
  set (w1 := set_vars (showSwapStatus _ _) _).
  assert (cs w1 = cs w) as H1.
  { unfold w1, showSwapStatus, showReconnectStatus, detachActiveTransfer. by case_match. }
  unfold renderTransferUI, getPairedSession, transfer_key. cbv zeta. rewrite H1, Hs.
  rewrite bool_decide_true by done. cbn [negb ps_sessionKey ps_epoch]. rewrite Hk, deriveEpochKey_ok by done.
  unfold pending_screens, add_promise. simpl. by rewrite omap_app, last_app.
Qed.

Lemma render_current w : screen_current (render w).
Proof.
  destruct (decide (cs_screen (cs w) = Paired)) as [E|E].
  - unfold render. rewrite E. apply renderPaired_current.
  - apply not_paired_current. destruct (render_frame w) as [-> _]. done.
Qed.

Lemma advance_current w next : screen_current (advance w next).
Proof. apply render_current. Qed.

Lemma setState_current w next : screen_current (setState w next).
Proof. apply render_current. Qed.

Lemma open_flow_current w next l : screen_current (open_flow w next l).
Proof.
  unfold open_flow, new_socket. apply (same_view_current (advance w next)); [|apply advance_current].
  etrans; [apply put_socks_view|]. by apply set_vars_view.
Qed.

Lemma finalizePaired_current w k sid key r : screen_current (finalizePaired w k sid key r).
Proof. apply render_current. Qed.

Lemma flipTransferRole_current w : screen_current (flipTransferRole w).
Proof. apply render_current. Qed.

Lemma attemptReconnect_current w a : screen_current w → screen_current (attemptReconnect w a).
Proof.
  intros Hw. unfold attemptReconnect. cbv zeta. case_match; [done|].
  case_match; [|apply setState_current]. unfold new_socket. simpl.
  apply (same_view_current (showReconnectStatus w (Some "reconnecting"%string))); [done|].
  by view_of w.
Qed.

Lemma requestRoleSwap_current w : screen_current w → screen_current (requestRoleSwap w).
Proof.
  intros Hw. unfold requestRoleSwap. cbv zeta.
  case_match; [by view_of w|]. case_match; [done|].
  set (w1 := showSwapStatus _ _). assert (same_view w w1) as Hv by (unfold w1; same_view).
  destruct (activeSocket (vars w1) ≫= _) as [w2|] eqn:E; [|by apply (same_view_current w)].
  destruct (activeSocket (vars w1)); simpl in E; [|done].
  apply (same_view_current w); [|done]. etrans; [exact Hv|]. etrans; [by eapply send_on_view|].
  apply put_timers_view.
Qed.

Lemma swap_timeout_current w : screen_current w → screen_current (swap_timeout w).
Proof. intros. unfold swap_timeout. case_match; [done|by view_of w]. Qed.

End Rendering.

#[export] Hint Resolve render_current advance_current setState_current open_flow_current
  finalizePaired_current flipTransferRole_current attemptReconnect_current
  requestRoleSwap_current swap_timeout_current : page_db.

Section Steps.
Context `{WebCrypto}.
Context (location : url) (randomKey : nat → bytes).
Abbreviation step := (step location randomKey).

Lemma on_open_current w k l : screen_current w → screen_current (on_open w k l).
Proof. intros. apply (same_view_current w); [|done]. unfold on_open. same_view. Qed.

Lemma swap_requested_current w k : screen_current w → screen_current (swap_requested w k).
Proof.
  intros Hw. unfold swap_requested. cbv zeta. destruct (send_on w k _) as [w1|] eqn:E; [|done].
  case_match; auto with page_db. by eapply same_view_current; [eapply send_on_view|].
Qed.

Lemma swap_answered_current w b : screen_current w → screen_current (swap_answered w b).
Proof.
  intros Hw. unfold swap_answered. case_match; [done|]. cbv zeta.
  case_match; [auto with page_db|by view_of w].
Qed.

#[local] Hint Resolve swap_requested_current swap_answered_current : page_db.

Lemma on_message_current w k l env :
  screen_current w → screen_current (on_message location randomKey w k l env).
Proof.
  intros Hw. destruct l; simpl.
  - unfold receiverFlow_message. repeat case_match; auto with page_db.
  - unfold receiverCodeFlow_message. repeat case_match; auto with page_db;
      (eapply same_view_current; [by apply add_promise_view|]); auto with page_db.
  - unfold joinByCode_message. repeat case_match; auto with page_db;
      (eapply same_view_current; [by apply add_promise_view|]); auto with page_db.
  - unfold join_message. repeat case_match; auto with page_db.
  - unfold paired_message.
    repeat (case_match; [by auto with page_db || view_of w|]); done.
  - unfold reconnect_message. cbv zeta. repeat case_match; auto with page_db.
Qed.

Lemma on_close_current w k l : screen_current w → screen_current (on_close w k l).
Proof.
  intros Hw. destruct l; simpl; unfold flow_closed, paired_closed, reconnect_closed;
    (case_match; [by auto with page_db|]); try done.
  - apply attemptReconnect_current. by view_of w.
  - case_match; auto with page_db.
Qed.

Lemma dispatch_current w k f :
  (∀ w l, screen_current w → screen_current (f w l)) →
  screen_current w → screen_current (dispatch w k f).
Proof.
  intros Hf Hw. unfold dispatch. destruct (socks w !! k) as [c|]; [|done].
  generalize (k_listeners c). intros ls. revert w Hw. induction ls; simpl; auto.
Qed.

Lemma on_decode_current w text : screen_current (on_decode w text).
Proof.
  unfold on_decode, startJoin. destruct (parsePairingText text) as [[]|]; auto with page_db.
Qed.

Lemma scan_resolved_current w i : screen_current w → screen_current (scan_resolved w i).
Proof. intros. apply (same_view_current w); [|done]. unfold scan_resolved. same_view. Qed.

Lemma staleFiles_current w files : screen_current w → screen_current (staleFiles w files).
Proof. intros. apply (same_view_current w); [|done]. unfold staleFiles. cbv zeta. same_view. Qed.

(** A promise that is no transfer screen leaves the pending ones alone. *)
Lemma pending_delete w i x :
  promises w !! i = Some x → screen_of x = None →
  same_view w (put_promises w (delete_at i (promises w))).
Proof.
  intros Hi Hx. repeat split. unfold pending_screens, delete_at. simpl.
  rewrite <- (take_drop_middle _ _ _ Hi) at 3. rewrite !omap_app. simpl. by rewrite Hx.
Qed.

(** The oldest pending screen is shown; it is the session's if it is the newest. *)
Lemma transfer_rendered_current w i sock e r :
  promises w !! i = Some (PRender sock e r) → omap screen_of (take i (promises w)) = [] →
  screen_current w →
  screen_current (transfer_rendered (put_promises w (delete_at i (promises w))) sock e r).
Proof.
  intros Hi Hfirst Hw.
  set (w0 := put_promises w _).
  assert (pending_screens w = (e, r) :: pending_screens w0) as Hp.
  { unfold pending_screens, w0, delete_at. simpl.
    rewrite <- (take_drop_middle _ _ _ Hi) at 1. rewrite !omap_app. simpl. by rewrite Hfirst. }
  set (h := {| h_socket := sock; h_epoch := e; h_role := r; h_detached := false;
               h_active := false; h_files := [] |}).
  set (w1 := set_vars (put_handles w0 (handles w0 ++ [h]))
               (λ p, with_activeTransferHandle p (Some (length (handles w0))))).
  assert (same_view w1 (transfer_rendered w0 sock e r)) as Hv.
  { unfold transfer_rendered. fold h. cbv zeta. fold w1. same_view. }
  apply (same_view_current w1 _ Hv). intros Hs Hk. specialize (Hw Hs Hk).
  unfold shown in *. rewrite Hp in Hw. change (pending_screens w1) with (pending_screens w0).
  change (cs w1) with (cs w).
  destruct (pending_screens w0) as [|y l] eqn:El.
  2: { change (last ((e, r) :: y :: l)) with (last (y :: l)) in Hw.
       destruct (last (y :: l)) eqn:Hl; [done|by apply last_None in Hl]. }
  simpl in *. by rewrite lookup_app_r, Nat.sub_diag by lia.
Qed.

Lemma buttons_current w input :
  screen_current w → Forall (λ b, screen_current (b.2 input w)) (v_buttons (screen_view (cs w))).
Proof.
  intros Hw. unfold screen_view.
  destruct (cs_screen (cs w)); simpl; repeat apply Forall_cons_2; try apply Forall_nil_2; simpl;
    unfold startReceiverFlow, startReceiverCodeFlow, disconnectSession, goto, onwards,
      join_detected, join_pasted, join_code, startJoin, startJoinByCode;
    repeat case_match; auto with page_db.
Qed.

Lemma settle_current w i x ex :
  promises w !! i = Some x → (is_Some (screen_of x) → omap screen_of (take i (promises w)) = []) →
  screen_current w → screen_current (settle (put_promises w (delete_at i (promises w))) x ex).
Proof.
  intros E Ho Hw. destruct x; simpl.
  - unfold token_derived. apply (same_view_current w); [|done]. etrans; [by eapply pending_delete|].
    etrans; [|apply try_send_view]. done.
  - eapply transfer_rendered_current; eauto.
  - unfold exchange_settled. case_match; auto with page_db.
Qed.

Lemma step_current w e w' :
  screen_current w → in_order w e = true → step w e = Some w' → screen_current w'.
Proof.
  intros Hw Ho Hs. destruct e; unfold Pairing.step in Hs; try apply scan_in_Some in Hs as ->.
  - by eapply click_inv; [apply buttons_current|].
  - destruct (socks w !! k) as [c|]; simplify_eq/=. case_match; simplify_eq.
    apply dispatch_current; [auto using on_open_current|by view_of w].
  - destruct (socks w !! k) as [c|]; simplify_eq/=. repeat case_match; simplify_eq; [|done].
    apply dispatch_current; [auto using on_message_current|done].
  - destruct (socks w !! k) as [c|]; simplify_eq/=. repeat case_match; simplify_eq;
      (apply dispatch_current; [auto using on_close_current|by view_of w]).
  - destruct (timers w !! i) as [t|]; simplify_eq/=.
    assert (screen_current (put_timers w (delete_at i (timers w)))) by by view_of w.
    destruct t; auto with page_db.
  - destruct (promises w !! i) as [x|] eqn:E; simplify_eq/=. apply settle_current; [done| |done].
    intros [y Hy]. simpl in Ho. rewrite E in Ho. simpl in Ho. rewrite Hy in Ho.
    by apply bool_decide_eq_true in Ho.
  - unfold scan_started. case_match; apply scan_resolved_current; [apply on_decode_current|by view_of w].
  - unfold scan_refused, on_scan_error. apply scan_resolved_current. auto with page_db.
  - by view_of w.
  - apply on_decode_current.
  - destruct (handles w !! h) as [x|]; simplify_eq/=. by view_of w.
  - case_match; simplify_eq. by apply staleFiles_current.
Qed.

(** A step whose key derivations settle in order. *)
Definition fifo_step (w : world) (e : event) : option world :=
  if in_order w e then step w e else None.

(** C13: However reconnections, role swaps and key derivations interleave,
    whenever the page is paired with a usable session key and no transfer
    screen is pending, the transfer screen in use is one built for the
    session's current epoch and current role, and it is still listening: no
    screen of a superseded epoch or role stays the one in use. (The derivations
    settle in the order they were started.) *)
Theorem transfer_screen_current secure hash es w :
  run fifo_step es (start secure hash) = Some w →
  cs_screen (cs w) = Paired → (∃ key, cs_sessionKey (cs w) = Some key ∧ length key = 32%nat) →
  pending_screens w = [] →
  ∃ h x, activeTransferHandle (vars w) = Some h ∧ handles w !! h = Some x
    ∧ h_epoch x = cs_epoch (cs w) ∧ h_role x = cs_transferRole (cs w) ∧ h_detached x = false.
Proof.
  intros Hrun Hs Hk Hp.
  assert (screen_current w) as Hw.
  { revert w Hrun Hs Hk Hp. intros w Hrun _ _ _. revert w Hrun. apply run_ind.
    - apply render_current.
    - intros w e w' Hw. unfold fifo_step. destruct (in_order w e) eqn:E; [|done].
      by apply step_current. }
  specialize (Hw Hs Hk). unfold shown in Hw. rewrite Hp in Hw. simpl in Hw.
  destruct (activeTransferHandle (vars w)) as [h|]; [|done]. simpl in Hw.
  destruct (handles w !! h) as [x|] eqn:Hx; [|done]. simpl in Hw.
  exists h, x. unfold handle_view in Hw. destruct (h_detached x); by simplify_eq.
Qed.

End Steps.

(** ** The texts *)

Lemma error_key_known code k : error_key code = Some k → k ∈ "errGeneric"%string :: ERROR_MESSAGE_KEYS.*2.
Proof.
  unfold error_key. destruct code as [code|]; [|intros [= <-]; by left].
  destruct (list_find _ _) as [[i [c key]]|] eqn:E.
  - intros [= <-]. right. apply list_find_Some in E as [E _]. apply list_elem_of_fmap.
    exists (c, key). split; [done|]. by eapply list_elem_of_lookup_2.
  - case_bool_decide; [done|]. intros [= <-]. by left.
Qed.

Lemma error_keys_translated :
  Forall (λ k, k ∈ STRINGS_en.*1) ("errGeneric"%string :: ERROR_MESSAGE_KEYS.*2).
Proof. apply (bool_decide_unpack _). by vm_compute. Qed.

Section Texts.
Context `{WebCrypto}.

(** Every text and button of every screen, and the message of every error
    code, has an entry in both languages: [t] never falls back to showing a
    key. (An error code the page has no message for gets the generic one.) *)
Theorem screens_translated c :
  Forall (λ k, is_Some (Lang.dict "pl" !! k) ∧ is_Some (Lang.dict "en" !! k)) (screen_keys c).
Proof.
  apply (Forall_impl (λ k, k ∈ STRINGS_en.*1)); [|auto using Lang.dict_known].
  unfold screen_keys, screen_view.
  destruct (cs_screen c), (cs_role c) as [[]|];
    try (apply (bool_decide_unpack _); by vm_compute).
  all: apply Forall_app; split; [|apply (bool_decide_unpack _); by vm_compute].
  all: simpl; destruct (error_key (cs_error c)) as [k|] eqn:E;
    [apply Forall_singleton|constructor].
  all: apply error_key_known in E; by apply (proj1 (Forall_forall _ _) error_keys_translated).
Qed.

End Texts.
