(* ===== verification/AppPage.v ===== *)
(** * app.js: the page's interface

    The two toggles on one page with the pairing screen between them. The
    toggles' labels are made anew when the language changes; the texts of the
    screen are made with [t] when the screen is rendered, and nothing renders it
    because of a change of language. *)

From stdpp Require Import base list sets strings gmap.
From Stdlib Require Import ZArith Lia.
From S2P Require Import Prelude Crypto PageState Pairing Strings I18n.
Local Open Scope string_scope.
Local Open Scope list_scope.

Module Interface.

(** [screen] is what the last [render] of pairing.js has put into the page: each
    text and button with the key it was made of and the text [t] gave then. *)
Record state := {
  store : storage;
  lang : Lang.state Theme.state;
  screen : list (string * string)
}.

Section Interface.
Context `{WebCrypto} (languages : option (list string)) (language : option string).

Definition with_theme (l : Lang.state Theme.state) (th : Theme.state) : Lang.state Theme.state :=
  {| Lang.currentLocale := Lang.currentLocale l; Lang.lang_attr := Lang.lang_attr l;
     Lang.elements := Lang.elements l; Lang.labels := Lang.labels l; Lang.buttons := Lang.buttons l;
     Lang.subscribers := Lang.subscribers l; Lang.outside := th |}.

(** What [render] shows of a session's state while the page is in a language. *)
Definition rendered (locale : string) (c : cstate) : list (string * string) :=
  map (λ key, (key, Lang.t locale key)) (screen_keys c).

(** The page loads: both toggles, the theme's subscription, and the first
    screen. Neither index.html nor any screen has a [data-i18n] element. *)
Definition load (st : storage) (c : cstate) : state :=
  let '(st, l) := Lang.initLangToggle languages language st (Lang.loaded [] Theme.unset) in
  let '(st, th) := Theme.initThemeToggle (Lang.currentLocale l) st (Lang.outside l) in
  {| store := st; lang := Lang.onLocaleChange Theme.relabel (with_theme l th);
     screen := rendered (Lang.currentLocale l) c |}.

(** A click on a button of either toggle, or a [render] of the pairing screen,
    which may happen at any time and show any state. *)
Inductive event := ClickLang (opt : string) | ClickTheme (theme : string) | Render (c : cstate).

Definition renders (e : event) : bool := match e with Render _ => true | _ => false end.

Definition step (s : state) (e : event) : option state :=
  match e with
  | ClickLang opt =>
      if bool_decide (opt ∈ Lang.VALID)
      then let '(st, l) := Lang.setPref languages language (store s) (lang s) opt in
           Some {| store := st; lang := l; screen := screen s |}
      else None
  | ClickTheme theme =>
      if bool_decide (theme ∈ Theme.VALID)
      then let '(st, th) := Theme.setTheme (store s) (Lang.outside (lang s)) theme in
           Some {| store := st; lang := with_theme (lang s) th; screen := screen s |}
      else None
  | Render c =>
      Some {| store := store s; lang := lang s;
              screen := rendered (Lang.currentLocale (lang s)) c |}
  end.

Abbreviation resolve := (Lang.resolveLocale languages language).

(** The page shows a preference and a theme, which the storage holds if it
    works. *)
Record shows (works : bool) (s : state) (pref theme : string) : Prop := {
  sw_pref : pref ∈ Lang.VALID;
  sw_theme : theme ∈ Theme.VALID;
  sw_lang : Lang.shown (lang s) (resolve pref) pref;
  sw_themed : Theme.themed (Lang.outside (lang s)) (resolve pref) theme;
  sw_elements : Lang.elements (lang s) = [];
  sw_subscribers : Lang.subscribers (lang s) = [Theme.relabel];
  sw_works : works = true → ∃ m, store s = Some m
    ∧ m !! Lang.STORAGE_KEY = Some pref ∧ m !! Theme.STORAGE_KEY = Some theme
}.

Lemma stored_read key VALID m v : v ∈ VALID → m !! key = Some v → readStored key VALID (Some m) = v.
Proof. intros Hv Hm. unfold readStored. simpl. rewrite Hm. unfold includes. by rewrite bool_decide_true. Qed.

Lemma other_key : Theme.STORAGE_KEY ≠ Lang.STORAGE_KEY.
Proof. done. Qed.

Lemma load_shows st c :
  let pref := Lang.readStored st in
  let theme := Theme.readStored (setItem st Lang.STORAGE_KEY pref) in
  shows (bool_decide (is_Some st)) (load st c) pref theme.
Proof.
  intros pref theme.
  assert (pref ∈ Lang.VALID) as Hp by (apply readStored_valid; unfold Lang.VALID; set_solver).
  assert (theme ∈ Theme.VALID) as Ht by (apply readStored_valid; unfold Theme.VALID; set_solver).
  split; [done|done| |by split|done|done|].
  - destruct (Lang.setPref_shown languages language st (Lang.loaded [] Theme.unset) pref Hp). by split.
  - intros [m ->]%bool_decide_eq_true. eexists. split; [reflexivity|].
    split; [by rewrite lookup_insert_ne, lookup_insert_eq by apply other_key|apply lookup_insert_eq].
Qed.

Lemma lang_shows b s pref theme opt :
  shows b s pref theme → opt ∈ Lang.VALID →
  let x := Lang.setPref languages language (store s) (lang s) opt in
  shows b {| store := x.1; lang := x.2; screen := screen s |} opt theme.
Proof.
  intros [_ Ht _ [Ha _ Hb] He Hs Hw] Ho x.
  split; [done|done|by apply Lang.setPref_shown| | |exact Hs|].
  - simpl. rewrite Hs. by split.
  - simpl. by rewrite He.
  - intros (m&Hm&_&Hth)%Hw. simpl. rewrite Hm. eexists. split; [reflexivity|].
    by rewrite lookup_insert_eq, lookup_insert_ne.
Qed.

Lemma theme_shows b s pref theme opt :
  shows b s pref theme → opt ∈ Theme.VALID →
  let x := Theme.setTheme (store s) (Lang.outside (lang s)) opt in
  shows b {| store := x.1; lang := with_theme (lang s) x.2; screen := screen s |} pref opt.
Proof.
  intros [Hp _ [] [_ Hl _] He Hs Hw] Ho x.
  split; [done|done|by split|by split|exact He|exact Hs|].
  intros (m&Hm&Hpr&_)%Hw. simpl. rewrite Hm. eexists. split; [reflexivity|].
  by rewrite lookup_insert_eq, lookup_insert_ne.
Qed.

Lemma step_shows b s e s' pref theme :
  shows b s pref theme → step s e = Some s' → ∃ pref' theme', shows b s' pref' theme'.
Proof.
  intros Hs. destruct e as [opt|opt|c]; cbn [step]; try (case_bool_decide as Ho; [|done]).
  - pose proof (lang_shows _ _ _ _ _ Hs Ho) as Hl. cbv zeta in Hl.
    destruct (Lang.setPref _ _ _ _ _). intros [= <-]. by eexists _, _.
  - pose proof (theme_shows _ _ _ _ _ Hs Ho) as Hl. cbv zeta in Hl.
    destruct (Theme.setTheme _ _ _). intros [= <-]. by eexists _, _.
  - intros [= <-]. destruct Hs. exists pref, theme. by split.
Qed.

Lemma run_shows st c es s :
  run step es (load st c) = Some s → ∃ pref theme, shows (bool_decide (is_Some st)) s pref theme.
Proof.
  generalize (load_shows st c). generalize (bool_decide (is_Some st)). intros b Hload.
  apply (run_ind step (λ s, ∃ pref theme, shows b s pref theme)); [by eexists _, _|].
  intros s0 e s1 (pref&theme&Hs). by apply (step_shows _ _ _ _ _ _ Hs).
Qed.

Lemma step_screen s e s' :
  step s e = Some s' →
  screen s' = match e with Render c => rendered (Lang.currentLocale (lang s')) c | _ => screen s end.
Proof.
  destruct e; simpl; try (case_bool_decide; [|done]); try case_match; by intros [= <-].
Qed.

(** The screen is the one last rendered, in the language of that moment. *)
Lemma run_screen st c es s :
  run step es (load st c) = Some s →
  ∃ before after c' s', es = before ++ after ∧ Forall (λ e, renders e = false) after
    ∧ last (Render c :: before) = Some (Render c') ∧ run step before (load st c) = Some s'
    ∧ screen s = rendered (Lang.currentLocale (lang s')) c'.
Proof.
  revert s. induction es as [|e es IH] using rev_ind; intros s Hrun.
  - exists [], [], c, s. injection Hrun as <-. by split_and!.
  - rewrite run_app in Hrun. apply bind_Some in Hrun as (s0&Hs0&Hrun).
    destruct (IH s0 Hs0) as (before&after&c'&s'&->&Hafter&Hlast&Hs'&Hscreen).
    pose proof Hrun as He. simpl in He. apply bind_Some in He as (s1&He&[= ->]).
    pose proof (step_screen _ _ _ He) as Hsc. destruct (renders e) eqn:Er.
    + destruct e as [| |c1]; try done.
      exists ((before ++ after) ++ [Render c1]), [], c1, s. rewrite app_nil_r.
      split_and!; [done|done| |by rewrite run_app, Hs0|done].
      by rewrite app_comm_cons, last_snoc.
    + exists before, (after ++ [e]), c', s'. rewrite app_assoc.
      split_and!; [done| |done|done|by destruct e; rewrite ?Hsc].
      apply Forall_app. auto.
Qed.

(** C32: The interface follows the two preferences, but for the screen between
    the toggles. However the user clicks and whenever the screen is rendered,
    the [lang] attribute and the labels of both toggles are in the language of
    the preference in force, the theme attribute is that of the theme in force,
    and exactly the buttons of these two are pressed; where the browser stores
    them, a page loaded again, whatever its first screen, is in them as a whole.
    The texts of the pairing screen are in the language of the moment it was
    last rendered: a click on a language leaves them as they are, since no
    element of the page is of the kind [applyTranslations] goes over, and the
    screen does not subscribe to the change. *)
Theorem toggles_follow_preferences st c es s :
  run step es (load st c) = Some s →
  ∃ pref theme, let locale := resolve pref in let l := lang s in let th := Lang.outside (lang s) in
    pref ∈ Lang.VALID ∧ theme ∈ Theme.VALID ∧ (locale = "pl" ∨ locale = "en")
    ∧ Lang.currentLocale l = locale ∧ Lang.lang_attr l = locale ∧ Lang.elements l = []
    ∧ Lang.labels l = Lang.labelled locale "langGroupLabel" Lang.labelKeys Lang.VALID
    ∧ Theme.labels th = Lang.labelled locale "themeGroupLabel" Theme.LABEL_KEYS Theme.VALID
    ∧ Lang.buttons l = pressed Lang.VALID pref ∧ Theme.buttons th = pressed Theme.VALID theme
    ∧ Theme.dataset_theme th = Theme.apply theme
    ∧ (is_Some st → ∀ c', let s' := load (store s) c' in
         Lang.currentLocale (lang s') = locale ∧ Lang.buttons (lang s') = Lang.buttons l
         ∧ Lang.outside (lang s') = th ∧ screen s' = rendered locale c')
    ∧ ∃ before after c' s', es = before ++ after ∧ Forall (λ e, renders e = false) after
        ∧ last (Render c :: before) = Some (Render c') ∧ run step before (load st c) = Some s'
        ∧ screen s = rendered (Lang.currentLocale (lang s')) c'.
Proof.
  intros Hrun. destruct (run_shows _ _ _ _ Hrun) as (pref&theme&Hs). exists pref, theme.
  pose proof Hs as [Hp Ht [H1 H2 _ H4 H5] [H6 H7 H8] He _ Hw].
  intros locale l th. split_and!; [done|done|by apply Lang.resolve_locale|done..| |by apply run_screen].
  intros Hst c' s'. destruct Hw as (m&Hm&Hpr&Hth); [by apply bool_decide_eq_true|].
  destruct (load_shows (store s) c') as [_ _ [G1 _ _ _ G5] [G6 G7 G8] _ _ _].
  fold s' in G1, G5, G6, G7, G8.
  assert (Lang.readStored (store s) = pref) as Er by (rewrite Hm; by apply stored_read).
  assert (Theme.readStored (setItem (store s) Lang.STORAGE_KEY pref) = theme) as Et.
  { rewrite Hm. apply stored_read; [done|]. by rewrite lookup_insert_ne. }
  assert (screen s' = rendered (Lang.currentLocale (lang s')) c') as Hsc by done.
  rewrite Er in *. rewrite Et in *. split_and!; [done|by rewrite G5| |by rewrite Hsc, G1].
  subst th. destruct (Lang.outside (lang s')), (Lang.outside (lang s)). simpl in *. congruence.
Qed.

End Interface.
End Interface.
