(* ===== verification/RoleSwap.v ===== *)
(** * The role swap between two pages

    A specification of the swap as a machine of two roles and two queues, the
    proof that its roles stay opposite, and the refinement: two pages of Pairing
    joined by a relay that passes messages on in order are such a machine, as
    long as an answer arrives before the timer of its request. *)

From stdpp Require Import base list list_numbers gmap sets strings.
From Stdlib Require Import ZArith Lia.
From S2P Require Import Prelude JsText Hex Json Utf8 Crypto WsClient PairingText PageState.
From S2P Require Import Pairing Session.
Open Scope Z_scope.

(** ** The specification *)

Module Spec.

Inductive msg := Req | Resp (accepted : bool).

#[export] Instance msg_eq : EqDecision msg.
Proof. solve_decision. Defined.

(** One side: its role, whether it awaits an answer, and its messages on the
    way to the other side, oldest first. *)
Record side := { role : transfer_role; awaiting : bool; out : list msg }.

Definition flip (r : transfer_role) : transfer_role :=
  match r with SenderRole => ReceiverRole | ReceiverRole => SenderRole end.

(** What a side does with a message: [busy] when a transfer runs. *)
Definition receive (s : side) (m : msg) (busy : bool) : side :=
  match m with
  | Req =>
      let no := busy || awaiting s in
      {| role := if no then role s else flip (role s); awaiting := awaiting s;
         out := out s ++ [Resp (negb no)] |}
  | Resp accepted =>
      if awaiting s
      then {| role := if accepted then flip (role s) else role s; awaiting := false; out := out s |}
      else s
  end.

Definition ask (s : side) : side := {| role := role s; awaiting := true; out := out s ++ [Req] |}.
Definition sent_one (s : side) : side := {| role := role s; awaiting := awaiting s; out := tail (out s) |}.

(** A step of the left side: it asks, or it receives the right side's oldest
    message. *)
Inductive left_step : side * side → side * side → Prop :=
| left_ask l r : awaiting l = false → left_step (l, r) (ask l, r)
| left_receive l r m q busy : out r = m :: q → left_step (l, r) (receive l m busy, sent_one r).

Definition swap {A} (p : A * A) : A * A := (p.2, p.1).

Inductive step : side * side → side * side → Prop :=
| step_left p q : left_step p q → step p q
| step_right p q : left_step (swap p) (swap q) → step p q.

Definition count (m : msg) (l : list msg) : nat := length (filter (λ x, x = m) l).
Definition answers (l : list msg) : nat := (count (Resp true) l + count (Resp false) l)%nat.
Definition bit (b : bool) : nat := if b then 1 else 0.

(** An awaiting side has one request or answer on the way, and one that does not
    await has none; roles are opposite but for an acceptance on the way. *)
Record inv (p : side * side) : Prop := {
  inv_left : (count Req (out p.1) + answers (out p.2) = bit (awaiting p.1))%nat;
  inv_right : (count Req (out p.2) + answers (out p.1) = bit (awaiting p.2))%nat;
  inv_roles : (count (Resp true) (out p.1) + count (Resp true) (out p.2)
               = bit (bool_decide (role p.1 = role p.2)))%nat
}.

Lemma count_app m l k : count m (l ++ k) = (count m l + count m k)%nat.
Proof. unfold count. by rewrite filter_app, length_app. Qed.

Lemma count_cons m x l : count m (x :: l) = (bit (bool_decide (x = m)) + count m l)%nat.
Proof. unfold count. rewrite filter_cons. case_decide; [by rewrite bool_decide_true|by rewrite bool_decide_false]. Qed.

Lemma count_nil m : count m [] = O.
Proof. done. Qed.

Lemma flip_same r s : bool_decide (flip r = s) = negb (bool_decide (r = s)).
Proof. by destruct r, s. Qed.

Lemma inv_swap p : inv p → inv (swap p).
Proof.
  destruct p as [l r]. intros [H1 H2 H3]. split; simpl in *; [done..|].
  rewrite (bool_decide_ext (role r = role l) (role l = role r)) by done. lia.
Qed.

Lemma left_step_inv p q : inv p → left_step p q → inv q.
Proof.
  intros [H1 H2 H3] Hs. destruct Hs as [l r Ha|l r m q busy Ho]; simpl in *.
  - rewrite Ha in H1. unfold answers in *.
    split; simpl; unfold answers; rewrite ?count_app, ?count_cons, ?count_nil; simpl in *; lia.
  - rewrite Ho in *. unfold answers in *. rewrite !count_cons in *.
    destruct m as [|[|]], busy, (awaiting l) eqn:Ea;
      (split; simpl in *; unfold answers; rewrite ?Ho, ?Ea; simpl;
       rewrite ?flip_same, ?count_app, ?count_cons, ?count_nil; simpl in *; destruct (bool_decide (role l = role r)), (awaiting r); simpl in *; lia).
Qed.

Lemma spec_step_inv p q : inv p → step p q → inv q.
Proof.
  intros Hp Hs. destruct Hs as [p q Hs|p q Hs]; [by eapply left_step_inv|].
  pose proof (left_step_inv _ _ (inv_swap _ Hp) Hs) as Hq. apply inv_swap in Hq. by destruct q.
Qed.

(** The sides start opposite and silent. *)
Definition quiet (p : side * side) : Prop :=
  role p.1 ≠ role p.2 ∧ awaiting p.1 = false ∧ awaiting p.2 = false ∧ out p.1 = [] ∧ out p.2 = [].

Lemma quiet_inv p : quiet p → inv p.
Proof.
  intros (Hr&H1&H2&H3&H4). split; rewrite ?H1, ?H2, ?H3, ?H4; simpl; try done.
  by rewrite bool_decide_false.
Qed.

Lemma steps_inv p q : quiet p → rtc step p q → inv q.
Proof. intros Hp Hs. apply quiet_inv in Hp. induction Hs; eauto using spec_step_inv. Qed.

(** What the invariant says when nothing is on the way. *)
Lemma inv_settled p :
  inv p → out p.1 = [] → out p.2 = [] →
  role p.1 ≠ role p.2 ∧ awaiting p.1 = false ∧ awaiting p.2 = false.
Proof.
  intros [H1 H2 H3] E1 E2. rewrite E1, E2 in *.
  change (answers []) with O in *. change (count _ []) with O in *.
  destruct (awaiting p.1), (awaiting p.2); try done.
  split_and!; [intros Hr; by rewrite bool_decide_true in H3|done..].
Qed.

End Spec.

(** ** Two pages and the relay between them *)

(** The swap message a socket message is, if it is one. *)
Definition kind (d : data) : option Spec.msg :=
  env ← received d;
  if has_type env "role_swap_request" then Some Spec.Req
  else if has_type env "role_swap_response" then Some (Spec.Resp (accepted_of env))
  else None.

(** What the listeners of this module act on. *)
Definition HANDLED : list string :=
  ["session_created"; "code_session_created"; "paired"; "error"; "session_ended";
   "peer_disconnected"; "peer_reconnected"; "reconnected"; "role_swap_request";
   "role_swap_response"]%string.

(** Everything else: the messages of transfers and of the key exchange, and the
    reconnect token, which the relay keeps to itself. *)
Definition inert (d : data) : bool :=
  match received d with
  | Some env => forallb (λ t, negb (has_type env t)) HANDLED
  | None => true
  end.

(** A page, its socket, and how many of its messages the other side has got. *)
Record peer := { p_world : world; p_sock : nat; p_relayed : nat }.

Definition with_world (p : peer) (w : world) : peer :=
  {| p_world := w; p_sock := p_sock p; p_relayed := p_relayed p |}.
Definition relayed_one (p : peer) : peer :=
  {| p_world := p_world p; p_sock := p_sock p; p_relayed := S (p_relayed p) |}.

Definition in_flight (p : peer) : list data :=
  match socks (p_world p) !! p_sock p with
  | Some c => drop (p_relayed p) (k_sent c)
  | None => []
  end.

Inductive peer_event :=
| Own (e : event)       (* clicks, timers and promises of the page *)
| Traffic (d : data)    (* a message that is none of the swap's is sent *)
| Arrives.              (* the other side's oldest message arrives *)

(** The events of a paired page between connections; the timer of a swap request
    only fires when the answer has come. *)
Definition own (w : world) (e : event) : bool :=
  match e with
  | Click key _ => bool_decide (key = "swapRolesButton"%string)
  | TransferBusy _ _ | StaleFiles _ => true
  | PromiseSettles i _ =>
      match promises w !! i with
      | Some (PToken _ _) | Some (PRender _ _ _) => true
      | _ => false
      end
  | TimerFires i =>
      match timers w !! i with
      | Some TSwap => negb (swapAwaitingResponse (vars w))
      | _ => false
      end
  | _ => false
  end.

Section Peers.
Context `{WebCrypto}.
Context (location : url) (randomKey : nat → bytes).
Abbreviation step := (step location randomKey).

Definition left_event (ps : peer * peer) (e : peer_event) : option (peer * peer) :=
  let '(l, r) := ps in
  match e with
  | Own e =>
      if own (p_world l) e
      then w ← step (p_world l) e; Some (with_world l w, r)
      else None
  | Traffic d =>
      if inert d
      then w ← send_on (p_world l) (p_sock l) d; Some (with_world l w, r)
      else None
  | Arrives =>
      match in_flight r with
      | d :: _ =>
          w ← step (p_world l) (SockMessage (p_sock l) d); Some (with_world l w, relayed_one r)
      | [] => None
      end
  end.

(** An event of the left side, or (with [true]) of the right one. *)
Definition pair_step (ps : peer * peer) (e : bool * peer_event) : option (peer * peer) :=
  let '(b, e) := e in
  if (b : bool) then Spec.swap <$> left_event (Spec.swap ps) e else left_event ps e.

(** *** A paired side *)

Definition passive (l : listener) : Prop := l ≠ LPaired.

Definition known (d : data) : Prop := inert d = true ∨ is_Some (kind d).

Definition token_ok (x : promise) : Prop :=
  match x with PToken _ token => bytes_ok token ∧ length token = 32%nat | _ => True end.

Record joined (w : world) (k : nat) (n : nat) : Prop := {
  jn_screen : cs_screen (cs w) = Paired;
  jn_role : is_Some (cs_transferRole (cs w));
  jn_active : activeSocket (vars w) = Some k;
  jn_tokens : Forall token_ok (promises w);
  jn_socket : ∃ c l, socks w !! k = Some c ∧ k_state c = Open
    ∧ k_listeners c = [l; LPaired] ∧ passive l
    ∧ (n ≤ length (k_sent c))%nat ∧ Forall known (drop n (k_sent c))
}.

Definition linked (p : peer) : Prop := joined (p_world p) (p_sock p) (p_relayed p).

(** The side of the specification a page is. *)
Definition abs (p : peer) : Spec.side :=
  {| Spec.role := default SenderRole (cs_transferRole (cs (p_world p)));
     Spec.awaiting := swapAwaitingResponse (vars (p_world p));
     Spec.out := omap kind (in_flight p) |}.

(** *** Messages *)

Lemma kinds_snoc l d : omap kind (l ++ [d]) = omap kind l ++ option_list (kind d).
Proof. by rewrite omap_app. Qed.

Lemma has_type_one env t u : has_type env t = true → t ≠ u → has_type env u = false.
Proof.
  unfold has_type, is_str. repeat case_match; try done. intros Ht Hne.
  apply bool_decide_eq_true in Ht. subst. apply bool_decide_eq_false. intros He.
  by apply js_inj in He.
Qed.

Lemma kind_request : kind role_swap_request = Some Spec.Req.
Proof. unfold kind, role_swap_request. by rewrite received_sendEnvelope. Qed.

Lemma response_wf b : json_wf (JObj [(js "accepted", JBool b)]).
Proof. by apply single_wf. Qed.

Lemma kind_response b : kind (role_swap_response b) = Some (Spec.Resp b).
Proof.
  unfold kind, role_swap_response. rewrite received_sendEnvelope by apply response_wf.
  by destruct b.
Qed.

Lemma inert_kind d : inert d = true → kind d = None.
Proof.
  unfold inert, kind. destruct (received d) as [env|]; [|done]. simpl.
  rewrite !andb_true_iff, !negb_true_iff. by intros (?&?&?&?&?&?&?&?&->&->&_).
Qed.

Lemma token_inert token : bytes_ok token →
  inert (sendEnvelope "reconnect_token" (JObj [(js "tokenHex", JStr (toHex token))])) = true.
Proof.
  intros Ht. unfold inert. rewrite received_sendEnvelope; [done|].
  apply single_wf. simpl. by apply toHex_unit.
Qed.

(** *** Operations that leave a paired side as it is *)

Definition same_side (w w' : world) : Prop :=
  cs_screen (cs w') = cs_screen (cs w) ∧ cs_transferRole (cs w') = cs_transferRole (cs w)
  ∧ activeSocket (vars w') = activeSocket (vars w)
  ∧ swapAwaitingResponse (vars w') = swapAwaitingResponse (vars w)
  ∧ socks w' = socks w ∧ (Forall token_ok (promises w) → Forall token_ok (promises w')).

Lemma same_side_joined w w' k n : same_side w w' → joined w k n → joined w' k n.
Proof.
  intros (H1&H2&H3&H4&H5&H6) []. split; rewrite ?H1, ?H2, ?H3, ?H5; auto.
Qed.

Lemma same_side_abs p w' : same_side (p_world p) w' → abs (with_world p w') = abs p.
Proof.
  intros (H1&H2&H3&H4&H5&H6). unfold abs, in_flight. simpl. by rewrite H2, H4, H5.
Qed.

Lemma transfer_rendered_side w sock e r : same_side w (transfer_rendered w sock e r).
Proof. unfold transfer_rendered. cbv zeta. by repeat case_match. Qed.

Lemma staleFiles_side w files : same_side w (staleFiles w files).
Proof. unfold staleFiles. cbv zeta. by repeat case_match. Qed.

Lemma delete_promise_side w i : same_side w (put_promises w (delete_at i (promises w))).
Proof. repeat split. intros. by apply Forall_delete_at. Qed.

(** Rendering a paired side only forgets that it awaits an answer. *)
Lemma render_paired w :
  cs_screen (cs w) = Paired →
  cs (render w) = cs w ∧ activeSocket (vars (render w)) = activeSocket (vars w)
  ∧ swapAwaitingResponse (vars (render w)) = false ∧ socks (render w) = socks w
  ∧ (Forall token_ok (promises w) → Forall token_ok (promises (render w))).
Proof.
  intros Hs. unfold render. rewrite Hs.
  unfold renderPaired, renderTransferUI, detachActiveTransfer, showReconnectStatus, showSwapStatus,
    add_promise. cbv zeta.
  destruct (activeTransferHandle (vars w)); simpl; repeat case_match; simpl; split_and!; try done;
    intros; apply Forall_app; by repeat constructor.
Qed.

(** *** Sending *)

Definition pushed (c : conn) (d : data) : conn :=
  {| k_state := Open; k_listeners := k_listeners c; k_sent := k_sent c ++ [d] |}.

Lemma send_on_open w k c d :
  socks w !! k = Some c → k_state c = Open →
  send_on w k d = Some (put_socks w (<[k := pushed c d]> (socks w))).
Proof. intros Hk Hc. unfold send_on. by rewrite Hk, Hc. Qed.

(** A message sent on the joined socket goes to the end of the queue. *)
Lemma sent_joined w k n d w' :
  joined w k n → known d → send_on w k d = Some w' →
  joined w' k n ∧ (∀ p, p_world p = w → p_sock p = k → p_relayed p = n →
    in_flight (with_world p w') = in_flight p ++ [d])
  ∧ vars w' = vars w ∧ promises w' = promises w.
Proof.
  intros [Hs Hr Ha Ht (c&l&Hk&Hc&Hl&Hp&Hn&Hf)] Hd Hsend.
  rewrite (send_on_open _ _ c) in Hsend by done. injection Hsend as <-.
  assert (drop n (k_sent c ++ [d]) = drop n (k_sent c) ++ [d]) as Hdrop by (by rewrite drop_app_le).
  assert (k < length (socks w))%nat by by eapply lookup_lt_Some.
  split_and!; [|..|done|done].
  - split; try done. exists (pushed c d), l. simpl.
    rewrite list_lookup_insert_eq, length_app, Hdrop by done. simpl.
    split_and!; try done; [lia|]. apply Forall_app. split; [done|by constructor].
  - intros p <- <- <-. unfold in_flight. simpl.
    rewrite list_lookup_insert_eq, Hk by done. simpl. by rewrite Hdrop.
Qed.

Lemma send_elsewhere w k d w' j :
  send_on w k d = Some w' → k ≠ j →
  socks w' !! j = socks w !! j ∧ vars w' = vars w ∧ promises w' = promises w.
Proof.
  unfold send_on. intros Hs Hne. repeat case_match; simplify_eq; try done.
  split; [|done]. simpl. by rewrite list_lookup_insert_ne.
Qed.

(** *** Receiving *)

(** The page has both its listeners on the socket; the first ignores the swap. *)
Lemma passive_ignores w k l env :
  passive l →
  (∀ t, t ∈ ["session_created"; "code_session_created"; "paired"; "error"; "reconnected"]%string →
     has_type env t = false) →
  on_message location randomKey w k l env = w.
Proof.
  intros Hl Hf.
  pose proof (Hf "session_created"%string) as H1. pose proof (Hf "code_session_created"%string) as H2.
  pose proof (Hf "paired"%string) as H3. pose proof (Hf "error"%string) as H4.
  pose proof (Hf "reconnected"%string) as H5.
  rewrite ?H1, ?H2, ?H3, ?H4, ?H5 in * by set_solver.
  destruct l; try done; simpl;
    unfold receiverFlow_message, receiverCodeFlow_message, joinByCode_message, join_message,
      reconnect_message; by rewrite ?H1, ?H2, ?H3, ?H4, ?H5 by set_solver.
Qed.

Lemma arrives_joined w k n d :
  joined w k n → known d →
  step w (SockMessage k d)
  = Some (match received d with Some env => on_message location randomKey w k LPaired env | None => w end).
Proof.
  intros [Hs Hr Ha Ht (c&l&Hk&Hc&Hl&Hp&_)] Hd.
  unfold Pairing.step. rewrite Hk. simpl. rewrite Hc.
  destruct (received d) as [env|] eqn:E; [|done].
  unfold dispatch. rewrite Hk, Hl. simpl. rewrite passive_ignores; [done..|].
  intros t Hin. destruct Hd as [Hd|[m Hd]].
  - unfold inert in Hd. rewrite E in Hd. rewrite forallb_forall in Hd.
    apply negb_true_iff, Hd. apply list_elem_of_In. revert Hin. clear. set_solver.
  - unfold kind in Hd. rewrite E in Hd. simpl in Hd.
    destruct (has_type env "role_swap_request") eqn:E1; [|destruct (has_type env "role_swap_response") eqn:E2; [|done]];
      (eapply has_type_one; [eassumption|]); set_solver.
Qed.

Lemma paired_inert w k env d :
  inert d = true → received d = Some env → on_message location randomKey w k LPaired env = w.
Proof.
  unfold inert. intros Hd E. rewrite E in Hd. simpl in Hd.
  rewrite !andb_true_iff, !negb_true_iff in Hd. destruct Hd as (_&_&_&_&H1&H2&H3&_&H4&H5&_).
  simpl. unfold paired_message. by rewrite H1, H2, H3, H4, H5.
Qed.

(** Flipping the role of a joined page. *)
Lemma flip_joined w k n :
  joined w k n →
  joined (flipTransferRole w) k n
  ∧ default SenderRole (cs_transferRole (cs (flipTransferRole w)))
    = Spec.flip (default SenderRole (cs_transferRole (cs w)))
  ∧ swapAwaitingResponse (vars (flipTransferRole w)) = false
  ∧ socks (flipTransferRole w) = socks w.
Proof.
  intros [Hs [r Hr] Ha Ht Hk]. unfold flipTransferRole. rewrite Hr.
  set (r' := if bool_decide _ then _ else _).
  assert (r' = Spec.flip r) as -> by by destruct r.
  destruct (render_paired (set_cs w (set_transferRole (cs w) (Spec.flip r)))) as (Hc&Hac&Haw&Hso&Hpr);
    [done|].
  split_and!; [split|..]; rewrite ?Hc, ?Hac, ?Hso; simpl; auto.
Qed.

Lemma with_world_flip p w :
  joined w (p_sock p) (p_relayed p) →
  abs (with_world p (flipTransferRole w))
  = {| Spec.role := Spec.flip (default SenderRole (cs_transferRole (cs w)));
       Spec.awaiting := false; Spec.out := omap kind (in_flight (with_world p w)) |}.
Proof.
  intros Hj. destruct (flip_joined _ _ _ Hj) as (_&Hr&Haw&Hso).
  unfold abs, in_flight. simpl. by rewrite Hr, Haw, Hso.
Qed.

Lemma request_arrives p env d :
  linked p → received d = Some env → kind d = Some Spec.Req →
  let w' := on_message location randomKey (p_world p) (p_sock p) LPaired env in
  linked (with_world p w') ∧ abs (with_world p w') = Spec.receive (abs p) Spec.Req (transferActive (p_world p)).
Proof.
  intros Hl Er Hk w'. unfold kind in Hk. rewrite Er in Hk. simpl in Hk.
  destruct (has_type env "role_swap_request") eqn:E.
  2: by destruct (has_type env "role_swap_response").
  destruct (jn_socket _ _ _ Hl) as (c&l&Hc&Ho&_).
  subst w'. simpl. unfold paired_message, swap_requested.
  rewrite !(has_type_one env "role_swap_request") by done. rewrite E. cbv zeta.
  set (busy := transferActive _ || swapAwaitingResponse _).
  destruct (send_on (p_world p) (p_sock p) (role_swap_response (negb busy))) as [w1|] eqn:Es.
  2: by erewrite send_on_open in Es.
  destruct (sent_joined _ _ _ _ _ Hl (or_intror _ (mk_is_Some _ _ (kind_response (negb busy)))) Es)
    as (Hj&Hin&Hv&Hp).
  specialize (Hin p eq_refl eq_refl eq_refl).
  assert (omap kind (in_flight (with_world p w1)) = omap kind (in_flight p) ++ [Spec.Resp (negb busy)]) as Hout.
  { by rewrite Hin, kinds_snoc, kind_response. }
  unfold Spec.receive. cbn [Spec.awaiting Spec.role Spec.out abs]. fold busy.
  destruct busy eqn:Eb.
  - split; [exact Hj|]. unfold abs. cbn [p_world with_world]. unfold cs. by rewrite Hv, Hout.
  - split; [apply (flip_joined _ _ _ Hj)|].
    rewrite with_world_flip by done. unfold cs. rewrite Hv, Hout.
    subst busy. apply orb_false_iff in Eb as [_ ->]. done.
Qed.

Lemma response_arrives p env d a :
  linked p → received d = Some env → kind d = Some (Spec.Resp a) →
  let w' := on_message location randomKey (p_world p) (p_sock p) LPaired env in
  linked (with_world p w') ∧ abs (with_world p w') = Spec.receive (abs p) (Spec.Resp a) false.
Proof.
  intros Hl Er Hk w'. unfold kind in Hk. rewrite Er in Hk. simpl in Hk.
  destruct (has_type env "role_swap_request") eqn:E1; [done|].
  destruct (has_type env "role_swap_response") eqn:E; [|done]. injection Hk as Hk.
  subst w'. simpl. unfold paired_message, swap_answered.
  rewrite !(has_type_one env "role_swap_response") by done. rewrite E, Hk. cbv zeta.
  destruct (swapAwaitingResponse (vars (p_world p))) eqn:Ew; simpl.
  2: { split; [by destruct p|]. by destruct p. }
  set (w1 := set_vars _ _).
  assert (joined w1 (p_sock p) (p_relayed p)) as Hj by by destruct Hl.
  destruct a.
  - split; [apply (flip_joined _ _ _ Hj)|]. by rewrite with_world_flip.
  - split; [by destruct Hj|]. done.
Qed.

(** *** The refinement *)

Lemma relayed_linked p d q :
  linked p → in_flight p = d :: q →
  linked (relayed_one p) ∧ in_flight (relayed_one p) = q ∧ known d.
Proof.
  intros [Hs Hr Ha Ht (c&l&Hk&Hc&Hl&Hp&Hn&Hf)] Hq. unfold in_flight in *. simpl.
  rewrite Hk in Hq |- *.
  assert (drop (S (p_relayed p)) (k_sent c) = q) as Hd.
  { rewrite <- Nat.add_1_r, <- drop_drop, Hq. done. }
  rewrite Hq in Hf. inversion Hf. subst x l0.
  split_and!; [split; try done|done|done].
  exists c, l. split_and!; try done.
  - simpl. apply (f_equal length) in Hq. rewrite length_drop in Hq. simpl in Hq. lia.
  - simpl. by rewrite Hd.
Qed.

Lemma abs_relayed p d q :
  in_flight p = d :: q → in_flight (relayed_one p) = q →
  abs (relayed_one p)
  = match kind d with Some _ => Spec.sent_one (abs p) | None => abs p end.
Proof.
  intros Hq Hq'. unfold abs at 1. rewrite Hq'. unfold Spec.sent_one, abs.
  cbn [Spec.role Spec.awaiting Spec.out]. rewrite Hq. simpl.
  destruct (kind d) eqn:E; simpl; by rewrite ?E.
Qed.

(** What one side does is nothing, or a step of the specification. *)
Definition follows (p q : Spec.side * Spec.side) : Prop := q = p ∨ Spec.left_step p q.

Definition side_moves (l r : peer) (v : world) : Prop :=
  linked (with_world l v) ∧ follows (abs l, abs r) (abs (with_world l v), abs r).

Lemma same_moves l r v : linked l → same_side (p_world l) v → side_moves l r v.
Proof. intros Hl Hv. split; [by eapply same_side_joined|]. left. by rewrite same_side_abs. Qed.

(** A click on the swap button. *)
Lemma request_moves l r : linked l → side_moves l r (requestRoleSwap (p_world l)).
Proof.
  intros Hl. unfold requestRoleSwap. cbv zeta.
  destruct (transferActive (p_world l)); [by apply same_moves|].
  destruct (swapAwaitingResponse (vars (p_world l))) eqn:Ew; [by apply same_moves|].
  set (w1 := showSwapStatus _ _).
  assert (joined w1 (p_sock l) (p_relayed l)) as Hj1 by (by destruct Hl).
  rewrite (jn_active _ _ _ Hj1). simpl.
  destruct (jn_socket _ _ _ Hj1) as (c&ls&Hc&Hoc&_).
  destruct (send_on w1 (p_sock l) role_swap_request) as [w2|] eqn:Es;
    [|by erewrite send_on_open in Es].
  destruct (sent_joined _ _ _ _ _ Hj1 (or_intror _ (mk_is_Some _ _ kind_request)) Es)
    as (Hj&Hin&Hv&Hp).
  specialize (Hin (with_world l w1) eq_refl eq_refl eq_refl).
  split; [by destruct Hj|]. right.
  replace (abs (with_world l (add_timer w2 TSwap))) with (Spec.ask (abs l)); [by apply Spec.left_ask|].
  assert (in_flight (with_world l (add_timer w2 TSwap)) = in_flight l ++ [role_swap_request]) as Hq
    by exact Hin.
  unfold Spec.ask, abs. cbn [p_world with_world Spec.role Spec.awaiting Spec.out].
  rewrite Hq, kinds_snoc, kind_request. unfold cs. simpl. by rewrite Hv.
Qed.

(** The reconnect token is derived, and registered on the socket it is for. *)
Lemma token_moves l r w1 k token :
  linked l → same_side (p_world l) w1 → bytes_ok token → side_moves l r (token_derived w1 k token).
Proof.
  intros Hl H1 Htok. unfold token_derived. set (w2 := set_cs w1 (set_token (cs w1) token)).
  assert (same_side (p_world l) w2) as H2 by (by destruct H1 as (?&?&?&?&?&?)).
  assert (joined w2 (p_sock l) (p_relayed l)) as Hj2 by (by eapply same_side_joined).
  unfold try_send. destruct (send_on w2 k _) as [w3|] eqn:Es; [|by apply same_moves].
  change (default w2 (Some w3)) with w3. destruct (decide (k = p_sock l)) as [->|Hne].
  - destruct (sent_joined _ _ _ _ _ Hj2 (or_introl (token_inert token Htok)) Es) as (Hj&Hin&Hv&Hp).
    specialize (Hin (with_world l w2) eq_refl eq_refl eq_refl).
    split; [exact Hj|]. left. f_equal. rewrite <- (same_side_abs l w2 H2).
    unfold abs. cbn [p_world with_world]. unfold cs. rewrite Hv.
    replace (in_flight (with_world l w3)) with (in_flight (with_world (with_world l w2) w3)) by done.
    by rewrite Hin, kinds_snoc, inert_kind, app_nil_r by (by apply token_inert).
  - destruct (send_elsewhere _ _ _ _ (p_sock l) Es Hne) as (Hk&Hv&Hp). split.
    + destruct Hj2 as [J1 J2 J3 J4 J5].
      split; unfold cs; cbn [p_world p_sock p_relayed with_world]; rewrite ?Hv, ?Hk, ?Hp; done.
    + left. f_equal. rewrite <- (same_side_abs l w2 H2).
      unfold abs, in_flight. cbn [p_world p_sock p_relayed with_world]. unfold cs.
      by rewrite Hv, Hk.
Qed.

Lemma own_side l r e w :
  linked l → own (p_world l) e = true → step (p_world l) e = Some w →
  linked (with_world l w) ∧ follows (abs l, abs r) (abs (with_world l w), abs r).
Proof.
  intros Hl Ho Hs. change (side_moves l r w).
  destruct e; simpl in Ho; try done; simpl in Hs.
  - apply bool_decide_eq_true in Ho as ->. unfold click, screen_view in Hs.
    rewrite (jn_screen _ _ _ Hl) in Hs. apply (inj Some) in Hs as <-. by apply request_moves.
  - destruct (timers (p_world l) !! i) as [[|a]|]; simpl in *; simplify_eq; [|done..].
    apply negb_true_iff in Ho. apply same_moves; [done|]. unfold swap_timeout. simpl. by rewrite Ho.
  - destruct (promises (p_world l) !! i) as [x|] eqn:Ex; simpl in *; simplify_eq.
    set (w1 := put_promises _ _).
    assert (same_side (p_world l) w1) as H1 by apply delete_promise_side.
    pose proof (Forall_lookup_1 _ _ _ _ (jn_tokens _ _ _ Hl) Ex) as Htok.
    destruct x as [k token|sock ep tr|]; [by apply token_moves; [..|apply Htok]| |done].
    cbn [settle]. apply same_moves; [done|]. destruct H1 as (E1&E2&E3&E4&E5&E6).
    destruct (transfer_rendered_side w1 sock ep tr) as (F1&F2&F3&F4&F5&F6).
    repeat split; try congruence. auto.
  - destruct (handles (p_world l) !! h); simplify_eq/=. by apply same_moves.
  - case_match; simplify_eq. by apply same_moves, staleFiles_side.
Qed.

Lemma traffic_side l r d w :
  linked l → inert d = true → send_on (p_world l) (p_sock l) d = Some w →
  linked (with_world l w) ∧ follows (abs l, abs r) (abs (with_world l w), abs r).
Proof.
  intros Hl Hd Hs.
  destruct (sent_joined _ _ _ _ _ Hl (or_introl Hd) Hs) as (Hj&Hin&Hv&_).
  split; [exact Hj|]. left. f_equal. unfold abs. cbn [p_world with_world]. unfold cs.
  by rewrite Hv, (Hin l), kinds_snoc, inert_kind, app_nil_r.
Qed.

Lemma arrival_side l r d q w :
  linked l → linked r → in_flight r = d :: q → step (p_world l) (SockMessage (p_sock l) d) = Some w →
  linked (with_world l w) ∧ linked (relayed_one r)
  ∧ follows (abs l, abs r) (abs (with_world l w), abs (relayed_one r)).
Proof.
  intros Hl Hr Hq Hs.
  destruct (relayed_linked _ _ _ Hr Hq) as (Hr'&Hq'&Hd).
  rewrite (arrives_joined _ _ _ _ Hl Hd) in Hs. rewrite (abs_relayed _ _ _ Hq Hq').
  destruct (received d) as [env|] eqn:Er; apply (inj Some) in Hs as <-.
  2: { assert (kind d = None) as -> by (unfold kind; by rewrite Er).
       by split_and!; [destruct l| |left; destruct l]. }
  destruct (kind d) as [m|] eqn:Ek.
  - assert (∃ k, Spec.out (abs r) = m :: k) as [k Ho].
    { exists (omap kind q). unfold abs. simpl. rewrite Hq. cbn. by rewrite Ek. }
    destruct m as [|a].
    + destruct (request_arrives l env d Hl Er Ek) as [H1 H2].
      split_and!; [done..|]. right. rewrite H2. by eapply Spec.left_receive.
    + destruct (response_arrives l env d a Hl Er Ek) as [H1 H2].
      split_and!; [done..|]. right. rewrite H2. by eapply Spec.left_receive.
  - destruct Hd as [Hd|[m Hm]]; [|by rewrite Ek in Hm].
    rewrite (paired_inert _ _ _ d) by done. by split_and!; [destruct l| |left; destruct l].
Qed.

Lemma left_event_follows l r e l' r' :
  linked l → linked r → left_event (l, r) e = Some (l', r') →
  linked l' ∧ linked r' ∧ follows (abs l, abs r) (abs l', abs r').
Proof.
  intros Hl Hr He. destruct e as [e|d|]; cbn [left_event] in He.
  - destruct (own (p_world l) e) eqn:Ho; [|done].
    destruct (step (p_world l) e) as [w|] eqn:Es; [|done]. simplify_eq/=.
    destruct (own_side l r' e w Hl Ho Es) as [H1 H2]. done.
  - destruct (inert d) eqn:Hd; [|done].
    destruct (send_on (p_world l) (p_sock l) d) as [w|] eqn:Es; [|done]. simplify_eq/=.
    destruct (traffic_side l r' d w Hl Hd Es) as [H1 H2]. done.
  - destruct (in_flight r) as [|d q] eqn:Hq; [done|].
    destruct (step (p_world l) (SockMessage (p_sock l) d)) as [w|] eqn:Es; [|done]. simplify_eq/=.
    by eapply arrival_side.
Qed.

Lemma pair_step_follows l r e l' r' :
  linked l → linked r → pair_step (l, r) e = Some (l', r') →
  linked l' ∧ linked r'
  ∧ ((abs l', abs r') = (abs l, abs r) ∨ Spec.step (abs l, abs r) (abs l', abs r')).
Proof.
  intros Hl Hr. destruct e as [[|] e]; cbn [pair_step]; unfold Spec.swap; cbn [fst snd].
  - destruct (left_event (r, l) e) as [[r1 l1]|] eqn:E; simpl; [|done]. intros ?; simplify_eq.
    destruct (left_event_follows r l e r' l' Hr Hl E) as (H1&H2&H3). split_and!; [done..|].
    destruct H3 as [H3|H3]; [left; congruence|right; by apply Spec.step_right].
  - intros E. destruct (left_event_follows l r e l' r' Hl Hr E) as (H1&H2&H3). split_and!; [done..|].
    destruct H3 as [H3|H3]; [by left|right; by apply Spec.step_left].
Qed.

(** Every run of the pair is a run of the specification. *)
Lemma run_follows es : ∀ l r l' r',
  linked l → linked r → run pair_step es (l, r) = Some (l', r') →
  linked l' ∧ linked r' ∧ rtc Spec.step (abs l, abs r) (abs l', abs r').
Proof.
  induction es as [|e es IH]; intros l r l' r' Hl Hr; cbn [run].
  - intros [= <- <-]. by split_and!.
  - destruct (pair_step (l, r) e) as [[l1 r1]|] eqn:E; [|done]. cbn [mbind option_bind].
    intros Hrun. destruct (pair_step_follows _ _ _ _ _ Hl Hr E) as (H1&H2&H3).
    destruct (IH _ _ _ _ H1 H2 Hrun) as (H4&H5&H6). split_and!; [done..|].
    destruct H3 as [<-|H3]; [done|by eapply rtc_l].
Qed.

End Peers.
