(* ===== verification/Races.v ===== *)
(** * Orders of events pairing.js does not handle

    Four runs, each from any state of its kind, in which an event that comes late
    acts on a page that has moved on. They show where the invariants of Session,
    Screens and RoleSwap stop. *)

From stdpp Require Import base list list_numbers gmap sets strings.
From Stdlib Require Import ZArith Lia.
From S2P Require Import Prelude JsText Hex Json Utf8 Crypto WsClient PairingText PageState.
From S2P Require Import Pairing Session.
Open Scope Z_scope.

(** The listeners of a pairing flow. *)
Definition flow_listener (l : listener) : Prop :=
  match l with LPaired | LReconnect _ _ _ _ => False | _ => True end.

Section Races.
Context `{WebCrypto}.
Context (location : url) (randomKey : nat → bytes).
Abbreviation step := (step location randomKey).

(** C36: Going back from a waiting screen shows an error: "Back" closes the
    socket and shows the previous screen, but the listeners of the flow stay on
    the socket, and when its close event comes they replace that screen by the
    error screen [connection_lost]. *)
Theorem back_then_close_shows_error w k c l :
  cs_screen (cs w) = ReceiverWaiting ∨ cs_screen (cs w) = CodeReceiverWaiting →
  activeSocket (vars w) = Some k → socks w !! k = Some c → k_state c = Open →
  k_listeners c = [l] → flow_listener l →
  ∃ w1 w2, step w (Click "backButton" []) = Some w1
    ∧ (cs w1 = at_screen RoleSelect ∨ cs w1 = at_screen CodeRoleSelect)
    ∧ step w1 (SockClose k) = Some w2
    ∧ cs w2 = error_screen (Some (js "connection_lost")).
Proof.
  intros Hs Ha Hk Hc Hl Hf.
  assert (∃ next, step w (Click "backButton" []) = Some (setState w (at_screen next))
            ∧ (next = RoleSelect ∨ next = CodeRoleSelect)) as (next&Hb&Hnext).
  { unfold Pairing.step, click, screen_view. destruct Hs as [-> | ->]; eexists; split; eauto. }
  set (w1 := setState w (at_screen next)).
  destruct (setState_sockets w (at_screen next)) as (Hcs&_&_&Hso). fold w1 in Hcs, Hso.
  destruct (Hso k c Hk) as (c'&Hk'&_&Hl'&Hst). rewrite bool_decide_true in Hst by done.
  rewrite Hc in Hst. simpl in Hst.
  set (w2 := put_socks w1 (<[k := set_ready c' Closed]> (socks w1))).
  exists w1, (setState w2 (error_screen (Some (js "connection_lost")))). split_and!.
  - exact Hb.
  - rewrite Hcs. destruct Hnext as [-> | ->]; auto.
  - rewrite (step_close _ _ _ _ c') by (done || by rewrite Hst). fold w2.
    unfold dispatch. unfold w2 at 1. simpl.
    rewrite list_lookup_insert_eq by (by eapply lookup_lt_Some). simpl. rewrite Hl', Hl. simpl.
    assert (on_close w2 k l = flow_closed w2) as -> by by destruct l.
    unfold flow_closed. change (cs w2) with (cs w1). rewrite Hcs. by destruct Hnext as [-> | ->].
  - by destruct (setState_sockets w2 (error_screen (Some (js "connection_lost")))) as [? _].
Qed.

(** Pressing "Disconnect" while a reconnection is under way does not abandon
    it: when the relay's [reconnected] arrives on the new socket, the page, back
    on the first screen, takes the socket as its active one and attaches the
    paired session's listeners to it. *)
Theorem reconnected_after_disconnect w k c a sid r token d env :
  cs_screen (cs w) = Paired → activeSocket (vars w) = None →
  socks w !! k = Some c → k_state c = Open → k_listeners c = [LReconnect a sid r token] →
  received d = Some env → has_type env "reconnected" = true →
  ∃ w1 w2 c2, step w (Click "disconnectButton" []) = Some w1 ∧ cs w1 = at_screen RoleSelect
    ∧ step w1 (SockMessage k d) = Some w2
    ∧ cs_screen (cs w2) = RoleSelect ∧ activeSocket (vars w2) = Some k
    ∧ socks w2 !! k = Some c2 ∧ LPaired ∈ k_listeners c2.
Proof.
  intros Hs Ha Hk Hc Hl Hr Ht.
  set (w1 := setState w (at_screen RoleSelect)).
  destruct (setState_sockets w (at_screen RoleSelect)) as (Hcs&_&_&Hso). fold w1 in Hcs, Hso.
  destruct (Hso k c Hk) as (c'&Hk'&_&_&Hst). rewrite Ha, bool_decide_false in Hst by done. subst c'.
  set (w2 := add_listener (incr_epoch (showReconnectStatus
               (set_vars w1 (λ p, with_activeSocket p (Some k))) None)) k LPaired).
  assert (cs w2 = set_epoch (at_screen RoleSelect) None) as Hcs2.
  { change (cs w2) with (set_epoch (cs w1) ((λ e, e + 1) <$> cs_epoch (cs w1))). by rewrite Hcs. }
  exists w1, w2, {| k_state := k_state c; k_listeners := [LReconnect a sid r token; LPaired];
                    k_sent := k_sent c |}.
  split_and!; try done.
  - unfold Pairing.step, click, screen_view. rewrite Hs. simpl. unfold disconnectSession. by rewrite Ha.
  - unfold Pairing.step. rewrite Hk'. simpl. rewrite Hc, Hr. unfold dispatch. rewrite Hk', Hl. cbn [fold_left].
    simpl. unfold reconnect_message. by rewrite Ht.
  - change (socks w2) with (alter (λ c, {| k_state := k_state c;
      k_listeners := k_listeners c ++ [LPaired]; k_sent := k_sent c |}) k (socks w1)).
    rewrite list_lookup_alter_eq, Hk'. cbn. by rewrite Hl.
  - simpl. set_solver.
Qed.

(** A camera that is refused after its screen was left tears down whatever
    the page is doing by then: the error screen [camera_error] replaces the
    current one and the active socket is closed, from any screen. *)
Theorem camera_refused_after_leaving w i s k c :
  scans w !! i = Some s → sc_state s = Starting → sc_cancelled s = true →
  activeSocket (vars w) = Some k → socks w !! k = Some c → k_state c = Open →
  ∃ w' c', step w (ScanRefused i) = Some w' ∧ cs w' = error_screen (Some (js "camera_error"))
    ∧ activeSocket (vars w') = None ∧ socks w' !! k = Some c' ∧ k_state c' = Closing.
Proof.
  intros Hi Hs Hcan Ha Hk Hc.
  set (w0 := set_scan w i Stopped).
  set (w1 := setState w0 (error_screen (Some (js "camera_error")))).
  destruct (setState_sockets w0 (error_screen (Some (js "camera_error")))) as (Hcs&Hac&_&Hso). fold w1 in Hcs, Hac, Hso.
  destruct (Hso k c Hk) as (c'&Hk'&_&_&Hst).
  rewrite bool_decide_true, Hc in Hst by done. simpl in Hst.
  exists (scan_resolved w1 i), c'.
  assert (same_frame w1 (scan_resolved w1 i)) as (Hf&_&_) by apply scan_resolved_frame.
  rewrite Hf. split_and!; try done.
  - unfold Pairing.step, scan_in. rewrite Hi. simpl. by rewrite Hs.
  - unfold scan_resolved. repeat case_match; done.
  - unfold scan_resolved. repeat case_match; done.
Qed.

Lemma transfer_rendered_handles w sock e r :
  ∃ x, handles (transfer_rendered w sock e r) = handles w ++ [x]
    ∧ h_epoch x = e ∧ h_role x = r ∧ h_detached x = false
    ∧ activeTransferHandle (vars (transfer_rendered w sock e r)) = Some (length (handles w))
    ∧ promises (transfer_rendered w sock e r) = promises w.
Proof.
  unfold transfer_rendered, with_handle. cbv zeta. repeat case_match; simpl; try by eexists.
  rewrite <- (Nat.add_0_r (length (handles w))), alter_app_r. simpl.
  rewrite Nat.add_0_r. by eexists.
Qed.

Lemma step_render w i s e r ex :
  promises w !! i = Some (PRender s e r) →
  step w (PromiseSettles i ex)
  = Some (transfer_rendered (put_promises w (delete_at i (promises w))) s e r).
Proof. intros Hi. unfold Pairing.step. by rewrite Hi. Qed.

(** Two renders of the paired screen in quick succession leave the first
    transfer screen listening: its handle arrives after the second render has
    looked for one to detach, is overwritten by the second's, and nothing
    detaches it any more. *)
Theorem overtaken_screen_keeps_listening w s1 e1 r1 s2 e2 r2 ex :
  promises w = [PRender s1 e1 r1; PRender s2 e2 r2] →
  ∃ w' x y, run step [PromiseSettles 0 ex; PromiseSettles 0 ex] w = Some w'
    ∧ handles w' = handles w ++ [x; y]
    ∧ h_epoch x = e1 ∧ h_role x = r1 ∧ h_detached x = false
    ∧ activeTransferHandle (vars w') = Some (S (length (handles w)))
    ∧ promises w' = [].
Proof.
  intros Hp.
  set (w1 := transfer_rendered (put_promises w [PRender s2 e2 r2]) s1 e1 r1).
  destruct (transfer_rendered_handles (put_promises w [PRender s2 e2 r2]) s1 e1 r1)
    as (x&Hx&He&Hr&Hd&_&Hp1). fold w1 in Hx, Hp1. simpl in Hx, Hp1.
  set (w2 := transfer_rendered (put_promises w1 []) s2 e2 r2).
  destruct (transfer_rendered_handles (put_promises w1 []) s2 e2 r2)
    as (y&Hy&_&_&_&Ha&Hp2). fold w2 in Hy, Ha, Hp2. simpl in Hy, Ha, Hp2.
  exists w2, x, y. split_and!; try done.
  - cbn [run]. rewrite (step_render w 0 s1 e1 r1) by (by rewrite Hp).
    rewrite Hp. cbn [mbind option_bind delete_at take drop app]. fold w1.
    rewrite (step_render w1 0 s2 e2 r2) by (by rewrite Hp1).
    by rewrite Hp1.
  - by rewrite Hy, Hx, <- app_assoc.
  - rewrite Ha, Hx, length_app, Nat.add_comm. done.
Qed.

End Races.
