(* ===== verification/Hub.v ===== *)
(** * The relay: server/internal/session and server/internal/ws

    The hub's sessions, limits and forwarding, and what a connection's handler
    does with its first message, its later ones and its end. A [*Session] is an
    index into the list of all sessions made, so that a handler keeps its
    session after the hub has forgotten it. A handler's call runs as one step
    (HubLocks has it lock by lock); times are nanoseconds. *)

From stdpp Require Import base list list_numbers gmap sets strings.
From Stdlib Require Import ZArith Lia.
From S2P Require Import Prelude JsText Hex Json Utf8 WsClient.
Open Scope Z_scope.

Module Relay.

(** ** session.go *)

Inductive Role := RoleHost | RoleGuest.

#[export] Instance Role_eq : EqDecision Role.
Proof. solve_decision. Defined.

Definition other (r : Role) : Role := match r with RoleHost => RoleGuest | RoleGuest => RoleHost end.

(** A connection, by its number; its IP address is a text. *)
Abbreviation conn := nat (only parsing).

Record peer := {
  p_conn : conn;
  p_ip : jsstr;
  p_disconnectedAt : option Z;      (* [None]: the zero time *)
  p_reconnectToken : bytes          (* empty: not set *)
}.

Definition connected (p : option peer) : bool :=
  match p with Some p => bool_decide (p_disconnectedAt p = None) | None => false end.

Record currentFileState := { cf_fileID : bytes; cf_active : bool; cf_blocked : bool; cf_bytesSoFar : Z }.

Definition no_file : currentFileState :=
  {| cf_fileID := zeros 16; cf_active := false; cf_blocked := false; cf_bytesSoFar := 0 |}.

Record Session := {
  s_ID : jsstr;
  s_lastActivity : Z;
  s_peers : Role → option peer;
  s_currentFile : currentFileState
}.

Definition set_lastActivity (s : Session) (now : Z) : Session :=
  {| s_ID := s_ID s; s_lastActivity := now; s_peers := s_peers s; s_currentFile := s_currentFile s |}.
Definition set_peer (s : Session) (r : Role) (p : peer) : Session :=
  {| s_ID := s_ID s; s_lastActivity := s_lastActivity s;
     s_peers := λ x, if decide (x = r) then Some p else s_peers s x;
     s_currentFile := s_currentFile s |}.
Definition set_currentFile (s : Session) (f : currentFileState) : Session :=
  {| s_ID := s_ID s; s_lastActivity := s_lastActivity s; s_peers := s_peers s; s_currentFile := f |}.

Definition newSession (id : jsstr) (now : Z) : Session :=
  {| s_ID := id; s_lastActivity := now; s_peers := λ _, None; s_currentFile := no_file |}.

(** [None]: false. *)
Definition attach (s : Session) (r : Role) (c : conn) (ip : jsstr) (now : Z) : option Session :=
  if connected (s_peers s r) then None
  else Some (set_lastActivity
               (set_peer s r {| p_conn := c; p_ip := ip; p_disconnectedAt := None;
                                p_reconnectToken := [] |}) now).

Definition connOf (s : Session) (r : Role) : option conn :=
  p ← s_peers s r; if bool_decide (p_disconnectedAt p = None) then Some (p_conn p) else None.

Definition connAndIP (s : Session) (r : Role) : option (conn * jsstr) :=
  p ← s_peers s r;
  if bool_decide (p_disconnectedAt p = None) then Some (p_conn p, p_ip p) else None.

(** The session, the other peer's connection and the role's address. *)
Definition markDisconnected (s : Session) (r : Role) (now : Z) : Session * option conn * jsstr :=
  match s_peers s r with
  | Some p =>
      let s' := set_peer s r {| p_conn := p_conn p; p_ip := p_ip p; p_disconnectedAt := Some now;
                                p_reconnectToken := p_reconnectToken p |} in
      (s', connOf s' (other r), p_ip p)
  | None => (s, connOf s (other r), [])
  end.

Definition setReconnectToken (s : Session) (r : Role) (token : bytes) : Session :=
  match s_peers s r with
  | Some p => set_peer s r {| p_conn := p_conn p; p_ip := p_ip p;
                              p_disconnectedAt := p_disconnectedAt p; p_reconnectToken := token |}
  | None => s
  end.

Definition reattach (s : Session) (r : Role) (token : bytes) (c : conn) (ip : jsstr) (now : Z) :
    option Session :=
  match s_peers s r with
  | None => None
  | Some p =>
      if connected (Some p) then None
      else if bool_decide (p_reconnectToken p = []) || negb (bool_decide (p_reconnectToken p = token))
      then None
      else Some (set_lastActivity
                   (set_peer s r {| p_conn := c; p_ip := ip; p_disconnectedAt := None;
                                    p_reconnectToken := p_reconnectToken p |}) now)
  end.

Definition chunkFrameHeaderLen : nat := 26.
Definition chunkFrameTypeFile : Z := 1.

(** What [recordChunkBytes] reports: the file, and whether to drop the frame or
    to send the abort. *)
Record verdict := { v_fileID : bytes; v_drop : bool; v_sendAbort : bool }.

(** The tracker of the frame's file. *)
Definition track (f : currentFileState) (fileID : bytes) : currentFileState :=
  if negb (cf_active f) || negb (bool_decide (cf_fileID f = fileID))
  then {| cf_fileID := fileID; cf_active := true; cf_blocked := false; cf_bytesSoFar := 0 |}
  else f.

Definition recordChunkBytes (s : Session) (frame : bytes) (maxSize : Z) : Session * verdict :=
  if bool_decide (length frame < chunkFrameHeaderLen)%nat
     || negb (bool_decide (nth 0 frame 0 = chunkFrameTypeFile))
  then (s, {| v_fileID := zeros 16; v_drop := false; v_sendAbort := false |})
  else
    let fileID := slice 2 18 frame in
    let isLast := Z.land (nth 1 frame 0) 1 =? 1 in
    let f := track (s_currentFile s) fileID in
    if cf_blocked f
    then (set_currentFile s f, {| v_fileID := fileID; v_drop := true; v_sendAbort := false |})
    else
      let n := cf_bytesSoFar f + Z.of_nat (length frame) in
      let f := {| cf_fileID := cf_fileID f; cf_active := cf_active f; cf_blocked := cf_blocked f;
                  cf_bytesSoFar := n |} in
      if maxSize <? n
      then (set_currentFile s {| cf_fileID := cf_fileID f; cf_active := cf_active f;
                                 cf_blocked := true; cf_bytesSoFar := n |},
            {| v_fileID := fileID; v_drop := false; v_sendAbort := true |})
      else (set_currentFile s (if isLast then no_file else f),
            {| v_fileID := fileID; v_drop := false; v_sendAbort := false |}).

(** ** hub.go *)

Record Config := {
  MaxFileSize : Z;
  MaxSessionsPerIP : Z;
  SessionInactivityTimeout : Z;
  ReconnectGracePeriod : Z;
  PairingCodeTTL : Z;
  MaxPairingAttempts : Z
}.

Inductive error :=
| ErrTooManySessions | ErrSessionNotFound | ErrSessionFull | ErrInvalidCode
| ErrTooManyAttempts | ErrInvalidReconnectToken | ErrNoCode | ErrInvalidMessage.

Record codeEntry := { ce_session : jsstr; ce_expiresAt : Z }.
Record guessBudget := { gb_count : Z; gb_windowStart : Z }.

Record Hub := {
  store : list Session;              (* every session made *)
  sessions : gmap jsstr nat;         (* the hub's map, to pointers *)
  ipCounts : gmap jsstr Z;
  codes : gmap jsstr codeEntry;
  guesses : gmap jsstr guessBudget
}.

Definition NewHub : Hub :=
  {| store := []; sessions := ∅; ipCounts := ∅; codes := ∅; guesses := ∅ |}.

Definition with_store (h : Hub) v : Hub :=
  {| store := v; sessions := sessions h; ipCounts := ipCounts h; codes := codes h; guesses := guesses h |}.
Definition with_sessions (h : Hub) v : Hub :=
  {| store := store h; sessions := v; ipCounts := ipCounts h; codes := codes h; guesses := guesses h |}.
Definition with_ipCounts (h : Hub) v : Hub :=
  {| store := store h; sessions := sessions h; ipCounts := v; codes := codes h; guesses := guesses h |}.
Definition with_codes (h : Hub) v : Hub :=
  {| store := store h; sessions := sessions h; ipCounts := ipCounts h; codes := v; guesses := guesses h |}.
Definition with_guesses (h : Hub) v : Hub :=
  {| store := store h; sessions := sessions h; ipCounts := ipCounts h; codes := codes h; guesses := v |}.

(** What the hub writes to a connection: an envelope of its own, another
    connection's message as it is, or the close. *)
Inductive message :=
| MSessionCreated (sessionId : jsstr)
| MCodeSessionCreated (code : jsstr) (expiresAt : Z)
| MPaired (sessionId : jsstr)
| MPeerDisconnected | MPeerReconnected | MReconnected
| MSessionEnded (reason : string)
| MFileAbort (fileId : jsstr) (reason : string)
| MError (code message : string)
| MRelayed (d : data).

Inductive out := Send (c : conn) (m : message) | Close (c : conn) (reason : string).

Definition update (h : Hub) (p : nat) (s : Session) : Hub := with_store h (<[p := s]> (store h)).

(** A map's missing count reads as 0. *)
Definition count (h : Hub) (ip : jsstr) : Z := default 0 (ipCounts h !! ip).
Definition incr (h : Hub) (ip : jsstr) : Hub :=
  with_ipCounts h (<[ip := count h ip + 1]> (ipCounts h)).
Definition decr (h : Hub) (ip : jsstr) : Hub :=
  if 0 <? count h ip then with_ipCounts h (<[ip := count h ip - 1]> (ipCounts h)) else h.

Section Hub.
Context (cfg : Config).

(** A call that attaches a connection: its session and role, or an error. *)
Definition begun : Type := Hub * list out * (nat * Role + error).

(** A new session with the host in its slot; its ID is [newSessionID]'s. *)
Definition add_session (h : Hub) (now : Z) (ip : jsstr) (c : conn) (id : jsstr) : Hub :=
  let s := default (newSession id now) (attach (newSession id now) RoleHost c ip now) in
  incr (with_sessions (with_store h (store h ++ [s])) (<[id := length (store h)]> (sessions h))) ip.

Definition CreateSession (h : Hub) (now : Z) (ip : jsstr) (c : conn) (id : jsstr) : begun :=
  if MaxSessionsPerIP cfg <=? count h ip then (h, [], inr ErrTooManySessions)
  else (add_session h now ip c id, [Send c (MSessionCreated id)], inl (length (store h), RoleHost)).

(** [fmt.Sprintf("%06d", n)]. *)
Definition format_code (n : Z) : jsstr := padStart 6 48 (num_to_string 10 n).

(** The random numbers it draws, of which it looks at 20. *)
Definition newUniqueCodeLocked (h : Hub) (draws : list Z) : option jsstr :=
  snd <$> list_find (λ code, codes h !! code = None) (map format_code (take 20 draws)).

Definition CreateCodeSession (h : Hub) (now : Z) (ip : jsstr) (c : conn) (id : jsstr)
    (draws : list Z) : begun :=
  if MaxSessionsPerIP cfg <=? count h ip then (h, [], inr ErrTooManySessions)
  else
    match newUniqueCodeLocked h draws with
    | None => (h, [], inr ErrNoCode)
    | Some code =>
        let expiresAt := now + PairingCodeTTL cfg in
        let h' := add_session h now ip c id in
        (with_codes h' (<[code := {| ce_session := id; ce_expiresAt := expiresAt |}]> (codes h')),
         [Send c (MCodeSessionCreated code expiresAt)], inl (length (store h), RoleHost))
    end.

Definition attachGuest (h : Hub) (now : Z) (p : nat) (ip : jsstr) (c : conn) : begun :=
  match store h !! p with
  | None => (h, [], inr ErrSessionNotFound)
  | Some s =>
      match connOf s RoleHost with
      | None => (h, [], inr ErrSessionNotFound)
      | Some hostConn =>
          match attach s RoleGuest c ip now with
          | None => (h, [], inr ErrSessionFull)
          | Some s' =>
              (incr (update h p s') ip,
               [Send hostConn (MPaired (s_ID s)); Send c (MPaired (s_ID s))], inl (p, RoleGuest))
          end
      end
  end.

Definition JoinSession (h : Hub) (now : Z) (id ip : jsstr) (c : conn) : begun :=
  match sessions h !! id with
  | None => (h, [], inr ErrSessionNotFound)
  | Some p =>
      if MaxSessionsPerIP cfg <=? count h ip then (h, [], inr ErrTooManySessions)
      else attachGuest h now p ip c
  end.

(** The budget of the address's window, a new one if the last is over. *)
Definition current_budget (h : Hub) (ip : jsstr) (now : Z) : guessBudget :=
  match guesses h !! ip with
  | Some b => if PairingCodeTTL cfg <=? now - gb_windowStart b
              then {| gb_count := 0; gb_windowStart := now |} else b
  | None => {| gb_count := 0; gb_windowStart := now |}
  end.

Definition checkAndRecordGuessLocked (h : Hub) (ip : jsstr) (now : Z) : Hub * bool :=
  let b := current_budget h ip now in
  if MaxPairingAttempts cfg <=? gb_count b
  then (with_guesses h (<[ip := b]> (guesses h)), false)
  else (with_guesses h (<[ip := {| gb_count := gb_count b + 1;
                                   gb_windowStart := gb_windowStart b |}]> (guesses h)), true).

Definition JoinByCode (h : Hub) (now : Z) (code ip : jsstr) (c : conn) : begun :=
  let '(h, ok) := checkAndRecordGuessLocked h ip now in
  if negb ok then (h, [], inr ErrTooManyAttempts)
  else
    match codes h !! code with
    | None => (with_codes h (delete code (codes h)), [], inr ErrInvalidCode)
    | Some entry =>
        let h := with_codes h (delete code (codes h)) in
        if ce_expiresAt entry <? now then (h, [], inr ErrInvalidCode)
        else if MaxSessionsPerIP cfg <=? count h ip then (h, [], inr ErrTooManySessions)
        else match sessions h !! ce_session entry with
             | None => (h, [], inr ErrSessionNotFound)
             | Some p => attachGuest h now p ip c
             end
    end.

Definition RegisterReconnectToken (h : Hub) (p : nat) (r : Role) (token : bytes) : Hub :=
  match store h !! p with Some s => update h p (setReconnectToken s r token) | None => h end.

Definition notify (c : option conn) (m : message) : list out :=
  match c with Some c => [Send c m] | None => [] end.

Definition Reconnect (h : Hub) (now : Z) (id : jsstr) (r : Role) (token : bytes) (ip : jsstr)
    (c : conn) : begun :=
  match sessions h !! id ≫= λ p, (p,.) <$> store h !! p with
  | None => (h, [], inr ErrInvalidReconnectToken)
  | Some (p, s) =>
      if MaxSessionsPerIP cfg <=? count h ip then (h, [], inr ErrTooManySessions)
      else match reattach s r token c ip now with
           | None => (h, [], inr ErrInvalidReconnectToken)
           | Some s' =>
               (incr (update h p s') ip,
                notify (connOf s' (other r)) MPeerReconnected ++ [Send c MReconnected], inl (p, r))
           end
  end.

Definition abortOversizedFile (s : Session) (fileID : bytes) : list out :=
  let m := MFileAbort (toHex fileID) "size_limit_exceeded" in
  notify (connOf s RoleHost) m ++ notify (connOf s RoleGuest) m.

(** The deferred abort comes after the frame. *)
Definition Relay (h : Hub) (now : Z) (p : nat) (r : Role) (d : data) : Hub * list out :=
  match store h !! p with
  | None => (h, [])
  | Some s =>
      let s := set_lastActivity s now in
      match d with
      | DBinary frame =>
          let '(s', v) := recordChunkBytes s frame (MaxFileSize cfg) in
          (update h p s',
           if v_drop v then []
           else notify (connOf s' (other r)) (MRelayed d)
                ++ (if v_sendAbort v then abortOversizedFile s' (v_fileID v) else []))
      | DText _ => (update h p s, notify (connOf s (other r)) (MRelayed d))
      end
  end.

Definition removeByID (h : Hub) (id : jsstr) : Hub := with_sessions h (delete id (sessions h)).

Definition closeAndRelease (h : Hub) (c : conn) (ip : jsstr) (reason : string) : Hub * list out :=
  (decr h ip, [Close c reason]).

(** One connected peer of a session that ends. *)
Definition end_peer (h : Hub) (p : option (conn * jsstr)) (reason : string) : Hub * list out :=
  match p with
  | Some (c, ip) =>
      let '(h, o) := closeAndRelease h c ip reason in (h, Send c (MSessionEnded reason) :: o)
  | None => (h, [])
  end.

Definition EndSession (h : Hub) (p : nat) (byRole : Role) : Hub * list out :=
  match store h !! p with
  | None => (h, [])
  | Some s =>
      let '(h, o) := end_peer h (connAndIP s (other byRole)) "ended_by_peer" in
      (removeByID h (s_ID s), o)
  end.

Definition HandleDisconnect (h : Hub) (now : Z) (p : nat) (r : Role) : Hub * list out :=
  match store h !! p with
  | None => (h, [])
  | Some s =>
      let '(s', otherConn, ip) := markDisconnected s r now in
      (decr (update h p s') ip, notify otherConn MPeerDisconnected)
  end.

Definition graceExpired (now : Z) (p : option peer) : bool :=
  match p ≫= p_disconnectedAt with
  | Some since => ReconnectGracePeriod cfg <=? now - since
  | None => false
  end.

Definition notifyAndClose (h : Hub) (s : Session) (reason : string) : Hub * list out :=
  let '(h1, o1) := end_peer h (connAndIP s RoleHost) reason in
  let '(h2, o2) := end_peer h1 (connAndIP s RoleGuest) reason in
  (removeByID h2 (s_ID s), o1 ++ o2).

Definition reapSession (h : Hub) (now : Z) (s : Session) : Hub * list out :=
  if SessionInactivityTimeout cfg <=? now - s_lastActivity s
  then notifyAndClose h s "inactivity_timeout"
  else if graceExpired now (s_peers s RoleHost) || graceExpired now (s_peers s RoleGuest)
  then notifyAndClose h s "peer_timeout"
  else (h, []).

Definition ReapOnce (h : Hub) (now : Z) : Hub * list out :=
  let ids := (map_to_list (sessions h)).*1 in
  let h := with_codes h (filter (λ x, ce_expiresAt x.2 < now → False) (codes h)) in
  let h := with_guesses h (filter (λ x, now - gb_windowStart x.2 < PairingCodeTTL cfg) (guesses h)) in
  fold_left (λ acc id,
    let '(h, o) := acc : Hub * list out in
    match sessions h !! id ≫= λ p, store h !! p with
    | Some s => let '(h', o') := reapSession h now s in (h', o ++ o')
    | None => (h, o)
    end) ids (h, []).

End Hub.
(** ** handler.go

    The messages of a connection, as [json.Unmarshal] reads them. (It also takes
    a field name in another case, which the client never writes.) *)

(** A text field of a payload: missing or [null], the empty text; of another
    type, an error. *)
Definition field (k : string) (payload : option json) : option jsstr :=
  match payload with
  | Some JNull => Some []
  | Some (JObj m) =>
      match jget k (JObj m) with
      | None | Some JNull => Some []
      | Some (JStr s) => Some s
      | Some _ => None
      end
  | _ => None
  end.

(** [hex.DecodeString]. *)
Definition is_hex (c : Z) : bool :=
  (48 <=? c) && (c <=? 57) || (97 <=? c) && (c <=? 102) || (65 <=? c) && (c <=? 70).
Definition hex_decode (s : jsstr) : option bytes :=
  if Nat.even (length s) && forallb is_hex s then Some (fromHex s) else None.

Definition parseRole (wire : jsstr) : option Role :=
  if bool_decide (wire = js "host") then Some RoleHost
  else if bool_decide (wire = js "guest") then Some RoleGuest
  else None.

Inductive opening :=
| OCreateSession | OJoin (id : jsstr) | OCreateCodeSession | OJoinByCode (code : jsstr)
| OReconnect (id : jsstr) (r : Role) (token : bytes).

(** [None]: not a message a connection may start with. *)
Definition opening_of (d : data) : option opening :=
  env ← parseEnvelope d;
  let payload := jget "payload" env in
  if has_type env "create_session" then Some OCreateSession
  else if has_type env "join" then OJoin <$> field "sessionId" payload
  else if has_type env "create_code_session" then Some OCreateCodeSession
  else if has_type env "join_by_code" then OJoinByCode <$> field "code" payload
  else if has_type env "reconnect" then
    id ← field "sessionId" payload;
    r ← field "role" payload ≫= parseRole;
    token ← field "tokenHex" payload ≫= hex_decode;
    Some (OReconnect id r token)
  else None.

(** A later message of a connection. *)
Inductive input := IEndSession | IReconnectToken (token : option bytes) | IRelay.

Definition input_of (d : data) : input :=
  match parseEnvelope d with
  | Some env =>
      if has_type env "end_session" then IEndSession
      else if has_type env "reconnect_token"
      then IReconnectToken (field "tokenHex" (jget "payload" env) ≫= hex_decode)
      else IRelay
  | None => IRelay
  end.

Definition errCode (e : error) : string :=
  match e with
  | ErrTooManySessions => "too_many_sessions"
  | ErrSessionNotFound => "session_not_found"
  | ErrSessionFull => "session_full"
  | ErrInvalidCode => "invalid_code"
  | ErrTooManyAttempts => "too_many_attempts"
  | ErrInvalidReconnectToken => "invalid_reconnect_token"
  | ErrNoCode | ErrInvalidMessage => "invalid_message"
  end.

(** Whether [json.Unmarshal] makes an [Envelope] of a value: an object whose
    type, if it has one, is a string or null; or null, which leaves it empty. *)
Definition is_envelope (v : json) : bool :=
  match v with
  | JNull => true
  | JObj kvs =>
      match assoc (js "type") kvs with None | Some JNull | Some (JStr _) => true | _ => false end
  | _ => false
  end.

(** [err.Error()]; what is wrong with a first message depends on it. *)
Definition errText (e : error) (d : data) : string :=
  match e with
  | ErrTooManySessions => "too many concurrent sessions for this client"
  | ErrSessionNotFound => "session not found"
  | ErrSessionFull => "session already has two peers"
  | ErrInvalidCode => "invalid or expired pairing code"
  | ErrTooManyAttempts => "too many wrong pairing code attempts"
  | ErrInvalidReconnectToken => "invalid reconnect token, or nothing to reconnect to"
  | ErrNoCode => "generate pairing code: could not find an unused pairing code"
  | ErrInvalidMessage =>
      match d with
      | DBinary _ => "first message must be text"
      | DText t =>
          if from_option is_envelope false (parse t)
          then "first message must be create_session, join, create_code_session, join_by_code, or reconnect"
          else "malformed json"
      end
  end.

(** The hub, the connections whose loop runs, and those there have been. *)
Record server := { hub : Hub; loops : gmap conn (nat * Role); seen : gset conn }.

Definition new_server : server := {| hub := NewHub; loops := ∅; seen := ∅ |}.

(** What the random numbers are for a connection that opens a session. *)
Record entropy := { e_id : jsstr; e_draws : list Z }.

Section Server.
Context (cfg : Config).

Definition beginSession (h : Hub) (now : Z) (o : option opening) (ip : jsstr) (c : conn)
    (en : entropy) : begun :=
  match o with
  | Some OCreateSession => CreateSession cfg h now ip c (e_id en)
  | Some (OJoin id) => JoinSession cfg h now id ip c
  | Some OCreateCodeSession => CreateCodeSession cfg h now ip c (e_id en) (e_draws en)
  | Some (OJoinByCode code) => JoinByCode cfg h now code ip c
  | Some (OReconnect id r token) => Reconnect cfg h now id r token ip c
  | None => (h, [], inr ErrInvalidMessage)
  end.

(** The parts of [ServeHTTP]: the first message; a later one; the end of the
    connection, which the loop learns from a failing read. *)
Definition serve_first (sv : server) (now : Z) (ip : jsstr) (c : conn) (en : entropy) (d : data) :
    server * list out :=
  let '(h, o, r) := beginSession (hub sv) now (opening_of d) ip c en in
  match r with
  | inl x => ({| hub := h; loops := <[c := x]> (loops sv); seen := {[c]} ∪ seen sv |}, o)
  | inr e => ({| hub := h; loops := loops sv; seen := {[c]} ∪ seen sv |},
              o ++ [Send c (MError (errCode e) (errText e d)); Close c "connection closed"])
  end.

Definition serve_message (sv : server) (now : Z) (c : conn) (p : nat) (r : Role) (d : data) :
    server * list out :=
  match input_of d with
  | IEndSession =>
      let '(h, o) := EndSession (hub sv) p r in
      ({| hub := h; loops := delete c (loops sv); seen := seen sv |}, o ++ [Close c "connection closed"])
  | IReconnectToken (Some token) =>
      ({| hub := RegisterReconnectToken (hub sv) p r token; loops := loops sv; seen := seen sv |}, [])
  | IReconnectToken None => (sv, [])
  | IRelay =>
      let '(h, o) := Relay cfg (hub sv) now p r d in
      ({| hub := h; loops := loops sv; seen := seen sv |}, o)
  end.

Definition serve_gone (sv : server) (now : Z) (c : conn) (p : nat) (r : Role) : server * list out :=
  let '(h, o) := HandleDisconnect (hub sv) now p r in
  ({| hub := h; loops := delete c (loops sv); seen := seen sv |}, o ++ [Close c "connection closed"]).

(** The read limit: a larger message makes the read fail. *)
Definition maxMessageSize : Z := 2 ^ 20.

Definition message_size (d : data) : Z :=
  Z.of_nat (length (match d with DText t => utf8_encode t | DBinary b => b end)).

Definition too_large (d : data) : bool := maxMessageSize <? message_size d.

Definition refuse_first (sv : server) (c : conn) : server * list out :=
  ({| hub := hub sv; loops := loops sv; seen := {[c]} ∪ seen sv |}, [Close c "connection closed"]).

Inductive event :=
| First (now : Z) (ip : jsstr) (c : conn) (en : entropy) (d : data)
| Later (now : Z) (c : conn) (d : data)
| Gone (now : Z) (c : conn)
| Reap (now : Z).

(** [None]: the event cannot happen. *)
Definition step (sv : server) (e : event) : option (server * list out) :=
  match e with
  | First now ip c en d =>
      if bool_decide (c ∈ seen sv) then None
      else Some (if too_large d then refuse_first sv c else serve_first sv now ip c en d)
  | Later now c d =>
      '(p, r) ← loops sv !! c;
      Some (if too_large d then serve_gone sv now c p r else serve_message sv now c p r d)
  | Gone now c => '(p, r) ← loops sv !! c; Some (serve_gone sv now c p r)
  | Reap now =>
      let '(h, o) := ReapOnce cfg (hub sv) now in
      Some ({| hub := h; loops := loops sv; seen := seen sv |}, o)
  end.

(** A run keeps all that was written. *)
Definition log_step (x : server * list out) (e : event) : option (server * list out) :=
  '(sv, o) ← step x.1 e; Some (sv, x.2 ++ o).

End Server.
End Relay.
