(* ===== verification/HubLocks.v ===== *)
(** * The hub's locks

    Calls of the hub that run at the same time. Each call is the list of what it
    does to the hub's memory and connections, one critical section or one write
    at a time, as the [Lock] and [Unlock] of hub.go and session.go cut it; a busy
    hub runs the sections of its calls in any order. A call that nothing
    interrupts does what Hub says it does in one step. *)

From stdpp Require Import base list list_numbers gmap sets strings.
From Stdlib Require Import ZArith Lia.
From S2P Require Import Prelude JsText Hex Json WsClient Hub.
Open Scope Z_scope.

Module Locks.
Import Relay.

(** What a call of [beginSession] returns; [None], nothing. *)
Abbreviation returned := (option (nat * Role + error)) (only parsing).

(** The rest of a call: its next critical section, or a write to a connection,
    for which it holds no lock. A section is given the time that the call last
    read. *)
Inductive call :=
| Return (r : returned)
| Write (o : out) (k : call)
| Critical (f : Z → Hub → Hub) (k : Z → Hub → call).

Definition locked (body : Z → Hub → Hub * call) : call :=
  Critical (λ now h, (body now h).1) (λ now h, (body now h).2).

Fixpoint writes (os : list out) (k : call) : call :=
  match os with [] => k | o :: os => Write o (writes os k) end.

(** *** hub.go, lock by lock *)

Section Hub.
Context (cfg : Config).

Definition full (h : Hub) (ip : jsstr) : bool := MaxSessionsPerIP cfg <=? count h ip.

Definition CreateSession (ip : jsstr) (c : conn) (id : jsstr) : call :=
  locked (λ now h,
    if full h ip then (h, Return (Some (inr ErrTooManySessions)))
    else (add_session h now ip c id,
          Write (Send c (MSessionCreated id)) (Return (Some (inl (length (store h), RoleHost)))))).

Definition CreateCodeSession (ip : jsstr) (c : conn) (id : jsstr) (draws : list Z) : call :=
  locked (λ now h,
    if full h ip then (h, Return (Some (inr ErrTooManySessions)))
    else match newUniqueCodeLocked h draws with
         | None => (h, Return (Some (inr ErrNoCode)))
         | Some code =>
             let expiresAt := now + PairingCodeTTL cfg in
             let h' := add_session h now ip c id in
             (with_codes h' (<[code := {| ce_session := id; ce_expiresAt := expiresAt |}]> (codes h')),
              Write (Send c (MCodeSessionCreated code expiresAt))
                (Return (Some (inl (length (store h), RoleHost)))))
         end).

(** [connOf], [attach] and the count are three sections; the session's ID never
    changes. *)
Definition attachGuest (p : nat) (ip : jsstr) (c : conn) : call :=
  locked (λ _ h,
    match store h !! p ≫= λ s, connOf s RoleHost with
    | None => (h, Return (Some (inr ErrSessionNotFound)))
    | Some hostConn =>
        (h, locked (λ now h,
              match store h !! p ≫= λ s, (s_ID s,.) <$> attach s RoleGuest c ip now with
              | None => (h, Return (Some (inr ErrSessionFull)))
              | Some (id, s') =>
                  (update h p s',
                   locked (λ _ h,
                     (incr h ip,
                      writes [Send hostConn (MPaired id); Send c (MPaired id)]
                        (Return (Some (inl (p, RoleGuest)))))))
              end))
    end).

Definition JoinSession (id ip : jsstr) (c : conn) : call :=
  locked (λ _ h,
    match sessions h !! id with
    | None => (h, Return (Some (inr ErrSessionNotFound)))
    | Some p => if full h ip then (h, Return (Some (inr ErrTooManySessions)))
                else (h, attachGuest p ip c)
    end).

Definition JoinByCode (code ip : jsstr) (c : conn) : call :=
  locked (λ now h,
    let '(h, ok) := checkAndRecordGuessLocked cfg h ip now in
    if negb ok then (h, Return (Some (inr ErrTooManyAttempts)))
    else
      match codes h !! code with
      | None => (with_codes h (delete code (codes h)), Return (Some (inr ErrInvalidCode)))
      | Some entry =>
          let h := with_codes h (delete code (codes h)) in
          if ce_expiresAt entry <? now then (h, Return (Some (inr ErrInvalidCode)))
          else if full h ip then (h, Return (Some (inr ErrTooManySessions)))
          else match sessions h !! ce_session entry with
               | None => (h, Return (Some (inr ErrSessionNotFound)))
               | Some p => (h, attachGuest p ip c)
               end
      end).

(** [reattach], the count and [connOf] of the other side. *)
Definition resume (p : nat) (r : Role) (token : bytes) (ip : jsstr) (c : conn) : call :=
  locked (λ now h,
    match store h !! p ≫= λ s, reattach s r token c ip now with
    | None => (h, Return (Some (inr ErrInvalidReconnectToken)))
    | Some s' =>
        (update h p s',
         locked (λ _ h,
           (incr h ip,
            locked (λ _ h,
              (h, writes (notify (store h !! p ≫= λ s, connOf s (other r)) MPeerReconnected
                          ++ [Send c MReconnected])
                    (Return (Some (inl (p, r)))))))))
    end).

Definition Reconnect (id : jsstr) (r : Role) (token : bytes) (ip : jsstr) (c : conn) : call :=
  locked (λ _ h,
    match sessions h !! id ≫= λ p, (λ _, p) <$> store h !! p with
    | None => (h, Return (Some (inr ErrInvalidReconnectToken)))
    | Some p => if full h ip then (h, Return (Some (inr ErrTooManySessions)))
                else (h, resume p r token ip c)
    end).

Definition RegisterReconnectToken (p : nat) (r : Role) (token : bytes) : call :=
  locked (λ _ h, (Relay.RegisterReconnectToken h p r token, Return None)).

(** [connOf] of the host, then of the guest. *)
Definition abortOversizedFile (p : nat) (fileID : bytes) : call :=
  let m := MFileAbort (toHex fileID) "size_limit_exceeded" in
  let tell r k := locked (λ _ h, (h, writes (notify (store h !! p ≫= λ s, connOf s r) m) k)) in
  tell RoleHost (tell RoleGuest (Return None)).

(** [touch], [recordChunkBytes] and [connOf]; the deferred abort comes last. *)
Definition Relay (p : nat) (r : Role) (d : data) : call :=
  let forward k :=
    locked (λ _ h, (h, writes (notify (store h !! p ≫= λ s, connOf s (other r)) (MRelayed d)) k)) in
  locked (λ now h,
    (match store h !! p with Some s => update h p (set_lastActivity s now) | None => h end,
     match d with
     | DBinary frame =>
         locked (λ _ h,
           match store h !! p with
           | None => (h, Return None)
           | Some s =>
               let '(s', v) := recordChunkBytes s frame (MaxFileSize cfg) in
               (update h p s',
                if v_drop v then Return None
                else forward (if v_sendAbort v then abortOversizedFile p (v_fileID v) else Return None))
           end)
     | DText _ => forward (Return None)
     end)).

Definition removeByID (id : jsstr) (k : call) : call :=
  locked (λ _ h, (Relay.removeByID h id, k)).

(** [session_ended], then [closeAndRelease]. *)
Definition end_peer (x : option (conn * jsstr)) (reason : string) (k : call) : call :=
  match x with
  | Some (c, ip) =>
      writes [Send c (MSessionEnded reason); Close c reason] (locked (λ _ h, (decr h ip, k)))
  | None => k
  end.

Definition EndSession (p : nat) (byRole : Role) : call :=
  locked (λ _ h,
    (h, match store h !! p with
        | None => Return None
        | Some s => end_peer (connAndIP s (other byRole)) "ended_by_peer" (removeByID (s_ID s) (Return None))
        end)).

Definition HandleDisconnect (p : nat) (r : Role) : call :=
  locked (λ now h,
    match store h !! p with
    | None => (h, Return None)
    | Some s =>
        let '(s', otherConn, ip) := markDisconnected s r now in
        (update h p s',
         locked (λ _ h, (decr h ip, writes (notify otherConn MPeerDisconnected) (Return None))))
    end).

(** [s] is what [snapshot] copies. *)
Definition reapSession (now : Z) (s : Session) (k : call) : call :=
  let notifyAndClose reason :=
    end_peer (connAndIP s RoleHost) reason
      (end_peer (connAndIP s RoleGuest) reason (removeByID (s_ID s) k)) in
  if SessionInactivityTimeout cfg <=? now - s_lastActivity s then notifyAndClose "inactivity_timeout"
  else if graceExpired cfg now (s_peers s RoleHost) || graceExpired cfg now (s_peers s RoleGuest)
  then notifyAndClose "peer_timeout"
  else k.

Fixpoint reap_each (now : Z) (ids : list jsstr) : call :=
  match ids with
  | [] => Return None
  | id :: ids =>
      locked (λ _ h,
        (h, match sessions h !! id with
            | None => reap_each now ids
            | Some p =>
                locked (λ _ h,
                  (h, match store h !! p with
                      | None => reap_each now ids
                      | Some s => reapSession now s (reap_each now ids)
                      end))
            end))
  end.

Definition ReapOnce : call :=
  locked (λ now h,
    let h' := with_codes h (filter (λ x, ce_expiresAt x.2 < now → False) (codes h)) in
    (with_guesses h' (filter (λ x, now - gb_windowStart x.2 < PairingCodeTTL cfg) (guesses h')),
     reap_each now (map_to_list (sessions h)).*1)).

End Hub.
(** *** The calls *)

Inductive request :=
| QCreateSession (ip : jsstr) (c : conn) (id : jsstr)
| QCreateCodeSession (ip : jsstr) (c : conn) (id : jsstr) (draws : list Z)
| QJoinSession (id ip : jsstr) (c : conn)
| QJoinByCode (code ip : jsstr) (c : conn)
| QReconnect (id : jsstr) (r : Role) (token : bytes) (ip : jsstr) (c : conn)
| QRegisterReconnectToken (p : nat) (r : Role) (token : bytes)
| QRelay (p : nat) (r : Role) (d : data)
| QEndSession (p : nat) (byRole : Role)
| QHandleDisconnect (p : nat) (r : Role)
| QReapOnce.

(** The address and the connection of a call of [beginSession]. *)
Definition opener (q : request) : option (jsstr * conn) :=
  match q with
  | QCreateSession ip c _ | QCreateCodeSession ip c _ _ | QJoinSession _ ip c
  | QJoinByCode _ ip c | QReconnect _ _ _ ip c => Some (ip, c)
  | _ => None
  end.

Section Calls.
Context (cfg : Config).

Definition call_of (q : request) : call :=
  match q with
  | QCreateSession ip c id => CreateSession cfg ip c id
  | QCreateCodeSession ip c id draws => CreateCodeSession cfg ip c id draws
  | QJoinSession id ip c => JoinSession cfg id ip c
  | QJoinByCode code ip c => JoinByCode cfg code ip c
  | QReconnect id r token ip c => Reconnect cfg id r token ip c
  | QRegisterReconnectToken p r token => RegisterReconnectToken p r token
  | QRelay p r d => Relay cfg p r d
  | QEndSession p byRole => EndSession p byRole
  | QHandleDisconnect p r => HandleDisconnect p r
  | QReapOnce => ReapOnce cfg
  end.

(** The same call in one step, as Hub has it. *)
Definition at_once (q : request) (now : Z) (h : Hub) : Hub * list out * returned :=
  let opened (x : begun) : Hub * list out * returned := (x.1, Some x.2) in
  let quiet (x : Hub * list out) : Hub * list out * returned := (x, None) in
  match q with
  | QCreateSession ip c id => opened (Relay.CreateSession cfg h now ip c id)
  | QCreateCodeSession ip c id draws => opened (Relay.CreateCodeSession cfg h now ip c id draws)
  | QJoinSession id ip c => opened (Relay.JoinSession cfg h now id ip c)
  | QJoinByCode code ip c => opened (Relay.JoinByCode cfg h now code ip c)
  | QReconnect id r token ip c => opened (Relay.Reconnect cfg h now id r token ip c)
  | QRegisterReconnectToken p r token => quiet (Relay.RegisterReconnectToken h p r token, [])
  | QRelay p r d => quiet (Relay.Relay cfg h now p r d)
  | QEndSession p byRole => quiet (Relay.EndSession h p byRole)
  | QHandleDisconnect p r => quiet (Relay.HandleDisconnect h now p r)
  | QReapOnce => quiet (Relay.ReapOnce cfg h now)
  end.

(** A call that runs to its end at one time, with nothing between its sections. *)
Fixpoint alone (now : Z) (m : call) (h : Hub) : Hub * list out * returned :=
  match m with
  | Return r => (h, [], r)
  | Write o k => let '(h, os, r) := alone now k h in (h, o :: os, r)
  | Critical f k => alone now (k now h) (f now h)
  end.

(** A hub with its calls, what is left of each, and what was written. *)
Record busy := { b_hub : Hub; b_calls : list (request * call); b_log : list out }.

Inductive busy_event :=
| Calls (q : request)        (* a handler calls the hub *)
| Runs (i : nat) (now : Z).  (* the next section or write of a call *)

Definition busy_step (b : busy) (e : busy_event) : option busy :=
  match e with
  | Calls q =>
      Some {| b_hub := b_hub b; b_calls := b_calls b ++ [(q, call_of q)]; b_log := b_log b |}
  | Runs i now =>
      '(q, m) ← b_calls b !! i;
      match m with
      | Return _ => None
      | Write o k =>
          Some {| b_hub := b_hub b; b_calls := <[i := (q, k)]> (b_calls b); b_log := b_log b ++ [o] |}
      | Critical f k =>
          Some {| b_hub := f now (b_hub b); b_calls := <[i := (q, k now (b_hub b))]> (b_calls b);
                  b_log := b_log b |}
      end
  end.

(** ** A call alone is one step of Hub *)

Lemma alone_writes now os k h :
  alone now (writes os k) h = let '(h', os', r) := alone now k h in (h', os ++ os', r).
Proof.
  induction os as [|o os IH]; cbn [writes alone].
  - by destruct (alone now k h) as [[h' os'] r].
  - rewrite IH. by destruct (alone now k h) as [[h' os'] r].
Qed.

Lemma updated h p s s' : store h !! p = Some s → store (update h p s') !! p = Some s'.
Proof. intros Hs. simpl. apply list_lookup_insert_eq. by eapply lookup_lt_Some. Qed.

Lemma updated_twice h p s1 s2 : update (update h p s1) p s2 = update h p s2.
Proof. unfold update, with_store. simpl. by rewrite list_insert_insert_eq. Qed.

Lemma incr_store h ip : store (incr h ip) = store h.
Proof. done. Qed.

Lemma attachGuest_alone now p ip c h :
  alone now (attachGuest p ip c) h
  = ((Relay.attachGuest h now p ip c).1, Some (Relay.attachGuest h now p ip c).2).
Proof.
  unfold attachGuest, Relay.attachGuest. cbn [locked alone].
  destruct (store h !! p) as [s|] eqn:Hs; [|done]. cbn [mbind option_bind].
  destruct (connOf s RoleHost); [|done]. cbn [fst snd locked alone]. rewrite Hs. cbn [mbind option_bind].
  by destruct (attach s RoleGuest c ip now).
Qed.

Lemma JoinByCode_alone now code ip c h :
  alone now (JoinByCode cfg code ip c) h
  = ((Relay.JoinByCode cfg h now code ip c).1, Some (Relay.JoinByCode cfg h now code ip c).2).
Proof.
  unfold JoinByCode, Relay.JoinByCode. cbn [locked alone].
  destruct (checkAndRecordGuessLocked cfg h ip now) as [h1 ok]. destruct ok; [|done]. cbn [negb].
  destruct (codes h1 !! code) as [entry|]; [|done]. case_match; [done|].
  unfold full. case_match; [done|]. case_match; [|done]. cbn [fst snd]. by rewrite attachGuest_alone.
Qed.

Lemma resume_alone now p r token ip c h s :
  store h !! p = Some s →
  alone now (resume p r token ip c) h
  = match reattach s r token c ip now with
    | None => (h, [], Some (inr ErrInvalidReconnectToken))
    | Some s' => (incr (update h p s') ip,
                  notify (connOf s' (other r)) MPeerReconnected ++ [Send c MReconnected], Some (inl (p, r)))
    end.
Proof.
  intros Hs. unfold resume. cbn [locked alone]. rewrite Hs. cbn [mbind option_bind].
  destruct (reattach s r token c ip now) as [s'|]; [|done].
  cbn [fst snd locked alone]. rewrite incr_store, (updated _ _ _ s' Hs). cbn [mbind option_bind].
  rewrite alone_writes. cbn [alone]. by rewrite app_nil_r.
Qed.

Lemma Reconnect_alone now id r token ip c h :
  alone now (Reconnect cfg id r token ip c) h
  = ((Relay.Reconnect cfg h now id r token ip c).1, Some (Relay.Reconnect cfg h now id r token ip c).2).
Proof.
  unfold Reconnect, Relay.Reconnect. cbn [locked alone].
  destruct (sessions h !! id) as [p|]; [|done]. cbn [mbind option_bind].
  destruct (store h !! p) as [s|] eqn:Hs; [|done]. cbn [fmap option_fmap option_map].
  unfold full. case_match; [done|]. cbn [fst snd]. rewrite (resume_alone _ _ _ _ _ _ _ _ Hs).
  by destruct (reattach s r token c ip now).
Qed.

Lemma abort_alone now p fileID h s :
  store h !! p = Some s →
  alone now (abortOversizedFile p fileID) h = (h, Relay.abortOversizedFile s fileID, None).
Proof.
  intros Hs. unfold abortOversizedFile. cbn [locked alone fst snd].
  rewrite Hs. cbn [mbind option_bind]. rewrite alone_writes. cbn [locked alone fst snd].
  rewrite Hs. cbn [mbind option_bind]. rewrite alone_writes. cbn [alone]. by rewrite app_nil_r.
Qed.

Lemma Relay_alone now p r d h :
  alone now (Relay cfg p r d) h = (Relay.Relay cfg h now p r d, None).
Proof.
  unfold Relay, Relay.Relay. cbn [locked alone fst snd].
  destruct (store h !! p) as [s|] eqn:Hs.
  - set (s1 := set_lastActivity s now). pose proof (updated _ _ _ s1 Hs) as H1.
    destruct d as [t|frame]; cbn [locked alone fst snd]; rewrite H1; cbn [mbind option_bind].
    + rewrite alone_writes. cbn [alone]. by rewrite app_nil_r.
    + destruct (recordChunkBytes s1 frame (MaxFileSize cfg)) as [s' v]. cbn [fst snd].
      rewrite updated_twice. pose proof (updated _ _ _ s' Hs) as H2.
      destruct (v_drop v); [done|]. cbn [locked alone fst snd]. rewrite H2. cbn [mbind option_bind].
      rewrite alone_writes. destruct (v_sendAbort v); [|done]. by rewrite (abort_alone _ _ _ _ _ H2).
  - destruct d; cbn [locked alone fst snd]; by rewrite Hs.
Qed.

Lemma end_peer_alone now x reason k h :
  alone now (end_peer x reason k) h
  = let '(h1, o1) := Relay.end_peer h x reason in
    let '(h2, o2, r) := alone now k h1 in (h2, o1 ++ o2, r).
Proof.
  destruct x as [[c ip]|]; cbn; by destruct (alone _ _ _) as [[]].
Qed.

(** [notifyAndClose], with what the call does after it. *)
Lemma notify_alone now s reason k h :
  alone now (end_peer (connAndIP s RoleHost) reason
               (end_peer (connAndIP s RoleGuest) reason (removeByID (s_ID s) k))) h
  = let '(h1, o1) := notifyAndClose h s reason in
    let '(h2, o2, r) := alone now k h1 in (h2, o1 ++ o2, r).
Proof.
  unfold notifyAndClose. rewrite end_peer_alone.
  destruct (Relay.end_peer h _ reason) as [h1 o1]. rewrite end_peer_alone.
  destruct (Relay.end_peer h1 _ reason) as [h2 o2]. cbn [removeByID locked alone fst snd].
  destruct (alone now k _) as [[h3 o3] r]. by rewrite app_assoc.
Qed.

Lemma reapSession_alone now s k h :
  alone now (reapSession cfg now s k) h
  = let '(h1, o1) := Relay.reapSession cfg h now s in
    let '(h2, o2, r) := alone now k h1 in (h2, o1 ++ o2, r).
Proof.
  unfold reapSession, Relay.reapSession.
  case_match; [apply notify_alone|]. case_match; [apply notify_alone|].
  by destruct (alone now k h) as [[]].
Qed.

Abbreviation reap_fold now :=
  (fold_left (λ acc id,
    let '(h, o) := acc : Hub * list out in
    match sessions h !! id ≫= λ p, store h !! p with
    | Some s => let '(h', o') := Relay.reapSession cfg h now s in (h', o ++ o')
    | None => (h, o)
    end)).

Lemma reap_each_alone now ids h o :
  reap_fold now ids (h, o)
  = let '(h', o', _) := alone now (reap_each cfg now ids) h in (h', o ++ o').
Proof.
  revert h o. induction ids as [|id ids IH]; intros h o; cbn [fold_left reap_each].
  { cbn [alone]. by rewrite app_nil_r. }
  cbn [locked alone fst snd]. destruct (sessions h !! id) as [p|]; [|apply IH].
  cbn [mbind option_bind locked alone fst snd]. destruct (store h !! p) as [s|]; [|apply IH].
  rewrite reapSession_alone. destruct (Relay.reapSession cfg h now s) as [h1 o1]. rewrite IH.
  destruct (alone _ _ _) as [[h2 o2] r]. by rewrite app_assoc.
Qed.

Lemma reap_each_returns now ids h : (alone now (reap_each cfg now ids) h).2 = None.
Proof.
  revert h. induction ids as [|id ids IH]; intros h; [done|]. cbn [reap_each locked alone fst snd].
  destruct (sessions h !! id) as [p|]; [|apply IH]. cbn [locked alone fst snd].
  destruct (store h !! p) as [s|]; [|apply IH]. rewrite reapSession_alone.
  destruct (Relay.reapSession _ _ _ _) as [h1 o1]. specialize (IH h1).
  by destruct (alone _ _ _) as [[]].
Qed.

Lemma ReapOnce_alone now h : alone now (ReapOnce cfg) h = (Relay.ReapOnce cfg h now, None).
Proof.
  unfold ReapOnce, Relay.ReapOnce. cbn [locked alone fst snd]. cbv zeta. rewrite reap_each_alone.
  pose proof (reap_each_returns now (map_to_list (sessions h)).*1
                (with_guesses (with_codes h (filter (λ x, ce_expiresAt x.2 < now → False) (codes h)))
                   (filter (λ x, now - gb_windowStart x.2 < PairingCodeTTL cfg) (guesses h)))) as Hr.
  simpl in *. destruct (alone _ _ _) as [[h1 o1] r]. simpl in *. by subst.
Qed.

(** The hub's calls are atomic as long as they are alone: every call - the
    critical sections and the writes that the locks of hub.go and session.go cut
    it into, one after the other - changes the hub, writes to the connections and
    returns exactly what the one step of Hub does, whatever the hub it starts
    from. So the theorems about Hub's steps are theorems about the code wherever
    its calls do not overlap. *)
Lemma call_alone q now h : alone now (call_of q) h = at_once q now h.
Proof.
  destruct q; cbn [call_of at_once].
  - unfold CreateSession, Relay.CreateSession, full. cbn [locked alone]. by case_match.
  - unfold CreateCodeSession, Relay.CreateCodeSession, full. cbn [locked alone]. case_match; [done|].
    by case_match.
  - unfold JoinSession, Relay.JoinSession. cbn [locked alone].
    destruct (sessions h !! id); [|done]. unfold full. case_match; [done|]. apply attachGuest_alone.
  - apply JoinByCode_alone.
  - apply Reconnect_alone.
  - done.
  - apply Relay_alone.
  - unfold EndSession, Relay.EndSession. cbn [locked alone fst snd]. destruct (store h !! p); [|done].
    rewrite end_peer_alone. destruct (Relay.end_peer _ _ _) as [h1 o1]. cbn. by rewrite app_nil_r.
  - unfold HandleDisconnect, Relay.HandleDisconnect. cbn [locked alone].
    destruct (store h !! p); [|done]. destruct (markDisconnected s r now) as [[s' o] ip].
    cbn [fst snd locked alone]. rewrite alone_writes. cbn [alone]. by rewrite app_nil_r.
  - apply ReapOnce_alone.
Qed.

End Calls.

End Locks.
