(* ===== verification/HubFacts.v ===== *)
(** * What the relay guarantees

    The slots of a session and who sits in them, what each operation leaves as it
    is, and that a session's messages reach its own two connections only. *)

From stdpp Require Import base list list_numbers gmap sets strings.
From Stdlib Require Import ZArith Lia.
From S2P Require Import Prelude JsText Hex Json Utf8 WsClient Hub.
Open Scope Z_scope.
Import Relay.

Lemma other_other r : other (other r) = r.
Proof. by destruct r. Qed.

Lemma other_ne r : other r ≠ r.
Proof. by destruct r. Qed.

(** ** The slots *)

(** The live connection in a role's slot of a session. *)
Definition slot (h : Hub) (p : nat) (r : Role) : option nat := store h !! p ≫= λ s, connOf s r.

(** No slot is new, but perhaps one: that of [x], with [c]. *)
Definition slots_grow (c : nat) (x : nat * Role) (h h' : Hub) : Prop :=
  ∀ p r c', slot h' p r = Some c' → slot h p r = Some c' ∨ (c' = c ∧ (p, r) = x).

Definition slots_shrink (h h' : Hub) : Prop :=
  ∀ p r c, slot h' p r = Some c → slot h p r = Some c.

#[export] Instance slots_shrink_preorder : PreOrder slots_shrink.
Proof. split; [by intros x p r c|]. intros x y z H1 H2 p r c Hs. auto. Qed.

Lemma shrink_grow c x h1 h2 h3 : slots_grow c x h1 h2 → slots_shrink h2 h3 → slots_grow c x h1 h3.
Proof. intros H1 H2 p r c' Hs. auto. Qed.

(** Operations on the hub's other maps. *)
Lemma same_store h h' : store h' = store h → slots_shrink h h'.
Proof. intros He p r c. unfold slot. by rewrite He. Qed.

Lemma decr_store h ip : store (decr h ip) = store h.
Proof. unfold decr. by case_match. Qed.

Lemma end_peer_store h p reason : store (end_peer h p reason).1 = store h.
Proof. destruct p as [[c ip]|]; [|done]. apply decr_store. Qed.

(** A session whose connections are among those it had. *)
Lemma update_shrink h p s s' :
  store h !! p = Some s → (∀ r c, connOf s' r = Some c → connOf s r = Some c) →
  slots_shrink h (update h p s').
Proof.
  intros Hp Hs q r c. unfold slot, update. simpl.
  destruct (decide (p = q)) as [->|]; [|by rewrite list_lookup_insert_ne].
  rewrite list_lookup_insert_eq by (by eapply lookup_lt_Some). rewrite Hp. simpl. auto.
Qed.

Lemma connOf_set_peer s r p r' :
  connOf (set_peer s r p) r'
  = if decide (r' = r)
    then if bool_decide (p_disconnectedAt p = None) then Some (p_conn p) else None
    else connOf s r'.
Proof. unfold connOf. simpl. by destruct (decide (r' = r)). Qed.

Lemma connOf_touched s now r : connOf (set_lastActivity s now) r = connOf s r.
Proof. done. Qed.

(** Taking a slot. *)
Lemma update_grow h p s s' r c :
  store h !! p = Some s →
  (∀ r' c', connOf s' r' = Some c' → connOf s r' = Some c' ∨ (c' = c ∧ r' = r)) →
  slots_grow c (p, r) h (update h p s').
Proof.
  intros Hp Hs q r' c'. unfold slot, update. simpl.
  destruct (decide (p = q)) as [->|]; [|rewrite list_lookup_insert_ne by done; by left].
  rewrite list_lookup_insert_eq by (by eapply lookup_lt_Some). rewrite Hp. simpl.
  intros Hc. destruct (Hs _ _ Hc) as [?|[-> ->]]; auto.
Qed.

Lemma attach_conns s r c ip now s' :
  attach s r c ip now = Some s' →
  ∀ r' c', connOf s' r' = Some c' → connOf s r' = Some c' ∨ (c' = c ∧ r' = r).
Proof.
  unfold attach. case_match; [done|]. intros [= <-] r' c'.
  rewrite connOf_touched, connOf_set_peer. destruct (decide (r' = r)); simpl; [intros [= <-]; auto|auto].
Qed.

Lemma reattach_conns s r token c ip now s' :
  reattach s r token c ip now = Some s' →
  ∀ r' c', connOf s' r' = Some c' → connOf s r' = Some c' ∨ (c' = c ∧ r' = r).
Proof.
  unfold reattach. destruct (s_peers s r) as [q|]; [|done]. do 2 (case_match; [done|]).
  intros [= <-] r' c'.
  rewrite connOf_touched, connOf_set_peer. destruct (decide (r' = r)); simpl; [intros [= <-]; auto|auto].
Qed.

Section Facts.
Context (cfg : Config).

Lemma add_session_grow h now ip c id :
  slots_grow c (length (store h), RoleHost) h (add_session h now ip c id).
Proof.
  intros p r c'. unfold slot, add_session. simpl.
  destruct (decide (p < length (store h))%nat); [rewrite lookup_app_l by done; by left|].
  rewrite lookup_app_r by lia. destruct (p - length (store h))%nat eqn:E; [|done]. simpl.
  unfold connOf. simpl. case_decide; simpl; [|done]. intros [= <-]. subst. right. split; [done|].
  f_equal. lia.
Qed.

Lemma attachGuest_grow h now p ip c h' o x :
  attachGuest h now p ip c = (h', o, inl x) → slots_grow c x h h'.
Proof.
  unfold attachGuest. repeat case_match; intros; simplify_eq.
  eapply shrink_grow; [by eapply update_grow; [|by eapply attach_conns]|by apply same_store].
Qed.

Lemma attachGuest_error h now p ip c h' o e :
  attachGuest h now p ip c = (h', o, inr e) → h' = h ∧ o = [].
Proof. unfold attachGuest. repeat case_match; intros; by simplify_eq. Qed.

Lemma guess_store h ip now : store (checkAndRecordGuessLocked cfg h ip now).1 = store h.
Proof. unfold checkAndRecordGuessLocked. cbv zeta. by case_match. Qed.

(** A connection that begins takes one slot, its own. *)
Lemma beginSession_grow h now op ip c en h' o x :
  beginSession cfg h now op ip c en = (h', o, inl x) → slots_grow c x h h'.
Proof.
  unfold beginSession. destruct op as [[]|]; [| | | | |done].
  - unfold CreateSession. case_match; intros; simplify_eq. apply add_session_grow.
  - unfold JoinSession. repeat (case_match; [done|]). case_match; [|done].
    case_match; [done|]. apply attachGuest_grow.
  - unfold CreateCodeSession. case_match; [done|]. case_match; intros; simplify_eq.
    eapply shrink_grow; [apply add_session_grow|by apply same_store].
  - unfold JoinByCode. pose proof (guess_store h ip now) as Hs.
    destruct (checkAndRecordGuessLocked cfg h ip now) as [h1 ok]. simpl in Hs.
    repeat (case_match; try done). intros Ha.
    pose proof (attachGuest_grow _ _ _ _ _ _ _ _ Ha) as Hg. intros q r c' Hc.
    destruct (Hg _ _ _ Hc) as [Hq|?]; [left|by right]. revert Hq. unfold slot. simpl. by rewrite Hs.
  - unfold Reconnect. destruct (sessions h !! id) as [p|]; simpl; [|done].
    destruct (store h !! p) as [s|] eqn:Hp; simpl; [|done].
    case_match; [done|]. case_match; intros; simplify_eq.
    eapply shrink_grow; [by eapply update_grow; [|by eapply reattach_conns]|by apply same_store].
Qed.

Lemma beginSession_error h now op ip c en h' o e :
  beginSession cfg h now op ip c en = (h', o, inr e) → slots_shrink h h' ∧ o = [].
Proof.
  unfold beginSession. destruct op as [[]|]; [..|by intros; simplify_eq].
  - unfold CreateSession. case_match; intros; by simplify_eq.
  - unfold JoinSession. repeat case_match; intros; simplify_eq; try done.
    by match goal with E : attachGuest _ _ _ _ _ = _ |- _ => apply attachGuest_error in E as [-> ->] end.
  - unfold CreateCodeSession. repeat case_match; intros; by simplify_eq.
  - unfold JoinByCode. pose proof (guess_store h ip now) as Hs.
    destruct (checkAndRecordGuessLocked cfg h ip now) as [h1 ok]. simpl in Hs.
    repeat case_match; intros; simplify_eq; try (by split; [apply same_store|]).
    match goal with E : attachGuest _ _ _ _ _ = _ |- _ => apply attachGuest_error in E as [-> ->] end.
    by split; [apply same_store|].
  - unfold Reconnect. repeat case_match; intros; by simplify_eq.
Qed.

(** The other operations take none. *)
Lemma markDisconnected_conns s r now s' o ip :
  markDisconnected s r now = (s', o, ip) → ∀ r' c, connOf s' r' = Some c → connOf s r' = Some c.
Proof.
  unfold markDisconnected. destruct (s_peers s r) as [q|]; intros; simplify_eq; [|done].
  rewrite connOf_set_peer in *. by destruct (decide (r' = r)).
Qed.

Lemma HandleDisconnect_shrink h now p r : slots_shrink h (HandleDisconnect h now p r).1.
Proof.
  unfold HandleDisconnect. destruct (store h !! p) as [s|] eqn:Hp; [|done].
  destruct (markDisconnected s r now) as [[s' o] ip] eqn:E. simpl.
  etrans; [by eapply update_shrink; [|by eapply markDisconnected_conns]|].
  apply same_store, decr_store.
Qed.

Lemma EndSession_shrink h p r : slots_shrink h (EndSession h p r).1.
Proof.
  unfold EndSession. destruct (store h !! p) as [s|] eqn:Hp; [|done].
  pose proof (end_peer_store h (connAndIP s (other r)) "ended_by_peer") as Hs.
  destruct (end_peer _ _ _) as [h' o]. by apply same_store.
Qed.

Lemma RegisterReconnectToken_shrink h p r token :
  slots_shrink h (RegisterReconnectToken h p r token).
Proof.
  unfold RegisterReconnectToken. destruct (store h !! p) as [s|] eqn:Hp; [|done].
  apply (update_shrink _ _ _ _ Hp). intros r' c. unfold setReconnectToken.
  destruct (s_peers s r) as [q|] eqn:Hq; [|done]. rewrite connOf_set_peer.
  destruct (decide (r' = r)) as [->|]; [|done]. unfold connOf. by rewrite Hq.
Qed.

Lemma recordChunkBytes_peers s frame maxSize :
  s_peers (recordChunkBytes s frame maxSize).1 = s_peers s.
Proof. unfold recordChunkBytes. cbv zeta. by repeat case_match. Qed.

Lemma Relay_shrink h now p r d : slots_shrink h (Relay cfg h now p r d).1.
Proof.
  unfold Relay. destruct (store h !! p) as [s|] eqn:Hp; [|done]. cbv zeta. destruct d.
  - by apply (update_shrink _ _ _ _ Hp).
  - pose proof (recordChunkBytes_peers (set_lastActivity s now) buffer (MaxFileSize cfg)) as He.
    destruct (recordChunkBytes _ _ _) as [s' v]. simpl in *. apply (update_shrink _ _ _ _ Hp).
    intros r' c. unfold connOf. by rewrite He.
Qed.

Lemma notifyAndClose_store h s reason : store (notifyAndClose h s reason).1 = store h.
Proof.
  unfold notifyAndClose. pose proof (end_peer_store h (connAndIP s RoleHost) reason) as H1.
  destruct (end_peer h _ _) as [h1 o1]. simpl in H1.
  pose proof (end_peer_store h1 (connAndIP s RoleGuest) reason) as H2.
  destruct (end_peer h1 _ _) as [h2 o2]. simpl in *. congruence.
Qed.

Lemma reapSession_store h now s : store (reapSession cfg h now s).1 = store h.
Proof. unfold reapSession. case_match; [|case_match]; by rewrite ?notifyAndClose_store. Qed.

Lemma ReapOnce_store h now : store (ReapOnce cfg h now).1 = store h.
Proof.
  unfold ReapOnce. cbv zeta.
  set (h0 := with_guesses _ _). assert (store h0 = store h) as H0 by done.
  generalize (@nil out) as o. generalize dependent h0.
  generalize ((map_to_list (sessions h)).*1) as ids.
  induction ids as [|id ids IH]; intros h0 H0 o; simpl; [done|].
  destruct (sessions h0 !! id ≫= _) as [s|]; [|by apply IH].
  pose proof (reapSession_store h0 now s) as Hr.
  destruct (reapSession cfg h0 now s) as [h1 o1]. apply IH. simpl in Hr. congruence.
Qed.

(** ** Who gets whose messages *)

(** Nothing of another connection's is passed on. *)
Definition own (o : out) : Prop := match o with Send _ (MRelayed _) => False | _ => True end.

Lemma notify_own c m : own (Send 0 m) → Forall own (notify c m).
Proof. intros Hm. destruct c; [apply Forall_singleton; by destruct m|constructor]. Qed.

Lemma end_peer_own h p reason : Forall own (end_peer h p reason).2.
Proof. destruct p as [[c ip]|]; simpl; by repeat constructor. Qed.

Lemma attachGuest_own h now p ip c h' o x : attachGuest h now p ip c = (h', o, x) → Forall own o.
Proof. unfold attachGuest. repeat case_match; intros; simplify_eq; by repeat constructor. Qed.

Lemma beginSession_own h now op ip c en h' o x :
  beginSession cfg h now op ip c en = (h', o, x) → Forall own o.
Proof.
  unfold beginSession. destruct op as [[]|]; [..|by intros; simplify_eq].
  - unfold CreateSession. case_match; intros; simplify_eq; by repeat constructor.
  - unfold JoinSession. repeat case_match; intros; simplify_eq; try constructor.
    by eapply attachGuest_own.
  - unfold CreateCodeSession. repeat case_match; intros; simplify_eq; by repeat constructor.
  - unfold JoinByCode. destruct (checkAndRecordGuessLocked cfg h ip now) as [h1 ok].
    repeat case_match; intros; simplify_eq; try constructor. by eapply attachGuest_own.
  - unfold Reconnect. repeat case_match; intros; simplify_eq; try constructor.
    apply Forall_app. split; [by apply notify_own|by repeat constructor].
Qed.

Lemma notifyAndClose_own h s reason : Forall own (notifyAndClose h s reason).2.
Proof.
  unfold notifyAndClose. pose proof (end_peer_own h (connAndIP s RoleHost) reason) as H1.
  destruct (end_peer h _ _) as [h1 o1].
  pose proof (end_peer_own h1 (connAndIP s RoleGuest) reason) as H2.
  destruct (end_peer h1 _ _) as [h2 o2]. simpl in *. by apply Forall_app.
Qed.

Lemma reapSession_own h now s : Forall own (reapSession cfg h now s).2.
Proof.
  unfold reapSession. case_match; [|case_match]; try apply notifyAndClose_own. constructor.
Qed.

Lemma ReapOnce_own h now : Forall own (ReapOnce cfg h now).2.
Proof.
  unfold ReapOnce. cbv zeta. set (h0 := with_guesses _ _). clearbody h0.
  assert (Forall own (@nil out)) as Ho by constructor. revert Ho.
  generalize (@nil out) as o. revert h0. generalize ((map_to_list (sessions h)).*1) as ids.
  induction ids as [|id ids IH]; intros h0 o Ho; simpl; [done|].
  destruct (sessions h0 !! id ≫= _) as [s|]; [|by apply IH].
  pose proof (reapSession_own h0 now s) as Hr.
  destruct (reapSession cfg h0 now s) as [h1 o1]. apply IH. by apply Forall_app.
Qed.

Lemma abort_own s fileID : Forall own (abortOversizedFile s fileID).
Proof. apply Forall_app. split; by apply notify_own. Qed.

(** A message goes to the other slot of its session. *)
Lemma Relay_forwards h now p r d c d' :
  Send c (MRelayed d') ∈ (Relay cfg h now p r d).2 → d' = d ∧ slot h p (other r) = Some c.
Proof.
  unfold Relay, slot. destruct (store h !! p) as [s|]; simpl; [|set_solver].
  assert (∀ s' l, s_peers s' = s_peers s → Forall own l →
            Send c (MRelayed d') ∈ notify (connOf s' (other r)) (MRelayed d) ++ l →
            d' = d ∧ connOf s (other r) = Some c) as Hn.
  { intros s' l Hs Hl. unfold connOf. rewrite Hs. intros [Hi|Hi]%elem_of_app.
    - destruct (s_peers s (other r)) as [q|]; simpl in *; [|set_solver].
      destruct (bool_decide _); simpl in *; [|set_solver].
      apply list_elem_of_singleton in Hi. by simplify_eq.
    - apply (proj1 (Forall_forall _ _) Hl) in Hi. done. }
  cbv zeta. destruct d as [t|frame]; simpl.
  - intros Hi. apply (Hn (set_lastActivity s now) []); [done|constructor|].
    by rewrite app_nil_r.
  - pose proof (recordChunkBytes_peers (set_lastActivity s now) frame (MaxFileSize cfg)) as Hs.
    destruct (recordChunkBytes _ _ _) as [s' v]. simpl in *.
    destruct (v_drop v); [set_solver|]. apply Hn; [done|].
    destruct (v_sendAbort v); [apply abort_own|constructor].
Qed.

(** *** The invariant of the server *)

Record server_ok (sv : server) : Prop := {
  ok_slots : ∀ p r c, slot (hub sv) p r = Some c → c ∈ seen sv;
  ok_unique : ∀ p r p' r' c, slot (hub sv) p r = Some c → slot (hub sv) p' r' = Some c →
                p = p' ∧ r = r';
  ok_loops : ∀ c x, loops sv !! c = Some x → c ∈ seen sv;
  ok_own : ∀ c x p r, loops sv !! c = Some x → slot (hub sv) p r = Some c → x = (p, r)
}.

Lemma server_ok_shrink sv sv' :
  slots_shrink (hub sv) (hub sv') → loops sv' ⊆ loops sv → seen sv ⊆ seen sv' →
  server_ok sv → server_ok sv'.
Proof.
  intros Hs Hl Hn [H1 H2 H3 H4]. split; intros.
  - eapply Hn, H1, Hs. done.
  - eapply H2; by apply Hs.
  - eapply Hn, H3, lookup_weaken; done.
  - eapply H4; [by eapply lookup_weaken|by apply Hs].
Qed.

Lemma server_ok_grow sv c x h :
  c ∉ seen sv → slots_grow c x (hub sv) h → server_ok sv →
  server_ok {| hub := h; loops := <[c := x]> (loops sv); seen := {[c]} ∪ seen sv |}.
Proof.
  intros Hc Hg [H1 H2 H3 H4]. split; simpl.
  - intros p r c' Hs. destruct (Hg _ _ _ Hs) as [Hs'|[-> _]]; [|set_solver].
    apply elem_of_union_r. by eapply H1.
  - intros p r p' r' c' Hs Hs'.
    destruct (Hg _ _ _ Hs) as [Ho|[-> He]], (Hg _ _ _ Hs') as [Ho'|[He1 He']].
    + by eapply H2.
    + subst. destruct Hc. by eapply H1.
    + destruct Hc. by eapply H1.
    + by simplify_eq.
  - intros c' y Hl. apply lookup_insert_Some in Hl as [[-> _]|[_ Hl]]; [set_solver|].
    apply elem_of_union_r. by eapply H3.
  - intros c' y p r Hl Hs. apply lookup_insert_Some in Hl as [[-> <-]|[Hn Hl]].
    + destruct (Hg _ _ _ Hs) as [Ho|[_ He]]; [|done]. destruct Hc. by eapply H1.
    + destruct (Hg _ _ _ Hs) as [Ho|[-> _]]; [|done]. by eapply H4.
Qed.

Abbreviation step := (step cfg).

Lemma serve_first_ok sv now ip c en d :
  c ∉ seen sv → server_ok sv → server_ok (serve_first cfg sv now ip c en d).1.
Proof.
  intros Hc Hok. unfold serve_first.
  destruct (beginSession cfg _ _ _ _ _ _) as [[h o] [x|e]] eqn:E; simpl.
  - apply server_ok_grow; [done| |done]. by eapply beginSession_grow.
  - apply beginSession_error in E as [E _].
    apply (server_ok_shrink sv); simpl; [exact E|reflexivity|set_solver|done].
Qed.

Lemma serve_gone_ok sv now c p r sv' o :
  server_ok sv → serve_gone sv now c p r = (sv', o) → server_ok sv'.
Proof.
  intros Hok. unfold serve_gone. pose proof (HandleDisconnect_shrink (hub sv) now p r) as Hsh.
  destruct (HandleDisconnect _ _ _ _) as [h o1]. intros; simplify_eq.
  apply (server_ok_shrink sv); [exact Hsh|apply delete_subseteq|reflexivity|done].
Qed.

Lemma serve_gone_own sv now c p r : Forall own (serve_gone sv now c p r).2.
Proof.
  unfold serve_gone, HandleDisconnect. destruct (store (hub sv) !! p) as [s|]; [|by repeat constructor].
  destruct (markDisconnected s r now) as [[s' oc] ip]. simpl. apply Forall_app.
  split; [by apply notify_own|by repeat constructor].
Qed.

Lemma step_server_ok sv e sv' o : server_ok sv → step sv e = Some (sv', o) → server_ok sv'.
Proof.
  intros Hok Hs. destruct e; unfold Relay.step in Hs.
  - case_bool_decide as Hc; [done|]. pose proof (serve_first_ok sv now ip c en d Hc Hok) as Hf.
    destruct (too_large d); [|destruct (serve_first _ _ _ _ _ _ _); by simplify_eq].
    unfold refuse_first in Hs. simplify_eq.
    apply (server_ok_shrink sv); simpl; [reflexivity..|set_solver|done].
  - destruct (loops sv !! c) as [[p r]|]; simplify_eq/=.
    destruct (too_large d); simplify_eq; [by eapply serve_gone_ok|]. unfold serve_message in Hs.
    destruct (input_of d) as [|[token|]|]; simplify_eq/=; [| |done|].
    + pose proof (EndSession_shrink (hub sv) p r) as Hsh. destruct (EndSession _ _ _) as [h o1].
      simplify_eq. apply (server_ok_shrink sv); [exact Hsh|apply delete_subseteq|reflexivity|done].
    + apply (server_ok_shrink sv); [apply RegisterReconnectToken_shrink|reflexivity..|done].
    + pose proof (Relay_shrink (hub sv) now p r d) as Hsh. destruct (Relay _ _ _ _ _ _) as [h o1].
      simplify_eq. apply (server_ok_shrink sv); [exact Hsh|reflexivity..|done].
  - destruct (loops sv !! c) as [[p r]|]; simplify_eq/=. by eapply serve_gone_ok.
  - pose proof (ReapOnce_store (hub sv) now) as Hst. destruct (ReapOnce _ _ _) as [h o1].
    simplify_eq. apply (server_ok_shrink sv); [by apply same_store|reflexivity..|done].
Qed.

Lemma new_server_ok : server_ok new_server.
Proof. by split. Qed.

Lemma run_server_ok es sv o :
  run (log_step cfg) es (new_server, []) = Some (sv, o) → server_ok sv.
Proof.
  intros Hrun. change (server_ok (sv, o).1). revert Hrun.
  apply (run_ind (log_step cfg) (λ x, server_ok x.1)); [apply new_server_ok|].
  intros [sv1 o1] e [sv2 o2] H1. unfold log_step. simpl.
  destruct (step sv1 e) as [[sv3 o3]|] eqn:E; [|done]. intros [= <- _]. by eapply step_server_ok.
Qed.

(** C19: The relay keeps sessions apart: however connections open, pair, drop,
    reconnect and end, a message is only ever passed on unchanged, and only to
    the connection in the other slot of the session its sender is in - never
    back to the sender, never to a connection whose handler serves another
    session or the same role. *)
Theorem relay_keeps_sessions_apart es sv log e sv' o c' d' :
  run (log_step cfg) es (new_server, []) = Some (sv, log) →
  step sv e = Some (sv', o) → Send c' (MRelayed d') ∈ o →
  ∃ now c p r, e = Later now c d' ∧ loops sv !! c = Some (p, r)
    ∧ slot (hub sv) p (other r) = Some c' ∧ c' ≠ c
    ∧ (∀ x, loops sv !! c' = Some x → x = (p, other r)).
Proof.
  intros Hrun Hs Hin. apply run_server_ok in Hrun as Hok.
  assert (Forall own o → False) as Hno.
  { intros Ho. by apply (proj1 (Forall_forall _ _) Ho) in Hin. }
  destruct e; unfold Relay.step in Hs.
  - case_bool_decide; [done|]. exfalso. apply Hno.
    destruct (too_large d); [injection Hs as <- <-; by repeat constructor|]. unfold serve_first in Hs.
    destruct (beginSession cfg _ _ _ _ _ _) as [[h o1] [x|e]] eqn:E; simplify_eq;
      apply beginSession_own in E; [done|]. apply Forall_app. split; [done|by repeat constructor].
  - destruct (loops sv !! c) as [[p r]|] eqn:Hl; simplify_eq/=.
    destruct (too_large d); simplify_eq.
    { exfalso. apply Hno. pose proof (serve_gone_own sv now c p r) as Ho. by rewrite Hs in Ho. }
    unfold serve_message in Hs. destruct (input_of d) as [|[token|]|]; simplify_eq/=; try (by apply elem_of_nil in Hin).
    + exfalso. apply Hno. unfold EndSession in Hs. destruct (store (hub sv) !! p) as [s|];
        simplify_eq; [|by repeat constructor].
      pose proof (end_peer_own (hub sv) (connAndIP s (other r)) "ended_by_peer") as Hp.
      destruct (end_peer _ _ _) as [h o1]. simplify_eq. apply Forall_app.
      split; [done|by repeat constructor].
    + destruct (Relay cfg (hub sv) now p r d) as [h o1] eqn:E. simplify_eq.
      pose proof (Relay_forwards (hub sv) now p r d c' d') as Hf. rewrite E in Hf.
      destruct (Hf Hin) as [-> Hsl]. exists now, c, p, r. split_and!; try done.
      * intros ->. pose proof (ok_own _ Hok _ _ _ _ Hl Hsl) as He. simplify_eq.
        by destruct (other_ne r).
      * intros x Hx. by eapply ok_own.
  - destruct (loops sv !! c) as [[p r]|]; simplify_eq/=. exfalso. apply Hno.
    pose proof (serve_gone_own sv now c p r) as Ho. by rewrite Hs in Ho.
  - pose proof (ReapOnce_own (hub sv) now) as Ho. destruct (ReapOnce _ _ _) as [h o1].
    simplify_eq. by apply Hno in Ho.
Qed.

End Facts.
