(* ===== verification/HubLimits.v ===== *)
(** * The relay's limits

    The size limit of a file and the limit on code guesses hold. *)

From stdpp Require Import base list list_numbers gmap sets strings.
From Stdlib Require Import ZArith Lia.
From S2P Require Import Prelude JsText Hex Json Utf8 WsClient Hub HubLocks.
Open Scope Z_scope.
Import Relay.

(** ** The size of a file *)

(** What [recordChunkBytes] reports of frames that arrive in this order. *)
Fixpoint verdicts (maxSize : Z) (s : Session) (frames : list bytes) : list verdict :=
  match frames with
  | [] => []
  | f :: l => let '(s', v) := recordChunkBytes s f maxSize in v :: verdicts maxSize s' l
  end.

(** A chunk of the file [id], not its last one. *)
Definition chunk_of (id : bytes) (f : bytes) : Prop :=
  (chunkFrameHeaderLen ≤ length f)%nat ∧ nth 0 f 0 = chunkFrameTypeFile
  ∧ slice 2 18 f = id ∧ Z.land (nth 1 f 0) 1 ≠ 1.

Fixpoint total (frames : list bytes) : Z :=
  match frames with [] => 0 | f :: l => Z.of_nat (length f) + total l end.

Definition aborts (vs : list verdict) : nat := length (filter (λ v, v_sendAbort v = true) vs).

Lemma total_nonneg frames : 0 ≤ total frames.
Proof. induction frames; simpl; lia. Qed.

(** The state in which the file's first [n] bytes were passed on. *)
Definition passing (id : bytes) (n : Z) (s : Session) : Prop :=
  s_currentFile s = {| cf_fileID := id; cf_active := true; cf_blocked := false; cf_bytesSoFar := n |}
  ∨ n = 0 ∧ (cf_active (s_currentFile s) = false ∨ cf_fileID (s_currentFile s) ≠ id).

Definition stopped (id : bytes) (s : Session) : Prop :=
  cf_fileID (s_currentFile s) = id ∧ cf_active (s_currentFile s) = true
  ∧ cf_blocked (s_currentFile s) = true.

Lemma track_passing id n s :
  passing id n s →
  track (s_currentFile s) id
  = {| cf_fileID := id; cf_active := true; cf_blocked := false; cf_bytesSoFar := n |}.
Proof.
  unfold track. intros [->|[-> Hs]]; simpl; [by rewrite bool_decide_true|].
  destruct (cf_active (s_currentFile s)) eqn:E; [|done]. simpl.
  by rewrite bool_decide_false by (destruct Hs; congruence).
Qed.

Lemma record_passing maxSize id n s f :
  passing id n s → chunk_of id f →
  let n' := n + Z.of_nat (length f) in
  ∃ s', recordChunkBytes s f maxSize
        = (s', {| v_fileID := id; v_drop := false; v_sendAbort := bool_decide (maxSize < n') |})
    ∧ if bool_decide (maxSize < n') then stopped id s' else passing id n' s'.
Proof.
  intros Hs (Hl&Ht&Hid&Hlast) n'. unfold recordChunkBytes.
  rewrite bool_decide_false, Ht, bool_decide_true, Hid by (done || lia). cbn [orb negb]. cbv zeta.
  rewrite (track_passing _ _ _ Hs). cbn [cf_blocked cf_bytesSoFar cf_fileID cf_active]. fold n'.
  rewrite (proj2 (Z.eqb_neq _ _) Hlast).
  destruct (Z.ltb_spec maxSize n') as [Hm|Hm].
  - rewrite bool_decide_true by done. by eexists.
  - rewrite bool_decide_false by lia. eexists. split; [done|]. by left.
Qed.

Lemma record_stopped maxSize id s f :
  stopped id s → chunk_of id f →
  ∃ s', recordChunkBytes s f maxSize
        = (s', {| v_fileID := id; v_drop := true; v_sendAbort := false |}) ∧ stopped id s'.
Proof.
  intros (Hi&Ha&Hb) (Hl&Ht&Hid&Hlast). unfold recordChunkBytes.
  rewrite bool_decide_false, Ht, bool_decide_true, Hid by (done || lia). cbn [orb negb]. cbv zeta.
  unfold track. rewrite Ha, Hi, bool_decide_true by done. cbn [orb negb]. rewrite Hb.
  eexists. split; [done|]. done.
Qed.

Lemma verdicts_stopped maxSize id s frames :
  stopped id s → Forall (chunk_of id) frames →
  map v_drop (verdicts maxSize s frames) = replicate (length frames) true
  ∧ aborts (verdicts maxSize s frames) = O.
Proof.
  intros Hs Hf. revert s Hs. induction Hf as [|f l Hf Hl IH]; intros s Hs; [done|].
  destruct (record_stopped maxSize id s f Hs Hf) as (s'&E&Hs'). simpl. rewrite E.
  destruct (IH s' Hs') as [H1 H2]. simpl. split; [by rewrite H1|]. done.
Qed.

Lemma verdicts_passing maxSize id n s frames :
  passing id n s → n ≤ maxSize → Forall (chunk_of id) frames →
  let vs := verdicts maxSize s frames in
  ∃ k, (k ≤ length frames)%nat
    ∧ map v_drop vs = replicate k false ++ replicate (length frames - k) true
    ∧ n + total (take (k - 1) frames) ≤ maxSize
    ∧ ((k < length frames)%nat → maxSize < n + total (take k frames))
    ∧ aborts vs = if bool_decide (maxSize < n + total frames) then 1%nat else O.
Proof.
  intros Hs Hn Hf. revert n s Hs Hn. induction Hf as [|f l Hf Hl IH]; intros n s Hs Hn vs.
  { exists O. unfold vs. simpl. rewrite Z.add_0_r, bool_decide_false by lia.
    by split_and!; [lia|..|lia|lia|]. }
  destruct (record_passing maxSize id n s f Hs Hf) as (s'&E&Hs'). unfold vs. cbn [verdicts].
  rewrite E. pose proof (total_nonneg l). cbn [total] in *.
  case_bool_decide as Hm.
  - destruct (verdicts_stopped maxSize id s' l Hs' Hl) as [H1 H2]. exists 1%nat.
    cbn [map v_drop length replicate app Nat.sub take]. rewrite Nat.sub_0_r, H1.
    unfold aborts in *. rewrite filter_cons, decide_True by done. cbn [length]. rewrite H2.
    rewrite bool_decide_true by lia. cbn [total take].
    split_and!; try done; rewrite ?take_0; simpl; lia.
  - destruct (IH (n + Z.of_nat (length f)) s' Hs') as (k&Hk&Hd&Hle&Hgt&Hab); [lia|].
    exists (S k). cbn [map v_drop length replicate app Nat.sub take]. rewrite Hd, Nat.sub_0_r.
    unfold aborts in *. rewrite filter_cons, decide_False by done. cbn [v_sendAbort].
    rewrite Hab. cbn [total]. split_and!; [lia|done| | |].
    + destruct k; cbn [take total Nat.sub] in *; [lia|]. rewrite Nat.sub_0_r in Hle. lia.
    + intros. assert (k < length l)%nat as Hlt by lia. specialize (Hgt Hlt). lia.
    + by rewrite Z.add_assoc.
Qed.

(** C22: The relay enforces the size limit of a file: of the chunks of one file,
    as they arrive, a first part is passed on and the rest is dropped; what is
    passed on exceeds [MaxFileSize] by its last frame at most; and the abort is
    sent exactly once if the chunks exceed the limit, and never otherwise. (The
    file's last chunk, which ends the count, is not among them.) *)
Theorem file_size_enforced maxSize id s frames :
  0 ≤ maxSize → cf_active (s_currentFile s) = false ∨ cf_fileID (s_currentFile s) ≠ id →
  Forall (chunk_of id) frames →
  let vs := verdicts maxSize s frames in
  ∃ k, (k ≤ length frames)%nat
    ∧ map v_drop vs = replicate k false ++ replicate (length frames - k) true
    ∧ total (take (k - 1) frames) ≤ maxSize
    ∧ ((k < length frames)%nat → maxSize < total (take k frames))
    ∧ aborts vs = if bool_decide (maxSize < total frames) then 1%nat else O.
Proof. intros Hm Hs Hf. apply (verdicts_passing maxSize id 0 s frames); auto. by right. Qed.

(** ** Guessing codes *)

Section Guesses.
Context (cfg : Config).

(** A call of the hub from start to end, at its time. *)
Definition timed : Type := Z * Locks.request.

Definition guess_of (ip : jsstr) (q : Locks.request) : bool :=
  match q with Locks.QJoinByCode _ ip' _ => bool_decide (ip' = ip) | _ => false end.

Definition refused (r : option (nat * Role + error)) : bool :=
  match r with Some (inr ErrTooManyAttempts) => true | _ => false end.

(** How many of the calls are guesses from [ip] that were let through to the
    codes. *)
Fixpoint guesses_from (ip : jsstr) (h : Hub) (calls : list timed) : nat :=
  match calls with
  | [] => O
  | (now, q) :: l =>
      let '(h', _, r) := Locks.at_once cfg q now h in
      ((if guess_of ip q && negb (refused r) then 1 else 0) + guesses_from ip h' l)%nat
  end.

Lemma attachGuest_guesses h now p ip c h' o x :
  attachGuest h now p ip c = (h', o, x) → guesses h' = guesses h ∧ refused (Some x) = false.
Proof. unfold attachGuest. repeat case_match; intros; by simplify_eq. Qed.

Lemma JoinByCode_guesses h now code ip c h' o r :
  JoinByCode cfg h now code ip c = (h', o, r) →
  guesses h' = guesses (checkAndRecordGuessLocked cfg h ip now).1
  ∧ refused (Some r) = negb (checkAndRecordGuessLocked cfg h ip now).2.
Proof.
  unfold JoinByCode. destruct (checkAndRecordGuessLocked cfg h ip now) as [h1 ok].
  destruct ok; cbn [negb fst snd]; [|by intros; simplify_eq].
  intros E. repeat case_match; simplify_eq; try done.
  match goal with E : attachGuest _ _ _ _ _ = _ |- _ => apply attachGuest_guesses in E as [-> ->] end.
  done.
Qed.

Lemma decr_guesses h ip : guesses (decr h ip) = guesses h.
Proof. unfold decr. by case_match. Qed.

Lemma end_peer_guesses h q reason : guesses (end_peer h q reason).1 = guesses h.
Proof. destruct q as [[c ip]|]; [apply decr_guesses|done]. Qed.

Lemma reapSession_guesses h now s : guesses (reapSession cfg h now s).1 = guesses h.
Proof.
  assert (∀ reason, guesses (notifyAndClose h s reason).1 = guesses h) as Hn.
  { intros reason. unfold notifyAndClose.
    pose proof (end_peer_guesses h (connAndIP s RoleHost) reason) as H1.
    destruct (end_peer h (connAndIP s RoleHost) reason) as [h1 o1].
    pose proof (end_peer_guesses h1 (connAndIP s RoleGuest) reason) as H2.
    destruct (end_peer h1 (connAndIP s RoleGuest) reason) as [h2 o2]. simpl in *. congruence. }
  unfold reapSession. by repeat case_match.
Qed.

(** The reaper forgets the guesses of windows that are over. *)
Lemma ReapOnce_guesses h now :
  guesses (ReapOnce cfg h now).1 = filter (λ x, now - gb_windowStart x.2 < PairingCodeTTL cfg) (guesses h).
Proof.
  unfold ReapOnce. cbv zeta. set (h0 := with_guesses _ _).
  change (filter _ (guesses h)) with (guesses h0) at 1. clearbody h0.
  generalize (@nil out) as o. revert h0. generalize ((map_to_list (sessions h)).*1) as ids.
  induction ids as [|id ids IH]; intros h0 o; simpl; [done|].
  destruct (sessions h0 !! id ≫= _) as [s|]; [|by apply IH].
  pose proof (reapSession_guesses h0 now s) as Hr.
  destruct (reapSession cfg h0 now s) as [h1 o1]. by rewrite IH.
Qed.

(** The other calls leave the guesses alone. *)
Lemma call_guesses q now h h' o r :
  Locks.at_once cfg q now h = (h', o, r) →
  (∀ code ip c, q ≠ Locks.QJoinByCode code ip c) → q ≠ Locks.QReapOnce → guesses h' = guesses h.
Proof.
  intros E Hq Hr. apply (f_equal (λ x : Hub * list out * _, guesses x.1.1)) in E. cbn [fst] in E. rewrite <- E.
  destruct q; cbn [Locks.at_once fst]; try done.
  - unfold CreateSession. by case_match.
  - unfold CreateCodeSession. by repeat case_match.
  - unfold JoinSession. repeat case_match; [done| |done].
    destruct (attachGuest _ _ _ _ _) as [[h1 o1] x] eqn:Ea. by apply attachGuest_guesses in Ea as [? _].
  - by destruct (Hq code ip c).
  - unfold Reconnect. by repeat case_match.
  - unfold RegisterReconnectToken. by case_match.
  - unfold Relay. by repeat case_match.
  - unfold EndSession. destruct (store h !! p) as [s|]; [|done].
    pose proof (end_peer_guesses h (connAndIP s (other byRole)) "ended_by_peer") as He.
    by destruct (end_peer _ _ _).
  - unfold HandleDisconnect. destruct (store h !! p) as [s|]; [|done].
    destruct (markDisconnected s r0 now) as [[s' oc] ip]. cbn [fst]. by rewrite decr_guesses.
Qed.

(** The budget of [ip] in a window that began at [t0] or later. *)
Definition budget (t0 : Z) (ip : jsstr) (h : Hub) (n : Z) : Prop :=
  match guesses h !! ip with
  | Some b => gb_count b = n ∧ t0 ≤ gb_windowStart b
  | None => n = 0
  end.

Lemma check_budget t0 ip h now n :
  budget t0 ip h n → t0 ≤ now < t0 + PairingCodeTTL cfg → 0 ≤ n ≤ MaxPairingAttempts cfg →
  let '(h', ok) := checkAndRecordGuessLocked cfg h ip now in
  budget t0 ip h' (if ok then n + 1 else n) ∧ (ok = true → n < MaxPairingAttempts cfg).
Proof.
  unfold budget, checkAndRecordGuessLocked. intros Hb Ht Hn.
  assert (∃ w, t0 ≤ w ∧ current_budget cfg h ip now = {| gb_count := n; gb_windowStart := w |})
    as (w&Hw&->).
  { unfold current_budget. destruct (guesses h !! ip) as [[m w]|]; simpl in *.
    - destruct Hb as [-> Hw]. rewrite (proj2 (Z.leb_gt _ _)) by lia. by exists w.
    - subst. exists now. split; [lia|done]. }
  cbv zeta. cbn [gb_count gb_windowStart]. destruct (Z.leb_spec (MaxPairingAttempts cfg) n); simpl;
    rewrite lookup_insert_eq; simpl; auto with lia.
Qed.

Lemma check_budget_other t0 ip ip' h now n :
  ip' ≠ ip → budget t0 ip h n → budget t0 ip (checkAndRecordGuessLocked cfg h ip' now).1 n.
Proof.
  intros Hne. unfold budget, checkAndRecordGuessLocked. cbv zeta.
  destruct (_ <=? _); simpl; by rewrite lookup_insert_ne.
Qed.

(** The reaper spares a window that is not over. *)
Lemma reap_budget t0 ip h now n :
  budget t0 ip h n → now < t0 + PairingCodeTTL cfg → budget t0 ip (ReapOnce cfg h now).1 n.
Proof.
  unfold budget. rewrite ReapOnce_guesses. intros Hb Ht.
  destruct (guesses h !! ip) as [b|] eqn:E.
  - rewrite (map_lookup_filter_Some_2 _ _ _ b); [done|done|]. simpl. lia.
  - by rewrite map_lookup_filter_None_2 by auto.
Qed.

Lemma guesses_bound t0 ip calls : ∀ h n,
  budget t0 ip h n → 0 ≤ n ≤ MaxPairingAttempts cfg →
  Forall (λ c : timed, t0 ≤ c.1 < t0 + PairingCodeTTL cfg) calls →
  n + Z.of_nat (guesses_from ip h calls) ≤ MaxPairingAttempts cfg.
Proof.
  induction calls as [|[now q] l IH]; intros h n Hb Hn Hc; simpl; [lia|].
  apply Forall_cons in Hc as [Hg Hl]. simpl in Hg.
  destruct (Locks.at_once cfg q now h) as [[h' o] r] eqn:E.
  assert (guess_of ip q = false → budget t0 ip h' n →
          n + Z.of_nat ((if guess_of ip q && negb (refused r) then 1 else 0) + guesses_from ip h' l)
          ≤ MaxPairingAttempts cfg) as Hquiet by (intros -> Hb'; by apply IH).
  assert (q = Locks.QReapOnce ∨ q ≠ Locks.QReapOnce) as [->|Hr] by (destruct q; auto).
  { apply Hquiet; [done|]. apply (f_equal (λ x : Hub * list out * _, x.1.1)) in E.
    cbn [Locks.at_once fst] in E. rewrite <- E. apply reap_budget; [done|lia]. }
  destruct q; try (apply Hquiet; [done|]; unfold budget;
    by rewrite (call_guesses _ _ _ _ _ _ E) by (done || intros; discriminate)).
  cbn [Locks.at_once guess_of] in *. rename ip0 into ip'.
  destruct (JoinByCode cfg h now code ip' c) as [[h2 o2] r2] eqn:Ej. simpl in E. injection E as -> -> <-.
  apply JoinByCode_guesses in Ej as [Eg Er]. rewrite Er.
  assert (∀ m, budget t0 ip (checkAndRecordGuessLocked cfg h ip' now).1 m → budget t0 ip h' m) as Hh'
    by (intros m; unfold budget; by rewrite Eg).
  case_bool_decide as Hip; cbn [andb].
  - subst ip'. pose proof (check_budget t0 ip h now n Hb Hg Hn) as Hk.
    destruct (checkAndRecordGuessLocked _ _ _ _) as [h1 ok]. simpl in *. destruct Hk as [Hk Hok].
    destruct ok; simpl.
    + specialize (Hok eq_refl). specialize (IH h' (n + 1) (Hh' _ Hk)). specialize (IH ltac:(lia) Hl). lia.
    + by apply IH; [apply Hh'|..].
  - apply IH; [|done..]. by apply Hh', check_budget_other.
Qed.

(** C23: Codes cannot be guessed quickly: within one lifetime of a code, an
    address that had no guesses on record gets at most [MaxPairingAttempts]
    calls of [JoinByCode] past the limit, whatever the codes and whatever other
    calls the hub gets in between, the reaper's among them; all further calls
    are answered [too_many_attempts] without a look at the codes. *)
Theorem code_guesses_limited t0 ip h calls :
  guesses h !! ip = None → 0 ≤ MaxPairingAttempts cfg →
  Forall (λ c : timed, t0 ≤ c.1 < t0 + PairingCodeTTL cfg) calls →
  Z.of_nat (guesses_from ip h calls) ≤ MaxPairingAttempts cfg.
Proof.
  intros Hg Hm Hc. apply (guesses_bound t0 ip calls h 0); [|lia|done]. unfold budget. by rewrite Hg.
Qed.

End Guesses.
