(* ===== verification/HubPair.v ===== *)
(** * A pair at the relay

    Two connections whose handlers serve one session, and what everything else
    at the relay does to them: nothing. So their messages go through it in order
    and unchanged, as long as the files stay below the size limit. *)

From stdpp Require Import base list list_numbers gmap sets strings.
From Stdlib Require Import ZArith Lia.
From S2P Require Import Prelude JsText Hex Json Utf8 WsClient Hub HubFacts HubLimits.
Open Scope Z_scope.
Import Relay.

(** ** What stays *)

(** The file a session counts. *)
Definition tracker (h : Hub) (p : nat) : option currentFileState := s_currentFile <$> store h !! p.

(** All slots and all trackers stay. *)
Definition kept (h h' : Hub) : Prop :=
  slots_shrink h' h ∧ ∀ p f, tracker h p = Some f → tracker h' p = Some f.

#[export] Instance kept_preorder : PreOrder kept.
Proof.
  split; [by intros h; split|]. intros h1 h2 h3 [H1 T1] [H2 T2]. split; [|by auto].
  etrans; [exact H2|exact H1].
Qed.

(** The reconnect token of a slot; none is the empty one. *)
Definition token_of (s : Session) (r : Role) : bytes :=
  match s_peers s r with Some q => p_reconnectToken q | None => [] end.
Definition token_at (h : Hub) (p : nat) (r : Role) : bytes :=
  match store h !! p with Some s => token_of s r | None => [] end.

(** No token is new. *)
Definition tokens_kept (h h' : Hub) : Prop :=
  ∀ p r, token_at h' p r ≠ [] → token_at h p r = token_at h' p r.

#[export] Instance tokens_kept_preorder : PreOrder tokens_kept.
Proof.
  split; [by intros h|]. intros h1 h2 h3 H1 H2 p r Ht. rewrite <- (H2 p r Ht).
  apply H1. by rewrite (H2 p r Ht).
Qed.

Lemma same_store_tokens h h' : store h' = store h → tokens_kept h h'.
Proof. intros He p r _. unfold token_at. by rewrite He. Qed.

Lemma update_tokens h p s s' :
  store h !! p = Some s → (∀ r, token_of s' r ≠ [] → token_of s r = token_of s' r) →
  tokens_kept h (update h p s').
Proof.
  intros Hp Hs q r. unfold token_at, update. simpl.
  destruct (decide (p = q)) as [->|]; [|by rewrite list_lookup_insert_ne].
  rewrite list_lookup_insert_eq by (by eapply lookup_lt_Some). rewrite Hp. apply Hs.
Qed.

Lemma token_set_peer s r q r' :
  token_of (set_peer s r q) r' = if decide (r' = r) then p_reconnectToken q else token_of s r'.
Proof. unfold token_of. simpl. by destruct (decide (r' = r)). Qed.

Lemma same_store_kept h h' : store h' = store h → kept h h'.
Proof. intros He. unfold kept, slots_shrink, slot, tracker. by rewrite He. Qed.

Lemma update_kept h p s s' :
  store h !! p = Some s → s_currentFile s' = s_currentFile s →
  (∀ r c, connOf s r = Some c → connOf s' r = Some c) →
  kept h (update h p s').
Proof.
  intros Hp Hf Hs. assert (p < length (store h))%nat by by eapply lookup_lt_Some.
  unfold kept, slots_shrink, slot, tracker, update. simpl. split.
  - intros q r c. destruct (decide (p = q)) as [->|]; [|by rewrite list_lookup_insert_ne].
    rewrite list_lookup_insert_eq by done. rewrite Hp. simpl. auto.
  - intros q f. destruct (decide (p = q)) as [->|]; [|by rewrite list_lookup_insert_ne].
    rewrite list_lookup_insert_eq by done. rewrite Hp. simpl. by rewrite Hf.
Qed.

Lemma not_connected s r : connected (s_peers s r) = false → connOf s r = None.
Proof.
  unfold connOf. destruct (s_peers s r) as [q|]; [|done]. simpl.
  destruct (bool_decide _); [|done]. discriminate.
Qed.

(** Taking a slot that is free. *)
Lemma set_peer_keeps s r q now r' c' :
  connOf s r = None → connOf s r' = Some c' → connOf (set_lastActivity (set_peer s r q) now) r' = Some c'.
Proof.
  intros Hn Hc. rewrite connOf_touched, connOf_set_peer. destruct (decide (r' = r)) as [->|]; [|done].
  by rewrite Hn in Hc.
Qed.

Lemma attach_keeps s r c ip now s' :
  attach s r c ip now = Some s' →
  s_currentFile s' = s_currentFile s ∧ connOf s r = None ∧ connOf s' r = Some c
  ∧ (∀ r' c', connOf s r' = Some c' → connOf s' r' = Some c')
  ∧ ∀ r', token_of s' r' ≠ [] → token_of s r' = token_of s' r'.
Proof.
  unfold attach. destruct (connected _) eqn:E; [done|]. apply not_connected in E. intros [= <-].
  split_and!; [done|done| |by intros; apply set_peer_keeps|].
  - rewrite connOf_touched, connOf_set_peer. by rewrite decide_True.
  - intros r'. change (token_of (set_lastActivity ?s _) r') with (token_of s r').
    rewrite token_set_peer. by case_decide.
Qed.

Lemma reattach_keeps s r token c ip now s' :
  reattach s r token c ip now = Some s' →
  s_currentFile s' = s_currentFile s ∧ connOf s r = None ∧ connOf s' r = Some c
  ∧ (∀ r' c', connOf s r' = Some c' → connOf s' r' = Some c')
  ∧ (∀ r', token_of s' r' ≠ [] → token_of s r' = token_of s' r')
  ∧ token ≠ [] ∧ token_of s r = token.
Proof.
  unfold reattach. destruct (s_peers s r) as [q|] eqn:Hq; [|done].
  destruct (connected _) eqn:E; [done|]. case_match eqn:Et; [done|]. rewrite <- Hq in E.
  apply not_connected in E. intros [= <-].
  apply orb_false_elim in Et as [Hne Heq]. apply bool_decide_eq_false in Hne.
  apply negb_false_iff, bool_decide_eq_true in Heq.
  split_and!; [done|done| |by intros; apply set_peer_keeps| |congruence|].
  - rewrite connOf_touched, connOf_set_peer. by rewrite decide_True.
  - intros r'. change (token_of (set_lastActivity ?s _) r') with (token_of s r').
    rewrite token_set_peer. case_decide; [|done]. subst r'. unfold token_of. by rewrite Hq.
  - unfold token_of. by rewrite Hq.
Qed.

Section Kept.
Context (cfg : Config).

Lemma add_session_kept h now ip c id : kept h (add_session h now ip c id).
Proof.
  unfold kept, slots_shrink, slot, tracker, add_session. simpl.
  split; intros p; (destruct (store h !! p) as [s|] eqn:Hp; [|done]);
    by rewrite lookup_app_l, Hp by (by eapply lookup_lt_Some).
Qed.

Lemma add_session_tokens h now ip c id : tokens_kept h (add_session h now ip c id).
Proof.
  intros p r. unfold token_at, add_session. simpl.
  destruct (decide (p < length (store h))%nat); [by rewrite lookup_app_l|].
  rewrite lookup_app_r by lia. destruct (p - length (store h))%nat; [|done]. simpl.
  unfold token_of. simpl. by case_decide.
Qed.

Lemma add_session_takes h now ip c id :
  slot (add_session h now ip c id) (length (store h)) RoleHost = Some c.
Proof. unfold slot, add_session. simpl. by rewrite lookup_app_r, Nat.sub_diag by lia. Qed.

(** What a call that attaches a connection does: it takes a free slot, and
    writes to its own connection and to the one across from that slot. *)
Record attaches (h h' : Hub) (c : nat) (o : list out) (x : nat * Role + error) : Prop := {
  at_kept : kept h h';
  at_tokens : tokens_kept h h';
  at_takes : ∀ p r, x = inl (p, r) → slot h' p r = Some c;
  at_writes : ∀ c' m, Send c' m ∈ o →
    c' = c ∨ ∃ p r, slot h p r = Some c' ∧ slot h p (other r) = None
}.

Lemma refused_attaches h h' c e : store h' = store h → attaches h h' c [] (inr e).
Proof. intros He. split; [by apply same_store_kept|by apply same_store_tokens|done|intros c' m Hi; by apply elem_of_nil in Hi]. Qed.

Lemma attaches_from h0 h h' c o x :
  store h = store h0 → attaches h h' c o x → attaches h0 h' c o x.
Proof.
  intros He [H1 Ht H2 H3]. split; [| |done|].
  - etrans; [|done]. by apply same_store_kept.
  - etrans; [|done]. by apply same_store_tokens.
  - intros c' m Hi. unfold slot in *. rewrite He in H3. eauto.
Qed.

Lemma attaches_to h h' h1 c o x :
  store h1 = store h' → attaches h h' c o x → attaches h h1 c o x.
Proof.
  intros He [H1 Ht H2 H3]. split; [| |unfold slot in *; by rewrite He|done].
  - etrans; [done|]. by apply same_store_kept.
  - etrans; [done|]. by apply same_store_tokens.
Qed.

Lemma new_session_attaches h now ip c id m :
  attaches h (add_session h now ip c id) c [Send c m] (inl (length (store h), RoleHost)).
Proof.
  split; [apply add_session_kept|apply add_session_tokens|intros p r [= <- <-]; apply add_session_takes|].
  intros c' m' Hi. apply list_elem_of_singleton in Hi. injection Hi as -> ->. by left.
Qed.

(** A free slot of a session is taken. *)
Lemma taken_attaches h p s s' r c ip o :
  store h !! p = Some s → s_currentFile s' = s_currentFile s → connOf s r = None →
  connOf s' r = Some c → (∀ r' c', connOf s r' = Some c' → connOf s' r' = Some c') →
  (∀ r', token_of s' r' ≠ [] → token_of s r' = token_of s' r') →
  (∀ c' m, Send c' m ∈ o → c' = c ∨ connOf s (other r) = Some c') →
  attaches h (incr (update h p s') ip) c o (inl (p, r)).
Proof.
  intros Hp Hf Hn Hc Hk Ht Ho. split.
  - etrans; [by eapply update_kept|by apply same_store_kept].
  - etrans; [by eapply update_tokens|by apply same_store_tokens].
  - intros p' r' [= <- <-]. unfold slot, update. simpl.
    rewrite list_lookup_insert_eq by (by eapply lookup_lt_Some). done.
  - intros c' m Hi. destruct (Ho _ _ Hi) as [->|Hs]; [by left|right].
    exists p, (other r). unfold slot. rewrite Hp. by rewrite other_other.
Qed.

Lemma attachGuest_attaches h now p ip c h' o x :
  attachGuest h now p ip c = (h', o, x) → attaches h h' c o x.
Proof.
  unfold attachGuest. destruct (store h !! p) as [s|] eqn:Hp; [|intros; simplify_eq; by apply refused_attaches].
  destruct (connOf s RoleHost) as [hc|] eqn:Hh; [|intros; simplify_eq; by apply refused_attaches].
  destruct (attach s RoleGuest c ip now) as [s'|] eqn:E; intros; simplify_eq; [|by apply refused_attaches].
  apply attach_keeps in E as (Hf&Hn&Hc&Hk&Hto). eapply taken_attaches; try done.
  intros c' m Hi. rewrite !elem_of_cons, elem_of_nil in Hi. destruct Hi as [[= -> ->]|[[= -> ->]|[]]]; auto.
Qed.

Lemma beginSession_attaches h now op ip c en h' o x :
  beginSession cfg h now op ip c en = (h', o, x) → attaches h h' c o x.
Proof.
  unfold beginSession. destruct op as [[]|]; [..|by intros; simplify_eq; apply refused_attaches].
  - unfold CreateSession. case_match; intros; simplify_eq;
      [by apply refused_attaches|apply new_session_attaches].
  - unfold JoinSession. repeat case_match; intros; simplify_eq;
      try by apply refused_attaches. by eapply attachGuest_attaches.
  - unfold CreateCodeSession. repeat case_match; intros; simplify_eq; try by apply refused_attaches.
    by eapply attaches_to; [|apply new_session_attaches].
  - unfold JoinByCode. pose proof (guess_store cfg h ip now) as Hs.
    destruct (checkAndRecordGuessLocked cfg h ip now) as [h1 ok]. simpl in Hs.
    repeat case_match; intros; simplify_eq; try by apply refused_attaches.
    eapply attaches_from; [|by eapply attachGuest_attaches]. done.
  - unfold Reconnect. destruct (sessions h !! id) as [p|]; simpl;
      [|intros; simplify_eq; by apply refused_attaches].
    destruct (store h !! p) as [s|] eqn:Hp; simpl; [|intros; simplify_eq; by apply refused_attaches].
    case_match; [intros; simplify_eq; by apply refused_attaches|].
    destruct (reattach s r token c ip now) as [s'|] eqn:E; intros; simplify_eq;
      [|by apply refused_attaches].
    pose proof (reattach_conns _ _ _ _ _ _ _ E) as Hg.
    apply reattach_keeps in E as (Hf&Hn&Hc&Hk&Hto&_). eapply taken_attaches; try done.
    intros c' m [Hi|Hi]%elem_of_app.
    + right. destruct (connOf s' (other r)) as [c1|] eqn:E1; simpl in Hi; [|by apply elem_of_nil in Hi].
      apply list_elem_of_singleton in Hi. injection Hi as -> ->.
      destruct (Hg _ _ E1) as [?|[_ He]]; [done|]. by destruct (other_ne r).
    + left. apply list_elem_of_singleton in Hi. by injection Hi.
Qed.

End Kept.

(** ** What a connection's loop does *)

Section Loop.
Context (cfg : Config).

Lemma HandleDisconnect_kept h now p1 r1 :
  let h' := (HandleDisconnect h now p1 r1).1 in
  (∀ p r c, slot h p r = Some c → (p, r) ≠ (p1, r1) → slot h' p r = Some c)
  ∧ ∀ p f, tracker h p = Some f → tracker h' p = Some f.
Proof.
  unfold HandleDisconnect. destruct (store h !! p1) as [s|] eqn:Hp; [|done].
  destruct (markDisconnected s r1 now) as [[s' oc] ip] eqn:E. unfold slot, tracker. simpl.
  rewrite decr_store. unfold update. simpl.
  assert (s_currentFile s' = s_currentFile s ∧ ∀ r c, r ≠ r1 → connOf s r = Some c → connOf s' r = Some c)
    as [Hf Hk].
  { unfold markDisconnected in E. destruct (s_peers s r1); simplify_eq; [|done].
    split; [done|]. intros r c Hr. by rewrite connOf_set_peer, decide_False. }
  assert (p1 < length (store h))%nat by by eapply lookup_lt_Some. split.
  - intros p r c. destruct (decide (p1 = p)) as [->|]; [|by rewrite list_lookup_insert_ne].
    rewrite list_lookup_insert_eq by done. rewrite Hp. simpl. intros Hc Hn. apply Hk; [congruence|done].
  - intros p f. destruct (decide (p1 = p)) as [->|]; [|by rewrite list_lookup_insert_ne].
    rewrite list_lookup_insert_eq by done. rewrite Hp. simpl. by rewrite Hf.
Qed.

Lemma EndSession_kept h p1 r1 : kept h (EndSession h p1 r1).1.
Proof.
  unfold EndSession. destruct (store h !! p1) as [s|] eqn:Hp; [|done].
  pose proof (end_peer_store h (connAndIP s (other r1)) "ended_by_peer") as Hs.
  destruct (end_peer _ _ _) as [h' o]. by apply same_store_kept.
Qed.

Lemma RegisterReconnectToken_kept h p1 r1 token : kept h (RegisterReconnectToken h p1 r1 token).
Proof.
  unfold RegisterReconnectToken. destruct (store h !! p1) as [s|] eqn:Hp; [|done].
  unfold setReconnectToken. destruct (s_peers s r1) as [q|] eqn:Hq; [|by apply (update_kept _ _ s)].
  apply (update_kept _ _ s); [done..|]. intros r c. rewrite connOf_set_peer.
  destruct (decide (r = r1)) as [->|]; [|done]. unfold connOf. by rewrite Hq.
Qed.

Lemma update_slots h p s s' :
  store h !! p = Some s → s_peers s' = s_peers s → slots_shrink (update h p s') h.
Proof.
  intros Hp Hs q r c. unfold slot, update. simpl.
  destruct (decide (p = q)) as [->|]; [|by rewrite list_lookup_insert_ne].
  rewrite list_lookup_insert_eq by (by eapply lookup_lt_Some). rewrite Hp. simpl. unfold connOf.
  by rewrite Hs.
Qed.

Lemma update_tracker h p s q : q ≠ p → tracker (update h p s) q = tracker h q.
Proof. intros. unfold tracker, update. simpl. by rewrite list_lookup_insert_ne. Qed.

Lemma Relay_kept h now p1 r1 d :
  let h' := (Relay cfg h now p1 r1 d).1 in
  slots_shrink h' h ∧ ∀ p, p ≠ p1 → tracker h' p = tracker h p.
Proof.
  unfold Relay. destruct (store h !! p1) as [s|] eqn:Hp; [|done]. cbv zeta. destruct d as [t|frame].
  - split; [by apply (update_slots _ _ s)|intros; by apply update_tracker].
  - pose proof (recordChunkBytes_peers (set_lastActivity s now) frame (MaxFileSize cfg)) as He.
    destruct (recordChunkBytes _ _ _) as [s' v]. simpl in *.
    split; [by apply (update_slots _ _ s)|intros; by apply update_tracker].
Qed.

(** It writes to the connections of its session only. *)
Definition writes_within (h : Hub) (p : nat) (o : list out) : Prop :=
  ∀ c m, Send c m ∈ o → ∃ r, slot h p r = Some c.

Lemma writes_none h p c reason : writes_within h p [Close c reason].
Proof. intros c' m Hi. apply list_elem_of_singleton in Hi. done. Qed.

Lemma writes_app h p o1 o2 : writes_within h p o1 → writes_within h p o2 → writes_within h p (o1 ++ o2).
Proof. intros H1 H2 c m [Hi|Hi]%elem_of_app; eauto. Qed.

Lemma notify_within h p r s m :
  (∀ c, connOf s r = Some c → slot h p r = Some c) → writes_within h p (notify (connOf s r) m).
Proof.
  intros Hs c m' Hi. destruct (connOf s r) as [c0|] eqn:E; simpl in Hi; [|by apply elem_of_nil in Hi].
  apply list_elem_of_singleton in Hi. injection Hi as -> ->. exists r. auto.
Qed.

Lemma end_peer_within h p s r reason :
  store h !! p = Some s → writes_within h p (end_peer h (connAndIP s r) reason).2.
Proof.
  intros Hp. unfold connAndIP, end_peer. destruct (s_peers s r) as [q|] eqn:Hq; simpl; [|by intros c m ?%elem_of_nil].
  destruct (bool_decide _) eqn:E; simpl; [|by intros c m ?%elem_of_nil].
  intros c m Hi. rewrite !elem_of_cons, elem_of_nil in Hi. destruct Hi as [Hi|[Hi|[]]]; [|done].
  injection Hi as -> ->. exists r. unfold slot. rewrite Hp. simpl. unfold connOf. rewrite Hq. simpl.
  by rewrite E.
Qed.

Lemma EndSession_within h p r : writes_within h p (EndSession h p r).2.
Proof.
  unfold EndSession. destruct (store h !! p) as [s|] eqn:Hp; [|by intros c m ?%elem_of_nil].
  pose proof (end_peer_within h p s (other r) "ended_by_peer" Hp) as Hw.
  by destruct (end_peer _ _ _) as [h' o].
Qed.

Lemma HandleDisconnect_within h now p r : writes_within h p (HandleDisconnect h now p r).2.
Proof.
  unfold HandleDisconnect. destruct (store h !! p) as [s|] eqn:Hp; [|by intros c m ?%elem_of_nil].
  unfold markDisconnected. destruct (s_peers s r) as [q|] eqn:Hq; simpl.
  - apply notify_within. intros c. rewrite connOf_set_peer, decide_False by apply other_ne.
    unfold slot. by rewrite Hp.
  - apply notify_within. unfold slot. by rewrite Hp.
Qed.

Lemma Relay_within h now p r d : writes_within h p (Relay cfg h now p r d).2.
Proof.
  unfold Relay. destruct (store h !! p) as [s|] eqn:Hp; [|by intros c m ?%elem_of_nil].
  assert (∀ s' r', s_peers s' = s_peers s → ∀ c, connOf s' r' = Some c → slot h p r' = Some c) as Hs.
  { intros s' r' He c. unfold slot. rewrite Hp. simpl. unfold connOf. by rewrite He. }
  cbv zeta. destruct d as [t|frame]; simpl; [apply notify_within, Hs; done|].
  pose proof (recordChunkBytes_peers (set_lastActivity s now) frame (MaxFileSize cfg)) as He.
  destruct (recordChunkBytes _ _ _) as [s' v]. simpl in *.
  destruct (v_drop v); [by intros c m ?%elem_of_nil|].
  apply writes_app; [apply notify_within, Hs; done|].
  destruct (v_sendAbort v); [|by intros c m ?%elem_of_nil].
  apply writes_app; apply notify_within, Hs; done.
Qed.

Lemma serve_gone_within sv now c p r : writes_within (hub sv) p (serve_gone sv now c p r).2.
Proof.
  unfold serve_gone. pose proof (HandleDisconnect_within (hub sv) now p r) as Hw.
  destruct (HandleDisconnect _ _ _ _) as [h o]. by apply writes_app, writes_none.
Qed.

Lemma serve_message_within sv now c p r d : writes_within (hub sv) p (serve_message cfg sv now c p r d).2.
Proof.
  unfold serve_message. destruct (input_of d) as [|[token|]|]; [|by intros c' m ?%elem_of_nil..|].
  - pose proof (EndSession_within (hub sv) p r) as Hw.
    destruct (EndSession _ _ _) as [h o]. by apply writes_app, writes_none.
  - pose proof (Relay_within (hub sv) now p r d) as Hw. by destruct (Relay _ _ _ _ _ _) as [h o].
Qed.

(** ** Reaping *)

Definition expired (s : Session) (now : Z) : bool :=
  (SessionInactivityTimeout cfg <=? now - s_lastActivity s)
  || graceExpired cfg now (s_peers s RoleHost) || graceExpired cfg now (s_peers s RoleGuest).

Lemma reapSession_spared h now s : expired s now = false → reapSession cfg h now s = (h, []).
Proof.
  unfold expired, reapSession. intros [[H1 H2]%orb_false_elim H3]%orb_false_elim. by rewrite H1, H2, H3.
Qed.

Lemma reapSession_within h now p s :
  store h !! p = Some s → writes_within h p (reapSession cfg h now s).2.
Proof.
  intros Hp. assert (∀ reason, writes_within h p (notifyAndClose h s reason).2) as Hn.
  { intros reason. unfold notifyAndClose.
    pose proof (end_peer_within h p s RoleHost reason Hp) as H1.
    pose proof (end_peer_store h (connAndIP s RoleHost) reason) as Hst.
    destruct (end_peer h _ _) as [h1 o1]. simpl in Hst. rewrite <- Hst in Hp.
    pose proof (end_peer_within h1 p s RoleGuest reason Hp) as H2.
    destruct (end_peer h1 _ _) as [h2 o2]. apply writes_app; [done|]. simpl in H2.
    intros c m Hi. destruct (H2 c m Hi) as [r Hr]. exists r. unfold slot in *. by rewrite <- Hst. }
  unfold reapSession. case_match; [apply Hn|]. case_match; [apply Hn|]. by intros c m ?%elem_of_nil.
Qed.

(** It writes to the connections of expired sessions only. *)
Lemma ReapOnce_within h now c m :
  Send c m ∈ (ReapOnce cfg h now).2 →
  ∃ p s r, store h !! p = Some s ∧ expired s now = true ∧ slot h p r = Some c.
Proof.
  unfold ReapOnce. cbv zeta. set (h0 := with_guesses _ _).
  assert (store h0 = store h) as Hst by done. clearbody h0. intros Hi.
  assert (Send c m ∈ @nil out ∨ ∃ p s r,
    store h !! p = Some s ∧ expired s now = true ∧ slot h p r = Some c) as [Hn|?]; [|by apply elem_of_nil in Hn|done].
  revert h0 Hst Hi. generalize (@nil out) as o. generalize ((map_to_list (sessions h)).*1) as ids.
  induction ids as [|id ids IH]; intros o h0 Hst Hi; simpl in Hi; [by left|].
  destruct (sessions h0 !! id) as [p|]; simpl in Hi; [|by eapply IH].
  destruct (store h0 !! p) as [s|] eqn:Hp; [|by eapply IH].
  pose proof (reapSession_store cfg h0 now s) as Hr.
  pose proof (reapSession_within h0 now p s Hp) as Hw.
  destruct (reapSession cfg h0 now s) as [h1 o1] eqn:E. simpl in *.
  destruct (IH _ h1 ltac:(congruence) Hi) as [[?|Ho]%elem_of_app|?]; [by left| |by right].
  right. destruct (Hw _ _ Ho) as [r Hs]. exists p, s, r. unfold slot in Hs. rewrite Hst in Hp, Hs.
  split_and!; [done| |done]. destruct (expired s now) eqn:Ex; [done|].
  rewrite (reapSession_spared h0 now s Ex) in E. injection E as <- <-. by apply elem_of_nil in Ho.
Qed.

End Loop.

(** ** The pair *)

Section Pair.
Context (cfg : Config).
Abbreviation step := (step cfg).

(** Each connection's handler holds its slot. *)
Definition loops_hold (sv : server) : Prop :=
  ∀ c p r, loops sv !! c = Some (p, r) → slot (hub sv) p r = Some c.

Lemma loops_hold_kept sv h l :
  slots_shrink h (hub sv) → l ⊆ loops sv → loops_hold sv →
  loops_hold {| hub := h; loops := l; seen := seen sv |}.
Proof. intros Hk Hl Hs c p r Hc. apply Hk, Hs. by eapply lookup_weaken. Qed.

Lemma serve_gone_hold sv now c p r :
  loops sv !! c = Some (p, r) → loops_hold sv → loops_hold (serve_gone sv now c p r).1.
Proof.
  intros Hc Hs. unfold serve_gone. destruct (HandleDisconnect_kept (hub sv) now p r) as [Hk _].
  destruct (HandleDisconnect _ _ _ _) as [h o]. simpl in *. intros c' p' r' Hl. simpl in *.
  apply lookup_delete_Some in Hl as [Hne Hl]. apply Hk; [by apply Hs|]. intros [= -> ->].
  apply Hs in Hc, Hl. congruence.
Qed.

Lemma serve_message_hold sv now c p r d :
  loops_hold sv → loops_hold (serve_message cfg sv now c p r d).1.
Proof.
  intros Hs. unfold serve_message. destruct (input_of d) as [|[token|]|]; [| |done|].
  - pose proof (EndSession_kept (hub sv) p r) as [Hk _]. destruct (EndSession _ _ _) as [h o].
    apply (loops_hold_kept sv); [done|apply delete_subseteq|done].
  - apply (loops_hold_kept sv); [apply RegisterReconnectToken_kept|done|done].
  - pose proof (Relay_kept cfg (hub sv) now p r d) as [Hk _]. destruct (Relay _ _ _ _ _ _) as [h o].
    by apply (loops_hold_kept sv).
Qed.

Lemma serve_first_hold sv now ip c en d :
  loops_hold sv → loops_hold (serve_first cfg sv now ip c en d).1.
Proof.
  intros Hs. unfold serve_first.
  destruct (beginSession cfg _ _ _ _ _ _) as [[h o] [[p r]|e]] eqn:E; simpl;
    apply beginSession_attaches in E as [[Hk _] _ Ht _].
  - intros c' p' r' Hl. simpl in *.
    apply lookup_insert_Some in Hl as [[<- [= <- <-]]|[_ Hl]]; [by apply Ht|by apply Hk, Hs].
  - intros c' p' r' Hl. simpl in *. by apply Hk, Hs.
Qed.

Lemma step_hold sv e sv' o : loops_hold sv → step sv e = Some (sv', o) → loops_hold sv'.
Proof.
  intros Hs He. change sv' with (sv', o).1. destruct e; unfold Relay.step in He.
  - case_bool_decide; [done|]. injection He as <-.
    case_match; [exact Hs|by apply serve_first_hold].
  - destruct (loops sv !! c) as [[p r]|] eqn:Hc; simpl in He; [|done]. injection He as <-.
    case_match; [by apply serve_gone_hold|by apply serve_message_hold].
  - destruct (loops sv !! c) as [[p r]|] eqn:Hc; simpl in He; [|done]. injection He as <-.
    by apply serve_gone_hold.
  - pose proof (ReapOnce_store cfg (hub sv) now) as Hst. destruct (ReapOnce _ _ _) as [h o1].
    simplify_eq. apply (loops_hold_kept sv); [by apply same_store|done|done].
Qed.

(** The handlers of [a] and [b] serve session [p], [a] in role [r]. *)
Record pair_at (p : nat) (r : Role) (a b : nat) (sv : server) : Prop := {
  pa_ok : server_ok sv;
  pa_hold : loops_hold sv;
  pa_a : loops sv !! a = Some (p, r);
  pa_b : loops sv !! b = Some (p, other r)
}.

Lemma pair_swap p r a b sv : pair_at p r a b sv → pair_at p (other r) b a sv.
Proof. intros []. split; [done..|]. by rewrite other_other. Qed.

Lemma run_pair es sv log p r a b :
  run (log_step cfg) es (new_server, []) = Some (sv, log) →
  loops sv !! a = Some (p, r) → loops sv !! b = Some (p, other r) → pair_at p r a b sv.
Proof.
  intros Hrun Ha Hb. split; [by eapply run_server_ok| |done..].
  change (loops_hold (sv, log).1). revert Hrun.
  apply (run_ind (log_step cfg) (λ x, loops_hold x.1)); [by intros c q s|].
  intros [sv1 o1] e [sv2 o2] H1. unfold log_step. simpl.
  destruct (step sv1 e) as [[sv3 o3]|] eqn:E; [|done]. intros [= <- _]. by eapply step_hold.
Qed.

(** Who sits in session [p]. *)
Lemma pair_seat p r a b sv r' c :
  pair_at p r a b sv → slot (hub sv) p r' = Some c → c = a ∨ c = b.
Proof.
  intros [_ Hh Ha Hb] Hs. apply Hh in Ha, Hb.
  destruct (decide (r' = r)) as [->|Hne]; [left; congruence|right].
  assert (r' = other r) as -> by (by destruct r, r'). congruence.
Qed.

(** Where [a] and [b] sit. *)
Lemma pair_seated p r a b sv p' r' c :
  pair_at p r a b sv → slot (hub sv) p' r' = Some c → c = a ∨ c = b →
  p' = p ∧ slot (hub sv) p (other r') ≠ None.
Proof.
  intros [Hok Hh Ha Hb] Hs Hc. apply Hh in Ha, Hb.
  destruct Hc as [->| ->].
  - destruct (ok_unique _ Hok _ _ _ _ _ Hs Ha) as [-> ->]. split; [done|congruence].
  - destruct (ok_unique _ Hok _ _ _ _ _ Hs Hb) as [-> ->]. rewrite other_other. split; [done|congruence].
Qed.

(** The events that are none of the pair's, and reaps that find its session in
    use. *)
Definition foreign (p a b : nat) (sv : server) (e : event) : Prop :=
  match e with
  | First _ _ _ _ _ => True
  | Later _ c _ | Gone _ c => c ≠ a ∧ c ≠ b
  | Reap now => ∀ s, store (hub sv) !! p = Some s → expired cfg s now = false
  end.

#[export] Instance foreign_dec p a b sv e : Decision (foreign p a b sv e).
Proof.
  destruct e; simpl; try apply _.
  destruct (store (hub sv) !! p) as [s|]; [|left; naive_solver].
  destruct (decide (expired cfg s now = false)); [left|right]; naive_solver.
Defined.

Definition silent (c : nat) (o : list out) : Prop := ∀ m, Send c m ∉ o.

(** Another connection's handler serves another session. *)
Lemma stranger p r a b sv c p' r' :
  pair_at p r a b sv → loops sv !! c = Some (p', r') → c ≠ a → c ≠ b → p' ≠ p.
Proof.
  intros Hp Hc Ha Hb ->. apply (pa_hold _ _ _ _ _ Hp) in Hc. apply (pair_seat _ _ _ _ _ _ _ Hp) in Hc.
  naive_solver.
Qed.

Lemma within_silent p r a b sv p' o c :
  pair_at p r a b sv → p' ≠ p → writes_within (hub sv) p' o → c = a ∨ c = b → silent c o.
Proof.
  intros Hp Hne Hw Hc m Hi. destruct (Hw _ _ Hi) as [r' Hs].
  by destruct (pair_seated _ _ _ _ _ _ _ _ Hp Hs Hc).
Qed.

(** What a foreign event leaves alone. *)
Lemma foreign_loops p r a b sv e sv' o c :
  pair_at p r a b sv → foreign p a b sv e → step sv e = Some (sv', o) → c = a ∨ c = b →
  loops sv' !! c = loops sv !! c.
Proof.
  intros Hp Hf He Hc.
  assert (c ∈ seen sv) as Hseen.
  { destruct Hp as [Hok _ Ha Hb]. destruct Hc as [->| ->]; by eapply ok_loops. }
  destruct e; unfold Relay.step in He; simpl in Hf.
  - case_bool_decide; [done|]. unfold refuse_first, serve_first in He.
    destruct (too_large d); [by simplify_eq|].
    destruct (beginSession cfg _ _ _ _ _ _) as [[h o1] [x|e]]; simplify_eq; simpl; [|done].
    rewrite lookup_insert_ne; [done|]. by intros ->.
  - destruct (loops sv !! c0) as [[p' r']|]; simplify_eq/=.
    assert (c0 ≠ c) by naive_solver. unfold serve_gone, serve_message in He.
    repeat case_match; simplify_eq; simpl; rewrite ?lookup_delete_ne by done; done.
  - destruct (loops sv !! c0) as [[p' r']|]; simplify_eq/=.
    assert (c0 ≠ c) by naive_solver. unfold serve_gone in He. case_match. simplify_eq. simpl.
    by rewrite lookup_delete_ne.
  - case_match. by simplify_eq.
Qed.

Lemma foreign_tracker p r a b sv e sv' o f :
  pair_at p r a b sv → foreign p a b sv e → step sv e = Some (sv', o) →
  tracker (hub sv) p = Some f → tracker (hub sv') p = Some f.
Proof.
  intros Hp Hf He Ht. destruct e; unfold Relay.step in He; simpl in Hf.
  - case_bool_decide; [done|]. unfold refuse_first, serve_first in He.
    destruct (too_large d); [by simplify_eq|].
    destruct (beginSession cfg _ _ _ _ _ _) as [[h o1] x] eqn:E.
    apply beginSession_attaches in E as [[_ Hk] _ _ _]. destruct x; simplify_eq; by apply Hk.
  - destruct (loops sv !! c) as [[p' r']|] eqn:Hc; simplify_eq/=.
    assert (p' ≠ p) by (by eapply stranger; naive_solver).
    unfold serve_gone, serve_message in He.
    pose proof (HandleDisconnect_kept (hub sv) now p' r') as [_ Hd].
    pose proof (EndSession_kept (hub sv) p' r') as [_ Hend].
    pose proof (Relay_kept cfg (hub sv) now p' r' d) as [_ Hr].
    destruct (HandleDisconnect _ _ _ _), (EndSession _ _ _), (Relay _ _ _ _ _ _). simpl in *.
    repeat case_match; simplify_eq; simpl; auto; [by apply RegisterReconnectToken_kept|by rewrite Hr].
  - destruct (loops sv !! c) as [[p' r']|] eqn:Hc; simplify_eq/=. unfold serve_gone in He.
    pose proof (HandleDisconnect_kept (hub sv) now p' r') as [_ Hd].
    destruct (HandleDisconnect _ _ _ _). simplify_eq. simpl in *. auto.
  - pose proof (ReapOnce_store cfg (hub sv) now) as Hst. destruct (ReapOnce _ _ _). simplify_eq.
    simpl in *. unfold tracker. by rewrite Hst.
Qed.

Lemma foreign_silent p r a b sv e sv' o c :
  pair_at p r a b sv → foreign p a b sv e → step sv e = Some (sv', o) → c = a ∨ c = b → silent c o.
Proof.
  intros Hp Hf He Hc.
  destruct e; unfold Relay.step in He; simpl in Hf.
  - case_bool_decide as Hn; [done|].
    assert (c0 ≠ c) as Hne.
    { intros ->. destruct Hn, Hp as [Hok _ Ha Hb]. destruct Hc as [->| ->]; by eapply ok_loops. }
    unfold refuse_first, serve_first in He. destruct (too_large d).
    { simplify_eq. intros m Hi. by apply list_elem_of_singleton in Hi. }
    destruct (beginSession cfg _ _ _ _ _ _) as [[h o1] x] eqn:E.
    apply beginSession_attaches in E as [_ _ _ Hw].
    assert (silent c o1) as Hs.
    { intros m Hi. destruct (Hw _ _ Hi) as [->|(q&s&Hq&Hno)]; [done|].
      destruct (pair_seated _ _ _ _ _ _ _ _ Hp Hq Hc) as [-> ?]. done. }
    destruct x; simplify_eq; [done|]. intros m [Hi|Hi]%elem_of_app; [by eapply Hs|].
    rewrite !elem_of_cons, elem_of_nil in Hi. by destruct Hi as [[= -> _]|[?|[]]].
  - destruct (loops sv !! c0) as [[p' r']|] eqn:Hc0; simplify_eq/=.
    assert (p' ≠ p) by (by eapply stranger; naive_solver).
    pose proof (serve_gone_within sv now c0 p' r'). pose proof (serve_message_within cfg sv now c0 p' r' d).
    assert (writes_within (hub sv) p' o); [|by eapply within_silent].
    case_match; rewrite He in *; done.
  - destruct (loops sv !! c0) as [[p' r']|] eqn:Hc0; simplify_eq/=.
    assert (p' ≠ p) by (by eapply stranger; naive_solver).
    pose proof (serve_gone_within sv now c0 p' r') as Hw. rewrite He in Hw.
    by eapply within_silent.
  - pose proof (ReapOnce_within cfg (hub sv) now c) as Hw. destruct (ReapOnce _ _ _) as [h o1].
    simplify_eq. intros m Hi. destruct (Hw _ Hi) as (q&s&r'&Hq&Hex&Hs).
    destruct (pair_seated _ _ _ _ _ _ _ _ Hp Hs Hc) as [-> _]. by rewrite (Hf s Hq) in Hex.
Qed.

Lemma foreign_pair p r a b sv e sv' o :
  pair_at p r a b sv → foreign p a b sv e → step sv e = Some (sv', o) → pair_at p r a b sv'.
Proof.
  intros Hp Hf He. split; [by eapply step_server_ok, He; apply Hp|by eapply step_hold, He; apply Hp|..].
  - rewrite (foreign_loops p r a b sv e sv' o a); auto. apply Hp.
  - rewrite (foreign_loops p r a b sv e sv' o b); auto. apply Hp.
Qed.

(** ** The pair's own messages *)

(** The frame is passed on, and the file is below the limit. *)
Definition admitted (f : currentFileState) (frame : bytes) (f' : currentFileState) : Prop :=
  ∀ s, s_currentFile s = f →
    ∃ s' v, recordChunkBytes s frame (MaxFileSize cfg) = (s', v)
      ∧ s_currentFile s' = f' ∧ v_drop v = false ∧ v_sendAbort v = false.

Definition admits (f : currentFileState) (d : data) (f' : currentFileState) : Prop :=
  match d with DText _ => f' = f | DBinary frame => admitted f frame f' end.

(** A frame of a file that stays below the limit. *)
Lemma record_admitted maxSize id n s frame :
  passing id n s → (chunkFrameHeaderLen ≤ length frame)%nat → nth 0 frame 0 = chunkFrameTypeFile →
  slice 2 18 frame = id → n + Z.of_nat (length frame) ≤ maxSize →
  recordChunkBytes s frame maxSize
  = (set_currentFile s (if Z.land (nth 1 frame 0) 1 =? 1 then no_file
                        else {| cf_fileID := id; cf_active := true; cf_blocked := false;
                                cf_bytesSoFar := n + Z.of_nat (length frame) |}),
     {| v_fileID := id; v_drop := false; v_sendAbort := false |}).
Proof.
  intros Hs Hl Ht Hid Hle. unfold recordChunkBytes.
  rewrite bool_decide_false, Ht, bool_decide_true, Hid by (done || lia). cbn [orb negb]. cbv zeta.
  rewrite (track_passing _ _ _ Hs). cbn [cf_blocked cf_bytesSoFar cf_fileID cf_active].
  by rewrite (proj2 (Z.ltb_ge _ _)).
Qed.

(** A message for the other side, below the limits, goes to it and nowhere
    else, as it is. *)
Lemma relay_passes p r a b sv now d f f' :
  pair_at p r a b sv → tracker (hub sv) p = Some f → input_of d = IRelay → too_large d = false →
  admits f d f' →
  ∃ sv', step sv (Later now a d) = Some (sv', [Send b (MRelayed d)])
    ∧ pair_at p r a b sv' ∧ tracker (hub sv') p = Some f'.
Proof.
  intros Hp Ht Hi Hl Ha. pose proof Hp as [Hok Hh Hla Hlb]. apply Hh in Hlb as Hsb.
  unfold tracker in Ht. destruct (store (hub sv) !! p) as [s|] eqn:Hs; [|done]. injection Ht as <-.
  unfold slot in Hsb. rewrite Hs in Hsb. simpl in Hsb.
  assert (∃ s', Relay cfg (hub sv) now p r d = (update (hub sv) p s', [Send b (MRelayed d)])
                ∧ s_currentFile s' = f') as (s'&Hr&Hf').
  { unfold Relay. rewrite Hs. cbv zeta. destruct d as [t|frame]; simpl in Ha.
    - exists (set_lastActivity s now). rewrite connOf_touched, Hsb. by split.
    - destruct (Ha (set_lastActivity s now) eq_refl) as (s'&v&E&Hf&Hd&Hab).
      pose proof (recordChunkBytes_peers (set_lastActivity s now) frame (MaxFileSize cfg)) as He.
      rewrite E in *. simpl in He. exists s'. rewrite Hd, Hab, app_nil_r. split; [|done].
      f_equal. unfold connOf in *. rewrite He. simpl. by rewrite Hsb. }
  assert (step sv (Later now a d)
          = Some ({| hub := update (hub sv) p s'; loops := loops sv; seen := seen sv |},
                  [Send b (MRelayed d)])) as Hst.
  { unfold Relay.step. rewrite Hla. simpl. rewrite Hl. unfold serve_message. by rewrite Hi, Hr. }
  eexists. split; [exact Hst|]. split.
  - split; [by eapply step_server_ok|by eapply step_hold|done..].
  - unfold tracker, update. simpl. rewrite list_lookup_insert_eq by (by eapply lookup_lt_Some).
    simpl. by rewrite Hf'.
Qed.

End Pair.
