(* ===== verification/HubTokens.v ===== *)
(** * Who may take a place at the relay

    The host's slot of a session is given to a new connection only for the token
    that an earlier connection in that slot had registered; a code is good for
    one guest. *)

From stdpp Require Import base list list_numbers gmap sets strings.
From Stdlib Require Import ZArith Lia.
From S2P Require Import Prelude JsText Hex Json Utf8 WsClient Hub HubFacts HubLimits HubPair.
Open Scope Z_scope.
Import Relay.

Section Tokens.
Context (cfg : Config).
Abbreviation step := (step cfg).
Abbreviation reached es := (run (log_step cfg) es (new_server, [])).

(** ** Where tokens come from *)

Lemma HandleDisconnect_tokens h now p r : tokens_kept h (HandleDisconnect h now p r).1.
Proof.
  unfold HandleDisconnect. destruct (store h !! p) as [s|] eqn:Hp; [|done].
  destruct (markDisconnected s r now) as [[s' oc] ip] eqn:E. simpl.
  etrans; [eapply update_tokens; [exact Hp|]|apply same_store_tokens, decr_store].
  unfold markDisconnected in E. destruct (s_peers s r) as [q|] eqn:Hq; simplify_eq; [|done].
  intros r'. rewrite token_set_peer. case_decide; [|done]. subst r'. unfold token_of. by rewrite Hq.
Qed.

Lemma EndSession_tokens h p r : tokens_kept h (EndSession h p r).1.
Proof.
  unfold EndSession. destruct (store h !! p) as [s|] eqn:Hp; [|done].
  pose proof (end_peer_store h (connAndIP s (other r)) "ended_by_peer") as Hs.
  destruct (end_peer _ _ _) as [h' o]. by apply same_store_tokens.
Qed.

Lemma Relay_tokens h now p r d : tokens_kept h (Relay cfg h now p r d).1.
Proof.
  unfold Relay. destruct (store h !! p) as [s|] eqn:Hp; [|done]. cbv zeta. destruct d as [t|frame].
  - by apply (update_tokens _ _ s).
  - pose proof (recordChunkBytes_peers (set_lastActivity s now) frame (MaxFileSize cfg)) as He.
    destruct (recordChunkBytes _ _ _) as [s' v]. simpl in *. apply (update_tokens _ _ s); [done|].
    intros r'. unfold token_of. by rewrite He.
Qed.

(** Registering sets the token of one slot. *)
Lemma Register_tokens h p r t p' r' :
  let h' := RegisterReconnectToken h p r t in
  token_at h' p' r' ≠ [] →
  token_at h p' r' = token_at h' p' r' ∨ (p', r') = (p, r) ∧ token_at h' p' r' = t.
Proof.
  unfold RegisterReconnectToken. destruct (store h !! p) as [s|] eqn:Hp; [|by left].
  unfold token_at, update. simpl. destruct (decide (p = p')) as [<-|]; [|rewrite list_lookup_insert_ne by done; by left].
  rewrite list_lookup_insert_eq by (by eapply lookup_lt_Some). rewrite Hp. unfold setReconnectToken.
  destruct (s_peers s r) as [q|]; [|by left]. rewrite token_set_peer.
  case_decide as Hr; [subst; by right|by left].
Qed.

(** [t] was sent in a [reconnect_token] by a connection in the slot [(p, r)]. *)
Definition registered (es : list event) (p : nat) (r : Role) (t : bytes) : Prop :=
  ∃ es1 now c d es2 sv log, es = es1 ++ Later now c d :: es2 ∧ reached es1 = Some (sv, log)
    ∧ loops sv !! c = Some (p, r) ∧ input_of d = IReconnectToken (Some t).

Lemma registered_more es e p r t : registered es p r t → registered (es ++ [e]) p r t.
Proof.
  intros (es1&now&c&d&es2&sv&log&->&H). exists es1, now, c, d, (es2 ++ [e]), sv, log.
  by rewrite <- app_assoc.
Qed.

(** Every token was registered. *)
Definition tokens_registered (es : list event) (h : Hub) : Prop :=
  ∀ p r, token_at h p r ≠ [] → registered es p r (token_at h p r).

Lemma kept_registered es h h' :
  tokens_kept h h' → tokens_registered es h → tokens_registered es h'.
Proof. intros Hk Hr p r Ht. rewrite <- (Hk p r Ht). apply Hr. by rewrite (Hk p r Ht). Qed.

Lemma step_registered es sv log e sv' o :
  reached es = Some (sv, log) → tokens_registered es (hub sv) → step sv e = Some (sv', o) →
  tokens_registered (es ++ [e]) (hub sv').
Proof.
  intros Hrun Hr He.
  assert (∀ h', tokens_kept (hub sv) h' → tokens_registered (es ++ [e]) h') as Hk.
  { intros h' Hk p r Ht. apply registered_more. by eapply kept_registered. }
  destruct e as [now ip c en d|now c d|now c|now]; unfold Relay.step in He.
  - case_bool_decide; [done|]. unfold refuse_first, serve_first in He.
    destruct (too_large d); [simplify_eq; by apply Hk|].
    destruct (beginSession cfg _ _ _ _ _ _) as [[h o1] x] eqn:E.
    apply beginSession_attaches in E as [_ Ht _ _]. destruct x; simplify_eq; by apply Hk.
  - destruct (loops sv !! c) as [[p r]|] eqn:Hc; simpl in He; [|done].
    unfold serve_gone, serve_message in He.
    pose proof (HandleDisconnect_tokens (hub sv) now p r) as Hd.
    pose proof (EndSession_tokens (hub sv) p r) as Hend.
    pose proof (Relay_tokens (hub sv) now p r d) as Hrel.
    destruct (HandleDisconnect _ _ _ _), (EndSession _ _ _), (Relay _ _ _ _ _ _). simpl in *.
    destruct (too_large d); [simplify_eq; by apply Hk|].
    destruct (input_of d) as [|[t|]|] eqn:Ei; simplify_eq; simpl; try by apply Hk.
    intros p' r' Ht. destruct (Register_tokens _ _ _ _ _ _ Ht) as [Hold|[[= -> ->] ->]].
    + apply registered_more. rewrite <- Hold. apply Hr. by rewrite Hold.
    + exists es, now, c, d, [], sv, log. done.
  - destruct (loops sv !! c) as [[p r]|] eqn:Hc; simpl in He; [|done]. unfold serve_gone in He.
    pose proof (HandleDisconnect_tokens (hub sv) now p r) as Hd.
    destruct (HandleDisconnect _ _ _ _). simplify_eq. by apply Hk.
  - pose proof (ReapOnce_store cfg (hub sv) now) as Hst. destruct (ReapOnce _ _ _). simplify_eq.
    by apply Hk, same_store_tokens.
Qed.

Lemma run_registered es sv log : reached es = Some (sv, log) → tokens_registered es (hub sv).
Proof.
  revert sv log. induction es as [|e es IH] using rev_ind; intros sv log.
  - intros [= <- <-] p r Ht. by destruct Ht.
  - rewrite run_app. intros ([sv1 log1]&Hrun&H1)%bind_Some. cbn [run] in H1. unfold log_step in H1. simpl in H1.
    destruct (step sv1 e) as [[sv2 o]|] eqn:E; simpl in H1; [|done]. injection H1 as <- <-.
    by eapply step_registered; [|by eapply IH|].
Qed.

(** ** The host's slot *)

(** What can put a connection into a free slot of a session there is. *)
Lemma begun_place h now op ip c en h' o p r :
  beginSession cfg h now op ip c en = (h', o, inl (p, r)) → (p < length (store h))%nat →
  slot h p r = None ∧
  (r = RoleGuest
   ∨ ∃ id t, op = Some (OReconnect id r t) ∧ t ≠ [] ∧ token_at h p r = t).
Proof.
  assert (∀ h q, attachGuest h now q ip c = (h', o, inl (p, r)) → slot h p r = None ∧ r = RoleGuest) as Hg.
  { intros h1 q. unfold attachGuest. destruct (store h1 !! q) as [s|] eqn:Hq; [|done].
    case_match; [|done]. destruct (attach s RoleGuest c ip now) as [s'|] eqn:E; [|done].
    intros; simplify_eq. apply attach_keeps in E as (_&Hn&_). split; [|done].
    unfold slot. by rewrite Hq. }
  unfold beginSession. intros He Hp. destruct op as [[]|]; [| | | | |done].
  - unfold CreateSession in He. case_match; simplify_eq. lia.
  - unfold JoinSession in He. repeat (case_match; try done). apply Hg in He as [? ?]. auto.
  - unfold CreateCodeSession in He. repeat case_match; simplify_eq. lia.
  - unfold JoinByCode in He. pose proof (guess_store cfg h ip now) as Hs.
    destruct (checkAndRecordGuessLocked cfg h ip now) as [h1 ok]. simpl in Hs.
    repeat (case_match; try done). apply Hg in He as [Hn ?]. split; [|by left].
    unfold slot in *. simpl in Hn. by rewrite Hs in Hn.
  - unfold Reconnect in He. destruct (sessions h !! id) as [q|]; simpl in He; [|done].
    destruct (store h !! q) as [s|] eqn:Hq; simpl in He; [|done]. case_match; [done|].
    destruct (reattach s r0 token c ip now) as [s'|] eqn:E; [|done]. simplify_eq.
    apply reattach_keeps in E as (_&Hn&_&_&_&Hne&Htok). unfold slot, token_at. rewrite Hq.
    split; [done|]. right. by eexists _, _.
Qed.

(** C18: Nobody takes the host's place: when a connection gets the host's slot of
    a session that was there before, the slot was free, its first message was a
    [reconnect] as the host, and the token in it is one that a connection which
    held that slot had registered with [reconnect_token] - whatever happened at
    the relay before. *)
Theorem host_place_needs_token es sv log e sv' o p c :
  reached es = Some (sv, log) → step sv e = Some (sv', o) →
  (p < length (store (hub sv)))%nat →
  slot (hub sv') p RoleHost = Some c → slot (hub sv) p RoleHost ≠ Some c →
  slot (hub sv) p RoleHost = None ∧
  ∃ now ip en d id t, e = First now ip c en d ∧ opening_of d = Some (OReconnect id RoleHost t)
    ∧ t ≠ [] ∧ registered es p RoleHost t.
Proof.
  intros Hrun He Hp Hs Hn. pose proof (run_registered _ _ _ Hrun) as Hreg.
  assert (slots_shrink (hub sv) (hub sv') → False) as Hno by (intros Hsh; by apply Hn, Hsh).
  destruct e as [now ip c' en d|now c' d|now c'|now]; unfold Relay.step in He.
  - case_bool_decide; [done|]. unfold refuse_first, serve_first in He.
    destruct (too_large d); [simplify_eq; by destruct Hno|].
    destruct (beginSession cfg _ _ _ _ _ _) as [[h o1] [[q r]|err]] eqn:E; simplify_eq.
    + destruct (beginSession_grow _ _ _ _ _ _ _ _ _ _ E p RoleHost c Hs) as [?|[-> [= <- <-]]]; [done|].
      destruct (begun_place _ _ _ _ _ _ _ _ _ _ E Hp) as [Hfree [?|(id&t&Hop&Hne&Ht)]]; [done|].
      split; [done|]. exists now, ip, en, d, id, t. split_and!; [done..|].
      rewrite <- Ht. apply Hreg. by rewrite Ht.
    + apply beginSession_error in E as [E _]. by destruct Hno.
  - destruct Hno. destruct (loops sv !! c') as [[q r]|] eqn:Hc; simpl in He; [|done].
    unfold serve_gone, serve_message in He.
    pose proof (HandleDisconnect_shrink (hub sv) now q r) as Hd.
    pose proof (EndSession_shrink (hub sv) q r) as Hend.
    pose proof (Relay_shrink cfg (hub sv) now q r d) as Hrel.
    destruct (HandleDisconnect _ _ _ _), (EndSession _ _ _), (Relay _ _ _ _ _ _). simpl in *.
    destruct (too_large d); [by simplify_eq|].
    destruct (input_of d) as [|[t|]|]; simplify_eq; simpl; try done. apply RegisterReconnectToken_shrink.
  - destruct Hno. destruct (loops sv !! c') as [[q r]|] eqn:Hc; simpl in He; [|done]. unfold serve_gone in He.
    pose proof (HandleDisconnect_shrink (hub sv) now q r) as Hd.
    destruct (HandleDisconnect _ _ _ _). by simplify_eq.
  - destruct Hno. pose proof (ReapOnce_store cfg (hub sv) now) as Hst. destruct (ReapOnce _ _ _).
    simplify_eq. by apply same_store.
Qed.

(** ** Codes *)

(** The codes a step issues. *)
Definition issued (code : jsstr) (o : list out) : Prop :=
  ∃ c t, Send c (MCodeSessionCreated code t) ∈ o.

Lemma guess_codes h ip now : codes (checkAndRecordGuessLocked cfg h ip now).1 = codes h.
Proof. unfold checkAndRecordGuessLocked. cbv zeta. by case_match. Qed.

Lemma attachGuest_codes h now p ip c : codes (attachGuest h now p ip c).1.1 = codes h.
Proof. unfold attachGuest. by repeat case_match. Qed.

Lemma JoinByCode_codes h now code ip c :
  let '(h', _, x) := JoinByCode cfg h now code ip c in
  codes h' ⊆ codes h ∧ (x ≠ inr ErrTooManyAttempts → codes h' !! code = None).
Proof.
  unfold JoinByCode. pose proof (guess_codes h ip now) as Hc.
  destruct (checkAndRecordGuessLocked cfg h ip now) as [h1 ok]. simpl in Hc. destruct ok; [|by rewrite <- Hc].
  simpl. rewrite Hc.
  assert (delete code (codes h) ⊆ codes h ∧ delete code (codes h) !! code = None) as [H1 H2].
  { split; [apply delete_subseteq|apply lookup_delete_eq]. }
  destruct (codes h !! code) as [entry|]; [|by split].
  destruct (ce_expiresAt entry <? now); [by split|].
  destruct (MaxSessionsPerIP cfg <=? _); [by split|].
  change (sessions (with_codes h1 ?m)) with (sessions h1).
  destruct (sessions h1 !! ce_session entry) as [n|]; [|by split].
  pose proof (attachGuest_codes (with_codes h1 (delete code (codes h))) now n ip c) as Hg.
  destruct (attachGuest _ _ _ _ _) as [[h2 o2] x]. simpl in Hg. rewrite Hg. by split.
Qed.

Lemma beginSession_codes h now op ip c en h' o x code :
  beginSession cfg h now op ip c en = (h', o, x) → codes h !! code = None → ¬ issued code o →
  codes h' !! code = None.
Proof.
  unfold beginSession. intros He Hc Hi. destruct op as [[]|]; [| | | | |by simplify_eq].
  - unfold CreateSession in He. by case_match; simplify_eq.
  - unfold JoinSession in He. repeat case_match; simplify_eq; try done.
    pose proof (attachGuest_codes h now n ip c) as Hg. rewrite He in Hg. simpl in Hg. by rewrite Hg.
  - unfold CreateCodeSession in He. case_match; [by simplify_eq|].
    destruct (newUniqueCodeLocked h (e_draws en)) as [code1|]; simplify_eq; [|done]. simpl.
    rewrite lookup_insert_ne; [done|]. intros ->. destruct Hi. eexists _, _. by left.
  - pose proof (JoinByCode_codes h now code0 ip c) as Hj. rewrite He in Hj. destruct Hj as [Hj _].
    by eapply lookup_weaken_None.
  - unfold Reconnect in He. repeat case_match; by simplify_eq.
Qed.

(** What the sessions' operations leave alone. *)
Definition rest (h : Hub) : gmap jsstr codeEntry * gmap jsstr guessBudget := (codes h, guesses h).

Lemma decr_rest h ip : rest (decr h ip) = rest h.
Proof. unfold decr. by case_match. Qed.

Lemma end_peer_rest h p reason : rest (end_peer h p reason).1 = rest h.
Proof. destruct p as [[c ip]|]; [|done]. apply decr_rest. Qed.

Lemma rest_codes h h' : rest h' = rest h → codes h' = codes h.
Proof. by intros [= -> _]. Qed.

Lemma serve_gone_codes sv now c p r : codes (hub (serve_gone sv now c p r).1) = codes (hub sv).
Proof.
  unfold serve_gone, HandleDisconnect. destruct (store (hub sv) !! p) as [s|]; [|done].
  destruct (markDisconnected s r now) as [[s' oc] ip]. etrans; [apply rest_codes, decr_rest|done].
Qed.

Lemma serve_message_codes sv now c p r d :
  codes (hub (serve_message cfg sv now c p r d).1) = codes (hub sv).
Proof.
  unfold serve_message. destruct (input_of d) as [|[t|]|]; [| |done|].
  - unfold EndSession. destruct (store (hub sv) !! p) as [s|]; [|done].
    pose proof (rest_codes _ _ (end_peer_rest (hub sv) (connAndIP s (other r)) "ended_by_peer")) as He.
    by destruct (end_peer _ _ _).
  - unfold RegisterReconnectToken. by case_match.
  - unfold Relay. destruct (store (hub sv) !! p) as [s|]; [|done]. cbv zeta.
    destruct d; [done|]. by destruct (recordChunkBytes _ _ _).
Qed.

Lemma reapSession_rest h now s : rest (reapSession cfg h now s).1 = rest h.
Proof.
  assert (∀ reason, rest (notifyAndClose h s reason).1 = rest h) as Hn.
  { intros reason. unfold notifyAndClose.
    pose proof (end_peer_rest h (connAndIP s RoleHost) reason) as H1.
    destruct (end_peer h _ _) as [h1 o1]. cbn [fst] in H1.
    pose proof (end_peer_rest h1 (connAndIP s RoleGuest) reason) as H2.
    destruct (end_peer h1 _ _) as [h2 o2]. cbn [fst] in *. by rewrite <- H1, <- H2. }
  unfold reapSession. case_match; [done|]. by case_match.
Qed.

Lemma ReapOnce_rest h now :
  rest (ReapOnce cfg h now).1
  = (filter (λ x, ce_expiresAt x.2 < now → False) (codes h),
     filter (λ x, now - gb_windowStart x.2 < PairingCodeTTL cfg) (guesses h)).
Proof.
  unfold ReapOnce. cbv zeta. set (h0 := with_guesses _ _).
  trans (rest h0); [|done]. clearbody h0.
  generalize (@nil out) as o. revert h0. generalize ((map_to_list (sessions h)).*1) as ids.
  induction ids as [|id ids IH]; intros h0 o; simpl; [done|].
  destruct (sessions h0 !! id ≫= _) as [s|]; [|by apply IH].
  pose proof (reapSession_rest h0 now s) as Hr.
  destruct (reapSession cfg h0 now s) as [h1 o1]. rewrite <- Hr. apply IH.
Qed.

(** A code that is not in use comes into use only by being issued. *)
Lemma step_codes sv e sv' o code :
  step sv e = Some (sv', o) → codes (hub sv) !! code = None → ¬ issued code o →
  codes (hub sv') !! code = None.
Proof.
  intros He Hc Hi. destruct e as [now ip c en d|now c d|now c|now]; unfold Relay.step in He.
  - case_bool_decide; [done|]. unfold refuse_first, serve_first in He.
    destruct (too_large d); [by simplify_eq|].
    destruct (beginSession cfg _ _ _ _ _ _) as [[h o1] x] eqn:E.
    destruct x; simplify_eq; simpl; eapply beginSession_codes; try done.
    intros (c'&t&Hin). apply Hi. exists c', t. apply elem_of_app. by left.
  - destruct (loops sv !! c) as [[p r]|]; simpl in He; [|done]. injection He as He.
    change sv' with (sv', o).1. rewrite <- He.
    case_match; [by rewrite serve_gone_codes|by rewrite serve_message_codes].
  - destruct (loops sv !! c) as [[p r]|]; simpl in He; [|done]. injection He as He.
    change sv' with (sv', o).1. by rewrite <- He, serve_gone_codes.
  - pose proof (ReapOnce_rest (hub sv) now) as Hr. destruct (ReapOnce _ _ _). simplify_eq.
    injection Hr as Hr _. simpl in *. rewrite Hr. apply map_lookup_filter_None. by left.
Qed.

Lemma log_grows es sv o0 sv' o :
  run (log_step cfg) es (sv, o0) = Some (sv', o) → o0 ⊆ o.
Proof.
  revert sv o0. induction es as [|e es IH]; intros sv o0; cbn [run]; [by intros [= <- <-]|].
  intros ([sv1 o1]&H1&Hr)%bind_Some. unfold log_step in H1. simpl in H1.
  destruct (step sv e) as [[sv2 o2]|]; simpl in H1; [|done]. injection H1 as <- <-.
  apply IH in Hr. set_solver.
Qed.

Lemma run_codes es sv o0 sv' o code :
  run (log_step cfg) es (sv, o0) = Some (sv', o) → codes (hub sv) !! code = None →
  ¬ issued code o → codes (hub sv') !! code = None.
Proof.
  revert sv o0. induction es as [|e es IH]; intros sv o0; cbn [run]; [by intros [= <- <-]|].
  intros ([sv1 o1]&H1&Hr)%bind_Some Hc Hi. unfold log_step in H1. simpl in H1.
  destruct (step sv e) as [[sv2 o2]|] eqn:E; simpl in H1; [|done]. injection H1 as <- <-.
  eapply IH; [exact Hr| |done]. eapply step_codes; [exact E|done|].
  intros (c&t&Hin). apply Hi. exists c, t. apply (log_grows es sv2 (o0 ++ o2) sv' o Hr).
  apply elem_of_app. by right.
Qed.

(** C21: A code is good for one attempt: once [join_by_code] with a code has been
    let through to the codes - whether it paired or not -, every further one with
    the same code, from whatever address, is refused with [invalid_code] or
    [too_many_attempts], and its connection gets no place; until the relay
    issues that code anew. *)
Theorem code_used_once sv now ip c en d code sv1 o1 es sv2 log now' ip' c' en' d' sv3 o3 :
  opening_of d = Some (OJoinByCode code) → opening_of d' = Some (OJoinByCode code) →
  too_large d = false → too_large d' = false →
  step sv (First now ip c en d) = Some (sv1, o1) →
  (∀ text, Send c (MError "too_many_attempts" text) ∉ o1) →
  run (log_step cfg) es (sv1, []) = Some (sv2, log) → ¬ issued code log →
  step sv2 (First now' ip' c' en' d') = Some (sv3, o3) →
  loops sv3 = loops sv2 ∧
  ∃ e, (e = ErrInvalidCode ∨ e = ErrTooManyAttempts)
    ∧ o3 = [Send c' (MError (errCode e) (errText e d')); Close c' "connection closed"].
Proof.
  intros Hd Hd' Hl Hl' H1 Hok Hrun Hi H3.
  assert (codes (hub sv1) !! code = None) as Hc.
  { unfold Relay.step in H1. case_bool_decide; [done|]. rewrite Hl in H1. unfold serve_first in H1.
    rewrite Hd in H1. cbn [beginSession] in H1.
    pose proof (JoinByCode_codes (hub sv) now code ip c) as Hj.
    destruct (JoinByCode cfg (hub sv) now code ip c) as [[h o] x]. destruct Hj as [_ Hj].
    destruct x as [x|e]; simplify_eq; apply Hj; [done|]. intros [= ->].
    apply (Hok (errText ErrTooManyAttempts d)). apply elem_of_app. right. by left. }
  apply (run_codes _ _ _ _ _ _ Hrun) in Hc; [|done].
  unfold Relay.step in H3. case_bool_decide; [done|]. rewrite Hl' in H3. unfold serve_first in H3.
  rewrite Hd' in H3. cbn [beginSession] in H3. unfold JoinByCode in H3.
  pose proof (guess_codes (hub sv2) ip' now') as Hg.
  destruct (checkAndRecordGuessLocked cfg (hub sv2) ip' now') as [h ok]. simpl in Hg.
  destruct ok; simpl in H3; [rewrite Hg, Hc in H3|]; simplify_eq;
    (split; [done|]); [exists ErrInvalidCode|exists ErrTooManyAttempts]; by auto.
Qed.

End Tokens.
