(* ===== verification/HubReap.v ===== *)
(** * Reaping

    What the relay's periodic clean-up removes, what it leaves, and whom it
    tells. *)

From stdpp Require Import base list list_numbers gmap sets strings.
From Stdlib Require Import ZArith Lia.
From S2P Require Import Prelude JsText Hex Json Utf8 WsClient Hub HubFacts HubLimits HubPair HubTokens.
Open Scope Z_scope.
Import Relay.

Section Reap.
Context (cfg : Config).
Abbreviation step := (step cfg).

(** ** The list of sessions *)

(** The hub lists its sessions under their IDs. *)
Definition listed (h : Hub) : Prop :=
  ∀ id p, sessions h !! id = Some p → ∃ s, store h !! p = Some s ∧ s_ID s = id.

(** Sessions stay with their IDs, and none is new in the list. *)
Definition no_new (h h' : Hub) : Prop :=
  (∀ p s, store h !! p = Some s → ∃ s', store h' !! p = Some s' ∧ s_ID s' = s_ID s)
  ∧ sessions h' ⊆ sessions h.

#[export] Instance no_new_preorder : PreOrder no_new.
Proof.
  split; [intros h; split; eauto|]. intros h1 h2 h3 [H1 S1] [H2 S2]. split; [|by etrans].
  intros p s Hs. destruct (H1 p s Hs) as (s'&Hs'&<-). by apply H2.
Qed.

Lemma no_new_listed h h' : no_new h h' → listed h → listed h'.
Proof.
  intros [H1 S1] Hl id p Hp. destruct (Hl id p) as (s&Hs&<-); [by eapply lookup_weaken|].
  by apply H1.
Qed.

Lemma same_no_new h h' : store h' = store h → sessions h' ⊆ sessions h → no_new h h'.
Proof. intros He Hs. split; [rewrite He; eauto|done]. Qed.

Lemma update_no_new h p s s' : store h !! p = Some s → s_ID s' = s_ID s → no_new h (update h p s').
Proof.
  intros Hp He. split; [|done]. intros q s1 Hs1. unfold update. simpl.
  destruct (decide (p = q)) as [->|]; [|rewrite list_lookup_insert_ne by done; eauto].
  rewrite list_lookup_insert_eq by (by eapply lookup_lt_Some). exists s'. by simplify_eq.
Qed.

Lemma decr_sessions h ip : sessions (decr h ip) = sessions h.
Proof. unfold decr. by case_match. Qed.

Lemma end_peer_sessions h p reason : sessions (end_peer h p reason).1 = sessions h.
Proof. destruct p as [[c ip]|]; [|done]. apply decr_sessions. Qed.

Lemma notifyAndClose_sessions h s reason :
  sessions (notifyAndClose h s reason).1 = delete (s_ID s) (sessions h).
Proof.
  unfold notifyAndClose. pose proof (end_peer_sessions h (connAndIP s RoleHost) reason) as H1.
  destruct (end_peer h _ _) as [h1 o1]. simpl in H1.
  pose proof (end_peer_sessions h1 (connAndIP s RoleGuest) reason) as H2.
  destruct (end_peer h1 _ _) as [h2 o2]. simpl in *. congruence.
Qed.

Lemma add_session_listed h now ip c id : listed h → listed (add_session h now ip c id).
Proof.
  intros Hl id' p. unfold add_session. simpl. intros Hp.
  apply lookup_insert_Some in Hp as [[<- <-]|[_ Hp]].
  - rewrite lookup_app_r, Nat.sub_diag by lia. by eexists.
  - destruct (Hl _ _ Hp) as (s&Hs&<-). exists s. split; [|done].
    rewrite lookup_app_l by (by eapply lookup_lt_Some). done.
Qed.

Lemma attach_ID s r c ip now s' : attach s r c ip now = Some s' → s_ID s' = s_ID s.
Proof. unfold attach. case_match; [done|]. by intros [= <-]. Qed.

Lemma reattach_ID s r t c ip now s' : reattach s r t c ip now = Some s' → s_ID s' = s_ID s.
Proof.
  unfold reattach. destruct (s_peers s r); [|done]. do 2 (case_match; [done|]). by intros [= <-].
Qed.

Lemma attachGuest_no_new h now p ip c : no_new h (attachGuest h now p ip c).1.1.
Proof.
  unfold attachGuest. destruct (store h !! p) as [s|] eqn:Hp; [|done]. case_match; [|done].
  destruct (attach s RoleGuest c ip now) as [s'|] eqn:E; [|done]. simpl.
  etrans; [by eapply update_no_new; [|by eapply attach_ID]|by apply same_no_new].
Qed.

Lemma beginSession_listed h now op ip c en :
  listed h → listed (beginSession cfg h now op ip c en).1.1.
Proof.
  intros Hl. unfold beginSession. destruct op as [[]|]; [..|done].
  - unfold CreateSession. case_match; [done|]. by apply add_session_listed.
  - unfold JoinSession. case_match; [|done]. case_match; [done|].
    eapply no_new_listed; [apply attachGuest_no_new|done].
  - unfold CreateCodeSession. case_match; [done|]. case_match; [|done].
    eapply no_new_listed; [|by apply add_session_listed]. by apply same_no_new.
  - unfold JoinByCode. pose proof (guess_store cfg h ip now) as Hs.
    assert (sessions (checkAndRecordGuessLocked cfg h ip now).1 = sessions h) as Hss.
    { unfold checkAndRecordGuessLocked. cbv zeta. by case_match. }
    destruct (checkAndRecordGuessLocked cfg h ip now) as [h1 ok]. simpl in Hs, Hss.
    assert (listed h1) as Hl0 by (apply (no_new_listed h); [apply same_no_new; [done|by rewrite Hss]|done]).
    assert (listed (with_codes h1 (delete code (codes h1)))) as Hl1 by done.
    destruct ok; simpl; [|done].
    destruct (codes h1 !! code) as [entry|]; [|done]. case_match; [done|]. case_match; [done|].
    case_match; [|done]. eapply no_new_listed; [apply attachGuest_no_new|done].
  - unfold Reconnect. destruct (sessions h !! id) as [p|]; simpl; [|done].
    destruct (store h !! p) as [s|] eqn:Hp; simpl; [|done]. case_match; [done|].
    destruct (reattach _ _ _ _ _ _) as [s'|] eqn:E; [|done]. simpl.
    eapply no_new_listed; [|done].
    etrans; [by eapply update_no_new; [|by eapply reattach_ID]|by apply same_no_new].
Qed.

Lemma HandleDisconnect_no_new h now p r : no_new h (HandleDisconnect h now p r).1.
Proof.
  unfold HandleDisconnect. destruct (store h !! p) as [s|] eqn:Hp; [|done].
  destruct (markDisconnected s r now) as [[s' oc] ip] eqn:E. simpl.
  assert (s_ID s' = s_ID s) as He by (unfold markDisconnected in E; case_match; by simplify_eq).
  etrans; [by eapply update_no_new|]. apply same_no_new; [apply decr_store|by rewrite decr_sessions].
Qed.

Lemma EndSession_no_new h p r : no_new h (EndSession h p r).1.
Proof.
  unfold EndSession. destruct (store h !! p) as [s|] eqn:Hp; [|done].
  pose proof (end_peer_store h (connAndIP s (other r)) "ended_by_peer") as Hs.
  pose proof (end_peer_sessions h (connAndIP s (other r)) "ended_by_peer") as Hss.
  destruct (end_peer _ _ _) as [h' o]. simpl in *. apply same_no_new; [done|].
  simpl. rewrite Hss. apply delete_subseteq.
Qed.

Lemma RegisterReconnectToken_no_new h p r t : no_new h (RegisterReconnectToken h p r t).
Proof.
  unfold RegisterReconnectToken. destruct (store h !! p) as [s|] eqn:Hp; [|done].
  eapply update_no_new; [done|]. unfold setReconnectToken. by case_match.
Qed.

Lemma Relay_no_new h now p r d : no_new h (Relay cfg h now p r d).1.
Proof.
  unfold Relay. destruct (store h !! p) as [s|] eqn:Hp; [|done]. cbv zeta.
  destruct d as [t|frame]; [by eapply update_no_new|].
  assert (s_ID (recordChunkBytes (set_lastActivity s now) frame (MaxFileSize cfg)).1 = s_ID s) as He.
  { unfold recordChunkBytes. cbv zeta. by repeat case_match. }
  destruct (recordChunkBytes _ _ _) as [s' v]. by eapply update_no_new.
Qed.

(** ** One session *)

Lemma reapSession_sessions h now s :
  sessions (reapSession cfg h now s).1
  = if expired cfg s now then delete (s_ID s) (sessions h) else sessions h.
Proof.
  unfold reapSession, expired. destruct (_ <=? _); simpl; [apply notifyAndClose_sessions|].
  destruct (_ || _); [apply notifyAndClose_sessions|done].
Qed.

Lemma end_peer_tells h c ip reason :
  Send c (MSessionEnded reason) ∈ (end_peer h (Some (c, ip)) reason).2
  ∧ Close c reason ∈ (end_peer h (Some (c, ip)) reason).2.
Proof. simpl. split; [by left|right; by left]. Qed.

Lemma notifyAndClose_tells h s reason r c ip :
  connAndIP s r = Some (c, ip) →
  Send c (MSessionEnded reason) ∈ (notifyAndClose h s reason).2
  ∧ Close c reason ∈ (notifyAndClose h s reason).2.
Proof.
  intros Hc. unfold notifyAndClose.
  pose proof (λ h' c ip, end_peer_tells h' c ip reason) as Ht.
  destruct (end_peer h (connAndIP s RoleHost) reason) as [h1 o1] eqn:E1.
  destruct (end_peer h1 (connAndIP s RoleGuest) reason) as [h2 o2] eqn:E2. simpl.
  rewrite !elem_of_app. destruct r.
  - rewrite Hc in E1. specialize (Ht h c ip). rewrite E1 in Ht. simpl in Ht. naive_solver.
  - rewrite Hc in E2. specialize (Ht h1 c ip). rewrite E2 in Ht. simpl in Ht. naive_solver.
Qed.

Lemma reapSession_tells h now s r c ip :
  expired cfg s now = true → connAndIP s r = Some (c, ip) →
  ∃ reason, Send c (MSessionEnded reason) ∈ (reapSession cfg h now s).2
    ∧ Close c reason ∈ (reapSession cfg h now s).2.
Proof.
  unfold expired, reapSession. intros He Hc. destruct (_ <=? _); simpl in He.
  - eexists. by eapply notifyAndClose_tells.
  - rewrite He. eexists. by eapply notifyAndClose_tells.
Qed.

(** ** All of them *)

Definition reap_step (now : Z) (acc : Hub * list out) (id : jsstr) : Hub * list out :=
  let '(h, o) := acc in
  match sessions h !! id ≫= λ p, store h !! p with
  | Some s => let '(h', o') := reapSession cfg h now s in (h', o ++ o')
  | None => (h, o)
  end.

Definition alive (h : Hub) (now : Z) (p : nat) : Prop :=
  ∃ s, store h !! p = Some s ∧ expired cfg s now = false.

Lemma reap_step_sessions now h o id :
  listed h →
  let h' := (reap_step now (h, o) id).1 in
  store h' = store h ∧ no_new h h'
  ∧ ∀ id' p, sessions h' !! id' = Some p ↔
      sessions h !! id' = Some p ∧ (id' = id → alive h now p).
Proof.
  intros Hl. unfold reap_step. destruct (sessions h !! id) as [q|] eqn:Hq; simpl.
  - destruct (Hl id q Hq) as (s&Hs&Hid). rewrite Hs.
    pose proof (reapSession_sessions h now s) as Hse. pose proof (reapSession_store cfg h now s) as Hst.
    destruct (reapSession cfg h now s) as [h1 o1]. simpl in *. rewrite Hid in Hse.
    split; [done|]. split.
    { apply same_no_new; [done|]. rewrite Hse. case_match; [apply delete_subseteq|done]. }
    intros id' p. rewrite Hse. destruct (expired cfg s now) eqn:E.
    + rewrite lookup_delete_Some. split; [intros [Hne ?]; split; [done|by intros ->]|].
      intros [Hp Ha]. split; [|done]. intros ->. destruct (Ha eq_refl) as (s1&Hs1&He). congruence.
    + split; [|by intros [? _]]. intros Hp. split; [done|]. intros ->. exists s. split; [congruence|done].
  - split; [done|]. split; [done|]. intros id' p. split; [|by intros [? _]].
    intros Hp. split; [done|]. intros ->. congruence.
Qed.

Lemma alive_store h h' now p : store h' = store h → alive h' now p ↔ alive h now p.
Proof. intros He. unfold alive. by rewrite He. Qed.

Lemma reap_all now ids h o :
  listed h →
  let h' := (fold_left (reap_step now) ids (h, o)).1 in
  ∀ id p, sessions h' !! id = Some p ↔ sessions h !! id = Some p ∧ (id ∈ ids → alive h now p).
Proof.
  revert h o. induction ids as [|id0 ids IH]; intros h o Hl; cbn [fold_left].
  - intros id p. cbn [fst]. split; [|by intros [? _]]. intros Hp. split; [done|by intros ?%elem_of_nil].
  - destruct (reap_step_sessions now h o id0 Hl) as (Hst&Hno&Hs).
    destruct (reap_step now (h, o) id0) as [h1 o1]. cbn [fst] in Hst, Hno, Hs.
    pose proof (no_new_listed _ _ Hno Hl) as Hl1. intros id p.
    rewrite (IH h1 o1 Hl1 id p : _ ↔ _), Hs, (alive_store h h1) by done. rewrite elem_of_cons. naive_solver.
Qed.

Lemma reap_step_grows now h o id : o ⊆ (reap_step now (h, o) id).2.
Proof.
  unfold reap_step. destruct (sessions h !! id ≫= _) as [s|]; [|done].
  destruct (reapSession cfg h now s) as [h1 o1]. set_solver.
Qed.

Lemma reap_grows now ids h o : o ⊆ (fold_left (reap_step now) ids (h, o)).2.
Proof.
  revert h o. induction ids as [|id ids IH]; intros h o; cbn [fold_left]; [done|].
  etrans; [apply (reap_step_grows now h o id)|]. destruct (reap_step now (h, o) id). apply IH.
Qed.

(** An expired session's turn. *)
Lemma reap_step_tells now h o id p s r c ip :
  sessions h !! id = Some p → store h !! p = Some s →
  expired cfg s now = true → connAndIP s r = Some (c, ip) →
  ∃ reason, Send c (MSessionEnded reason) ∈ (reap_step now (h, o) id).2
    ∧ Close c reason ∈ (reap_step now (h, o) id).2.
Proof.
  intros Hp Hs He Hc. unfold reap_step. rewrite Hp. simpl. rewrite Hs.
  destruct (reapSession_tells h now s r c ip He Hc) as (reason&H1&H2).
  destruct (reapSession cfg h now s) as [h1 o1]. exists reason. simpl in *. rewrite !elem_of_app. auto.
Qed.

Lemma reap_tells now ids h o id p s r c ip :
  NoDup ids → listed h → id ∈ ids → sessions h !! id = Some p → store h !! p = Some s →
  expired cfg s now = true → connAndIP s r = Some (c, ip) →
  ∃ reason, Send c (MSessionEnded reason) ∈ (fold_left (reap_step now) ids (h, o)).2
    ∧ Close c reason ∈ (fold_left (reap_step now) ids (h, o)).2.
Proof.
  intros Hnd. revert h o. induction Hnd as [|id0 ids Hni Hnd IH]; intros h o Hl Hi Hp Hs He Hc;
    [by apply elem_of_nil in Hi|]. cbn [fold_left].
  destruct (decide (id = id0)) as [->|Hne].
  - destruct (reap_step_tells now h o id0 p s r c ip Hp Hs He Hc) as (reason&H1&H2).
    destruct (reap_step now (h, o) id0) as [h1 o1]. exists reason. by split; apply reap_grows.
  - destruct (reap_step_sessions now h o id0 Hl) as (Hst&Hno&Hse).
    destruct (reap_step now (h, o) id0) as [h1 o1]. cbn [fst] in *.
    apply IH; [by eapply no_new_listed|set_solver|by apply Hse|congruence|done|done].
Qed.


(** ** The relay *)

Lemma step_listed sv e sv' o : listed (hub sv) → step sv e = Some (sv', o) → listed (hub sv').
Proof.
  intros Hl He. destruct e as [now ip c en d|now c d|now c|now]; unfold Relay.step in He.
  - case_bool_decide; [done|]. unfold refuse_first, serve_first in He.
    destruct (too_large d); [by simplify_eq|].
    pose proof (beginSession_listed (hub sv) now (opening_of d) ip c en Hl) as Hb.
    destruct (beginSession cfg _ _ _ _ _ _) as [[h o1] x]. destruct x; by simplify_eq.
  - destruct (loops sv !! c) as [[p r]|]; simpl in He; [|done]. unfold serve_gone, serve_message in He.
    pose proof (HandleDisconnect_no_new (hub sv) now p r) as Hd.
    pose proof (EndSession_no_new (hub sv) p r) as Hend.
    pose proof (Relay_no_new (hub sv) now p r d) as Hrel.
    destruct (HandleDisconnect _ _ _ _), (EndSession _ _ _), (Relay _ _ _ _ _ _). cbn [fst] in *.
    destruct (too_large d); [by simplify_eq; eapply no_new_listed|].
    destruct (input_of d) as [|[t|]|]; simplify_eq; simpl; [by eapply no_new_listed| |done|by eapply no_new_listed].
    eapply no_new_listed; [apply RegisterReconnectToken_no_new|done].
  - destruct (loops sv !! c) as [[p r]|]; simpl in He; [|done]. unfold serve_gone in He.
    pose proof (HandleDisconnect_no_new (hub sv) now p r) as Hd.
    destruct (HandleDisconnect _ _ _ _). simplify_eq. by eapply no_new_listed.
  - pose proof (ReapOnce_store cfg (hub sv) now) as Hst.
    assert (listed (ReapOnce cfg (hub sv) now).1) as Hr.
    { intros id p Hp. rewrite Hst. apply Hl. unfold ReapOnce in Hp. cbv zeta in Hp.
      change (λ (acc : Hub * list out) (id : jsstr), _) with (reap_step now) in Hp.
      by eapply reap_all in Hp as [? _]. }
    destruct (ReapOnce _ _ _). by simplify_eq.
Qed.

Lemma run_listed es sv log :
  run (log_step cfg) es (new_server, []) = Some (sv, log) → listed (hub sv).
Proof.
  intros Hrun. change (listed (hub (sv, log).1)). revert Hrun.
  apply (run_ind (log_step cfg) (λ x, listed (hub x.1))); [by intros id p|].
  intros [sv1 o1] e [sv2 o2] H1. unfold log_step. simpl.
  destruct (step sv1 e) as [[sv3 o3]|] eqn:E; [|done]. intros [= <- _]. by eapply step_listed.
Qed.

(** ** What one connection is told *)

(** The messages for a connection, in order. *)
Definition to_conn (c : nat) (o : list out) : list message :=
  omap (λ x, match x with Send c' m => if decide (c' = c) then Some m else None | Close _ _ => None end) o.

Lemma to_conn_app c o1 o2 : to_conn c (o1 ++ o2) = to_conn c o1 ++ to_conn c o2.
Proof. apply omap_app. Qed.

Lemma to_conn_cons c x o :
  to_conn c (x :: o)
  = match x with Send c' m => if decide (c' = c) then [m] else [] | Close _ _ => [] end ++ to_conn c o.
Proof. change (x :: o) with ([x] ++ o). rewrite to_conn_app. destruct x; cbn; by repeat case_decide. Qed.

#[local] Arguments to_conn : simpl never.

Lemma to_conn_nil c o : (∀ m, Send c m ∉ o) → to_conn c o = [].
Proof.
  intros Hn. induction o as [|x o IH]; [done|].
  assert (to_conn c o = []) as Ho by (apply IH; intros m Hi; apply (Hn m); by right).
  destruct x as [c' m|]; [|exact Ho].
  rewrite to_conn_cons, Ho. case_decide; [|done]. subst. destruct (Hn m). by left.
Qed.

Lemma slot_connAndIP h p s r c ip :
  store h !! p = Some s → connAndIP s r = Some (c, ip) → slot h p r = Some c.
Proof.
  intros Hp. unfold slot, connOf, connAndIP. rewrite Hp. simpl. destruct (s_peers s r); [|done].
  simpl. case_bool_decide; [|done]. by intros [= -> _].
Qed.

Lemma end_peer_to h s r reason c :
  (∀ ip, connAndIP s r ≠ Some (c, ip)) → to_conn c (end_peer h (connAndIP s r) reason).2 = [].
Proof.
  intros Hn. destruct (connAndIP s r) as [[c' ip]|]; [|done].
  change (end_peer h (Some (c', ip)) reason).2 with [Send c' (MSessionEnded reason); Close c' reason].
  rewrite to_conn_cons, decide_False; [done|]. intros ->. by apply (Hn ip).
Qed.

Lemma notifyAndClose_to h s reason r c ip :
  connAndIP s r = Some (c, ip) → (∀ ip', connAndIP s (other r) ≠ Some (c, ip')) →
  to_conn c (notifyAndClose h s reason).2 = [MSessionEnded reason].
Proof.
  intros Hc Ho. unfold notifyAndClose.
  pose proof (λ h, end_peer_to h s (other r) reason c Ho) as Hn.
  assert (∀ h, to_conn c (end_peer h (connAndIP s r) reason).2 = [MSessionEnded reason]) as Hy.
  { intros h'. rewrite Hc.
    change (end_peer h' (Some (c, ip)) reason).2 with [Send c (MSessionEnded reason); Close c reason].
    by rewrite to_conn_cons, decide_True. }
  destruct r; simpl in Hn; specialize (Hy) as Hy1.
  - specialize (Hy h). destruct (end_peer h _ _) as [h1 o1]. specialize (Hn h1).
    destruct (end_peer h1 _ _) as [h2 o2]. simpl in *. by rewrite to_conn_app, Hy, Hn.
  - specialize (Hn h). destruct (end_peer h _ _) as [h1 o1]. specialize (Hy h1).
    destruct (end_peer h1 _ _) as [h2 o2]. simpl in *. by rewrite to_conn_app, Hy, Hn.
Qed.

Lemma reap_step_to now h o id c :
  (∀ p r, sessions h !! id = Some p → slot h p r ≠ Some c) →
  to_conn c (reap_step now (h, o) id).2 = to_conn c o.
Proof.
  intros Hn. unfold reap_step. destruct (sessions h !! id) as [p|]; simpl; [|done].
  destruct (store h !! p) as [s|] eqn:Hs; [|done].
  pose proof (reapSession_within cfg h now p s Hs) as Hw.
  destruct (reapSession cfg h now s) as [h1 o1]. simpl in *.
  rewrite to_conn_app, (to_conn_nil c o1), app_nil_r; [done|].
  intros m Hi. destruct (Hw c m Hi) as [r Hr]. by apply (Hn p r).
Qed.

Lemma reap_to_none now ids c : ∀ h o,
  listed h → (∀ id p r, id ∈ ids → sessions h !! id = Some p → slot h p r ≠ Some c) →
  to_conn c (fold_left (reap_step now) ids (h, o)).2 = to_conn c o.
Proof.
  induction ids as [|id ids IH]; intros h o Hl Hn; [done|]. cbn [fold_left].
  pose proof (reap_step_to now h o id c (λ p r, Hn id p r ltac:(by left))) as Ht.
  destruct (reap_step_sessions now h o id Hl) as (Hst&Hno&Hs).
  destruct (reap_step now (h, o) id) as [h1 o1]. cbn [fst snd] in *. rewrite IH; [done| |].
  - by eapply no_new_listed.
  - intros id' p r Hi Hp. apply Hs in Hp as [Hp _]. unfold slot. rewrite Hst. apply (Hn id'); [by right|done].
Qed.

(** An idle session's connection is told once that the session has ended. *)
Lemma reap_to_once now id p s r c ip : ∀ ids h o,
  NoDup ids → id ∈ ids → listed h → sessions h !! id = Some p → store h !! p = Some s →
  SessionInactivityTimeout cfg ≤ now - s_lastActivity s →
  connAndIP s r = Some (c, ip) → (∀ p' r', slot h p' r' = Some c → p' = p ∧ r' = r) →
  to_conn c (fold_left (reap_step now) ids (h, o)).2
  = to_conn c o ++ [MSessionEnded "inactivity_timeout"].
Proof.
  intros ids h o Hnd. revert h o. induction Hnd as [|id0 ids Hni Hnd IH];
    intros h o Hi Hl Hp Hs Ht Hc Hu; [by apply elem_of_nil in Hi|]. cbn [fold_left].
  assert (∀ id' q r', sessions h !! id' = Some q → slot h q r' = Some c → id' = id) as Hother.
  { intros id' q r' Hq Hsl. destruct (Hu _ _ Hsl) as [-> _].
    destruct (Hl _ _ Hq) as (s1&Hs1&<-), (Hl _ _ Hp) as (s2&Hs2&<-). congruence. }
  destruct (reap_step_sessions now h o id0 Hl) as (Hst&Hno&Hse).
  pose proof (no_new_listed _ _ Hno Hl) as Hl1.
  destruct (decide (id0 = id)) as [->|Hne].
  - assert (to_conn c (reap_step now (h, o) id).2
            = to_conn c o ++ [MSessionEnded "inactivity_timeout"]) as Hto.
    { unfold reap_step. rewrite Hp. simpl. rewrite Hs. unfold reapSession.
      rewrite (proj2 (Z.leb_le _ _)) by done.
      assert (∀ ip', connAndIP s (other r) ≠ Some (c, ip')) as Ho.
      { intros ip' Hc'. eapply (slot_connAndIP h p) in Hc'; [|done].
        destruct (Hu _ _ Hc') as [_ He]. by destruct r. }
      pose proof (notifyAndClose_to h s "inactivity_timeout" r c ip Hc Ho) as Hn.
      destruct (notifyAndClose _ _ _) as [h1 o1]. simpl in *. by rewrite to_conn_app, Hn. }
    destruct (reap_step now (h, o) id) as [h1 o1]. cbn [fst snd] in *.
    rewrite reap_to_none; [done|done|]. intros id' q r' Hi' Hq Hsl. apply Hse in Hq as [Hq _].
    unfold slot in Hsl. rewrite Hst in Hsl. by rewrite (Hother id' q r' Hq Hsl) in Hi'.
  - assert (to_conn c (reap_step now (h, o) id0).2 = to_conn c o) as Hto.
    { apply reap_step_to. intros q r' Hq Hsl. by apply Hne, (Hother id0 q r'). }
    destruct (reap_step now (h, o) id0) as [h1 o1]. cbn [fst snd] in *.
    rewrite IH; [by rewrite Hto|set_solver|done|by apply Hse|congruence|done|done|].
    intros p' r'. unfold slot. rewrite Hst. apply Hu.
Qed.

(** What the periodic clean-up does for the connection of one listed session: it
    is told, once, when the session is idle, and left alone when it is in use. *)
Lemma reap_idle sv now sv' o id p s r c ip :
  server_ok sv → listed (hub sv) → step sv (Reap now) = Some (sv', o) →
  sessions (hub sv) !! id = Some p → store (hub sv) !! p = Some s → connAndIP s r = Some (c, ip) →
  SessionInactivityTimeout cfg ≤ now - s_lastActivity s →
  to_conn c o = [MSessionEnded "inactivity_timeout"].
Proof.
  intros Hok Hl He Hp Hs Hc Ht. unfold Relay.step in He.
  destruct (ReapOnce cfg (hub sv) now) as [h1 o1] eqn:E. injection He as _ <-.
  unfold ReapOnce in E. cbv zeta in E.
  change (λ (acc : Hub * list out) (id : jsstr), _) with (reap_step now) in E.
  change o1 with (h1, o1).2. rewrite <- E.
  rewrite (reap_to_once now id p s r c ip); [done| | |done..|].
  - apply NoDup_fst_map_to_list.
  - apply list_elem_of_fmap. exists (id, p). split; [done|]. by apply elem_of_map_to_list.
  - intros p' r' Hsl. eapply slot_connAndIP in Hc; [|exact Hs]. by apply (ok_unique _ Hok _ _ _ _ _ Hsl Hc).
Qed.

Lemma reap_used sv now sv' o id p s :
  server_ok sv → listed (hub sv) → step sv (Reap now) = Some (sv', o) →
  sessions (hub sv) !! id = Some p → store (hub sv) !! p = Some s → expired cfg s now = false →
  (∀ r c, slot (hub sv) p r = Some c → to_conn c o = []) ∧ sessions (hub sv') !! id = Some p
  ∧ store (hub sv') = store (hub sv) ∧ loops sv' = loops sv ∧ seen sv' = seen sv.
Proof.
  intros Hok Hl He Hp Hs Hx. unfold Relay.step in He.
  pose proof (ReapOnce_store cfg (hub sv) now) as Hst. pose proof (ReapOnce_within cfg (hub sv) now) as Hw.
  destruct (ReapOnce cfg (hub sv) now) as [h1 o1] eqn:E. injection He as <- <-. cbn [fst snd] in *.
  split_and!; [| |done..].
  - intros r c Hc. apply to_conn_nil. intros m Hi. destruct (Hw c m Hi) as (q&s1&r1&Hq&Hex&Hsl).
    destruct (ok_unique _ Hok _ _ _ _ _ Hc Hsl) as [<- _]. congruence.
  - unfold ReapOnce in E. cbv zeta in E.
    change (λ (acc : Hub * list out) (id : jsstr), _) with (reap_step now) in E. set (h0 := with_guesses _ _) in E.
    pose proof (reap_all now (map_to_list (sessions (hub sv))).*1 h0 [] Hl id p) as Hi.
    rewrite E in Hi. apply Hi. split; [done|]. intros _. by exists s.
Qed.

(** C20: Reaping is exact: of all the sessions it removes those that are over -
    unused for the timeout, or with a side gone for the grace period - and tells
    and closes every connection they still have; every other session stays
    listed, and nobody in it hears anything. Of the codes it keeps those that
    have not expired, of the guess budgets those whose window still runs. *)
Theorem reaping_exact es sv log now sv' o :
  run (log_step cfg) es (new_server, []) = Some (sv, log) →
  step sv (Reap now) = Some (sv', o) →
  let h := hub sv in let h' := hub sv' in
  (∀ id p, sessions h' !! id = Some p ↔ sessions h !! id = Some p ∧ alive h now p)
  ∧ (∀ id p s r c ip, sessions h !! id = Some p → store h !! p = Some s →
       expired cfg s now = true → connAndIP s r = Some (c, ip) →
       ∃ reason, Send c (MSessionEnded reason) ∈ o ∧ Close c reason ∈ o)
  ∧ (∀ p r c m, alive h now p → slot h p r = Some c → Send c m ∉ o)
  ∧ (∀ code x, codes h' !! code = Some x ↔ codes h !! code = Some x ∧ now ≤ ce_expiresAt x)
  ∧ (∀ ip b, guesses h' !! ip = Some b ↔
       guesses h !! ip = Some b ∧ now - gb_windowStart b < PairingCodeTTL cfg).
Proof.
  intros Hrun He h h'. pose proof (run_listed _ _ _ Hrun) as Hl. pose proof (run_server_ok _ _ _ _ Hrun) as Hok.
  fold h in Hl. unfold Relay.step in He. fold h in He.
  pose proof (ReapOnce_rest cfg h now) as Hr. pose proof (ReapOnce_within cfg h now) as Hw.
  destruct (ReapOnce cfg h now) as [h1 o1] eqn:E. injection He as <- <-. cbn [fst snd] in *.
  injection Hr as Hcodes Hguesses. unfold ReapOnce in E. cbv zeta in E.
  change (λ (acc : Hub * list out) (id : jsstr), _) with (reap_step now) in E.
  set (h0 := with_guesses _ _) in E. assert (listed h0) as Hl0 by done.
  split_and!.
  - intros id p. pose proof (reap_all now (map_to_list (sessions h)).*1 h0 [] Hl0 id p) as Hi.
    rewrite E in Hi. change (hub _) with h1 in h'. unfold h'. etrans; [exact Hi|].
    change (sessions h0) with (sessions h). change (alive h0 now p) with (alive h now p).
    split; [|naive_solver]. intros [Hp Ha]. split; [done|]. apply Ha. apply list_elem_of_fmap.
    exists (id, p). split; [done|]. by apply elem_of_map_to_list.
  - intros id p s r c ip Hp Hs Hex Hc. change o1 with (h1, o1).2. rewrite <- E.
    eapply reap_tells; [apply NoDup_fst_map_to_list|done| |exact Hp|done..].
    apply list_elem_of_fmap. exists (id, p). split; [done|]. by apply elem_of_map_to_list.
  - intros p r c m (s&Hs&Hex) Hc Hi. destruct (Hw c m Hi) as (q&s1&r1&Hq&Hex1&Hsl).
    destruct (ok_unique _ Hok _ _ _ _ _ Hc Hsl) as [-> ->]. congruence.
  - intros code x. unfold h'. simpl. rewrite Hcodes, map_lookup_filter_Some. simpl. naive_solver lia.
  - intros ip b. unfold h'. simpl. by rewrite Hguesses, map_lookup_filter_Some.
Qed.

End Reap.
