(* ===== verification/HubLeak.v ===== *)
(** * Sessions that end leave their count behind

    The relay counts the sessions of each address to limit them. A session that
    one side ends is not taken off that side's count, and is taken off the other
    side's twice. *)

From stdpp Require Import base list list_numbers gmap sets strings.
From Stdlib Require Import ZArith Lia.
From S2P Require Import Prelude JsText Hex Json Utf8 WsClient Hub.
Open Scope Z_scope.
Import Relay.

Definition create_message : data := sendEnvelope "create_session" JNull.
Definition join_message (id : jsstr) : data :=
  sendEnvelope "join" (JObj [(js "sessionId", JStr id)]).
Definition end_message : data := sendEnvelope "end_session" JNull.

Lemma parseEnvelope_sendEnvelope type p :
  json_wf p → parseEnvelope (sendEnvelope type p) = Some (envelope type p).
Proof. intros. unfold parseEnvelope, sendEnvelope. apply parse_stringify. by apply envelope_wf. Qed.

Lemma opening_create : opening_of create_message = Some OCreateSession.
Proof. unfold opening_of, create_message. by rewrite parseEnvelope_sendEnvelope. Qed.

Lemma opening_join id : Forall unit_ok id → opening_of (join_message id) = Some (OJoin id).
Proof.
  intros. unfold opening_of, join_message. by rewrite parseEnvelope_sendEnvelope by (by apply single_wf).
Qed.

Lemma input_end : input_of end_message = IEndSession.
Proof. unfold input_of, end_message. by rewrite parseEnvelope_sendEnvelope. Qed.

Section Leak.
Context (cfg : Config).
Context (A B : jsstr) (HAB : A ≠ B).
Context (ids : nat → jsstr) (Hids : ∀ k, Forall unit_ok (ids k)).
Context (Hfit : ∀ k, too_large (join_message (ids k)) = false).
Abbreviation step := (step cfg).

Definition no_entropy (k : nat) : entropy := {| e_id := ids k; e_draws := [] |}.

(** The [k]-th session: [A] creates it, [B] joins it, [A] ends it, and [B]'s
    handler finds its connection closed. *)
Definition round (k : nat) : list event :=
  [First 0 A (2 * k) (no_entropy k) create_message;
   First 0 B (2 * k + 1) (no_entropy k) (join_message (ids k));
   Later 0 (2 * k) end_message;
   Gone 0 (2 * k + 1)].

(** Between two sessions: nobody is connected, and [k] is left on [A]'s count. *)
Record drained (k : nat) (sv : server) : Prop := {
  dr_sessions : sessions (hub sv) = ∅;
  dr_loops : loops sv = ∅;
  dr_seen : ∀ c, c ∈ seen sv → (c < 2 * k)%nat;
  dr_A : count (hub sv) A = Z.of_nat k;
  dr_B : count (hub sv) B = 0
}.

Lemma count_insert h ip ip' n :
  count (with_ipCounts h (<[ip := n]> (ipCounts h))) ip' = if decide (ip = ip') then n else count h ip'.
Proof.
  unfold count. simpl. case_decide; [subst; by rewrite lookup_insert_eq|by rewrite lookup_insert_ne].
Qed.

Lemma count_incr h ip ip' : count (incr h ip) ip' = if decide (ip = ip') then count h ip + 1 else count h ip'.
Proof. apply count_insert. Qed.

Lemma count_decr h ip ip' :
  count (decr h ip) ip'
  = if decide (ip = ip') then (if 0 <? count h ip then count h ip - 1 else count h ip) else count h ip'.
Proof.
  unfold decr. destruct (0 <? count h ip); [apply count_insert|]. case_decide; by subst.
Qed.

(** A step without what it writes. *)
Definition move (sv : server) (e : event) : option server := fst <$> step sv e.

Lemma move_create sv c en :
  c ∉ seen sv → count (hub sv) A < MaxSessionsPerIP cfg →
  move sv (First 0 A c en create_message)
  = Some {| hub := add_session (hub sv) 0 A c (e_id en);
            loops := <[c := (length (store (hub sv)), RoleHost)]> (loops sv);
            seen := {[c]} ∪ seen sv |}.
Proof.
  intros Hc Hm. unfold move, Relay.step. rewrite bool_decide_false by done.
  unfold serve_first. rewrite opening_create. simpl. unfold CreateSession.
  by rewrite (proj2 (Z.leb_gt _ _)).
Qed.

(** The guest in the empty slot of a session whose host is there. *)
Definition with_guest (s : Session) (c : nat) : Session :=
  set_lastActivity (set_peer s RoleGuest {| p_conn := c; p_ip := B; p_disconnectedAt := None;
                                            p_reconnectToken := [] |}) 0.

Lemma move_join sv c en k p s hc :
  let id := ids k in
  c ∉ seen sv → sessions (hub sv) !! id = Some p → store (hub sv) !! p = Some s →
  count (hub sv) B < MaxSessionsPerIP cfg → connOf s RoleHost = Some hc → s_peers s RoleGuest = None →
  move sv (First 0 B c en (join_message id))
  = Some {| hub := incr (update (hub sv) p (with_guest s c)) B;
            loops := <[c := (p, RoleGuest)]> (loops sv);
            seen := {[c]} ∪ seen sv |}.
Proof.
  intros id Hc Hp Hs Hm Hh Hg. subst id. unfold move, Relay.step.
  rewrite bool_decide_false, Hfit by done. unfold serve_first. rewrite opening_join by done.
  simpl. unfold JoinSession, attachGuest.
  rewrite Hp, (proj2 (Z.leb_gt _ _)), Hs, Hh by done. unfold attach. by rewrite Hg.
Qed.

Lemma move_end sv c p s gc :
  loops sv !! c = Some (p, RoleHost) → store (hub sv) !! p = Some s →
  connAndIP s RoleGuest = Some (gc, B) →
  move sv (Later 0 c end_message)
  = Some {| hub := removeByID (decr (hub sv) B) (s_ID s); loops := delete c (loops sv);
            seen := seen sv |}.
Proof.
  intros Hc Hs Hg. unfold move, Relay.step. rewrite Hc. simpl. unfold serve_message.
  rewrite input_end. unfold EndSession. rewrite Hs. simpl. by rewrite Hg.
Qed.

Lemma move_gone sv c p s q :
  loops sv !! c = Some (p, RoleGuest) → store (hub sv) !! p = Some s →
  s_peers s RoleGuest = Some q →
  ∃ st, move sv (Gone 0 c)
  = Some {| hub := decr (with_store (hub sv) st) (p_ip q); loops := delete c (loops sv);
            seen := seen sv |}.
Proof.
  intros Hc Hs Hq. eexists. unfold move, Relay.step. rewrite Hc. simpl. unfold serve_gone, HandleDisconnect.
  rewrite Hs. unfold markDisconnected. rewrite Hq. simpl. reflexivity.
Qed.

(** The servers within a round. *)
Section Round.
Context (k : nat) (sv : server).

Local Abbreviation c := (2 * k)%nat.
Local Abbreviation d := (2 * k + 1)%nat.
Local Abbreviation p := (length (store (hub sv))).

Definition hosted : Session :=
  set_lastActivity (set_peer (newSession (ids k) 0) RoleHost
    {| p_conn := c; p_ip := A; p_disconnectedAt := None; p_reconnectToken := [] |}) 0.

Definition opened : server :=
  {| hub := add_session (hub sv) 0 A c (ids k); loops := <[c := (p, RoleHost)]> (loops sv);
     seen := {[c]} ∪ seen sv |}.
Definition joined : server :=
  {| hub := incr (update (hub opened) p (with_guest hosted d)) B;
     loops := <[d := (p, RoleGuest)]> (loops opened); seen := {[d]} ∪ seen opened |}.
Definition ended : server :=
  {| hub := removeByID (decr (hub joined) B) (ids k); loops := delete c (loops joined);
     seen := seen joined |}.
Definition over (st : list Session) : server :=
  {| hub := decr (with_store (hub ended) st) B; loops := delete d (loops ended); seen := seen ended |}.

Lemma opened_store : store (hub opened) !! p = Some hosted.
Proof. unfold opened, add_session. simpl. by rewrite lookup_app_r, Nat.sub_diag by lia. Qed.

Lemma joined_store : store (hub joined) !! p = Some (with_guest hosted d).
Proof.
  unfold joined. simpl. apply list_lookup_insert_eq. unfold opened, add_session. simpl.
  rewrite length_app. simpl. lia.
Qed.

Lemma ended_store : store (hub ended) !! p = Some (with_guest hosted d).
Proof. unfold ended, removeByID, decr. simpl. destruct (0 <? _); apply joined_store. Qed.

Lemma opened_counts :
  count (hub opened) A = count (hub sv) A + 1 ∧ count (hub opened) B = count (hub sv) B.
Proof.
  unfold opened, add_session. cbn [hub]. by rewrite !count_incr, decide_True, decide_False by done.
Qed.

Lemma round_runs :
  drained k sv → Z.of_nat k < MaxSessionsPerIP cfg →
  ∃ st, run move (round k) sv = Some (over st).
Proof.
  intros [Hs Hl Hn HA HB] Hk. destruct opened_counts as [_ HB1].
  assert (∀ x, (c ≤ x)%nat → x ∉ seen sv) as Hnew by (intros x Hx Hi; apply Hn in Hi; lia).
  destruct (move_gone ended d p (with_guest hosted d)
              {| p_conn := d; p_ip := B; p_disconnectedAt := None; p_reconnectToken := [] |})
    as [st Hg]; [|by apply ended_store|done|].
  { unfold ended, joined. simpl. rewrite lookup_delete_ne by lia. by rewrite lookup_insert_eq. }
  exists st. unfold round. cbn [run].
  rewrite move_create by (try (apply Hnew; lia); rewrite HA; lia). cbn [mbind option_bind].
  change (e_id (no_entropy k)) with (ids k). fold opened.
  rewrite (move_join opened d (no_entropy k) k p hosted c); cbn [mbind option_bind];
    [|unfold opened; simpl; rewrite not_elem_of_union, not_elem_of_singleton;
      split; [lia|apply Hnew; lia]
     |apply lookup_insert_eq|apply opened_store|rewrite HB1; lia|done..].
  fold joined. rewrite (move_end joined c p (with_guest hosted d) d);
    [|unfold joined, opened; simpl; rewrite lookup_insert_ne by lia; by rewrite lookup_insert_eq
     |apply joined_store|done].
  cbn [mbind option_bind]. change (s_ID (with_guest hosted d)) with (ids k). fold ended.
  rewrite Hg. done.
Qed.

Lemma over_counts st :
  drained k sv → count (hub (over st)) A = Z.of_nat (S k) ∧ count (hub (over st)) B = 0.
Proof.
  intros [_ _ _ HA HB]. destruct opened_counts as [HA1 HB1]. unfold over. cbn [hub].
  rewrite !count_decr, decide_False, decide_True by done.
  change (count (with_store (hub ended) st)) with (count (decr (hub joined) B)).
  rewrite !count_decr, decide_False, decide_True by done. unfold joined. cbn [hub].
  rewrite !count_incr, decide_False, decide_True by done.
  change (count (update (hub opened) p (with_guest hosted d))) with (count (hub opened)).
  rewrite HA1, HB1, HA, HB. split; [lia|done].
Qed.

Lemma over_loops st : drained k sv → loops (over st) = ∅.
Proof.
  intros [_ Hl _ _ _]. unfold over, ended, joined, opened. simpl. rewrite Hl. apply map_eq. intros i.
  destruct (decide (i = d)) as [->|]; [by rewrite lookup_delete_eq, lookup_empty|].
  rewrite lookup_delete_ne by done.
  destruct (decide (i = c)) as [->|]; [by rewrite lookup_delete_eq, lookup_empty|].
  by rewrite lookup_delete_ne, !lookup_insert_ne by done.
Qed.

Lemma round_drains :
  drained k sv → Z.of_nat k < MaxSessionsPerIP cfg →
  ∃ sv', run move (round k) sv = Some sv' ∧ drained (S k) sv'.
Proof.
  intros Hd Hk. destruct (round_runs Hd Hk) as [st Hr]. exists (over st). split; [done|].
  destruct (over_counts st Hd) as [HA HB]. split; [|by apply over_loops| |done..].
  - destruct Hd as [Hs _ _ _ _]. unfold over, ended, removeByID, decr. simpl.
    do 2 (destruct (0 <? _); simpl); rewrite Hs, ?insert_empty, ?delete_singleton;
      by rewrite decide_True.
  - destruct Hd as [_ _ Hn _ _]. intros x. simpl. rewrite !elem_of_union, !elem_of_singleton.
    intros [->|[->|Hx%Hn]]; lia.
Qed.

End Round.

Lemma new_server_drained : drained 0 new_server.
Proof. by split. Qed.

Lemma rounds_drain k :
  Z.of_nat k ≤ MaxSessionsPerIP cfg →
  ∃ sv, (run move (concat (map round (seq 0 k))) new_server = Some sv) ∧ drained k sv.
Proof.
  induction k as [|k IH]; intros Hk; [exists new_server; by split; [|apply new_server_drained]|].
  destruct IH as (sv&Hr&Hd); [lia|]. destruct (round_drains k sv Hd) as (sv'&Hr'&Hd'); [lia|].
  exists sv'. split; [|done].
  rewrite seq_S, map_app, concat_app, run_app, Hr. cbn [mbind option_bind map concat].
  by rewrite app_nil_r.
Qed.

(** C27: Ending sessions locks an address out of the relay: after [A] has created
    [MaxSessionsPerIP] sessions that [B], at another address, joined and [A]
    ended - one after the other, none of them left open, no connection left - the
    relay refuses every new session of [A], at any later time, with
    [too_many_sessions]. *)
Theorem ended_sessions_lock_out :
  0 ≤ MaxSessionsPerIP cfg →
  ∃ sv, run move (concat (map round (seq 0 (Z.to_nat (MaxSessionsPerIP cfg))))) new_server = Some sv
    ∧ sessions (hub sv) = ∅ ∧ loops sv = ∅
    ∧ ∀ now c en, c ∉ seen sv →
        ∃ sv', step sv (First now A c en create_message)
               = Some (sv', [Send c (MError "too_many_sessions" "too many concurrent sessions for this client");
                           Close c "connection closed"])
          ∧ hub sv' = hub sv ∧ loops sv' = ∅.
Proof.
  intros Hm. destruct (rounds_drain (Z.to_nat (MaxSessionsPerIP cfg))) as (sv&Hr&[Hs Hl Hn HA HB]); [lia|].
  exists sv. split_and!; [done..|]. intros now c en Hc. eexists. split.
  - unfold Relay.step. rewrite bool_decide_false by done. unfold serve_first. rewrite opening_create.
    simpl. unfold CreateSession. rewrite HA, (proj2 (Z.leb_le _ _)) by lia. reflexivity.
  - split; [done|exact Hl].
Qed.

End Leak.
