(* ===== verification/HubRaces.v ===== *)
(** * Overlapping calls of the hub

    What holds of the hub when the sections of its calls run in any order, and
    what does not: the limit on an address's sessions is as soft as the number of
    its overlapping calls, a session has one guest, and a session that ends while
    its other side comes back keeps that side for ever. *)

From stdpp Require Import base list list_numbers gmap sets strings.
From Stdlib Require Import ZArith Lia.
From S2P Require Import Prelude JsText Hex Json WsClient Hub HubLocks HubFacts HubReap HubLeak.
Open Scope Z_scope.
Import Relay Locks.

Definition new_busy : busy := {| b_hub := NewHub; b_calls := []; b_log := [] |}.

(** A call that has not returned. *)
Definition running (m : call) : bool := match m with Return _ => false | _ => true end.

(** Whether the call was made for an address, and how many of these have not
    returned. *)
Definition opens_at (ip : jsstr) (q : request) : bool := bool_decide (fst <$> opener q = Some ip).
Definition in_flight (ip : jsstr) (x : request * call) : bool := opens_at ip x.1 && running x.2.
Definition overlapping (ip : jsstr) (cs : list (request * call)) : Z :=
  Z.of_nat (length (filter (λ x, in_flight ip x = true) cs)).

(** ** The limit on an address's sessions *)

Section Limit.
Context (cfg : Config) (ip : jsstr).
Local Abbreviation limit := (MaxSessionsPerIP cfg).
Local Abbreviation held b := (if b : bool then 1 else 0).

(** What a call may still do to the address's count: raise it once where it
    [holds] a place that it has found free, and look for one where it [may]. *)
Inductive claims (may : bool) : bool → call → Prop :=
| claims_return r : claims may false (Return r)
| claims_write holds o k : claims may holds k → claims may holds (Write o k)
| claims_critical holds f k :
    (∀ now h, ∃ holds',
       claims may holds' (k now h) ∧ (holds' = true → may = true)
       ∧ (count (f now h) ip + held holds' ≤ count h ip + held holds
          ∨ (holds = false ∧ may = true ∧ count h ip < limit
             ∧ count (f now h) ip + held holds' ≤ count h ip + 1))) →
    claims may holds (Critical f k).

(** One section, from [h] to [h'], with [k] left. *)
Definition goes (may holds : bool) (h h' : Hub) (k : call) : Prop :=
  ∃ holds', claims may holds' k ∧ (holds' = true → may = true)
    ∧ (count h' ip + held holds' ≤ count h ip + held holds
       ∨ (holds = false ∧ may = true ∧ count h ip < limit ∧ count h' ip + held holds' ≤ count h ip + 1)).

Lemma claims_locked may holds body :
  (∀ now h, goes may holds h (body now h).1 (body now h).2) → claims may holds (locked body).
Proof. intros Hb. constructor. exact Hb. Qed.

Lemma claims_writes may holds os k : claims may holds k → claims may holds (writes os k).
Proof. induction os; [done|]. intros. constructor. auto. Qed.

(** The count does not rise. *)
Lemma goes_on may holds h h' k :
  claims may holds k → (holds = true → may = true) → count h' ip ≤ count h ip → goes may holds h h' k.
Proof. intros Hk Hm Hc. exists holds. split_and!; [done..|]. left. lia. Qed.

Lemma goes_back may holds h h' r : count h' ip ≤ count h ip → goes may holds h h' (Return r).
Proof.
  intros Hc. exists false. split_and!; [constructor|done|]. left. destruct holds; simpl; lia.
Qed.

Local Abbreviation mine ip' := (bool_decide (ip' = ip)).

(** The place that was found free is taken. *)
Lemma goes_takes ip' h k : claims (mine ip') false k → goes (mine ip') (mine ip') h (incr h ip') k.
Proof.
  intros Hk. exists false. split_and!; [done..|]. left. rewrite count_incr.
  destruct (decide (ip' = ip)) as [->|]; [rewrite bool_decide_true by done|rewrite bool_decide_false by done]; lia.
Qed.

(** A place is free. *)
Lemma goes_checks ip' h h' k :
  claims (mine ip') (mine ip') k → full cfg h ip' = false → count h' ip ≤ count h ip →
  goes (mine ip') false h h' k.
Proof.
  intros Hk Hf Hc. exists (mine ip'). split_and!; [done..|]. apply Z.leb_gt in Hf.
  case_bool_decide; subst; [right|left]; simpl; lia.
Qed.

(** ... and taken at once. *)
Lemma goes_creates ip' h h' k :
  claims (mine ip') false k → full cfg h ip' = false →
  count h' ip = count (incr h ip') ip → goes (mine ip') false h h' k.
Proof.
  intros Hk Hf Hc. exists false. split_and!; [done..|]. apply Z.leb_gt in Hf. rewrite Hc, count_incr.
  case_decide; [right; rewrite bool_decide_true by done; subst|left]; simpl; lia.
Qed.

Lemma guest_claims p ip' c : claims (mine ip') (mine ip') (attachGuest p ip' c).
Proof.
  unfold attachGuest. apply claims_locked. intros _ h. case_match; [|by apply goes_back].
  apply goes_on; [|done..]. apply claims_locked. intros now h1. case_match; [|by apply goes_back].
  case_match. apply goes_on; [|done..]. apply claims_locked. intros _ h2. apply goes_takes.
  apply claims_writes. constructor.
Qed.

Lemma end_peer_claims x reason k : claims false false k → claims false false (end_peer x reason k).
Proof.
  intros Hk. destruct x as [[c ip']|]; [|done]. apply claims_writes, claims_locked. intros _ h.
  apply goes_on; [done..|]. cbn [fst]. rewrite count_decr. by repeat case_match; subst; lia.
Qed.

Lemma removeByID_claims id k : claims false false k → claims false false (removeByID id k).
Proof. intros Hk. apply claims_locked. intros _ h. by apply goes_on. Qed.

Lemma reap_claims now ids : claims false false (reap_each cfg now ids).
Proof.
  induction ids as [|id ids IH]; [constructor|]. cbn [reap_each]. apply claims_locked. intros _ h.
  apply goes_on; [|done..]. case_match; [|done]. apply claims_locked. intros _ h1.
  apply goes_on; [|done..]. case_match; [|done]. unfold reapSession.
  repeat case_match; try done; by repeat first [apply end_peer_claims|apply removeByID_claims].
Qed.

Lemma opens_mine ip' : bool_decide (Some ip' = Some ip) = mine ip'.
Proof. apply bool_decide_ext. split; [by intros [= ->]|by intros ->]. Qed.

Lemma code_claims code ip' c : claims (mine ip') false (JoinByCode cfg code ip' c).
Proof.
  apply claims_locked. intros now h. unfold checkAndRecordGuessLocked.
  destruct (MaxPairingAttempts cfg <=? _); cbn [negb]; [by apply goes_back|].
  case_match; [|by apply goes_back]. case_match; [by apply goes_back|].
  case_match eqn:Hf; [by apply goes_back|]. case_match; [|by apply goes_back].
  apply goes_checks; [apply guest_claims|exact Hf|done].
Qed.

Lemma reconnect_claims id r token ip' c : claims (mine ip') false (Reconnect cfg id r token ip' c).
Proof.
  apply claims_locked. intros _ h. case_match; [|by apply goes_back].
  case_match eqn:Hf; [by apply goes_back|]. apply goes_checks; [|exact Hf|done].
  unfold resume. apply claims_locked. intros now h1. case_match; [|by apply goes_back].
  apply goes_on; [|done..]. apply claims_locked. intros _ h2. apply goes_takes.
  apply claims_locked. intros _ h3. apply goes_on; [|done..]. apply claims_writes. constructor.
Qed.

Lemma relay_claims p r d : claims false false (Relay cfg p r d).
Proof.
  assert (∀ m k, claims false false k → claims false false
            (locked (λ _ h, (h, writes (notify (store h !! p ≫= λ s, connOf s (other r)) m) k)))) as Hf.
  { intros m k Hk. apply claims_locked. intros _ h. apply goes_on; [|done..]. by apply claims_writes. }
  assert (∀ fileID, claims false false (abortOversizedFile p fileID)) as Ha.
  { intros fileID. unfold abortOversizedFile. apply claims_locked. intros _ h. apply goes_on; [|done..].
    apply claims_writes, claims_locked. intros _ h1. apply goes_on; [|done..]. apply claims_writes. constructor. }
  apply claims_locked. intros now h. apply goes_on; [|done|by case_match].
  destruct d as [t|frame]; [apply Hf; constructor|]. apply claims_locked. intros _ h1.
  case_match; [|by apply goes_back]. case_match. apply goes_on; [|done..].
  case_match; [constructor|]. apply Hf. case_match; [apply Ha|constructor].
Qed.

Lemma call_claims q : claims (opens_at ip q) false (call_of cfg q).
Proof.
  destruct q; unfold opens_at; cbn [call_of opener fmap option_fmap option_map fst];
    rewrite ?opens_mine, ?bool_decide_false by done.
  - apply claims_locked. intros now h. case_match eqn:Hf; [by apply goes_back|].
    apply (goes_creates ip0); [|done..]. repeat constructor.
  - apply claims_locked. intros now h. case_match eqn:Hf; [by apply goes_back|].
    case_match; [|by apply goes_back]. apply (goes_creates ip0); [|done..]. repeat constructor.
  - apply claims_locked. intros now h. case_match; [|by apply goes_back].
    case_match eqn:Hf; [by apply goes_back|]. apply goes_checks; [apply guest_claims|done..].
  - apply code_claims.
  - apply reconnect_claims.
  - apply claims_locked. intros now h. apply goes_back. unfold Relay.RegisterReconnectToken. cbn [fst].
    by case_match.
  - apply relay_claims.
  - apply claims_locked. intros now h. apply goes_on; [|done..]. case_match; [|constructor].
    apply end_peer_claims, removeByID_claims. constructor.
  - apply claims_locked. intros now h. case_match; [|by apply goes_back]. case_match. case_match.
    apply goes_on; [|done..]. apply claims_locked. intros _ h1. apply goes_on; [|done|].
    + apply claims_writes. constructor.
    + cbn [fst]. rewrite count_decr. by repeat case_match; subst; lia.
  - apply claims_locked. intros now h. apply goes_on; [|done..]. apply reap_claims.
Qed.

(** *** Runs *)

Definition places (bs : list bool) : Z := foldr (λ b n, held b + n) 0 bs.

Definition claimed (x : request * call) (holds : bool) : Prop :=
  claims (opens_at ip x.1) holds x.2 ∧ (holds = true → opens_at ip x.1 = true).

Lemma claimed_in_flight x : claimed x true → in_flight ip x = true.
Proof.
  intros [Hc Ho]. unfold in_flight. rewrite Ho by done. destruct x as [q m]. by inversion Hc.
Qed.

Lemma overlapping_cons x cs :
  overlapping ip (x :: cs) = held (in_flight ip x) + overlapping ip cs.
Proof. unfold overlapping. rewrite filter_cons. case_decide as E; [rewrite E|apply not_true_is_false in E; rewrite E]; simpl; lia. Qed.

Lemma places_bound cs bs : Forall2 claimed cs bs → places bs ≤ overlapping ip cs.
Proof.
  induction 1 as [|x b cs bs Hx _ IH]; [done|]. rewrite overlapping_cons. simpl.
  destruct b; [rewrite (claimed_in_flight _ Hx); lia|]. destruct (in_flight ip x); lia.
Qed.

(** A call in flight that holds no place leaves room for one. *)
Lemma places_room cs bs i x :
  Forall2 claimed cs bs → cs !! i = Some x → bs !! i = Some false → in_flight ip x = true →
  places bs + 1 ≤ overlapping ip cs.
Proof.
  intros Hf. revert i. induction Hf as [|y b cs bs Hy Hf IH]; intros i Hi Hb Hx; [done|].
  rewrite overlapping_cons. simpl. destruct i as [|i]; simpl in *.
  - injection Hi as ->. injection Hb as ->. rewrite Hx. pose proof (places_bound _ _ Hf). lia.
  - specialize (IH i Hi Hb Hx). destruct b; [rewrite (claimed_in_flight _ Hy); lia|].
    destruct (in_flight ip y); lia.
Qed.

Lemma places_insert bs i b b' :
  bs !! i = Some b → places (<[i := b']> bs) = places bs - held b + held b'.
Proof.
  revert i. induction bs as [|x bs IH]; intros [|i]; simpl; intros Hi; [done..| |].
  - injection Hi as ->. lia.
  - rewrite (IH i Hi). lia.
Qed.

Lemma places_snoc bs : places (bs ++ [false]) = places bs.
Proof. induction bs as [|b bs IH]; simpl in *; [done|]. by rewrite IH. Qed.

Definition limited (n : Z) (b : busy) (bs : list bool) : Prop :=
  Forall2 claimed (b_calls b) bs ∧ count (b_hub b) ip + places bs ≤ limit - 1 + n.

Lemma limited_step n b bs e b' :
  limited n b bs → overlapping ip (b_calls b) ≤ n → busy_step cfg b e = Some b' →
  ∃ bs', limited n b' bs'.
Proof.
  intros [Hf Hn] Ho He. destruct e as [q|i now]; cbn [busy_step] in He.
  - injection He as <-. exists (bs ++ [false]). split; cbn [b_calls b_hub]; [|by rewrite places_snoc].
    apply Forall2_app; [done|]. constructor; [|done]. split; [apply call_claims|done].
  - apply bind_Some in He as ([q m]&Hi&He).
    destruct (Forall2_lookup_l _ _ _ _ _ Hf Hi) as (h&Hb&Hc&Hm). cbn [fst snd] in *.
    destruct Hc as [r|holds o k Hk|holds f k Hk]; [done|..]; injection He as <-.
    + exists bs. split; [|done]. rewrite <- (list_insert_id bs i holds Hb). by apply Forall2_insert.
    + destruct (Hk now (b_hub b)) as (holds'&Hc&Hm'&Hd). exists (<[i := holds']> bs).
      split; cbn [b_calls b_hub]; [by apply Forall2_insert|]. rewrite (places_insert _ _ _ _ Hb).
      destruct Hd as [Hd|(->&Hmay&Hl&Hd)]; [lia|].
      pose proof (places_room _ _ i _ Hf Hi Hb) as Hr. unfold in_flight in Hr. cbn [fst snd running] in Hr.
      rewrite Hmay in Hr. specialize (Hr eq_refl). lia.
Qed.

Lemma limited_run n es b bs b' :
  limited n b bs →
  (∀ k b1, run (busy_step cfg) (take k es) b = Some b1 → overlapping ip (b_calls b1) ≤ n) →
  run (busy_step cfg) es b = Some b' → ∃ bs', limited n b' bs'.
Proof.
  revert b bs. induction es as [|e es IH]; intros b bs Hb Ho Hr.
  - injection Hr as <-. by exists bs.
  - cbn [run] in Hr. apply bind_Some in Hr as (b1&H1&Hr).
    destruct (limited_step n b bs e b1 Hb (Ho O b eq_refl) H1) as [bs1 Hb1].
    apply (IH b1 bs1 Hb1); [|done]. intros k b2 H2. apply (Ho (S k) b2). cbn [take run]. by rewrite H1.
Qed.

(** C17: The limit on an address's sessions holds up to the address's overlapping
    calls: in any interleaving of the sections of any calls of the hub, an
    address that never has more than [n] calls in flight is counted for at most
    [MaxSessionsPerIP - 1 + n] connections - so for at most [MaxSessionsPerIP]
    when it opens one connection at a time. *)
Theorem limit_up_to_overlaps n es b :
  0 < limit → run (busy_step cfg) es new_busy = Some b →
  (∀ k b1, run (busy_step cfg) (take k es) new_busy = Some b1 → overlapping ip (b_calls b1) ≤ n) →
  count (b_hub b) ip ≤ limit - 1 + n.
Proof.
  intros Hl Hr Ho. assert (0 ≤ n) as Hn by exact (Ho O new_busy eq_refl).
  destruct (limited_run n es new_busy [] b) as (bs&Hf&Hc); [split; [constructor|]|done|done|].
  - change (0 + 0 ≤ limit - 1 + n). lia.
  - assert (0 ≤ places bs) by (clear; induction bs as [|[] bs IH]; simpl in *; lia). lia.
Qed.

End Limit.

(** ** One call after the other, and all at once *)

Section Overlap.
Context (cfg : Config) (now : Z).
Local Abbreviation bstep := (busy_step cfg).

Definition put_call (b : busy) (h : Hub) (i : nat) (x : request * call) (os : list out) : busy :=
  {| b_hub := h; b_calls := <[i := x]> (b_calls b); b_log := b_log b ++ os |}.

(** A call that is run to its end is the call alone. *)
Lemma run_call m b i q :
  b_calls b !! i = Some (q, m) →
  ∃ k, run bstep (replicate k (Runs i now)) b
       = let '(h, os, r) := alone now m (b_hub b) in Some (put_call b h i (q, Return r) os).
Proof.
  revert b. induction m as [r|o m IH|f m IH]; intros b Hi.
  - exists O. destruct b as [h cs l]. cbn in *. unfold put_call. cbn.
    by rewrite list_insert_id, app_nil_r.
  - pose proof (lookup_lt_Some _ _ _ Hi) as Hlt.
    destruct (IH {| b_hub := b_hub b; b_calls := <[i := (q, m)]> (b_calls b); b_log := b_log b ++ [o] |})
      as [k Hk]; [by apply list_lookup_insert_eq|].
    exists (S k). cbn [replicate run busy_step]. rewrite Hi. cbn [mbind option_bind].
    rewrite Hk. cbn [b_hub alone]. destruct (alone now m (b_hub b)) as [[h os] r].
    unfold put_call. cbn [b_hub b_calls b_log]. by rewrite list_insert_insert_eq, <- app_assoc.
  - pose proof (lookup_lt_Some _ _ _ Hi) as Hlt.
    destruct (IH now (b_hub b) {| b_hub := f now (b_hub b); b_calls := <[i := (q, m now (b_hub b))]> (b_calls b);
                                  b_log := b_log b |})
      as [k Hk]; [by apply list_lookup_insert_eq|].
    exists (S k). cbn [replicate run busy_step]. rewrite Hi. cbn [mbind option_bind].
    rewrite Hk. cbn [b_hub alone]. destruct (alone now _ _) as [[h os] r].
    unfold put_call. cbn [b_hub b_calls b_log]. by rewrite list_insert_insert_eq.
Qed.

Context (ip : jsstr).

(** A session whose host is there and whose guest is not. *)
Definition waits (h : Hub) (p : nat) : Prop :=
  ∃ s hc, store h !! p = Some s ∧ connOf s RoleHost = Some hc ∧ connected (s_peers s RoleGuest) = false.

Lemma guest_let_in h p c :
  waits h p →
  ∃ h' os, alone now (attachGuest p ip c) h = (h', os, Some (inl (p, RoleGuest)))
    ∧ count h' ip = count h ip + 1 ∧ sessions h' = sessions h
    ∧ ∀ p', p' ≠ p → waits h p' → waits h' p'.
Proof.
  intros (s&hc&Hs&Hh&Hg). rewrite attachGuest_alone. unfold Relay.attachGuest, attach. rewrite Hs, Hh, Hg.
  eexists _, _. split; [reflexivity|]. cbn [fst snd]. split_and!.
  - rewrite count_incr. by case_decide.
  - done.
  - intros p' Hne (s'&hc'&Hs'&?&?). exists s', hc'. split_and!; [|done..].
    simpl. by rewrite list_lookup_insert_ne.
Qed.

Definition join (x : jsstr * conn) : request := QJoinSession x.1 ip x.2.

Lemma all_called qs b :
  run bstep (map Calls qs) b
  = Some {| b_hub := b_hub b; b_calls := b_calls b ++ map (λ q, (q, call_of cfg q)) qs; b_log := b_log b |}.
Proof.
  revert b. induction qs as [|q qs IH]; intros b; cbn [map run].
  - rewrite app_nil_r. by destruct b.
  - cbn [busy_step mbind option_bind]. rewrite IH. cbn [b_hub b_calls b_log]. by rewrite <- app_assoc.
Qed.

(** Every call finds the session, and a place free. *)
Lemma all_checked xs ps pre b :
  count (b_hub b) ip < MaxSessionsPerIP cfg →
  Forall2 (λ x p, sessions (b_hub b) !! x.1 = Some p) xs ps →
  b_calls b = pre ++ map (λ x, (join x, call_of cfg (join x))) xs →
  run bstep (map (λ i, Runs i now) (seq (length pre) (length xs))) b
  = Some {| b_hub := b_hub b; b_log := b_log b;
            b_calls := pre ++ zip_with (λ x p, (join x, attachGuest p ip x.2)) xs ps |}.
Proof.
  revert ps pre b. induction xs as [|x xs IH]; intros ps pre b Hn Hf Hb;
    destruct ps as [|p ps]; inversion Hf as [|? ? ? ? Hx Hf']; subst; cbn [length seq map run zip_with].
  - rewrite app_nil_r in *. rewrite <- Hb. by destruct b.
  - cbn [busy_step]. rewrite Hb. cbn [map]. rewrite lookup_app_r, Nat.sub_diag by lia.
    cbn [lookup list_lookup mbind option_bind join call_of JoinSession locked fst snd]. rewrite Hx.
    unfold full. rewrite (proj2 (Z.leb_gt _ _)) by done. cbn [fst snd].
    rewrite insert_app_r_alt, Nat.sub_diag by lia. cbn [insert list_insert].
    specialize (IH ps (pre ++ [(join x, attachGuest p ip x.2)])).
    rewrite length_app in IH. cbn [length] in IH. rewrite Nat.add_1_r in IH.
    rewrite IH; cbn [b_hub b_calls b_log]; [|done|done|by rewrite <- app_assoc].
    by rewrite <- app_assoc.
Qed.

(** ... and joins its session. *)
Lemma all_joined xs ps pre b :
  Forall (waits (b_hub b)) ps → NoDup ps → length xs = length ps →
  b_calls b = pre ++ zip_with (λ x p, (join x, attachGuest p ip x.2)) xs ps →
  ∃ es b', run bstep es b = Some b'
    ∧ b_calls b' = pre ++ zip_with (λ x p, (join x, Return (Some (inl (p, RoleGuest))))) xs ps
    ∧ count (b_hub b') ip = count (b_hub b) ip + Z.of_nat (length xs).
Proof.
  revert ps pre b. induction xs as [|x xs IH]; intros ps pre b Hw Hd Hl Hb; destruct ps as [|p ps]; try done.
  - exists [], b. split_and!; [done..|]. simpl. lia.
  - inversion Hw as [|? ? Hp Hw']; inversion Hd as [|? ? Hni Hd']; subst.
    destruct (guest_let_in _ _ x.2 Hp) as (h&os&Ha&Hc&Hs&Hk).
    assert (b_calls b !! length pre = Some (join x, attachGuest p ip x.2)) as Hi.
    { rewrite Hb, lookup_app_r, Nat.sub_diag by lia. done. }
    destruct (run_call _ _ _ _ Hi) as [k Hr]. rewrite Ha in Hr.
    destruct (IH ps (pre ++ [(join x, Return (Some (inl (p, RoleGuest))))])
                (put_call b h (length pre) (join x, Return (Some (inl (p, RoleGuest)))) os))
      as (es&b'&Hr'&Hb'&Hc'); [|done|by injection Hl|..].
    + rewrite Forall_forall in Hw' |- *. intros p' Hp'. apply Hk; [set_solver|by apply Hw'].
    + cbn [put_call b_calls]. rewrite Hb. cbn [zip_with].
      rewrite insert_app_r_alt, Nat.sub_diag by lia. by rewrite <- app_assoc.
    + exists (replicate k (Runs (length pre) now) ++ es), b'. rewrite run_app, Hr. cbn [mbind option_bind].
      split_and!; [done|by rewrite Hb', <- app_assoc|]. rewrite Hc'. cbn [put_call b_hub length]. lia.
Qed.

(** C24: The limit does fail when calls overlap: whenever an address is below its
    limit and sessions wait for a guest - any number of them -, that address can
    join all of them at once. [JoinSession] looks at the count in one critical
    section and raises it in another, so that every call finds a place free
    before the first one takes it; all the calls succeed, and the address ends
    with as many connections more as there were sessions, whatever the limit. *)
Theorem joins_overrun_limit h xs ps :
  count h ip < MaxSessionsPerIP cfg → NoDup ps → Forall (waits h) ps →
  Forall2 (λ x p, sessions h !! x.1 = Some p) xs ps →
  ∃ es b, run bstep es {| b_hub := h; b_calls := []; b_log := [] |} = Some b
    ∧ b_calls b = zip_with (λ x p, (join x, Return (Some (inl (p, RoleGuest))))) xs ps
    ∧ count (b_hub b) ip = count h ip + Z.of_nat (length xs).
Proof.
  intros Hn Hd Hw Hf.
  set (b1 := {| b_hub := h; b_calls := map (λ x, (join x, call_of cfg (join x))) xs; b_log := [] |}).
  assert (run bstep (map (λ i, Runs i now) (seq 0 (length xs))) b1 = Some _) as H2
    by exact (all_checked xs ps [] b1 Hn Hf eq_refl).
  destruct (all_joined xs ps [] {| b_hub := h; b_log := [];
              b_calls := zip_with (λ x p, (join x, attachGuest p ip x.2)) xs ps |})
    as (es&b&H3&Hb&Hc); [done|done|by eapply Forall2_length|done|].
  exists (map Calls (map join xs) ++ map (λ i, Runs i now) (seq 0 (length xs)) ++ es), b.
  split_and!; [|done|done].
  rewrite run_app, all_called. cbn [mbind option_bind b_hub b_calls b_log app]. rewrite map_map.
  rewrite run_app. change (run _ _ _) with (run bstep (map (λ i, Runs i now) (seq 0 (length xs))) b1).
  rewrite H2. exact H3.
Qed.

End Overlap.

(** ** One connection in a place *)

Section Place.
Context (cfg : Config) (p : nat) (r : Role).

Definition keeps (h h' : Hub) : Prop := ∀ c, slot h p r = Some c → slot h' p r = Some c.

#[local] Instance keeps_reflexive : Reflexive keeps.
Proof. by intros h c. Qed.

(** What a call may do to the place: take it, for its connection [oc], if it is
    free, and return it only then; it never puts another connection out. *)
Inductive gives (oc : option conn) : bool → call → Prop :=
| gives_return got x : (x = Some (inl (p, r)) → got = true) → gives oc got (Return x)
| gives_write got o k : gives oc got k → gives oc got (Write o k)
| gives_critical got f k :
    (∀ now h, keeps h (f now h) ∧ ∃ got',
       gives oc got' (k now h)
       ∧ (got' = true → got = true ∨ (slot h p r = None ∧ ∃ c, oc = Some c ∧ slot (f now h) p r = Some c))) →
    gives oc got (Critical f k).

Definition moves (oc : option conn) (got : bool) (h h' : Hub) (k : call) : Prop :=
  keeps h h' ∧ ∃ got', gives oc got' k
    ∧ (got' = true → got = true ∨ (slot h p r = None ∧ ∃ c, oc = Some c ∧ slot h' p r = Some c)).

Lemma gives_locked oc got body :
  (∀ now h, moves oc got h (body now h).1 (body now h).2) → gives oc got (locked body).
Proof. intros Hb. constructor. exact Hb. Qed.

Lemma gives_writes oc got os k : gives oc got k → gives oc got (writes os k).
Proof. induction os; [done|]. intros. constructor. auto. Qed.

Lemma moves_on oc got h h' k : gives oc got k → keeps h h' → moves oc got h h' k.
Proof. intros Hk Hh. split; [done|]. exists got. auto. Qed.

Lemma moves_back oc got h h' x :
  x ≠ Some (inl (p, r)) → keeps h h' → moves oc got h h' (Return x).
Proof. intros Hx Hh. apply moves_on; [by constructor|done]. Qed.

Lemma moves_take oc h h' k c :
  oc = Some c → slot h p r = None → slot h' p r = Some c → gives oc true k → moves oc false h h' k.
Proof.
  intros -> Hn Hs Hk. split; [intros c'; by rewrite Hn|]. exists true. split; [done|]. intros _. right. eauto.
Qed.

Lemma keeps_store h h' : store h' = store h → keeps h h'.
Proof. intros He c. unfold slot. by rewrite He. Qed.

Lemma keeps_update h q s s' :
  store h !! q = Some s → (q = p → ∀ c, connOf s r = Some c → connOf s' r = Some c) →
  keeps h (update h q s').
Proof.
  intros Hs Hc c. unfold slot, update. simpl. destruct (decide (q = p)) as [->|].
  - rewrite list_lookup_insert_eq by (by eapply lookup_lt_Some). rewrite Hs. by apply Hc.
  - by rewrite list_lookup_insert_ne.
Qed.

Lemma slot_update h s' : (p < length (store h))%nat → slot (update h p s') p r = connOf s' r.
Proof. intros Hl. unfold slot, update. simpl. by rewrite list_lookup_insert_eq. Qed.

(** A section that puts a connection into a free slot: of this place, or of another. *)
Lemma moves_seat oc h q r' s s' c k :
  store h !! q = Some s → oc = Some c → connOf s r' = None → connOf s' r' = Some c →
  (∀ r2, r2 ≠ r' → connOf s' r2 = connOf s r2) → gives oc (bool_decide ((q, r') = (p, r))) k →
  moves oc false h (update h q s') k.
Proof.
  intros Hs Ho Hn Hc Hr Hk. case_bool_decide as E.
  - injection E as -> ->. apply (moves_take _ _ _ _ c); [done|by unfold slot; rewrite Hs| |done].
    rewrite slot_update; [done|by eapply lookup_lt_Some].
  - apply moves_on; [done|]. eapply keeps_update; [done|]. intros -> c' Hc'.
    rewrite Hr; [done|]. intros <-. by apply E.
Qed.

Lemma attach_seats s r' c ip now s' :
  attach s r' c ip now = Some s' →
  connOf s r' = None ∧ connOf s' r' = Some c ∧ ∀ r2, r2 ≠ r' → connOf s' r2 = connOf s r2.
Proof.
  unfold attach. case_match eqn:Hf; [done|]. intros [= <-]. split_and!.
  - unfold connected, connOf in *. destruct (s_peers s r') as [q|]; [|done]. simpl in *. by rewrite Hf.
  - rewrite connOf_touched, connOf_set_peer. by rewrite decide_True.
  - intros r2 Hr. rewrite connOf_touched, connOf_set_peer. by rewrite decide_False.
Qed.

Lemma reattach_seats s r' token c ip now s' :
  reattach s r' token c ip now = Some s' →
  connOf s r' = None ∧ connOf s' r' = Some c ∧ ∀ r2, r2 ≠ r' → connOf s' r2 = connOf s r2.
Proof.
  unfold reattach. destruct (s_peers s r') as [q|] eqn:Hq; [|done]. case_match eqn:Hf; [done|].
  case_match; [done|]. intros [= <-]. split_and!.
  - unfold connected, connOf in *. rewrite Hq. simpl in *. by rewrite Hf.
  - rewrite connOf_touched, connOf_set_peer. by rewrite decide_True.
  - intros r2 Hr. rewrite connOf_touched, connOf_set_peer. by rewrite decide_False.
Qed.

Lemma returns_place oc q r' : gives oc (bool_decide ((q, r') = (p, r))) (Return (Some (inl (q, r')))).
Proof. constructor. intros [= -> ->]. by rewrite bool_decide_true. Qed.

Lemma guest_gives q ip c : gives (Some c) false (attachGuest q ip c).
Proof.
  unfold attachGuest. apply gives_locked. intros _ h. case_match; [|by apply moves_back].
  apply moves_on; [|done]. apply gives_locked. intros now h1.
  destruct (store h1 !! q) as [s|] eqn:Hs; [|by apply moves_back]. cbn [mbind option_bind].
  destruct (attach s RoleGuest c ip now) as [s'|] eqn:Ha; [|by apply moves_back].
  destruct (attach_seats _ _ _ _ _ _ Ha) as (Hn&Hc&Hr).
  apply (moves_seat _ _ q RoleGuest s s' c); [done..|]. apply gives_locked. intros _ h2.
  apply moves_on; [|by apply keeps_store]. apply gives_writes, returns_place.
Qed.

Lemma add_session_store h now ip c id :
  store (add_session h now ip c id)
  = store h ++ [default (newSession id now) (attach (newSession id now) RoleHost c ip now)].
Proof. done. Qed.

Lemma creates_gives h h' now ip c id k :
  store h' = store (add_session h now ip c id) →
  gives (Some c) (bool_decide ((length (store h), RoleHost) = (p, r))) k → moves (Some c) false h h' k.
Proof.
  intros Hst Hk. rewrite add_session_store in Hst. case_bool_decide as E.
  - injection E as Ep Er. apply (moves_take _ _ _ _ c); [done|..|done]; unfold slot.
    + by rewrite lookup_ge_None_2 by lia.
    + rewrite Hst, lookup_app_r by lia. by rewrite <- Ep, <- Er, Nat.sub_diag.
  - apply moves_on; [done|]. intros c'. unfold slot. rewrite Hst.
    destruct (store h !! p) as [s|] eqn:Hs; [|done]. by rewrite (lookup_app_l_Some _ _ _ _ Hs).
Qed.

Lemma end_peer_gives oc x reason k : gives oc false k → gives oc false (end_peer x reason k).
Proof.
  intros Hk. destruct x as [[c ip]|]; [|done]. apply gives_writes, gives_locked. intros _ h.
  apply moves_on; [done|]. apply keeps_store, decr_store.
Qed.

Lemma removeByID_gives oc id k : gives oc false k → gives oc false (removeByID id k).
Proof. intros Hk. apply gives_locked. intros _ h. apply moves_on; [done|by apply keeps_store]. Qed.

Lemma reap_gives oc now ids : gives oc false (reap_each cfg now ids).
Proof.
  induction ids as [|id ids IH]; [by constructor|]. cbn [reap_each]. apply gives_locked. intros _ h.
  apply moves_on; [|done]. case_match; [|done]. apply gives_locked. intros _ h1.
  apply moves_on; [|done]. case_match; [|done]. unfold reapSession.
  repeat case_match; try done; by repeat first [apply end_peer_gives|apply removeByID_gives].
Qed.

Lemma keeps_drop h q r' s s' o ip now :
  (q, r') ≠ (p, r) → store h !! q = Some s → markDisconnected s r' now = (s', o, ip) →
  keeps h (update h q s').
Proof.
  intros Hne Hs Hm. apply (keeps_update _ _ s); [done|]. intros -> c.
  unfold markDisconnected in Hm. case_match; injection Hm as <- _ _; [|done].
  rewrite connOf_set_peer. rewrite decide_False; [done|]. intros ->. by apply Hne.
Qed.

Lemma keeps_track h q s frame maxSize s' v :
  store h !! q = Some s → recordChunkBytes s frame maxSize = (s', v) → keeps h (update h q s').
Proof.
  intros Hs Hr. apply (keeps_update _ _ s); [done|]. intros _ c.
  unfold recordChunkBytes in Hr. by repeat case_match; injection Hr as <- _.
Qed.

Lemma relay_gives oc q r' d : gives oc false (Relay cfg q r' d).
Proof.
  assert (∀ r2 m k, gives oc false k → gives oc false
            (locked (λ _ h, (h, writes (notify (store h !! q ≫= λ s, connOf s r2) m) k)))) as Hf.
  { intros r2 m k Hk. apply gives_locked. intros _ h. apply moves_on; [by apply gives_writes|done]. }
  assert (gives oc false (Return None)) as Hn by by constructor.
  apply gives_locked. intros now h. apply moves_on.
  - destruct d as [t|frame]; [by apply Hf|]. apply gives_locked. intros _ h1.
    destruct (store h1 !! q) as [s|] eqn:Hs; [|by apply moves_back].
    destruct (recordChunkBytes s frame (MaxFileSize cfg)) as [s' v] eqn:Hv.
    apply moves_on; [|by eapply keeps_track]. case_match; [done|]. apply Hf. case_match; [|done].
    unfold abortOversizedFile. by apply Hf, Hf.
  - cbn [fst]. destruct (store h !! q) as [s|] eqn:Hs; [|done]. by eapply keeps_update.
Qed.

Lemma code_gives code ip c : gives (Some c) false (JoinByCode cfg code ip c).
Proof.
  apply gives_locked. intros now h. pose proof (guess_store cfg h ip now) as Hst.
  destruct (checkAndRecordGuessLocked cfg h ip now) as [h1 ok]. cbn [fst] in Hst.
  assert (∀ x, x ≠ Some (inl (p, r)) → ∀ h2, store h2 = store h → moves (Some c) false h h2 (Return x)) as Hb.
  { intros x Hx h2 H2. by apply moves_back, keeps_store. }
  destruct (negb ok); [by apply Hb|]. case_match; [|by apply Hb]. case_match; [by apply Hb|].
  cbv zeta. case_match; [by apply Hb|]. case_match; [|by apply Hb].
  apply moves_on; [apply guest_gives|by apply keeps_store].
Qed.

Lemma reconnect_gives id r' token ip c : gives (Some c) false (Reconnect cfg id r' token ip c).
Proof.
  apply gives_locked. intros _ h.
  destruct (sessions h !! id ≫= λ q, (λ _, q) <$> store h !! q) as [q|]; [|by apply moves_back].
  case_match; [by apply moves_back|]. apply moves_on; [|done].
  unfold resume. apply gives_locked. intros now h1.
  destruct (store h1 !! q) as [s|] eqn:Hs; [|by apply moves_back]. cbn [mbind option_bind].
  destruct (reattach s r' token c ip now) as [s'|] eqn:Ha; [|by apply moves_back].
  destruct (reattach_seats _ _ _ _ _ _ _ Ha) as (Hn&Hc&Hr).
  eapply (moves_seat _ _ _ r' s s' c); [done..|]. apply gives_locked. intros _ h2.
  apply moves_on; [|by apply keeps_store]. apply gives_locked. intros _ h3.
  apply moves_on; [|done]. apply gives_writes, returns_place.
Qed.

Lemma call_gives q :
  q ≠ QHandleDisconnect p r → gives (snd <$> opener q) false (call_of cfg q).
Proof.
  intros Hq. destruct q; cbn [call_of opener fmap option_fmap option_map snd].
  - apply gives_locked. intros now h. case_match; [by apply moves_back|].
    eapply creates_gives; [done|]. constructor. apply returns_place.
  - apply gives_locked. intros now h. case_match; [by apply moves_back|].
    case_match; [|by apply moves_back]. eapply creates_gives; [done|]. constructor. apply returns_place.
  - apply gives_locked. intros now h. case_match; [|by apply moves_back].
    case_match; [by apply moves_back|]. apply moves_on; [apply guest_gives|done].
  - apply code_gives.
  - apply reconnect_gives.
  - apply gives_locked. intros now h. apply moves_back; [done|]. cbn [fst].
    unfold Relay.RegisterReconnectToken. destruct (store h !! p0) as [s|] eqn:Hs; [|done].
    apply (keeps_update _ _ s); [done|]. intros _ c. unfold setReconnectToken.
    destruct (s_peers s r0) as [q|] eqn:Hp; [|done]. rewrite connOf_set_peer. unfold connOf.
    destruct (decide (r = r0)) as [->|]; [|done]. by rewrite Hp.
  - apply relay_gives.
  - apply gives_locked. intros now h. apply moves_on; [|done]. case_match; [|by constructor].
    apply end_peer_gives, removeByID_gives. by constructor.
  - apply gives_locked. intros now h. destruct (store h !! p0) as [s|] eqn:Hs; [|by apply moves_back].
    destruct (markDisconnected s r0 now) as [[s' o] ip] eqn:Hm.
    apply moves_on; [|eapply keeps_drop; [|done..]; intros [= -> ->]; by apply Hq].
    apply gives_locked. intros _ h1. apply moves_on; [|apply keeps_store, decr_store].
    apply gives_writes. by constructor.
  - apply gives_locked. intros now h. apply moves_on; [apply reap_gives|by apply keeps_store].
Qed.

Definition placed (h : Hub) (x : request * call) (got : bool) : Prop :=
  gives (snd <$> opener x.1) got x.2
  ∧ (got = true → ∃ c, snd <$> opener x.1 = Some c ∧ slot h p r = Some c).

Lemma placed_keeps h h' x got : keeps h h' → placed h x got → placed h' x got.
Proof. intros Hk [Hg Hp]. split; [done|]. intros E. destruct (Hp E) as (c&?&?). exists c. auto. Qed.

Lemma placed_step b gots e b' :
  Forall2 (placed (b_hub b)) (b_calls b) gots → e ≠ Calls (QHandleDisconnect p r) →
  busy_step cfg b e = Some b' → ∃ gots', Forall2 (placed (b_hub b')) (b_calls b') gots'.
Proof.
  intros Hf Hne He. destruct e as [q|i now]; cbn [busy_step] in He.
  - injection He as <-. exists (gots ++ [false]). apply Forall2_app; [done|].
    constructor; [|done]. split; [apply call_gives; naive_solver|done].
  - apply bind_Some in He as ([q m]&Hi&He).
    destruct (Forall2_lookup_l _ _ _ _ _ Hf Hi) as (got&Hb&Hc&Hs). cbn [fst snd] in *.
    destruct Hc as [got x Hx|got o k Hk|got f k Hk]; [done|..]; injection He as <-.
    + exists gots. rewrite <- (list_insert_id gots i got Hb). by apply Forall2_insert.
    + destruct (Hk now (b_hub b)) as (Hkeep&got'&Hg&Hn). exists (<[i := got']> gots).
      apply Forall2_insert; cbn [b_hub b_calls].
      * eapply Forall2_impl; [exact Hf|]. intros x y. by apply placed_keeps.
      * split; [done|]. cbn [fst]. intros E. destruct (Hn E) as [E'|(_&c&Ho&Hc)].
        -- destruct (Hs E') as (c&Ho&Hc). exists c. auto.
        -- by exists c.
Qed.

Lemma placed_run es b0 b :
  run (busy_step cfg) es b0 = Some b → Calls (QHandleDisconnect p r) ∉ es →
  (∃ gots, Forall2 (placed (b_hub b0)) (b_calls b0) gots) →
  ∃ gots, Forall2 (placed (b_hub b)) (b_calls b) gots.
Proof.
  revert b0. induction es as [|e es IH]; intros b0 Hr Hno Hb; [by injection Hr as <-|].
  cbn [run] in Hr. apply bind_Some in Hr as (b1&H1&Hr). apply not_elem_of_cons in Hno as [Hne Hno].
  apply (IH b1 Hr Hno). destruct Hb as [gots Hb]. eapply placed_step; [exact Hb| |exact H1].
  intros ->. by apply Hne.
Qed.

(** C16: A place of a session is given to one connection: in any interleaving of
    the sections of any calls of the hub, from any hub, as long as the handler of
    the place does not report its connection gone, a call that is told the place
    - as the host or guest of a new session, by a link or a code, or by
    coming back - belongs to the connection that is in the place, so that no two
    connections are ever told the same place: [attach] and [reattach] look and
    take in one critical section. *)
Theorem place_given_once h es b i j qi qj :
  run (busy_step cfg) es {| b_hub := h; b_calls := []; b_log := [] |} = Some b →
  Calls (QHandleDisconnect p r) ∉ es →
  b_calls b !! i = Some (qi, Return (Some (inl (p, r)))) →
  b_calls b !! j = Some (qj, Return (Some (inl (p, r)))) →
  ∃ c, slot (b_hub b) p r = Some c ∧ snd <$> opener qi = Some c ∧ snd <$> opener qj = Some c.
Proof.
  intros Hr Hno Hi Hj.
  assert (∃ gots, Forall2 (placed (b_hub b)) (b_calls b) gots) as [gots Hf].
  { eapply placed_run; [exact Hr|done|]. exists []. constructor. }
  assert (∀ k q, b_calls b !! k = Some (q, Return (Some (inl (p, r)))) →
            ∃ c, snd <$> opener q = Some c ∧ slot (b_hub b) p r = Some c) as Hp.
  { intros k q Hk. destruct (Forall2_lookup_l _ _ _ _ _ Hf Hk) as (got&_&Hg&Hs). apply Hs.
    inversion Hg; auto. }
  destruct (Hp i qi Hi) as (c&?&?), (Hp j qj Hj) as (c'&?&?). exists c. split_and!; congruence.
Qed.

End Place.

(** ** A session that ends while its other side comes back *)

Definition addressee (o : out) : conn := match o with Send c _ | Close c _ => c end.

Section Comeback.
Context (cfg : Config).

Lemma end_peer_addressee h s r reason :
  Forall (λ o, connOf s r = Some (addressee o)) (Relay.end_peer h (connAndIP s r) reason).2.
Proof.
  unfold connAndIP, connOf. destruct (s_peers s r) as [q|]; [|constructor]. cbn [mbind option_bind].
  case_bool_decide; [|constructor]. by repeat constructor.
Qed.

(** What the reaper writes goes to the places of listed sessions. *)
Lemma reapSession_addressee h now s o :
  o ∈ (Relay.reapSession cfg h now s).2 → ∃ r, connOf s r = Some (addressee o).
Proof.
  assert (∀ reason, o ∈ (notifyAndClose h s reason).2 → ∃ r, connOf s r = Some (addressee o)) as Hn.
  { intros reason. unfold notifyAndClose. pose proof (end_peer_addressee h s RoleHost reason) as H1.
    destruct (Relay.end_peer h _ reason) as [h1 o1].
    pose proof (end_peer_addressee h1 s RoleGuest reason) as H2.
    destruct (Relay.end_peer h1 _ reason) as [h2 o2]. cbn [fst snd] in *.
    rewrite Forall_forall in H1, H2. intros [Ho|Ho]%elem_of_app; eauto. }
  unfold Relay.reapSession. case_match; [apply Hn|]. case_match; [apply Hn|]. by intros ?%elem_of_nil.
Qed.

Lemma reap_addressee now ids h os c :
  (∀ id p r, sessions h !! id = Some p → slot h p r ≠ Some c) → (∀ o, o ∈ os → addressee o ≠ c) →
  ∀ o, o ∈ (fold_left (reap_step cfg now) ids (h, os)).2 → addressee o ≠ c.
Proof.
  revert h os. induction ids as [|id ids IH]; intros h os Hh Hos; [done|]. cbn [fold_left].
  unfold reap_step at 2. destruct (sessions h !! id) as [p|] eqn:Hp; [|by apply IH].
  cbn [mbind option_bind]. destruct (store h !! p) as [s|] eqn:Hs; [|by apply IH].
  pose proof (reapSession_store cfg h now s) as Hst. pose proof (reapSession_sessions cfg h now s) as Hse.
  pose proof (reapSession_addressee h now s) as Ha.
  destruct (Relay.reapSession cfg h now s) as [h1 o1]. cbn [fst snd] in *. apply IH.
  - intros id' p' r. unfold slot. rewrite Hst. intros Hp'. apply (Hh id').
    rewrite Hse in Hp'. case_match; [by apply lookup_delete_Some in Hp' as []|done].
  - intros o [Ho|Ho]%elem_of_app; [by apply Hos|]. destruct (Ha o Ho) as [r Hr]. intros <-.
    apply (Hh id p r Hp). unfold slot. by rewrite Hs.
Qed.

(** A peer that has dropped comes back with its token. *)
Lemma seat_again s r q c ip now :
  s_peers s r = Some q → p_disconnectedAt q ≠ None → p_reconnectToken q ≠ [] →
  (∃ s', reattach s r (p_reconnectToken q) c ip now = Some s') ∧ connAndIP s r = None.
Proof.
  intros Hq Hd Ht. unfold reattach, connected, connAndIP. rewrite Hq. cbn [mbind option_bind].
  rewrite !bool_decide_false, bool_decide_true by done. split; [|done]. by eexists.
Qed.

(** C25: A session that ends while its other side is coming back keeps that side
    for ever: [Reconnect] looks the session up in one critical section and takes
    the place in another, and [EndSession] tells only whom it finds connected. If
    the side [other r] ends the session between the two, the call comes back all
    the same: its connection is told [reconnected] and sits in a session that the
    hub does not list, opposite the place of a connection that is over; it is
    told nothing else, neither by [EndSession] nor ever by the reaper. *)
Theorem comeback_outruns_end h now p s q r id ip c hc :
  listed h → sessions h !! id = Some p → store h !! p = Some s →
  s_peers s r = Some q → p_disconnectedAt q ≠ None → p_reconnectToken q ≠ [] →
  connOf s (other r) = Some hc → count h ip < MaxSessionsPerIP cfg →
  (∀ p' r', slot h p' r' ≠ Some c) →
  let back := QReconnect id r (p_reconnectToken q) ip c in
  let ends := QEndSession p (other r) in
  ∃ k1 k2 b,
    run (busy_step cfg)
      ([Calls back; Runs 0 now; Calls ends] ++ replicate k1 (Runs 1 now) ++ replicate k2 (Runs 0 now))
      {| b_hub := h; b_calls := []; b_log := [] |} = Some b
    ∧ b_calls b = [(back, Return (Some (inl (p, r)))); (ends, Return None)]
    ∧ b_log b = [Send hc MPeerReconnected; Send c MReconnected]
    ∧ slot (b_hub b) p r = Some c ∧ slot (b_hub b) p (other r) = Some hc
    ∧ (∀ id', sessions (b_hub b) !! id' ≠ Some p)
    ∧ ∀ now' o, o ∈ (Relay.ReapOnce cfg (b_hub b) now').2 → addressee o ≠ c.
Proof.
  intros Hl Hid Hs Hq Hd Ht Hc Hn Hf back ends.
  destruct (seat_again s r q c ip now Hq Hd Ht) as [[s' Ha] Hnone].
  destruct (reattach_seats _ _ _ _ _ _ _ Ha) as (Hfree&Hsc&Hso). specialize (Hso _ (other_ne r)).
  assert (s_ID s = id) as Hsid by (destruct (Hl _ _ Hid) as (s1&?&?); congruence).
  (* the session is looked up, and ended *)
  set (b1 := {| b_hub := h; b_log := [];
                b_calls := [(back, resume p r (p_reconnectToken q) ip c); (ends, call_of cfg ends)] |}).
  destruct (run_call cfg now (call_of cfg ends) b1 1 ends eq_refl) as [k1 H1].
  rewrite call_alone in H1. cbn [b1 b_hub at_once ends] in H1.
  unfold Relay.EndSession in H1. rewrite Hs, other_other, Hnone, Hsid in H1. cbn in H1.
  (* the place is taken *)
  set (b2 := put_call b1 (Relay.removeByID h id) 1 (ends, Return None) []) in *.
  destruct (run_call cfg now (resume p r (p_reconnectToken q) ip c) b2 0 back eq_refl) as [k2 H2].
  rewrite (resume_alone _ _ _ _ _ _ (b_hub b2) s Hs), Ha, Hso, Hc in H2.
  assert (store (incr (update (Relay.removeByID h id) p s') ip) !! p = Some s') as Hst
    by by apply (updated _ _ s).
  assert (∀ id', sessions (incr (update (Relay.removeByID h id) p s') ip) !! id' ≠ Some p) as Hgone.
  { intros id' Hp'. change (delete id (sessions h) !! id' = Some p) in Hp'.
    apply lookup_delete_Some in Hp' as [Hne Hp]. destruct (Hl _ _ Hp) as (s1&?&?). apply Hne. congruence. }
  exists k1, k2. eexists. split.
  { rewrite run_app.
    replace (run _ [Calls back; Runs 0 now; Calls ends] _) with (Some b1).
    2: { cbn. rewrite Hid. cbn. rewrite Hs. unfold full. cbn. by rewrite (proj2 (Z.leb_gt _ _)). }
    cbn [mbind option_bind]. rewrite run_app. etrans; [exact (f_equal (λ x, x ≫= _) H1)|]. exact H2. }
  split_and!; [done|done|..].
  - change (store (incr (update (Relay.removeByID h id) p s') ip) !! p ≫= (λ s, connOf s r) = Some c).
    by rewrite Hst.
  - change (store (incr (update (Relay.removeByID h id) p s') ip) !! p ≫= (λ s, connOf s (other r)) = Some hc).
    rewrite Hst. cbn [mbind option_bind]. by rewrite Hso.
  - exact Hgone.
  - intros now'. apply reap_addressee; [|by intros o ?%elem_of_nil]. intros id' p' r' Hp'.
    assert (p' ≠ p) as Hne by (intros ->; by apply (Hgone id')).
    intros Hsl. apply (Hf p' r'). rewrite <- Hsl. unfold slot. simpl. by rewrite list_lookup_insert_ne.
Qed.


End Comeback.
