(* ===== verification/Messages.v ===== *)
(** * A transfer's messages at the relay

    They are messages the relay passes on, and all but the metadata, whose size
    is the file name's, are below the limit of what it reads. *)

From stdpp Require Import base list list_numbers gmap sets strings.
From Stdlib Require Import ZArith Lia.
From S2P Require Import Prelude JsText Hex Json Utf8 Crypto WsClient Frame Sender Receiver.
From S2P Require Import Stream Link Hub.
Open Scope Z_scope.

(** ** Texts *)

Lemma length_scalars s : (length (scalars s) ≤ length s)%nat.
Proof.
  induction s as [s IH] using length_ind. destruct s as [|c [|d s]]; [done| |].
  - simpl. by repeat case_match.
  - pose proof (IH (d :: s) ltac:(simpl; lia)) as H1. pose proof (IH s ltac:(simpl; lia)).
    change (scalars (c :: d :: s))
      with (if is_high c then
              if is_low d then 65536 + (c - 55296) * 1024 + (d - 56320) :: scalars s
              else replacement :: scalars (d :: s)
            else if is_low c then replacement :: scalars (d :: s) else c :: scalars (d :: s)).
    revert H1. generalize (scalars (d :: s)). intros l H1.
    repeat case_match; simpl in *; lia.
Qed.

Lemma length_utf8_encode s : (length (utf8_encode s) ≤ 4 * length s)%nat.
Proof.
  pose proof (length_scalars s). unfold utf8_encode.
  assert (∀ l, (length (concat (map utf8_scalar l)) ≤ 4 * length l)%nat) as Hl; [|specialize (Hl (scalars s)); lia].
  induction l as [|c l IH]; simpl; [lia|]. rewrite length_app.
  assert (length (utf8_scalar c) ≤ 4)%nat; [|lia]. unfold utf8_scalar. repeat case_match; simpl; lia.
Qed.

Lemma length_digits_aux fuel z acc : (length (digits_aux fuel 10 z acc) ≤ fuel + length acc)%nat.
Proof.
  revert z acc. induction fuel as [|fuel IH]; intros z acc; simpl; [lia|].
  case_match; simpl; [lia|]. etrans; [apply IH|]. simpl. lia.
Qed.

Lemma length_int_text z : 0 ≤ z ≤ max_safe → (length (int_text z) ≤ 53)%nat.
Proof.
  intros Hz. unfold int_text. rewrite (proj2 (Z.ltb_ge _ _)) by lia. unfold num_to_string.
  etrans; [apply length_digits_aux|]. simpl.
  assert (Z.log2 z < 53); [|lia]. destruct (decide (z = 0)) as [->|]; [done|].
  apply Z.log2_lt_pow2; unfold max_safe in *; lia.
Qed.

Lemma length_quote s : (length (quote s) ≤ 6 * length s + 2)%nat.
Proof.
  unfold quote. simpl. rewrite length_app. simpl.
  assert (length (quote_body s) ≤ 6 * length s)%nat; [|lia].
  assert (∀ c, length (quote_unit c) ≤ 6)%nat as Hq.
  { intros c. unfold quote_unit. repeat case_match; simpl; lia. }
  induction s as [s IH] using length_ind. destruct s as [|c [|d s]]; [done| |].
  - specialize (Hq c). simpl in *. lia.
  - pose proof (IH (d :: s) ltac:(simpl; lia)) as H1. pose proof (IH s ltac:(simpl; lia)).
    specialize (Hq c).
    change (quote_body (c :: d :: s))
      with (if is_high c && is_low d then c :: d :: quote_body s
            else quote_unit c ++ quote_body (d :: s)).
    revert H1. generalize (quote_body (d :: s)). intros l H1.
    case_match; rewrite ?length_app; simpl in *; lia.
Qed.

(** ** Messages *)

Lemma text_size t : 4 * Z.of_nat (length t) ≤ Relay.maxMessageSize → Relay.too_large (DText t) = false.
Proof.
  intros Ht. unfold Relay.too_large, Relay.message_size. apply Z.ltb_ge.
  pose proof (length_utf8_encode t). lia.
Qed.

(** The lengths of a text's parts; the keys and types are computed. *)
Ltac part_lengths :=
  unfold envelope; cbn [stringify members_text]; repeat (rewrite length_app || rewrite length_cons);
  repeat match goal with
    | |- context [length (quote (js ?k))] =>
        let n := eval vm_compute in (length (quote (js k))) in change (length (quote (js k))) with n
    end; cbn [length].

Lemma chunk_ack_fits hex i :
  (length hex ≤ 32)%nat → 0 ≤ i ≤ max_safe → Relay.too_large (chunk_ack hex i) = false.
Proof.
  intros Hh Hi. unfold chunk_ack, sendEnvelope. apply text_size.
  pose proof (length_int_text i Hi). pose proof (length_quote hex).
  part_lengths. unfold Relay.maxMessageSize. lia.
Qed.

Lemma file_abort_fits hex :
  (length hex ≤ 32)%nat → Relay.too_large (recv_abort hex) = false.
Proof.
  intros Hh. unfold recv_abort, sendEnvelope. apply text_size. pose proof (length_quote hex).
  part_lengths. unfold Relay.maxMessageSize. lia.
Qed.

Lemma relayed_envelope type p :
  json_wf p → type ≠ "end_session" → type ≠ "reconnect_token" →
  Relay.input_of (sendEnvelope type p) = Relay.IRelay.
Proof.
  intros Hp H1 H2. unfold Relay.input_of, sendEnvelope, parseEnvelope.
  rewrite parse_stringify by by apply envelope_wf.
  by rewrite !has_type_envelope, !bool_decide_false by done.
Qed.

Section Facts.
Context `{WebCryptoLaws}.
Context (args : send_args) (Hargs : args_ok args).

Local Abbreviation f := (sa_file args).
Local Abbreviation fileId := (sa_fileId args).
Local Abbreviation total := (totalChunks f).

(** How much of the file stands before the chunk [i]. *)
Definition offset (i : Z) : Z := Z.min (i * CHUNK_SIZE) (f_size f).

Lemma length_chunk_plain i :
  0 ≤ i < total → Z.of_nat (length (chunk_plain args i)) = offset (i + 1) - offset i.
Proof.
  intros Hi. pose proof (total_last f). pose proof (total_pos f).
  unfold chunk_plain, chunk_end, f_slice, offset.
  rewrite slice_length by (unfold f_size, CHUNK_SIZE in *; lia). unfold f_size, CHUNK_SIZE in *. lia.
Qed.

Lemma length_chunk_frame i :
  0 ≤ i < total →
  Z.of_nat (length (frame_bytes fileId i (isLast args i) (chunk_ct args i)))
  = offset (i + 1) - offset i + 42.
Proof.
  intros Hi. unfold frame_bytes, chunk_ct, sealed. rewrite !length_app, gcm_length, length_be_bytes.
  rewrite (ao_fileId _ Hargs). pose proof (length_chunk_plain i Hi). cbn [length]. lia.
Qed.

Lemma chunk_msg_fits i : 0 ≤ i < total → Relay.too_large (chunk_msg args i) = false.
Proof.
  intros Hi. unfold chunk_msg, Relay.too_large, Relay.message_size. apply Z.ltb_ge.
  rewrite length_chunk_frame by done. unfold Relay.maxMessageSize, offset, CHUNK_SIZE. lia.
Qed.

Lemma fileId_hex : length (toHex fileId) = 32%nat.
Proof. rewrite length_toHex by apply Hargs. by rewrite (ao_fileId _ Hargs). Qed.

(** What either side sends fits, if the metadata does. *)
Lemma sender_msg_fits p m :
  Relay.too_large (meta_msg args) = false → msg_at args p m → Relay.too_large m = false.
Proof.
  intros Hm [[_ ->]|[(i&_&Hi&->)|[_ ->]]]; [done|apply chunk_msg_fits; lia|].
  apply file_abort_fits. by rewrite fileId_hex.
Qed.

Lemma abort_relayed : Relay.input_of (recv_abort (toHex fileId)) = Relay.IRelay.
Proof. apply relayed_envelope; [|done..]. apply single_wf, (hex_unit args Hargs). Qed.

Lemma ack_relayed i : 0 ≤ i ≤ max_safe → Relay.input_of (chunk_ack (toHex fileId) i) = Relay.IRelay.
Proof.
  intros Hi. apply relayed_envelope; [|done..].
  apply pair_wf; [done|apply (hex_unit args Hargs)|]. simpl. lia.
Qed.

Lemma sender_msg_relayed p m : msg_at args p m → Relay.input_of m = Relay.IRelay.
Proof.
  intros [[_ ->]|[(i&_&Hi&->)|[_ ->]]]; [|done|apply abort_relayed].
  apply relayed_envelope; [|done..]. by apply (meta_payload_wf args).
Qed.

End Facts.
