(* ===== verification/Network.v ===== *)
(** * Two pages and the relay

    The pages of Pairing joined by the server of Hub: what a page sends reaches
    its connection's handler in order, what the server writes reaches the page's
    socket in order, a connection may break at either end, and the server's
    reaper may run at any time. Then what a reconnection does to the epoch when
    the other side is away. *)

From stdpp Require Import base list list_numbers gmap sets strings.
From Stdlib Require Import ZArith Lia.
From S2P Require Import Prelude JsText Hex Json Utf8 Crypto WsClient PairingText PageState.
From S2P Require Import Pairing Session RoleSwap Hub HubFacts.
Open Scope Z_scope.

(** ** The server's messages *)

(** [json.Marshal] of an envelope; the payload is left out when there is none. *)
Definition go_envelope (type : string) (payload : option json) : data :=
  DText (stringify (JObj ((js "type", JStr (js type))
                          :: match payload with Some p => [(js "payload", p)] | None => [] end))).

Section Wire.
Context (format_time : Z → jsstr).     (* time.Time's text *)

Definition wire (m : Relay.message) : data :=
  match m with
  | Relay.MSessionCreated id =>
      go_envelope "session_created" (Some (JObj [(js "sessionId", JStr id)]))
  | Relay.MCodeSessionCreated code t =>
      go_envelope "code_session_created"
        (Some (JObj [(js "code", JStr code); (js "expiresAt", JStr (format_time t))]))
  | Relay.MPaired id => go_envelope "paired" (Some (JObj [(js "sessionId", JStr id)]))
  | Relay.MPeerDisconnected => go_envelope "peer_disconnected" None
  | Relay.MPeerReconnected => go_envelope "peer_reconnected" None
  | Relay.MReconnected => go_envelope "reconnected" None
  | Relay.MSessionEnded reason =>
      go_envelope "session_ended" (Some (JObj [(js "reason", JStr (js reason))]))
  | Relay.MFileAbort id reason =>
      go_envelope "file_abort" (Some (JObj [(js "fileId", JStr id); (js "reason", JStr (js reason))]))
  | Relay.MError code message =>
      go_envelope "error" (Some (JObj [(js "code", JStr (js code)); (js "message", JStr (js message))]))
  | Relay.MRelayed d => d
  end.

(** ** The network *)

(** A page at its address, and its connections: how many messages of each socket
    the server has read, and what is on its way to each. *)
Record endpoint := {
  e_world : world;
  e_ip : jsstr;
  e_read : list nat;
  e_inbox : list (list data)
}.

Record net := { n_left : endpoint; n_right : endpoint; n_server : Relay.server }.

(** The connection of a side's [k]-th socket; a third of the numbers are left to
    other pages. *)
Definition conn_of (b : bool) (k : nat) : nat := (3 * k + if b then 1 else 0)%nat.

Definition side_of (c : nat) : option bool :=
  match (c mod 3)%nat with O => Some false | 1%nat => Some true | _ => None end.

Definition get_end (b : bool) (n : net) : endpoint := if b then n_right n else n_left n.
Definition put_end (b : bool) (n : net) (x : endpoint) : net :=
  if b then {| n_left := n_left n; n_right := x; n_server := n_server n |}
  else {| n_left := x; n_right := n_right n; n_server := n_server n |}.
Definition put_server (n : net) (sv : Relay.server) : net :=
  {| n_left := n_left n; n_right := n_right n; n_server := sv |}.

(** A page after an event; new sockets have sent and received nothing. *)
Definition with_page (x : endpoint) (w : world) : endpoint :=
  let fresh := (length (socks w) - length (socks (e_world x)))%nat in
  {| e_world := w; e_ip := e_ip x; e_read := e_read x ++ replicate fresh O;
     e_inbox := e_inbox x ++ replicate fresh [] |}.

Definition push (x : endpoint) (k : nat) (d : data) : endpoint :=
  {| e_world := e_world x; e_ip := e_ip x; e_read := e_read x;
     e_inbox := alter (λ q, q ++ [d]) k (e_inbox x) |}.

(** What the server writes goes to the inbox of the connection's socket. The
    close of a connection shows when its socket's close event comes. *)
Definition written (n : net) (o : Relay.out) : net :=
  match o with
  | Relay.Send c m =>
      match side_of c with
      | Some b => put_end b n (push (get_end b n) (c / 3)%nat (wire m))
      | None => n
      end
  | Relay.Close _ _ => n
  end.

Definition served (n : net) (r : Relay.server * list Relay.out) : net :=
  fold_left written r.2 (put_server n r.1).

Inductive net_event :=
| Page (e : event)          (* the page's own: a click, a timer, a promise, a socket opens or closes *)
| Reads (k : nat) (now : Z) (en : Relay.entropy)   (* the server reads the socket's next message *)
| Receives (k : nat)        (* the page's socket receives its oldest message *)
| Breaks (k : nat) (now : Z)    (* the server finds the connection broken *)
| Reaps (now : Z).          (* the server's periodic clean-up, for neither side *)

Section Net.
Context `{WebCrypto}.
Context (cfg : Relay.Config) (location : url) (randomKey : nat → bytes).

Definition net_step (n : net) (e : bool * net_event) : option net :=
  let '(b, e) := e in
  let x := get_end b n in
  match e with
  | Page (SockMessage _ _) => None
  | Page e => w ← step location randomKey (e_world x) e; Some (put_end b n (with_page x w))
  | Reads k now en =>
      c ← socks (e_world x) !! k;
      i ← e_read x !! k;
      d ← k_sent c !! i;
      let n := put_end b n {| e_world := e_world x; e_ip := e_ip x;
                              e_read := <[k := S i]> (e_read x); e_inbox := e_inbox x |} in
      let sv := n_server n in
      served n <$> Relay.step cfg sv
        (if bool_decide (conn_of b k ∈ Relay.seen sv) then Relay.Later now (conn_of b k) d
         else Relay.First now (e_ip x) (conn_of b k) en d)
  | Receives k =>
      q ← e_inbox x !! k;
      match q with
      | [] => None
      | d :: q =>
          w ← step location randomKey (e_world x) (SockMessage k d);
          Some (put_end b n (with_page {| e_world := e_world x; e_ip := e_ip x; e_read := e_read x;
                                          e_inbox := <[k := q]> (e_inbox x) |} w))
      end
  | Breaks k now => served n <$> Relay.step cfg (n_server n) (Relay.Gone now (conn_of b k))
  | Reaps now => served n <$> Relay.step cfg (n_server n) (Relay.Reap now)
  end.

End Net.
End Wire.

Definition page_at (ip : jsstr) (w : world) : endpoint :=
  {| e_world := w; e_ip := ip; e_read := []; e_inbox := [] |}.

(** ** Epochs *)

Lemma received_go_envelope type p :
  match p with Some v => json_wf v | None => True end →
  received (go_envelope type p)
  = Some (JObj ((js "type", JStr (js type))
                :: match p with Some p => [(js "payload", p)] | None => [] end)).
Proof.
  intros Hp. unfold received, parseEnvelope, go_envelope. rewrite parse_stringify; [done|].
  pose proof js_unit_ok. destruct p as [v|]; simpl.
  - split; [|auto 6]. apply NoDup_cons. split; [|apply NoDup_singleton].
    by apply (bool_decide_unpack _); vm_compute.
  - split; [apply NoDup_singleton|auto].
Qed.

Section Epochs.
Context `{WebCrypto}.
Context (format_time : Z → jsstr) (location : url) (randomKey : nat → bytes).
Abbreviation page_step := (step location randomKey).

(** Looking at the type of a message that is written out. *)
Ltac read_types :=
  repeat match goal with
    | |- context [has_type ?e ?t] =>
        let b := eval vm_compute in (has_type e t) in change (has_type e t) with b
    end; cbv iota.

Lemma render_epoch w : cs (render w) = cs w.
Proof. apply render_frame. Qed.

(** The page that reconnects. *)
Lemma reconnected_epoch w k c a sid r token :
  socks w !! k = Some c → k_state c = Open → k_listeners c = [LReconnect a sid r token] →
  ∃ w', page_step w (SockMessage k (wire format_time Relay.MReconnected)) = Some w'
    ∧ cs w' = set_epoch (cs w) ((λ e, e + 1) <$> cs_epoch (cs w)).
Proof.
  intros Hk Ho Hl. eexists. split.
  - unfold step. rewrite Hk. cbn [mbind option_bind wire]. rewrite Ho, received_go_envelope by done.
    unfold dispatch. rewrite Hk, Hl. reflexivity.
  - cbn [fold_left on_message]. unfold reconnect_message. read_types. by rewrite render_epoch.
Qed.

(** What the server writes when a reconnection succeeds. *)
Lemma reconnect_writes cfg h now id r token ip c h' o p :
  Relay.Reconnect cfg h now id r token ip c = (h', o, inl (p, r)) →
  o = Relay.notify (slot h p (Relay.other r)) Relay.MPeerReconnected
      ++ [Relay.Send c Relay.MReconnected].
Proof.
  unfold Relay.Reconnect, slot. destruct (Relay.sessions h !! id) as [q|]; [|done]. simpl.
  destruct (Relay.store h !! q) as [s|] eqn:Hs; [|done]. simpl. case_match; [done|].
  destruct (Relay.reattach s r token c ip now) as [s'|] eqn:E; [|done]. intros [= <- <- <-].
  rewrite Hs. simpl. f_equal. f_equal. unfold Relay.reattach in E.
  destruct (Relay.s_peers s r); [|done]. repeat (case_match; [done|]). injection E as <-.
  rewrite connOf_touched, connOf_set_peer. by rewrite decide_False by apply other_ne.
Qed.

(** A reconnection that finds the other side away reaches one page only: its
    epoch is one higher, and nothing tells the other page. *)
Lemma lone_reconnection_advances_one cfg h now id r token ip c h' o p w k s a sid ro tok :
  Relay.Reconnect cfg h now id r token ip c = (h', o, inl (p, r)) →
  slot h p (Relay.other r) = None →
  socks w !! k = Some s → k_state s = Open → k_listeners s = [LReconnect a sid ro tok] →
  ∃ m v, o = [Relay.Send c m]
    ∧ page_step w (SockMessage k (wire format_time m)) = Some v
    ∧ cs_epoch (cs v) = (λ e, e + 1) <$> cs_epoch (cs w).
Proof.
  intros Hr Hs Hk Ho Hl. destruct (reconnected_epoch w k s a sid ro tok Hk Ho Hl) as (v&Hv&Ev).
  exists Relay.MReconnected, v. split_and!; [|done|by rewrite Ev].
  apply reconnect_writes in Hr as ->. by rewrite Hs.
Qed.

End Epochs.
