(* ===== verification/SwapNet.v ===== *)
(** * The role swap through the relay

    The two pages of Network once they are paired: clicks, timers and promises
    of the pages, messages of their transfers, what the relay reads and what
    reaches a page's socket, in any order, while other connections come and go.
    Every run is a run of the two pages of RoleSwap, whose messages go from one
    to the other directly: the relay passes each message on but the reconnect
    tokens, which it keeps, and which the pages ignore. *)

From stdpp Require Import base list list_numbers gmap sets strings.
From Stdlib Require Import ZArith Lia.
From S2P Require Import Prelude JsText Hex Json Utf8 Crypto WsClient PairingText PageState.
From S2P Require Import Pairing Session RoleSwap Hub HubFacts HubLimits HubPair Messages Network.
Open Scope Z_scope.

(** ** What the relay does with a message *)

Definition passed_on (d : data) : bool :=
  match Relay.input_of d with Relay.IRelay => true | _ => false end.

(** A message a paired page sends: passed on, or a reconnect token. *)
Definition fits (d : data) : bool :=
  negb (Relay.too_large d)
  && match Relay.input_of d with
     | Relay.IRelay => true
     | Relay.IReconnectToken _ => inert d
     | Relay.IEndSession => false
     end.

(** A frame that keeps its file below the size limit. *)
Definition below_limit (cfg : Relay.Config) (sv : Relay.server) (p : nat) (d : data) : bool :=
  match d, Relay.store (Relay.hub sv) !! p with
  | DBinary frame, Some s =>
      let v := (Relay.recordChunkBytes s frame (Relay.MaxFileSize cfg)).2 in
      negb (Relay.v_drop v) && negb (Relay.v_sendAbort v)
  | _, _ => true
  end.

Inductive swap_event :=
| OnNet (b : bool) (e : net_event)
| Sends (b : bool) (d : data)       (* a side's transfer sends a message *)
| Elsewhere (e : Relay.event).      (* anything else at the relay *)

Section Net.
Context `{WebCrypto}.
Context (format_time : Z → jsstr) (cfg : Relay.Config).
Context (location : url) (randomKey : nat → bytes).
Context (p : nat) (sock : bool → nat).     (* the session, each side's socket *)

Definition pair_conn (b : bool) : nat := conn_of b (sock b).

(** The events of a pair between connections: the pages' own, those of their two
    sockets, and those [foreign] to the pair. *)
Definition swap_allowed (n : net) (b : bool) (e : net_event) : bool :=
  match e with
  | Page e => RoleSwap.own (e_world (get_end b n)) e
  | Reads k _ _ =>
      bool_decide (k = sock b)
      && match socks (e_world (get_end b n)) !! k, e_read (get_end b n) !! k with
         | Some c, Some i => forallb (below_limit cfg (n_server n) p) (option_list (k_sent c !! i))
         | _, _ => false
         end
  | Receives k => bool_decide (k = sock b)
  | Breaks _ _ | Reaps _ => false
  end.

Definition swap_step (n : net) (e : swap_event) : option net :=
  match e with
  | OnNet b e =>
      if swap_allowed n b e then net_step format_time cfg location randomKey n (b, e) else None
  | Sends b d =>
      if inert d && fits d
      then w ← send_on (e_world (get_end b n)) (sock b) d;
           Some (put_end b n (with_page (get_end b n) w))
      else None
  | Elsewhere e =>
      if decide (foreign cfg p (pair_conn false) (pair_conn true) (n_server n) e)
      then served format_time n <$> Relay.step cfg (n_server n) e
      else None
  end.

End Net.

(** ** What a page sends *)

Lemma fits_envelope type v :
  json_wf v → type ≠ "end_session"%string → type ≠ "reconnect_token"%string →
  Relay.too_large (sendEnvelope type v) = false → fits (sendEnvelope type v) = true.
Proof. intros Hv H1 H2 Ht. unfold fits. by rewrite Ht, relayed_envelope. Qed.

Lemma fits_request : fits role_swap_request = true.
Proof. by apply fits_envelope. Qed.

Lemma fits_response a : fits (role_swap_response a) = true.
Proof. apply fits_envelope; [apply response_wf|done..|by destruct a]. Qed.

Definition token_message (token : bytes) : data :=
  sendEnvelope "reconnect_token" (JObj [(js "tokenHex", JStr (toHex token))]).

Lemma token_message_wf token : bytes_ok token → json_wf (JObj [(js "tokenHex", JStr (toHex token))]).
Proof. intros Ht. apply single_wf. simpl. by apply toHex_unit. Qed.

Lemma hex_decode_toHex t : bytes_ok t → Relay.hex_decode (toHex t) = Some t.
Proof.
  intros Ht. unfold Relay.hex_decode. rewrite fromHex_toHex by done.
  assert (Nat.even (length (toHex t)) = true) as ->.
  { rewrite length_toHex by done. by rewrite Nat.even_mul. }
  assert (forallb Relay.is_hex (toHex t) = true) as ->; [|done].
  apply forallb_forall. intros c Hc%list_elem_of_In. revert c Hc. apply Forall_forall.
  unfold toHex. apply Forall_concat, Forall_fmap. eapply Forall_impl; [exact Ht|].
  intros b Hb.
  pose proof (byte_forallb (λ b, forallb Relay.is_hex (byteHex b)) ltac:(vm_compute; reflexivity) b Hb) as H.
  apply Forall_forall. intros c Hc. rewrite forallb_forall in H. by apply H, list_elem_of_In.
Qed.

Lemma token_input token :
  bytes_ok token → Relay.input_of (token_message token) = Relay.IReconnectToken (Some token).
Proof.
  intros Ht. unfold Relay.input_of, token_message, sendEnvelope, parseEnvelope.
  rewrite parse_stringify by by apply envelope_wf, token_message_wf.
  rewrite !has_type_envelope, envelope_payload. cbn [bool_decide]. cbv iota.
  change (Relay.field "tokenHex" (Some (JObj [(js "tokenHex", JStr (toHex token))])))
    with (Some (toHex token)). cbn [mbind option_bind]. by rewrite hex_decode_toHex.
Qed.

Lemma token_size token :
  bytes_ok token → length token = 32%nat → Relay.too_large (token_message token) = false.
Proof.
  intros Ht Hl. unfold token_message, sendEnvelope. apply text_size.
  pose proof (length_quote (toHex token)) as Hq. rewrite length_toHex, Hl in Hq by done.
  revert Hq. generalize (toHex token). intros t Hq.
  part_lengths. unfold Relay.maxMessageSize. lia.
Qed.

Lemma token_fits token : bytes_ok token → length token = 32%nat → fits (token_message token) = true.
Proof.
  intros Ht Hl. unfold fits. rewrite token_input by done.
  rewrite token_size by done. exact (token_inert token Ht).
Qed.

(** The messages of [w'] on the socket [k] are those of [w] and more that fit. *)
Definition sends_more (k : nat) (w w' : world) : Prop :=
  length (socks w') = length (socks w)
  ∧ ∀ c, socks w !! k = Some c →
    ∃ c' ms, socks w' !! k = Some c' ∧ k_sent c' = k_sent c ++ ms ∧ Forall (λ d, fits d = true) ms.

Lemma sends_none k w w' : socks w' = socks w → sends_more k w w'.
Proof.
  intros He. split; [by rewrite He|]. intros c Hc. exists c, []. rewrite He, app_nil_r. by split_and!.
Qed.

Lemma sends_trans k w1 w2 w3 : sends_more k w1 w2 → sends_more k w2 w3 → sends_more k w1 w3.
Proof.
  intros [L1 H1] [L2 H2]. split; [congruence|]. intros c Hc.
  destruct (H1 c Hc) as (c2&ms&Hc2&E2&F2). destruct (H2 c2 Hc2) as (c3&ns&Hc3&E3&F3).
  exists c3, (ms ++ ns). split_and!; [done|by rewrite E3, E2, app_assoc|]. by apply Forall_app.
Qed.

Lemma sends_one k w j d w' : fits d = true → send_on w j d = Some w' → sends_more k w w'.
Proof.
  intros Hd Hs. unfold send_on in Hs. destruct (socks w !! j) as [c0|] eqn:Hj; [|done].
  destruct (k_state c0); simplify_eq; [|by apply sends_none..].
  split; [simpl; by rewrite length_insert|]. intros c Hc. simpl.
  destruct (decide (j = k)) as [->|Hne].
  - rewrite list_lookup_insert_eq by (by eapply lookup_lt_Some). simplify_eq.
    eexists _, [d]. split_and!; [done..|]. by constructor.
  - rewrite list_lookup_insert_ne by done. exists c, []. rewrite app_nil_r. by split_and!.
Qed.

Section Pages.
Context `{WebCrypto}.
Context (location : url) (randomKey : nat → bytes).
Abbreviation page_step := (step location randomKey).

Lemma own_sends w k n e w' :
  joined w k n → RoleSwap.own w e = true → page_step w e = Some w' → sends_more k w w'.
Proof.
  intros Hj Ho Hs. destruct e; simpl in Ho; try done; simpl in Hs.
  - apply bool_decide_eq_true in Ho as ->. unfold click, screen_view in Hs.
    rewrite (jn_screen _ _ _ Hj) in Hs. apply (inj Some) in Hs as <-.
    cbn [snd]. unfold requestRoleSwap. cbv zeta. case_match; [by apply sends_none|].
    case_match; [by apply sends_none|]. case_match eqn:E; [|by apply sends_none].
    apply bind_Some in E as (j&_&E). exact (sends_one k _ _ _ _ fits_request E).
  - destruct (timers w !! i) as [[|a]|]; simpl in *; simplify_eq; [|done..].
    apply sends_none. unfold swap_timeout. simpl. by apply negb_true_iff in Ho as ->.
  - destruct (promises w !! i) as [x|] eqn:Ex; simpl in *; simplify_eq.
    pose proof (Forall_lookup_1 _ _ _ _ (jn_tokens _ _ _ Hj) Ex) as Ht.
    destruct x as [j token|sock ep tr|]; [| |done]; cbn [settle].
    + destruct Ht as [Ht Hl]. unfold token_derived, try_send.
      destruct (send_on _ _ _) as [w1|] eqn:E; [|by apply sends_none].
      by apply (sends_one k _ _ _ _ (token_fits token Ht Hl)) in E.
    + apply sends_none. by destruct (transfer_rendered_side (put_promises w (delete_at i (promises w))) sock ep tr) as (_&_&_&_&->&_).
  - destruct (handles w !! h); simplify_eq/=. by apply sends_none.
  - case_match; simplify_eq. apply sends_none. by destruct (staleFiles_side w files) as (_&_&_&_&->&_).
Qed.

Lemma flip_sends k w : cs_screen (cs w) = Paired → sends_more k w (flipTransferRole w).
Proof.
  intros Hs. apply sends_none. unfold flipTransferRole. cbv zeta.
  by destruct (render_paired (set_cs w (set_transferRole (cs w)
    (if bool_decide (cs_transferRole (cs w) = Some SenderRole) then ReceiverRole else SenderRole))) Hs)
    as (_&_&_&->&_).
Qed.

Lemma arrival_sends w k n d w' :
  joined w k n → known d → page_step w (SockMessage k d) = Some w' → sends_more k w w'.
Proof.
  intros Hj Hd Hs. rewrite (arrives_joined _ _ _ _ _ _ Hj Hd) in Hs.
  destruct (received d) as [env|] eqn:Er; apply (inj Some) in Hs as <-; [|by apply sends_none].
  destruct Hd as [Hd|[m Hm]]; [rewrite (paired_inert _ _ _ _ _ _ Hd Er); by apply sends_none|].
  unfold kind in Hm. rewrite Er in Hm. simpl in Hm. cbn [on_message]. unfold paired_message.
  destruct (has_type env "role_swap_request") eqn:E1.
  - rewrite !(has_type_one env "role_swap_request") by done. unfold swap_requested. cbv zeta.
    set (busy := _ || _). destruct (send_on _ _ _) as [w1|] eqn:Es; [|by apply sends_none].
    pose proof (sends_one k _ _ _ _ (fits_response _) Es) as H1.
    destruct (sent_joined _ _ _ _ _ Hj (or_intror _ (mk_is_Some _ _ (kind_response _))) Es)
      as (Hj1&_&_&_).
    destruct busy; [done|]. eapply sends_trans, flip_sends; [done|apply Hj1].
  - destruct (has_type env "role_swap_response") eqn:E2; [|done].
    rewrite !(has_type_one env "role_swap_response") by done. unfold swap_answered.
    destruct (negb _); [by apply sends_none|]. cbv zeta. destruct (accepted_of env); [|by apply sends_none].
    by apply (flip_sends k (set_vars w (λ p, with_swapAwaitingResponse p false))), (jn_screen _ _ _ Hj).
Qed.

End Pages.

(** ** The messages on their way *)

(** Of what [x]'s page has sent and the other page has not got, the relay has
    read the first part and [q] of it is in the other page's inbox; [i] counts
    what the relay has read. *)
Record on_way (x : peer) (i : nat) (q : list data) : Prop := {
  ow_fit : ∀ c, socks (p_world x) !! p_sock x = Some c → Forall (λ d, fits d = true) (drop i (k_sent c));
  ow_read : ∀ c, socks (p_world x) !! p_sock x = Some c → (i ≤ length (k_sent c))%nat;
  ow_queue : ∀ c, socks (p_world x) !! p_sock x = Some c →
    filter (λ d, passed_on d = true) (in_flight x)
    = q ++ filter (λ d, passed_on d = true) (drop i (k_sent c))
}.

(** The page does something. *)
Lemma on_way_grows x i q w k n :
  joined (p_world x) (p_sock x) (p_relayed x) → k = p_sock x → n = p_relayed x →
  sends_more k (p_world x) w →
  on_way x i q → on_way {| p_world := w; p_sock := k; p_relayed := n |} i q.
Proof.
  intros [_ _ _ _ (c&l&Hk&_&_&_&Hn&_)] -> -> [_ Hs] [Hf Hr Hq].
  destruct (Hs c Hk) as (c'&ms&Hk'&Hsent&Hms).
  specialize (Hf c Hk). specialize (Hr c Hk). specialize (Hq c Hk).
  unfold in_flight in Hq. rewrite Hk in Hq.
  split; simpl; intros c2 Hc2; simplify_eq; rewrite ?Hsent.
  - rewrite drop_app_le by done. by apply Forall_app.
  - rewrite length_app. lia.
  - unfold in_flight. simpl. rewrite Hk', Hsent, !drop_app_le, !filter_app, Hq by done.
    by rewrite app_assoc.
Qed.

(** The relay reads a message. *)
Lemma on_way_read x i q c d :
  socks (p_world x) !! p_sock x = Some c → k_sent c !! i = Some d → on_way x i q →
  on_way x (S i) (if passed_on d then q ++ [d] else q) ∧ fits d = true.
Proof.
  intros Hk Hd [Hf Hr Hq]. specialize (Hf c Hk). specialize (Hq c Hk).
  rewrite (drop_S _ _ _ Hd) in Hf, Hq. apply Forall_cons in Hf as [Hfd Hf]. split; [|done].
  split; intros c2 Hc2; simplify_eq; [done|by eapply lookup_lt_Some|].
  rewrite Hq. destruct (passed_on d) eqn:E.
  - by rewrite filter_cons_True, <- app_assoc.
  - rewrite filter_cons_False; [done|]. by rewrite E.
Qed.

(** The messages before the oldest that arrives are those the relay keeps. *)
Lemma filter_head_split {A} (P : A → Prop) `{∀ x, Decision (P x)} l x q :
  filter P l = x :: q → ∃ l1 l2, l = l1 ++ x :: l2 ∧ Forall (λ y, ¬ P y) l1 ∧ P x ∧ filter P l2 = q.
Proof.
  induction l as [|y l IH]; [done|]. destruct (decide (P y)) as [Hy|Hy].
  - rewrite filter_cons_True by done. intros [= <- <-]. by exists [], l.
  - rewrite filter_cons_False by done. intros Hq. destruct (IH Hq) as (l1&l2&->&H1&H2&H3).
    exists (y :: l1), l2. split_and!; [done|by constructor|done..].
Qed.

Lemma known_kept d : known d → passed_on d = false → inert d = true.
Proof.
  intros [Hd|[m Hd]] Hp; [done|]. exfalso. unfold passed_on, Relay.input_of in Hp.
  unfold kind, received in Hd.
  destruct (parseEnvelope d) as [env|]; cbn [mbind option_bind] in Hd; [|done].
  destruct (truthy env); cbn [mbind option_bind] in Hd; [|done].
  destruct (has_type env "role_swap_request") eqn:E1.
  - by rewrite !(has_type_one env "role_swap_request") in Hp.
  - destruct (has_type env "role_swap_response") eqn:E2; [|done].
    by rewrite !(has_type_one env "role_swap_response") in Hp.
Qed.

(** What the page has got of the messages in flight. *)
Definition got (m : nat) (x : peer) : peer :=
  {| p_world := p_world x; p_sock := p_sock x; p_relayed := (m + p_relayed x)%nat |}.

Lemma got_flight m x l1 l2 : in_flight x = l1 ++ l2 → length l1 = m → in_flight (got m x) = l2.
Proof.
  intros Hf <-. unfold in_flight in *. simpl. destruct (socks (p_world x) !! p_sock x) as [c|].
  - by rewrite Nat.add_comm, <- drop_drop, Hf, drop_app_length.
  - by destruct l1.
Qed.

Lemma on_way_got x i d q l1 l2 :
  in_flight x = l1 ++ d :: l2 → filter (λ d, passed_on d = true) l1 = [] → passed_on d = true →
  on_way x i (d :: q) → on_way (got (S (length l1)) x) i q.
Proof.
  intros Hl Hl1 Hd [Hf Hr Hq]. split; simpl; [done..|]. intros c Hc. specialize (Hq c Hc).
  rewrite (got_flight _ _ (l1 ++ [d]) l2) by (rewrite ?Hl, <- ?app_assoc, ?length_app; simpl; done || lia).
  rewrite Hl, filter_app, Hl1, filter_cons_True in Hq by done. by injection Hq.
Qed.

(** ** The simulation *)

Definition side (b : bool) (ps : peer * peer) : peer := if b then ps.2 else ps.1.

Lemma side_step `{WebCrypto} location randomKey ps b e l r :
  left_event location randomKey (side b ps, side (negb b) ps) e = Some (l, r) →
  ∃ ps', pair_step location randomKey ps (b, e) = Some ps'
    ∧ side b ps' = l ∧ side (negb b) ps' = r.
Proof.
  destruct ps as [p1 p2], b; cbn [side negb fst snd pair_step]; intros He.
  - exists (r, l). unfold Spec.swap. cbn [fst snd]. by rewrite He.
  - by exists (l, r).
Qed.

Lemma get_put b n x : get_end b (put_end b n x) = x.
Proof. by destruct b. Qed.

Lemma get_put_other b n x : get_end (negb b) (put_end b n x) = get_end (negb b) n.
Proof. by destruct b. Qed.

Lemma server_put b n x : n_server (put_end b n x) = n_server n.
Proof. by destruct b. Qed.

Lemma with_page_same x w :
  length (socks w) = length (socks (e_world x)) →
  with_page x w = {| e_world := w; e_ip := e_ip x; e_read := e_read x; e_inbox := e_inbox x |}.
Proof. intros Hl. unfold with_page. by rewrite Hl, Nat.sub_diag, !app_nil_r. Qed.

Lemma conn_of_side b k : side_of (conn_of b k) = Some b ∧ (conn_of b k / 3)%nat = k.
Proof.
  unfold side_of, conn_of. rewrite (Nat.mul_comm 3), Nat.add_comm, Nat.Div0.mod_add, Nat.div_add by done.
  by destruct b.
Qed.

Lemma side_of_conn c b : side_of c = Some b → c = conn_of b (c / 3).
Proof.
  unfold side_of, conn_of. intros Hc. pose proof (Nat.div_mod_eq c 3) as Hd.
  destruct (c mod 3)%nat as [|[|x]]; simplify_eq; lia.
Qed.

Section Simulation.
Context `{WebCrypto}.
Context (format_time : Z → jsstr) (cfg : Relay.Config).
Context (location : url) (randomKey : nat → bytes).
Context (p : nat) (role : Relay.Role) (sock : bool → nat).
Abbreviation pstep := (pair_step location randomKey).
Abbreviation nstep := (swap_step format_time cfg location randomKey p sock).

Record matches (n : net) (ps : peer * peer) : Prop := {
  mt_pair : pair_at p role (pair_conn sock false) (pair_conn sock true) (n_server n);
  mt_side b : linked (side b ps) ∧ p_world (side b ps) = e_world (get_end b n)
              ∧ p_sock (side b ps) = sock b;
  mt_way b : ∃ i q, e_read (get_end b n) !! sock b = Some i
    ∧ e_inbox (get_end (negb b) n) !! sock (negb b) = Some q ∧ on_way (side b ps) i q
}.

Lemma bool_cases (P : bool → Prop) b : P b → P (negb b) → ∀ c, P c.
Proof. destruct b; intros H1 H2 []; done. Qed.

Lemma on_way_world x i q w :
  linked x → sends_more (p_sock x) (p_world x) w → on_way x i q → on_way (with_world x w) i q.
Proof. intros Hl Hs Hw. by eapply (on_way_grows x i q w (p_sock x) (p_relayed x)). Qed.

(** The page of a side does something the two pages of RoleSwap do. *)
Lemma page_acts n ps b e w :
  matches n ps →
  left_event location randomKey (side b ps, side (negb b) ps) e
  = Some (with_world (side b ps) w, side (negb b) ps) →
  sends_more (sock b) (e_world (get_end b n)) w →
  ∃ ps', pstep ps (b, e) = Some ps' ∧ matches (put_end b n (with_page (get_end b n) w)) ps'.
Proof.
  intros [Hp Hs Hw] He Hm. destruct (side_step _ _ _ _ _ _ _ He) as (ps'&Hst&E1&E2).
  destruct (Hs b) as (Hl&Ew&Ek). destruct (Hs (negb b)) as (Hl'&Ew'&Ek').
  destruct (left_event_follows _ _ _ _ _ _ _ Hl Hl' He) as (L1&_&_).
  exists ps'. split; [done|]. rewrite with_page_same by (destruct Hm; congruence).
  split; [by rewrite server_put|..]; apply (bool_cases _ b);
    rewrite ?negb_involutive, ?get_put, ?get_put_other, ?E1, ?E2; [done..| |].
  - destruct (Hw b) as (i&q&Hi&Hq&Ho). exists i, q. simpl. split_and!; [done..|].
    apply on_way_world; [done| |done]. by rewrite Ek, Ew.
  - destruct (Hw (negb b)) as (i&q&Hi&Hq&Ho). rewrite negb_involutive in Hq. by exists i, q.
Qed.

(** A message the relay keeps: the page it is for would have ignored it. *)
Lemma kept_arrives ps b d q :
  linked (side b ps) → linked (side (negb b) ps) → in_flight (side (negb b) ps) = d :: q →
  inert d = true →
  ∃ ps', pstep ps (b, Arrives) = Some ps' ∧ side b ps' = side b ps
    ∧ side (negb b) ps' = got 1 (side (negb b) ps).
Proof.
  intros Hl Hl' Hq Hd.
  assert (left_event location randomKey (side b ps, side (negb b) ps) Arrives
          = Some (side b ps, relayed_one (side (negb b) ps))) as He.
  { cbn [left_event]. rewrite Hq.
    rewrite (arrives_joined _ _ _ _ _ _ Hl (or_introl Hd)).
    destruct (received d) as [env|] eqn:Er; cbn [mbind option_bind];
      [rewrite (paired_inert _ _ _ _ _ _ Hd Er)|]; by destruct (side b ps). }
  destruct (side_step _ _ _ _ _ _ _ He) as (ps'&?&?&?). by exists ps'.
Qed.

Lemma kept_arrive l1 q : ∀ ps b,
  linked (side b ps) → linked (side (negb b) ps) → in_flight (side (negb b) ps) = l1 ++ q →
  Forall (λ d, ¬ passed_on d = true) l1 →
  ∃ ps', run pstep (replicate (length l1) (b, Arrives)) ps = Some ps' ∧ side b ps' = side b ps
    ∧ side (negb b) ps' = got (length l1) (side (negb b) ps).
Proof.
  induction l1 as [|d l1 IH]; intros ps b Hl Hl' Hq Hk; cbn [app length replicate run].
  { exists ps. by destruct (side (negb b) ps). }
  apply Forall_cons in Hk as [Hd Hk].
  destruct (relayed_linked _ _ _ Hl' Hq) as (Hl1&Hq1&Hkn).
  assert (inert d = true) as Hi by (apply known_kept; [done|by apply not_true_is_false]).
  destruct (kept_arrives ps b d (l1 ++ q) Hl Hl' Hq Hi) as (ps1&Hst&E1&E2).
  change (relayed_one (side (negb b) ps)) with (got 1 (side (negb b) ps)) in *.
  rewrite <- E1 in Hl. rewrite <- E2 in Hl1, Hq1.
  destruct (IH ps1 b Hl Hl1 Hq1 Hk) as (ps'&Hr&F1&F2).
  exists ps'. rewrite Hst. split_and!; [done|congruence|].
  rewrite F2, E2. unfold got. simpl. by rewrite <- Nat.add_succ_comm.
Qed.

(** A message reaches the page's socket: first those that the relay has kept. *)
Lemma page_receives n ps b d q w :
  matches n ps → e_inbox (get_end b n) !! sock b = Some (d :: q) →
  step location randomKey (e_world (get_end b n)) (SockMessage (sock b) d) = Some w →
  let x := get_end b n in
  ∃ es ps', run pstep es ps = Some ps' ∧
    matches (put_end b n (with_page {| e_world := e_world x; e_ip := e_ip x; e_read := e_read x;
                                       e_inbox := <[sock b := q]> (e_inbox x) |} w)) ps'.
Proof.
  intros [Hp Hs Hw] Hin Hst x. destruct (Hs b) as (Hl&Ew&Ek). destruct (Hs (negb b)) as (Hl'&Ew'&Ek').
  destruct (Hw (negb b)) as (i&q0&Hi&Hq&Ho). rewrite negb_involutive, Hin in Hq. injection Hq as <-.
  destruct (jn_socket _ _ _ Hl') as (c&_&Hc&_).
  pose proof (ow_queue _ _ _ Ho _ Hc) as Hf. cbn [app] in Hf.
  apply filter_head_split in Hf as (l1&l2&Hfl&H1&H2&_).
  destruct (kept_arrive l1 (d :: l2) ps b Hl Hl' Hfl H1) as (ps1&Hr&E1&E2).
  pose proof (got_flight _ _ _ _ Hfl eq_refl) as Hg. rewrite <- E2 in Hg.
  assert (linked (side b ps1) ∧ linked (side (negb b) ps1)) as [L1 L2].
  { clear -Hl Hl' Hr.
    assert (linked ps.1 ∧ linked ps.2) as [Ha Hb] by (by destruct b).
    destruct ps as [p1 p2], ps1 as [p3 p4].
    destruct (run_follows _ _ _ _ _ _ _ Ha Hb Hr) as (?&?&_). by destruct b. }
  destruct (relayed_linked _ _ _ L2 Hg) as (L3&_&Hkn).
  assert (left_event location randomKey (side b ps1, side (negb b) ps1) Arrives
          = Some (with_world (side b ps1) w, relayed_one (side (negb b) ps1))) as He.
  { cbn [left_event]. by rewrite Hg, E1, Ek, Ew, Hst. }
  destruct (side_step _ _ _ _ _ _ _ He) as (ps'&Hst'&F1&F2).
  destruct (left_event_follows _ _ _ _ _ _ _ L1 L2 He) as (L4&L5&_).
  exists (replicate (length l1) (b, Arrives) ++ [(b, Arrives)]), ps'. split.
  { rewrite run_app, Hr. cbn [mbind option_bind run]. by rewrite Hst'. }
  assert (sends_more (p_sock (side b ps)) (p_world (side b ps)) w) as Hm.
  { rewrite <- Ew, <- Ek in Hst. by eapply arrival_sends. }
  subst x. rewrite with_page_same by (destruct Hm; simpl; congruence).
  split; [by rewrite server_put|..]; apply (bool_cases _ b);
    rewrite ?negb_involutive, ?get_put, ?get_put_other, ?F1, ?F2, ?E1, ?E2; simpl.
  - by rewrite E1 in L4.
  - by rewrite E2 in L5.
  - destruct (Hw b) as (j&q1&Hj&Hq1&Ho1). exists j, q1. split_and!; [done..|].
    by apply on_way_world.
  - exists i, q. split_and!; [done| |].
    + rewrite list_lookup_insert_eq by (by eapply lookup_lt_Some). done.
    + change (on_way (got (S (length l1)) (side (negb b) ps)) i q).
      apply (on_way_got _ i d q l1 l2); [done| |done|done].
      clear -H1. induction H1 as [|y l Hy _ IH]; [done|]. by rewrite filter_cons_False.
Qed.

(** *** What the relay does *)

Lemma record_same s s0 frame n :
  Relay.s_currentFile s = Relay.s_currentFile s0 →
  Relay.s_currentFile (Relay.recordChunkBytes s frame n).1
  = Relay.s_currentFile (Relay.recordChunkBytes s0 frame n).1
  ∧ (Relay.recordChunkBytes s frame n).2 = (Relay.recordChunkBytes s0 frame n).2.
Proof.
  intros Hs. unfold Relay.recordChunkBytes. rewrite Hs. case_match; [done|]. cbv zeta.
  by repeat case_match.
Qed.

Lemma below_admits sv d s :
  Relay.store (Relay.hub sv) !! p = Some s → below_limit cfg sv p d = true →
  ∃ f, admits cfg (Relay.s_currentFile s) d f.
Proof.
  intros Hs Hb. destruct d as [t|frame]; simpl in Hb; [by eexists|]. rewrite Hs in Hb.
  exists (Relay.s_currentFile (Relay.recordChunkBytes s frame (Relay.MaxFileSize cfg)).1).
  intros s0 He. destruct (record_same s0 s frame (Relay.MaxFileSize cfg) He) as [E1 E2].
  destruct (Relay.recordChunkBytes s0 frame _) as [s' v]. simpl in E1, E2. exists s', v.
  rewrite <- E2 in Hb. apply andb_true_iff in Hb as [H1%negb_true_iff H2%negb_true_iff]. done.
Qed.

Definition role_of (b : bool) : Relay.Role := if b then Relay.other role else role.

Lemma pair_side b sv :
  pair_at p role (pair_conn sock false) (pair_conn sock true) sv →
  pair_at p (role_of b) (pair_conn sock b) (pair_conn sock (negb b)) sv.
Proof. intros Hp. destruct b; [by apply pair_swap|done]. Qed.

Lemma side_pair b sv :
  pair_at p (role_of b) (pair_conn sock b) (pair_conn sock (negb b)) sv →
  pair_at p role (pair_conn sock false) (pair_conn sock true) sv.
Proof.
  intros Hp. destruct b; [|done]. apply pair_swap in Hp. simpl in Hp. by rewrite other_other in Hp.
Qed.

(** The relay reads what a page has sent. *)
Lemma relay_reads sv b now d :
  pair_at p role (pair_conn sock false) (pair_conn sock true) sv →
  fits d = true → below_limit cfg sv p d = true →
  ∃ sv', Relay.step cfg sv (Relay.Later now (pair_conn sock b) d)
         = Some (sv', if passed_on d then [Relay.Send (pair_conn sock (negb b)) (Relay.MRelayed d)] else [])
    ∧ pair_at p role (pair_conn sock false) (pair_conn sock true) sv'.
Proof.
  intros Hp Hf Hb. apply (pair_side b) in Hp. unfold fits in Hf.
  apply andb_true_iff in Hf as [Ht%negb_true_iff Hi].
  pose proof (pa_hold _ _ _ _ _ Hp _ _ _ (pa_a _ _ _ _ _ Hp)) as Hslot. unfold slot in Hslot.
  destruct (Relay.store (Relay.hub sv) !! p) as [s|] eqn:Hs; [|done].
  unfold passed_on. destruct (Relay.input_of d) as [|token|] eqn:Ei; [done| |].
  - assert (Relay.step cfg sv (Relay.Later now (pair_conn sock b) d)
            = Some (Relay.serve_message cfg sv now (pair_conn sock b) p (role_of b) d)) as Hst.
    { unfold Relay.step. rewrite (pa_a _ _ _ _ _ Hp). cbn [mbind option_bind]. by rewrite Ht. }
    unfold Relay.serve_message in Hst. rewrite Ei in Hst.
    assert (∃ sv', Relay.step cfg sv (Relay.Later now (pair_conn sock b) d) = Some (sv', [])
              ∧ Relay.loops sv' = Relay.loops sv) as (sv'&Hst'&Hlo).
    { destruct token; by eexists. }
    exists sv'. split; [done|]. apply (side_pair b). destruct Hp as [Hok Hh Ha Hc].
    split; [by eapply step_server_ok|by eapply step_hold|by rewrite Hlo..].
  - destruct (below_admits sv d s Hs Hb) as [f Ha].
    destruct (relay_passes cfg _ _ _ _ sv now d (Relay.s_currentFile s) f Hp) as (sv'&Hst&Hp'&_); [|done..|].
    { unfold tracker. by rewrite Hs. }
    exists sv'. split; [done|]. by apply (side_pair b).
Qed.

Lemma page_read n ps b now en n' :
  matches n ps → nstep n (OnNet b (Reads (sock b) now en)) = Some n' → matches n' ps.
Proof.
  intros [Hp Hs Hw] He. cbn [swap_step] in He. destruct (swap_allowed _ _ _ _ _ _) eqn:Hal; [|done].
  cbn [swap_allowed] in Hal. rewrite bool_decide_true in Hal by done. cbn [andb] in Hal. cbn [net_step] in He.
  destruct (Hs b) as (Hl&Ew&Ek). destruct (Hw b) as (i&q&Hi&Hq&Ho).
  destruct (jn_socket _ _ _ Hl) as (c&_&Hc&_). rewrite Ew, Ek in Hc. rewrite Hc, Hi in Hal, He.
  cbn [mbind option_bind] in He. destruct (k_sent c !! i) as [d|] eqn:Hd; [|done].
  cbn [mbind option_bind] in He. cbn in Hal. rewrite andb_true_r in Hal.
  destruct (on_way_read _ _ _ c d ltac:(by rewrite Ew, Ek) Hd Ho) as [Ho' Hfit].
  rewrite server_put in He.
  rewrite bool_decide_true in He.
  2: { pose proof (pair_side b _ Hp) as Hp'. eapply ok_loops; [apply Hp'|apply Hp']. }
  destruct (relay_reads (n_server n) b now d Hp Hfit Hal) as (sv'&Hst&Hp').
  unfold pair_conn in Hst. rewrite Hst in He. injection He as <-. unfold served. cbn [fst snd].
  destruct (conn_of_side (negb b) (sock (negb b))) as [Ec Ed].
  destruct (Hw (negb b)) as (j&q1&Hj&Hq1&Ho1). rewrite negb_involutive in Hq1.
  assert (sock b < length (e_read (get_end b n)))%nat by by eapply lookup_lt_Some.
  destruct (passed_on d); cbn [fold_left written]; rewrite ?Ec, ?Ed; clear Ec Ed.
  - split; [by destruct b|intros x; specialize (Hs x); by destruct b, x|].
    apply (bool_cases _ b); [exists (S i), (q ++ [d])|exists j, q1]; rewrite ?negb_involutive.
    + split_and!; [destruct b; simpl in *; by rewrite list_lookup_insert_eq| |done].
      destruct b; simpl in *; by rewrite list_lookup_alter_eq, Hq.
    + destruct b; by split_and!.
  - split; [by destruct b|intros x; specialize (Hs x); by destruct b, x|].
    apply (bool_cases _ b); [exists (S i), q|exists j, q1]; rewrite ?negb_involutive.
    + split_and!; [destruct b; simpl in *; by rewrite list_lookup_insert_eq|by destruct b|done].
    + destruct b; by split_and!.
Qed.

(** Anything else at the relay writes to neither side. *)
Lemma written_ends os : ∀ n b,
  silent (pair_conn sock b) os →
  let n' := fold_left (written format_time) os n in
  e_world (get_end b n') = e_world (get_end b n) ∧ e_read (get_end b n') = e_read (get_end b n)
  ∧ e_inbox (get_end b n') !! sock b = e_inbox (get_end b n) !! sock b
  ∧ n_server n' = n_server n.
Proof.
  induction os as [|o os IH]; intros n b Hs; [done|]. simpl.
  destruct (IH (written format_time n o) b) as (E1&E2&E3&E4); [intros m Hm; apply (Hs m); by right|].
  rewrite E1, E2, E3, E4. destruct o as [c m|]; [|done]. cbn [written].
  destruct (side_of c) as [b'|] eqn:Hb; [|done]. rewrite server_put.
  destruct (decide (b' = b)) as [->|Hne].
  - rewrite get_put. split_and!; [done..| |done]. simpl. apply list_lookup_alter_ne. intros Hk.
    apply (Hs m), elem_of_cons. left. f_equal. unfold pair_conn. rewrite <- Hk. symmetry. by apply side_of_conn.
  - assert (b = negb b') as -> by (by destruct b, b'). by rewrite !get_put_other.
Qed.

Lemma relay_else n ps e n' : matches n ps → nstep n (Elsewhere e) = Some n' → matches n' ps.
Proof.
  intros [Hp Hs Hw]. cbn [swap_step]. case_decide as Hf; [|done].
  destruct (Relay.step cfg (n_server n) e) as [[sv os]|] eqn:E; [|done]. intros [= <-].
  assert (∀ b, silent (pair_conn sock b) os) as Hq.
  { intros b. eapply foreign_silent; [done..|]. destruct b; auto. }
  assert (∀ b, _) as Hends by (intros b; exact (written_ends os (put_server n sv) b (Hq b))).
  unfold served. cbn [fst snd]. split.
  - destruct (Hends true) as (_&_&_&->). by eapply foreign_pair.
  - intros b. destruct (Hends b) as (->&_&_&_). apply Hs.
  - intros b. destruct (Hends b) as (_&->&_&_), (Hends (negb b)) as (_&_&->&_).
    destruct (Hw b) as (i&q&Hi&Hi'&Ho). exists i, q. by destruct b.
Qed.

(** Every step of the network is some steps of the two pages. *)
Lemma swap_simulated n ps e n' :
  matches n ps → nstep n e = Some n' → ∃ es ps', run pstep es ps = Some ps' ∧ matches n' ps'.
Proof.
  intros Hm He. pose proof (mt_side _ _ Hm) as Hs. destruct e as [b e|b d|e].
  - destruct e as [e|k now en|k|k now|now]; cbn [swap_step] in He;
      destruct (swap_allowed _ _ _ _ _ _) eqn:Hal; try done; cbn [swap_allowed] in Hal.
    + destruct (Hs b) as (Hl&Ew&Ek).
      assert (∃ w, step location randomKey (e_world (get_end b n)) e = Some w
                   ∧ n' = put_end b n (with_page (get_end b n) w)) as (w&Hw&->).
      { cbn [net_step] in He. destruct e; try done; apply bind_Some in He as (w&Hw&[= <-]); by exists w. }
      destruct (page_acts n ps b (Own e) w Hm) as (ps'&Hst&Hm').
      * cbn [left_event]. by rewrite Ew, Hal, Hw.
      * rewrite <- Ew in *. rewrite <- Ek. by eapply own_sends.
      * exists [(b, Own e)], ps'. split; [|done]. cbn [run]. by rewrite Hst.
    + assert (k = sock b) as -> by (by apply andb_true_iff in Hal as [?%bool_decide_eq_true _]).
      exists [], ps. split; [done|]. eapply (page_read n ps b now en); [done|].
      cbn [swap_step swap_allowed]. by rewrite Hal.
    + apply bool_decide_eq_true in Hal as ->. cbn [net_step] in He.
      apply bind_Some in He as ([|d q]&Hq&He); [done|].
      apply bind_Some in He as (w&Hw&[= <-]). by eapply page_receives.
  - cbn [swap_step] in He. destruct (inert d && fits d) eqn:Hd; [|done].
    apply andb_true_iff in Hd as [Hd Hf]. destruct (Hs b) as (Hl&Ew&Ek).
    apply bind_Some in He as (w&Hw&[= <-]).
    destruct (page_acts n ps b (Traffic d) w Hm) as (ps'&Hst&Hm').
    + cbn [left_event]. by rewrite Hd, Ew, Ek, Hw.
    + by eapply sends_one.
    + exists [(b, Traffic d)], ps'. split; [|done]. cbn [run]. by rewrite Hst.
  - exists [], ps. split; [done|]. by eapply relay_else.
Qed.

Lemma swap_run_simulated es : ∀ n ps n',
  matches n ps → run nstep es n = Some n' →
  ∃ pes ps', run pstep pes ps = Some ps' ∧ matches n' ps'.
Proof.
  induction es as [|e es IH]; intros n ps n' Hm; cbn [run].
  - intros [= <-]. by exists [], ps.
  - intros (n1&H1&Hr)%bind_Some. destruct (swap_simulated _ _ _ _ Hm H1) as (e1&ps1&Hr1&Hm1).
    destruct (IH _ _ _ Hm1 Hr) as (e2&ps2&Hr2&Hm2). exists (e1 ++ e2), ps2.
    split; [|done]. by rewrite run_app, Hr1.
Qed.

End Simulation.

(** ** The roles *)

(** A side of the specification: what its page says, and its messages that the
    other page has not got. *)
Definition pending (sock : bool → nat) (n : net) (b : bool) : list data :=
  default [] (e_inbox (get_end (negb b) n) !! sock (negb b))
  ++ match socks (e_world (get_end b n)) !! sock b, e_read (get_end b n) !! sock b with
     | Some c, Some i => drop i (k_sent c)
     | _, _ => []
     end.

Definition page_side (sock : bool → nat) (n : net) (b : bool) : Spec.side :=
  let w := e_world (get_end b n) in
  {| Spec.role := default SenderRole (cs_transferRole (cs w));
     Spec.awaiting := swapAwaitingResponse (vars w);
     Spec.out := omap kind (pending sock n b) |}.

Definition page_sides (sock : bool → nat) (n : net) : Spec.side * Spec.side :=
  (page_side sock n false, page_side sock n true).

(** A paired page all of whose messages the relay has read, and whose own
    messages have arrived. *)
Definition at_rest (sock : bool → nat) (n : net) (b : bool) : Prop :=
  let x := get_end b n in
  ∃ c, socks (e_world x) !! sock b = Some c
    ∧ joined (e_world x) (sock b) (length (k_sent c))
    ∧ e_read x !! sock b = Some (length (k_sent c)) ∧ e_inbox x !! sock b = Some [].

Section Roles.
Context `{WebCrypto}.
Context (format_time : Z → jsstr) (cfg : Relay.Config).
Context (location : url) (randomKey : nat → bytes).
Context (p : nat) (role : Relay.Role) (sock : bool → nat).
Abbreviation nstep := (swap_step format_time cfg location randomKey p sock).

Lemma kinds_cons d l : omap kind (d :: l) = option_list (kind d) ++ omap kind l.
Proof. cbn. by destruct (kind d). Qed.

Lemma kinds_passed l :
  Forall (λ d, passed_on d = false → kind d = None) l →
  omap kind (filter (λ d, passed_on d = true) l) = omap kind l.
Proof.
  induction 1 as [|d l Hd _ IH]; [done|]. rewrite filter_cons. case_decide as Hp.
  - by rewrite !kinds_cons, IH.
  - by rewrite kinds_cons, Hd, IH by (by apply not_true_is_false).
Qed.

Lemma fits_kept d : fits d = true → passed_on d = false → kind d = None.
Proof.
  unfold fits, passed_on. intros [_ Hf]%andb_true_iff Hp. destruct (Relay.input_of d); try done.
  by apply inert_kind.
Qed.

Lemma matches_side n ps b : matches p role sock n ps → page_side sock n b = abs (side b ps).
Proof.
  intros [_ Hs Hw]. destruct (Hs b) as (Hl&Ew&Ek). destruct (Hw b) as (i&q&Hi&Hq&Ho).
  destruct (jn_socket _ _ _ Hl) as (c&l&Hc&_&_&_&_&Hk).
  pose proof (ow_queue _ _ _ Ho _ Hc) as He. pose proof (ow_fit _ _ _ Ho _ Hc) as Hf.
  unfold page_side, abs, pending. rewrite <- Ew, <- Ek, Hc, Ek, Hi, Hq. cbn [default].
  f_equal. rewrite <- (kinds_passed (in_flight _)), He.
  - rewrite !omap_app. f_equal. symmetry. apply kinds_passed.
    eapply Forall_impl; [exact Hf|]. intros d. apply fits_kept.
  - unfold in_flight. rewrite Hc. eapply Forall_impl; [exact Hk|]. intros d Hd Hp.
    by apply inert_kind, known_kept.
Qed.

Lemma matches_sides n ps : matches p role sock n ps → page_sides sock n = (abs ps.1, abs ps.2).
Proof.
  intros Hm. unfold page_sides. by rewrite (matches_side n ps false), (matches_side n ps true).
Qed.

(** *** How a run starts *)

(** The server of a network does what a server does. *)
Lemma net_server_kept n e n' :
  server_ok (n_server n) → loops_hold (n_server n) →
  net_step format_time cfg location randomKey n e = Some n' →
  server_ok (n_server n') ∧ loops_hold (n_server n').
Proof.
  intros Hok Hh He.
  assert (n_server n' = n_server n ∨
          ∃ e o, Relay.step cfg (n_server n) e = Some (n_server n', o)) as [->|(e'&o&Hs)]; [|done|].
  2: split; [by eapply step_server_ok|by eapply step_hold].
  assert (∀ os m, n_server (fold_left (written format_time) os m) = n_server m) as Hf.
  { induction os as [|o os IH]; intros m; [done|]. simpl. rewrite IH. destruct o as [c m'|]; [|done].
    cbn [written]. destruct (side_of c); [by rewrite server_put|done]. }
  destruct e as [b e]. cbn [net_step] in He. destruct e as [e|k now en|k|k now|now].
  - left. destruct e; try done; apply bind_Some in He as (w&_&[= <-]); by rewrite server_put.
  - right. apply bind_Some in He as (c&_&He). apply bind_Some in He as (i&_&He).
    apply bind_Some in He as (d&_&He). rewrite server_put in He.
    destruct (Relay.step cfg (n_server n) _) as [[sv os]|] eqn:E; [|done]. injection He as <-.
    exists (if bool_decide (conn_of b k ∈ Relay.seen (n_server n)) then Relay.Later now (conn_of b k) d
            else Relay.First now (e_ip (get_end b n)) (conn_of b k) en d), os.
    rewrite E. unfold served. by rewrite Hf.
  - left. apply bind_Some in He as ([|d q]&_&He); [done|].
    apply bind_Some in He as (w&_&[= <-]). by rewrite server_put.
  - right. destruct (Relay.step cfg (n_server n) _) as [[sv os]|] eqn:E; [|done]. injection He as <-.
    eexists _, os. rewrite E. unfold served. by rewrite Hf.
  - right. destruct (Relay.step cfg (n_server n) _) as [[sv os]|] eqn:E; [|done]. injection He as <-.
    eexists _, os. rewrite E. unfold served. by rewrite Hf.
Qed.

(** The server of a network that runs. *)
Lemma net_pair n0 es n :
  run (net_step format_time cfg location randomKey) es n0 = Some n →
  server_ok (n_server n0) → loops_hold (n_server n0) →
  Relay.loops (n_server n) !! pair_conn sock false = Some (p, role) →
  Relay.loops (n_server n) !! pair_conn sock true = Some (p, Relay.other role) →
  pair_at p role (pair_conn sock false) (pair_conn sock true) (n_server n).
Proof.
  intros Hrun H1 H2 Hl Hr.
  assert (server_ok (n_server n) ∧ loops_hold (n_server n)) as [Hok Hh]; [|by split].
  revert Hrun. apply (run_ind _ (λ n, server_ok (n_server n) ∧ loops_hold (n_server n))); [done|].
  intros s e s' [H3 H4]. by apply net_server_kept.
Qed.

(** Two pages that the relay has paired, with nothing on the way. *)
Record settled (n : net) : Prop := {
  st_pair : pair_at p role (pair_conn sock false) (pair_conn sock true) (n_server n);
  st_rest b : at_rest sock n b
}.

Definition rest_peer (n : net) (b : bool) : peer :=
  let w := e_world (get_end b n) in
  {| p_world := w; p_sock := sock b;
     p_relayed := match socks w !! sock b with Some c => length (k_sent c) | None => O end |}.

Lemma settled_matches n :
  settled n → matches p role sock n (rest_peer n false, rest_peer n true).
Proof.
  intros [Hp Hrest].
  assert (∀ b, side b (rest_peer n false, rest_peer n true) = rest_peer n b) as Hside by by intros [].
  split; [done|..]; intros b; rewrite Hside; destruct (Hrest b) as (c&Hc&Hj&Hi&Hq);
    unfold rest_peer, linked; cbn [p_world p_sock p_relayed]; rewrite Hc.
  - done.
  - destruct (Hrest (negb b)) as (_&_&_&_&Hq'). exists (length (k_sent c)), [].
    split_and!; [done..|]. split; cbn [p_world p_sock p_relayed]; intros c' Hc'; rewrite Hc in Hc';
      injection Hc' as <-.
    + by rewrite drop_all.
    + done.
    + unfold in_flight. cbn [p_world p_sock p_relayed]. by rewrite Hc, drop_all.
Qed.


Lemma settled_silent n : settled n → ∀ b, pending sock n b = [].
Proof.
  intros Hp b. destruct (st_rest _ Hp b) as (c&Hc&_&Hi&_).
  destruct (st_rest _ Hp (negb b)) as (_&_&_&_&Hq).
  unfold pending. by rewrite Hc, Hi, Hq, drop_all.
Qed.

Lemma quiet_start n :
  settled n →
  cs_transferRole (cs (e_world (get_end false n))) ≠ cs_transferRole (cs (e_world (get_end true n))) →
  (∀ b, swapAwaitingResponse (vars (e_world (get_end b n))) = false) →
  Spec.quiet (page_sides sock n).
Proof.
  intros Hp Hne Haw. pose proof (settled_silent _ Hp) as Hno.
  unfold Spec.quiet, page_sides, page_side. simpl. rewrite !Hno. split_and!; [|exact (Haw false)|exact (Haw true)|done|done].
  destruct (st_rest _ Hp false) as (c&_&[_ [r1 Hr1] _ _ _]&_).
  destruct (st_rest _ Hp true) as (c'&_&[_ [r2 Hr2] _ _ _]&_). simpl in *.
  rewrite Hr1, Hr2 in *. simpl. congruence.
Qed.

(** C10: One peer always sends and the other receives: once two pages are paired
    through the relay, with opposite roles, after any punctual run between
    connections the two pages have opposite roles again and wait for nothing as
    soon as no swap message is on the way, and meanwhile they differ except
    while one acceptance is on the way to the page that asked. *)
Theorem roles_opposite_through_relay n es n' :
  settled n →
  cs_transferRole (cs (e_world (n_left n))) ≠ cs_transferRole (cs (e_world (n_right n))) →
  (∀ b, swapAwaitingResponse (vars (e_world (get_end b n))) = false) →
  run nstep es n = Some n' →
  let role_at b := cs_transferRole (cs (e_world (get_end b n'))) in
  ((∀ b, omap kind (pending sock n' b) = []) →
     role_at false ≠ role_at true
     ∧ ∀ b, swapAwaitingResponse (vars (e_world (get_end b n'))) = false)
  ∧ (role_at false = role_at true →
     Spec.count (Spec.Resp true)
       (omap kind (pending sock n' false) ++ omap kind (pending sock n' true)) = 1%nat).
Proof.
  intros Hp Hne Haw Hrun role_at. pose proof (quiet_start _ Hp Hne Haw) as Hq.
  apply settled_matches in Hp as Hm.
  destruct (swap_run_simulated _ _ _ _ _ _ _ _ _ _ _ Hm Hrun) as (pes&[l r]&Hr&Hm').
  destruct (run_follows _ _ _ _ _ _ _ (proj1 (mt_side _ _ _ _ _ Hm false))
              (proj1 (mt_side _ _ _ _ _ Hm true)) Hr) as (_&_&Hs).
  change (rtc Spec.step (abs (rest_peer n false, rest_peer n true).1,
                         abs (rest_peer n false, rest_peer n true).2) (abs (l, r).1, abs (l, r).2)) in Hs.
  rewrite <- (matches_sides _ _ Hm), <- (matches_sides _ _ Hm') in Hs.
  pose proof (Spec.steps_inv _ _ Hq Hs) as Hi. split.
  - intros Hno. destruct (Spec.inv_settled _ Hi (Hno false) (Hno true)) as (H1&H2&H3).
    split; [|by intros []]. intros He. apply H1. unfold page_sides, page_side. simpl.
    subst role_at. simpl in He. by rewrite He.
  - intros He. rewrite Spec.count_app. destruct Hi as [_ _ H3]. simpl in H3. rewrite H3.
    subst role_at. simpl in He. by rewrite bool_decide_true by (by rewrite He).
Qed.

End Roles.
