(* ===== verification/ReconnectNet.v ===== *)
(** * A reconnection through the relay

    One side's connection breaks: its page opens a new one and shows the token,
    the relay gives it its place back and tells both sides, and both pages are in
    the next epoch, settled again on their connections. So it goes any number of
    times, as long as the two sides do not drop together. *)

From stdpp Require Import base list list_numbers gmap sets strings.
From Stdlib Require Import ZArith Lia.
From S2P Require Import Prelude JsText Hex Json Utf8 Crypto WsClient PairingText PageState.
From S2P Require Import Hub HubFacts HubLimits HubPair HubReap HubLeak Messages.
From S2P Require Import Pairing Session RoleSwap Network SwapNet.
Open Scope Z_scope.

(** ** The pages *)

Section Pages.
Context `{WebCrypto}.
Context (format_time : Z → jsstr) (location : url) (randomKey : nat → bytes).
Abbreviation page_step := (step location randomKey).
Abbreviation wire := (wire format_time).

(** The page whose connection has closed: a new socket, with the listener of
    [attemptReconnect]. *)
Definition reopening (st : ready_state) (ms : list data) (w : world) (t : bytes) : conn :=
  {| k_state := st; k_listeners := [LReconnect 1 (cs_sessionId (cs w)) (cs_role (cs w)) t]; k_sent := ms |}.

Definition dropped (st : ready_state) (ms : list data) (w : world) (k : nat) (c : conn) (t : bytes) : world :=
  put_socks
    (showReconnectStatus
       (set_vars (put_socks w (<[k := set_ready c Closed]> (socks w))) (λ p, with_activeSocket p None))
       (Some "reconnecting"%string))
    (<[k := set_ready c Closed]> (socks w) ++ [reopening st ms w t]).

Lemma page_drops w k c l t :
  cs_screen (cs w) = Paired → activeSocket (vars w) = Some k → socks w !! k = Some c →
  k_state c = Open → k_listeners c = [l; LPaired] → passive l → cs_reconnectToken (cs w) = Some t →
  page_step w (SockClose k) = Some (dropped Connecting [] w k c t).
Proof.
  intros Hs Ha Hk Ho Hl Hp Ht. rewrite (step_close _ _ _ _ c) by (done || by rewrite Ho).
  rewrite (paired_close _ k (set_ready c Closed) l); try done.
  2: { simpl. apply list_lookup_insert_eq. by eapply lookup_lt_Some. }
  unfold attemptReconnect. cbv zeta. unfold cs, set_vars. simpl. unfold cs in Hs, Ht. by rewrite Hs, Ht.
Qed.

Lemma dropped_new st ms w k c t :
  socks (dropped st ms w k c t) !! length (socks w) = Some (reopening st ms w t).
Proof.
  simpl. rewrite lookup_app_r; rewrite length_insert; [|done]. by rewrite Nat.sub_diag.
Qed.

Lemma page_reopens w k c t :
  page_step (dropped Connecting [] w k c t) (SockOpen (length (socks w)))
  = Some (dropped Open [reconnect_request (cs_sessionId (cs w)) (cs_role (cs w)) t] w k c t).
Proof.
  unfold step. rewrite dropped_new. cbn [mbind option_bind k_state reopening].
  set (w1 := put_socks _ _).
  assert (socks w1 = <[k := set_ready c Closed]> (socks w) ++ [reopening Open [] w t]) as Hw1.
  { unfold w1. simpl. rewrite <- (Nat.add_0_r (length (socks w))) at 1.
    by rewrite <- (length_insert (socks w) k (set_ready c Closed)), insert_app_r. }
  assert (socks w1 !! length (socks w) = Some (reopening Open [] w t)) as Hn.
  { rewrite Hw1. exact (dropped_new Open [] w k c t). }
  f_equal. unfold dispatch. rewrite Hn. cbn [k_listeners reopening fold_left on_open].
  unfold try_send, send_on. rewrite Hn. cbn [k_state reopening default from_option k_listeners k_sent].
  unfold dropped. rewrite Hw1. rewrite <- (Nat.add_0_r (length (socks w))).
  by rewrite <- (length_insert (socks w) k (set_ready c Closed)), insert_app_r.
Qed.

(** A page renders its paired screen on a socket that is open. *)
Lemma render_joined w k n :
  joined w k n →
  joined (render w) k n ∧ socks (render w) = socks w ∧ cs (render w) = cs w
  ∧ swapAwaitingResponse (vars (render w)) = false.
Proof.
  intros [Hs Hr Ha Ht Hk]. destruct (render_paired w Hs) as (Hc&Hac&Haw&Hso&Hpr).
  split_and!; [split|..]; rewrite ?Hc, ?Hac, ?Hso; auto.
Qed.

(** The relay gives the page its place back. *)
Lemma page_resumes w m a sid r t ms :
  cs_screen (cs w) = Paired → is_Some (cs_transferRole (cs w)) → Forall token_ok (promises w) →
  socks w !! m = Some {| k_state := Open; k_listeners := [LReconnect a sid r t]; k_sent := ms |} →
  ∃ v, page_step w (SockMessage m (wire Relay.MReconnected)) = Some v
    ∧ joined v m (length ms)
    ∧ socks v = alter (λ c, {| k_state := k_state c; k_listeners := k_listeners c ++ [LPaired];
                               k_sent := k_sent c |}) m (socks w)
    ∧ cs v = set_epoch (cs w) ((λ e, e + 1) <$> cs_epoch (cs w)).
Proof.
  intros Hs Hr Ht Hm. eexists. split.
  { unfold step. rewrite Hm. cbn [mbind option_bind k_state]. cbn [Network.wire].
    rewrite received_go_envelope by done. unfold dispatch. rewrite Hm. cbn [k_listeners fold_left on_message].
    unfold reconnect_message. cbv zeta. reflexivity. }
  cbn [has_type]. set (b := has_type _ _). assert (b = true) as -> by by vm_compute. cbv iota.
  set (w1 := add_listener _ _ _).
  assert (joined w1 m (length ms)) as Hj.
  { split; [exact Hs|exact Hr|done|exact Ht|].
    eexists _, (LReconnect a sid r t). split.
    { unfold w1, add_listener. simpl. by rewrite list_lookup_alter_eq, Hm. }
    simpl. split_and!; [done..|]. by rewrite drop_all. }
  destruct (render_joined w1 m (length ms) Hj) as (Hj'&Hso&Hc&_). split_and!; [done|by rewrite Hso|by rewrite Hc].
Qed.

(** The page that stays: the message of the relay goes past its first listener. *)
Lemma page_hears w k n type :
  joined w k n →
  type ∈ ["peer_disconnected"; "peer_reconnected"]%string →
  page_step w (SockMessage k (go_envelope type None))
  = Some (on_message location randomKey w k LPaired (JObj [(js "type", JStr (js type))])).
Proof.
  intros [_ _ _ _ (c&l&Hk&Ho&Hl&Hp&_)] Ht. unfold step. rewrite Hk. cbn [mbind option_bind].
  rewrite Ho, received_go_envelope by done. unfold dispatch. rewrite Hk, Hl. cbn [fold_left].
  rewrite (passive_ignores location randomKey w k l); [done..|].
  intros u Hu. unfold has_type, is_str. cbn [jget]. cbn.
  apply bool_decide_eq_false. intros He. apply js_inj in He. subst. revert Ht Hu. clear. set_solver.
Qed.

Lemma page_told w k n :
  joined w k n →
  ∃ v, page_step w (SockMessage k (wire Relay.MPeerDisconnected)) = Some v
    ∧ (∀ i, joined w k i → joined v k i) ∧ socks v = socks w ∧ cs v = cs w.
Proof.
  intros Hj. exists (showReconnectStatus w (Some "reconnecting"%string)).
  split_and!; [|by intros i []|done..].
  cbn [Network.wire]. by rewrite (page_hears w k n) by (done || set_solver).
Qed.

Lemma page_stays w k n :
  joined w k n →
  ∃ v, page_step w (SockMessage k (wire Relay.MPeerReconnected)) = Some v
    ∧ (∀ i, joined w k i → joined v k i) ∧ socks v = socks w
    ∧ cs v = set_epoch (cs w) ((λ e, e + 1) <$> cs_epoch (cs w)).
Proof.
  intros Hj. exists (render (incr_epoch w)).
  assert (∀ i, joined w k i → joined (incr_epoch w) k i) as Hj' by by intros i [].
  destruct (render_joined _ _ _ (Hj' _ Hj)) as (_&H2&H3&_).
  split_and!; [|intros i Hi; by apply (render_joined _ _ _ (Hj' _ Hi))|by rewrite H2|by rewrite H3].
  cbn [Network.wire]. by rewrite (page_hears w k n) by (done || set_solver).
Qed.

End Pages.

(** ** The relay *)

Definition wire_role (r : role) : Relay.Role :=
  match r with Host => Relay.RoleHost | Guest => Relay.RoleGuest end.

Lemma request_wf sid r t : Forall unit_ok sid → bytes_ok t →
  json_wf (JObj [(js "sessionId", JStr sid);
                 (js "role", JStr (js match r with Host => "host" | Guest => "guest" end));
                 (js "tokenHex", JStr (toHex t))]).
Proof.
  intros Hs Ht. split.
  - apply (bool_decide_unpack (NoDup [js "sessionId"; js "role"; js "tokenHex"])). by vm_compute.
  - simpl. pose proof js_unit_ok. pose proof (toHex_unit t Ht). auto 10.
Qed.

Lemma request_opens sid r t : Forall unit_ok sid → bytes_ok t →
  Relay.opening_of (reconnect_request (Some sid) (Some r) t)
  = Some (Relay.OReconnect sid (wire_role r) t).
Proof.
  intros Hs Ht. pose proof (request_wf sid r t Hs Ht) as Hwf.
  assert (Relay.opening_of (sendEnvelope "reconnect"
            (JObj [(js "sessionId", JStr sid);
                   (js "role", JStr (js match r with Host => "host" | Guest => "guest" end));
                   (js "tokenHex", JStr (toHex t))]))
          = Some (Relay.OReconnect sid (wire_role r) t)) as He; [|by destruct r].
  unfold Relay.opening_of, parseEnvelope, sendEnvelope.
  rewrite parse_stringify by by apply envelope_wf. cbn [mbind option_bind].
  rewrite !has_type_envelope. cbn [bool_decide]. rewrite !bool_decide_false by done.
  rewrite bool_decide_true by done. rewrite envelope_payload. cbv iota zeta.
  set (m := JObj _).
  assert (Relay.field "sessionId" (Some m) = Some sid) as -> by reflexivity.
  assert (Relay.field "role" (Some m) = Some (js match r with Host => "host" | Guest => "guest" end)) as ->
    by reflexivity.
  assert (Relay.field "tokenHex" (Some m) = Some (toHex t)) as -> by reflexivity.
  cbn [mbind option_bind]. rewrite hex_decode_toHex by done. by destruct r.
Qed.

Lemma request_size sid r t : (length sid ≤ 1000)%nat → bytes_ok t → length t = 32%nat →
  Relay.too_large (reconnect_request (Some sid) (Some r) t) = false.
Proof.
  intros Hs Ht Hl. unfold reconnect_request, sendEnvelope. apply text_size.
  pose proof (length_quote (toHex t)) as Hq. rewrite length_toHex, Hl in Hq by done.
  pose proof (length_quote sid). revert Hq. generalize (toHex t). intros u Hq.
  destruct r; cbn [app]; part_lengths; unfold Relay.maxMessageSize; lia.
Qed.

Definition away (s : Relay.Session) (r : Relay.Role) (q : Relay.peer) (now : Z) : Relay.Session :=
  Relay.set_peer s r {| Relay.p_conn := Relay.p_conn q; Relay.p_ip := Relay.p_ip q;
                        Relay.p_disconnectedAt := Some now;
                        Relay.p_reconnectToken := Relay.p_reconnectToken q |}.

Definition back (s : Relay.Session) (r : Relay.Role) (q : Relay.peer) (c : nat) (ip : jsstr) (now : Z) :
    Relay.Session :=
  Relay.set_lastActivity
    (Relay.set_peer (away s r q now) r
       {| Relay.p_conn := c; Relay.p_ip := ip; Relay.p_disconnectedAt := None;
          Relay.p_reconnectToken := Relay.p_reconnectToken q |}) now.

Section Relay.
Context (cfg : Relay.Config) (p : nat) (r : Relay.Role) (a b : nat).
Context (sv : Relay.server) (now : Z) (s : Relay.Session) (q : Relay.peer).
Context (Hp : pair_at p r a b sv).
Context (Hs : Relay.store (Relay.hub sv) !! p = Some s) (Hq : Relay.s_peers s r = Some q).
Context (sid : jsstr) (Hid : Relay.sessions (Relay.hub sv) !! sid = Some p).
Context (t : bytes) (Htok : Relay.p_reconnectToken q = t) (Hne : t ≠ []).
Context (Hcount : 0 < Relay.count (Relay.hub sv) (Relay.p_ip q) ≤ Relay.MaxSessionsPerIP cfg).

Definition gone_server : Relay.server :=
  {| Relay.hub := Relay.decr (Relay.update (Relay.hub sv) p (away s r q now)) (Relay.p_ip q);
     Relay.loops := delete a (Relay.loops sv); Relay.seen := Relay.seen sv |}.

Lemma other_here : Relay.connOf s (Relay.other r) = Some b.
Proof.
  pose proof (pa_hold _ _ _ _ _ Hp _ _ _ (pa_b _ _ _ _ _ Hp)) as Hb. unfold slot in Hb.
  by rewrite Hs in Hb.
Qed.

Lemma other_stays q' : Relay.connOf (Relay.set_peer s r q') (Relay.other r) = Some b.
Proof. rewrite connOf_set_peer, decide_False by apply other_ne. apply other_here. Qed.

Lemma relay_drops :
  Relay.step cfg sv (Relay.Gone now a)
  = Some (gone_server, [Relay.Send b Relay.MPeerDisconnected; Relay.Close a "connection closed"]).
Proof.
  unfold Relay.step. rewrite (pa_a _ _ _ _ _ Hp). cbn [mbind option_bind].
  unfold Relay.serve_gone, Relay.HandleDisconnect. rewrite Hs. unfold Relay.markDisconnected. rewrite Hq.
  fold (away s r q now). unfold away at 2. rewrite other_stays. done.
Qed.

Lemma gone_store : Relay.store (Relay.hub gone_server) !! p = Some (away s r q now).
Proof.
  unfold gone_server. simpl. rewrite decr_store. simpl. apply list_lookup_insert_eq.
  by eapply lookup_lt_Some.
Qed.

Lemma gone_sessions : Relay.sessions (Relay.hub gone_server) = Relay.sessions (Relay.hub sv).
Proof. unfold gone_server, Relay.decr. simpl. by case_match. Qed.

Lemma gone_count ip :
  Relay.count (Relay.hub gone_server) ip
  = Relay.count (Relay.hub sv) ip - if decide (Relay.p_ip q = ip) then 1 else 0.
Proof.
  unfold gone_server. cbn [Relay.hub]. rewrite count_decr.
  change (Relay.count (Relay.update (Relay.hub sv) p (away s r q now)))
    with (Relay.count (Relay.hub sv)).
  case_decide; [subst|lia]. rewrite (proj2 (Z.ltb_lt _ _)); lia.
Qed.

Context (c : nat) (Hnew : c ∉ Relay.seen sv) (en : Relay.entropy).
Abbreviation ip := (Relay.p_ip q).

Definition resumed_server : Relay.server :=
  {| Relay.hub := Relay.incr (Relay.update (Relay.hub gone_server) p (back s r q c ip now)) ip;
     Relay.loops := <[c := (p, r)]> (Relay.loops gone_server);
     Relay.seen := {[c]} ∪ Relay.seen gone_server |}.

Lemma relay_resumes d :
  Relay.opening_of d = Some (Relay.OReconnect sid r t) → Relay.too_large d = false →
  Relay.step cfg gone_server (Relay.First now ip c en d)
  = Some (resumed_server, [Relay.Send b Relay.MPeerReconnected; Relay.Send c Relay.MReconnected]).
Proof.
  intros Hd Hl. unfold Relay.step. rewrite bool_decide_false, Hl by done.
  unfold Relay.serve_first. rewrite Hd. cbn [Relay.beginSession]. unfold Relay.Reconnect.
  rewrite gone_sessions, Hid. cbn [mbind option_bind]. rewrite gone_store. cbn [fmap option_fmap option_map].
  rewrite (proj2 (Z.leb_gt _ _)) by (rewrite gone_count, decide_True by done; lia).
  unfold Relay.reattach, away at 1. cbn [Relay.s_peers Relay.set_peer]. rewrite decide_True by done.
  cbn [Relay.connected Relay.p_disconnectedAt Relay.p_reconnectToken].
  rewrite bool_decide_false by done. rewrite Htok, bool_decide_false, bool_decide_true by done.
  cbn [orb negb]. rewrite connOf_touched, connOf_set_peer, decide_False by apply other_ne.
  unfold away at 2. rewrite other_stays. unfold resumed_server, back. by rewrite Htok.
Qed.

Lemma resumed_pair d :
  Relay.opening_of d = Some (Relay.OReconnect sid r t) → Relay.too_large d = false →
  pair_at p r c b resumed_server.
Proof.
  intros Hd Hl. pose proof (relay_resumes d Hd Hl) as H2. pose proof relay_drops as H1.
  pose proof Hp as [Hok Hh Ha Hb].
  assert (server_ok gone_server ∧ loops_hold gone_server) as [Hok1 Hh1].
  { split; [by eapply step_server_ok|by eapply step_hold]. }
  assert (b ∈ Relay.seen sv) by by eapply ok_loops.
  split; [by eapply step_server_ok|by eapply step_hold|by simpl; rewrite lookup_insert_eq|].
  simpl. rewrite lookup_insert_ne by congruence. rewrite lookup_delete_ne; [done|].
  intros ->. rewrite Ha in Hb. injection Hb as He. by destruct (other_ne r).
Qed.

Lemma resumed_store : Relay.store (Relay.hub resumed_server) !! p = Some (back s r q c ip now).
Proof.
  unfold resumed_server. simpl. apply list_lookup_insert_eq. eapply lookup_lt_Some, gone_store.
Qed.

Lemma resumed_count ip' :
  Relay.count (Relay.hub resumed_server) ip' = Relay.count (Relay.hub sv) ip'.
Proof.
  unfold resumed_server. cbn [Relay.hub]. rewrite count_incr.
  change (Relay.count (Relay.update (Relay.hub gone_server) p (back s r q c ip now)))
    with (Relay.count (Relay.hub gone_server)).
  rewrite !gone_count. repeat case_decide; subst; lia || done.
Qed.

End Relay.

(** ** Steps of the network *)

(** The network seen from one side. *)
Definition net_of (b : bool) (x y : endpoint) (sv : Relay.server) : net :=
  {| n_left := if b then y else x; n_right := if b then x else y; n_server := sv |}.

Lemma net_of_eta b n : n = net_of b (get_end b n) (get_end (negb b) n) (n_server n).
Proof. by destruct b, n. Qed.

Lemma put_end_eta b n x : put_end b n x = net_of b x (get_end (negb b) n) (n_server n).
Proof. by destruct b, n. Qed.

Lemma net_of_end b x y sv : get_end b (net_of b x y sv) = x.
Proof. by destruct b. Qed.

Lemma net_of_other b x y sv : get_end (negb b) (net_of b x y sv) = y.
Proof. by destruct b. Qed.

Lemma net_of_swap b x y sv : net_of (negb b) y x sv = net_of b x y sv.
Proof. by destruct b. Qed.

Lemma put_net_of b x y sv x' : put_end b (net_of b x y sv) x' = net_of b x' y sv.
Proof. by destruct b. Qed.

Lemma put_server_of b x y sv sv' : put_server (net_of b x y sv) sv' = net_of b x y sv'.
Proof. by destruct b. Qed.

Section Steps.
Context `{WebCrypto}.
Context (format_time : Z → jsstr) (cfg : Relay.Config).
Context (location : url) (randomKey : nat → bytes).
Abbreviation nstep := (net_step format_time cfg location randomKey).
Abbreviation page_step := (step location randomKey).

Lemma written_end b x y sv k m :
  written format_time (net_of b x y sv) (Relay.Send (conn_of b k) m)
  = net_of b (push x k (wire format_time m)) y sv.
Proof.
  cbn [written]. destruct (conn_of_side b k) as [-> ->]. by rewrite net_of_end, put_net_of.
Qed.

Lemma written_other b x y sv k m :
  written format_time (net_of b x y sv) (Relay.Send (conn_of (negb b) k) m)
  = net_of b x (push y k (wire format_time m)) sv.
Proof. by rewrite <- !(net_of_swap b), written_end. Qed.

#[local] Arguments to_conn : simpl never.

(** What a side's page has on its way after the server wrote. *)
Lemma written_all os : ∀ b n,
  let n' := fold_left (written format_time) os n in
  get_end b n'
  = {| e_world := e_world (get_end b n); e_ip := e_ip (get_end b n); e_read := e_read (get_end b n);
       e_inbox := imap (λ k q, q ++ map (wire format_time) (to_conn (conn_of b k) os))
                    (e_inbox (get_end b n)) |}
  ∧ n_server n' = n_server n.
Proof.
  induction os as [|o os IH]; intros b n.
  - split; [|done]. cbn. destruct (get_end b n) as [w ip rd q]. cbn. f_equal. apply list_eq. intros k.
    rewrite list_lookup_imap. destruct (q !! k); cbn; by rewrite ?app_nil_r.
  - cbn [fold_left]. destruct (IH b (written format_time n o)) as [-> ->].
    destruct o as [c m|c reason]; [|done]. cbn [written].
    destruct (side_of c) as [b'|] eqn:Hb.
    + rewrite server_put. split; [|done]. destruct (decide (b' = b)) as [->|Hne].
      * rewrite get_put. cbn [push e_world e_ip e_read e_inbox]. f_equal. apply list_eq. intros k.
        rewrite !list_lookup_imap. apply side_of_conn in Hb.
        destruct (decide (k = c / 3)%nat) as [->|Hk].
        -- rewrite list_lookup_alter_eq. destruct (e_inbox _ !! _); [|done]. cbn.
           by rewrite to_conn_cons, decide_True, <- app_assoc by done.
        -- rewrite list_lookup_alter_ne by done. destruct (e_inbox _ !! _); [|done]. cbn.
           rewrite to_conn_cons, decide_False; [done|]. intros Hc. apply Hk.
           destruct (conn_of_side b k) as [_ E]. by rewrite Hc.
      * assert (b = negb b') as -> by (by destruct b, b'). rewrite get_put_other. f_equal.
        apply imap_ext. intros k q _. cbv beta. rewrite to_conn_cons, decide_False; [done|]. intros Hc.
        destruct (conn_of_side (negb b') k) as [Hs _]. rewrite Hc in Hb. rewrite Hs in Hb. by destruct b'.
    + split; [|done]. f_equal. apply imap_ext. intros k q _. cbv beta.
      rewrite to_conn_cons, decide_False; [done|]. intros Hc.
      destruct (conn_of_side b k) as [Hs _]. rewrite Hc in Hb. by rewrite Hs in Hb.
Qed.

Definition is_message (e : event) : bool := match e with SockMessage _ _ => true | _ => false end.

Lemma page_event b x y sv e w :
  is_message e = false → page_step (e_world x) e = Some w →
  nstep (net_of b x y sv) (b, Page e) = Some (net_of b (with_page x w) y sv).
Proof.
  intros He Hs. cbn [net_step]. rewrite net_of_end.
  destruct e; try done; rewrite Hs; cbn [mbind option_bind]; by rewrite put_net_of.
Qed.

Definition taken (x : endpoint) (k : nat) (q : list data) : endpoint :=
  {| e_world := e_world x; e_ip := e_ip x; e_read := e_read x; e_inbox := <[k := q]> (e_inbox x) |}.

Lemma page_message b x y sv k d q w :
  e_inbox x !! k = Some (d :: q) → page_step (e_world x) (SockMessage k d) = Some w →
  nstep (net_of b x y sv) (b, Receives k) = Some (net_of b (with_page (taken x k q) w) y sv).
Proof.
  intros Hq Hs. cbn [net_step]. rewrite net_of_end, Hq. cbn [mbind option_bind]. rewrite Hs.
  cbn [mbind option_bind]. by rewrite put_net_of.
Qed.

Lemma page_message_other b x y sv k d q w :
  e_inbox y !! k = Some (d :: q) → page_step (e_world y) (SockMessage k d) = Some w →
  nstep (net_of b x y sv) (negb b, Receives k) = Some (net_of b x (with_page (taken y k q) w) sv).
Proof. rewrite <- !(net_of_swap b). apply page_message. Qed.

Definition read_one (x : endpoint) (k i : nat) : endpoint :=
  {| e_world := e_world x; e_ip := e_ip x; e_read := <[k := S i]> (e_read x); e_inbox := e_inbox x |}.

Lemma relay_message b x y sv k now en c i d sv' os :
  socks (e_world x) !! k = Some c → e_read x !! k = Some i → k_sent c !! i = Some d →
  Relay.step cfg sv
    (if bool_decide (conn_of b k ∈ Relay.seen sv) then Relay.Later now (conn_of b k) d
     else Relay.First now (e_ip x) (conn_of b k) en d) = Some (sv', os) →
  nstep (net_of b x y sv) (b, Reads k now en)
  = Some (fold_left (written format_time) os (net_of b (read_one x k i) y sv')).
Proof.
  intros Hc Hi Hd Hs. cbn [net_step]. rewrite net_of_end, Hc, Hi. cbn [mbind option_bind].
  rewrite Hd. cbn [mbind option_bind]. rewrite put_net_of.
  change (n_server (net_of b _ y sv)) with sv. rewrite Hs. unfold served. cbn. by rewrite put_server_of.
Qed.

Lemma relay_breaks b x y sv k now sv' os :
  Relay.step cfg sv (Relay.Gone now (conn_of b k)) = Some (sv', os) →
  nstep (net_of b x y sv) (b, Breaks k now)
  = Some (fold_left (written format_time) os (net_of b x y sv')).
Proof.
  intros Hs. cbn [net_step]. change (n_server (net_of b x y sv)) with sv. rewrite Hs.
  unfold served. cbn. by rewrite put_server_of.
Qed.

End Steps.

(** ** A side that can come back *)

Section Drop.
Context `{WebCrypto}.
Context (format_time : Z → jsstr) (cfg : Relay.Config).
Context (location : url) (randomKey : nat → bytes).
Context (p : nat) (role : Relay.Role).
Abbreviation nstep := (net_step format_time cfg location randomKey).

(** The page and the relay agree on the session, the role and the token. *)
Record resumable (x : endpoint) (sv : Relay.server) (rl : Relay.Role)
    (sid : jsstr) (r : PageState.role) (t : bytes) (s : Relay.Session) (q : Relay.peer) : Prop := {
  re_id : cs_sessionId (cs (e_world x)) = Some sid;
  re_role : cs_role (cs (e_world x)) = Some r;
  re_wire : wire_role r = rl;
  re_token : cs_reconnectToken (cs (e_world x)) = Some t;
  re_unit : Forall unit_ok sid;
  re_short : (length sid ≤ 1000)%nat;
  re_bytes : bytes_ok t;
  re_length : length t = 32%nat;
  re_listed : Relay.sessions (Relay.hub sv) !! sid = Some p;
  re_store : Relay.store (Relay.hub sv) !! p = Some s;
  re_peer : Relay.s_peers s rl = Some q;
  re_same : Relay.p_reconnectToken q = t;
  re_ip : Relay.p_ip q = e_ip x;
  re_room : 0 < Relay.count (Relay.hub sv) (e_ip x) ≤ Relay.MaxSessionsPerIP cfg
}.

(** A session between connections: both pages settled, in epoch [e], both able
    to come back; the sockets to come are new to the server. *)
Record session_up (sock : bool → nat) (n : net) (e : Z) : Prop := {
  up_settled : settled p role sock n;
  up_epoch b : cs_epoch (cs (e_world (get_end b n))) = Some e;
  up_resume b : ∃ sid r t s q, resumable (get_end b n) (n_server n) (role_of role b) sid r t s q;
  up_read b : length (e_read (get_end b n)) = length (socks (e_world (get_end b n)));
  up_inbox b : length (e_inbox (get_end b n)) = length (socks (e_world (get_end b n)));
  up_fresh b k : (length (socks (e_world (get_end b n))) ≤ k)%nat → conn_of b k ∉ Relay.seen (n_server n)
}.

(** The connection of the side [b] breaks, on its [k]-th socket; it comes back on
    its [m]-th. The other side's socket is its [k']-th. *)
Definition drop_schedule (b : bool) (k k' m : nat) (now : Z) (en : Relay.entropy) :
    list (bool * net_event) :=
  [(b, Page (SockClose k)); (b, Breaks k now); (negb b, Receives k');
   (b, Page (SockOpen m)); (b, Reads m now en); (b, Receives m); (negb b, Receives k')].

Lemma with_page_more x w :
  length (socks w) = S (length (socks (e_world x))) →
  with_page x w = {| e_world := w; e_ip := e_ip x; e_read := e_read x ++ [O]; e_inbox := e_inbox x ++ [[]] |}.
Proof. intros Hl. unfold with_page. rewrite Hl. by replace (S _ - _)%nat with 1%nat by lia. Qed.

Lemma inbox_back {A} (l : list (list A)) k f :
  l !! k = Some [] → <[k := []]> (alter f k l) = l.
Proof.
  intros Hl. apply list_eq. intros i. destruct (decide (i = k)) as [->|Hne].
  - rewrite list_lookup_insert_eq; [done|]. rewrite length_alter. by eapply lookup_lt_Some.
  - by rewrite list_lookup_insert_ne, list_lookup_alter_ne.
Qed.

(** The other side takes the one message that the relay has written to it. *)
Lemma other_takes b x y sv k d w :
  e_inbox y !! k = Some [] → length (socks w) = length (socks (e_world y)) →
  step location randomKey (e_world y) (SockMessage k d) = Some w →
  nstep (net_of b x (push y k d) sv) (negb b, Receives k)
  = Some (net_of b x {| e_world := w; e_ip := e_ip y; e_read := e_read y; e_inbox := e_inbox y |} sv).
Proof.
  intros Hi Hl Hs. erewrite page_message_other; [|cbn [push e_inbox]; by rewrite list_lookup_alter_eq, Hi|done].
  rewrite with_page_same by done. unfold taken, push. cbn [e_inbox e_read e_ip]. by rewrite inbox_back.
Qed.

Context (sock : bool → nat) (n : net) (e : Z) (Hup : session_up sock n e).
Context (b : bool) (now : Z) (en : Relay.entropy).
Local Abbreviation x := (get_end b n).
Local Abbreviation y := (get_end (negb b) n).
Local Abbreviation w := (e_world x).
Local Abbreviation m := (length (socks w)).
Context (sid : jsstr) (r : PageState.role) (t : bytes) (s : Relay.Session) (q : Relay.peer).
Context (Hre : resumable x (n_server n) (role_of role b) sid r t s q).

Definition back_server : Relay.server :=
  resumed_server p (role_of role b) (pair_conn sock b) (n_server n) now s q (conn_of b m).

Definition back_page (v : world) : endpoint :=
  {| e_world := v; e_ip := e_ip x; e_read := e_read x ++ [1%nat]; e_inbox := e_inbox x ++ [[]] |}.
Definition stayed_page (v : world) : endpoint :=
  {| e_world := v; e_ip := e_ip y; e_read := e_read y; e_inbox := e_inbox y |}.

Definition shown (c : conn) : Prop := ∃ l, k_listeners c = [l; LPaired].

Lemma drop_pair : pair_at p (role_of role b) (pair_conn sock b) (pair_conn sock (negb b)) (n_server n).
Proof. apply pair_side, (st_pair _ _ _ _ (up_settled _ _ _ Hup)). Qed.

Lemma drop_token : t ≠ [].
Proof. intros Hn. pose proof (re_length _ _ _ _ _ _ _ _ Hre) as Hl. by rewrite Hn in Hl. Qed.

Lemma drop_room : 0 < Relay.count (Relay.hub (n_server n)) (Relay.p_ip q) ≤ Relay.MaxSessionsPerIP cfg.
Proof. rewrite (re_ip _ _ _ _ _ _ _ _ Hre). apply Hre. Qed.

Lemma drop_request :
  Relay.opening_of (reconnect_request (Some sid) (Some r) t)
  = Some (Relay.OReconnect sid (role_of role b) t)
  ∧ Relay.too_large (reconnect_request (Some sid) (Some r) t) = false.
Proof.
  rewrite <- (re_wire _ _ _ _ _ _ _ _ Hre).
  split; [apply request_opens; apply Hre|apply request_size; apply Hre].
Qed.

Lemma drop_fresh : conn_of b m ∉ Relay.seen (n_server n).
Proof. by apply (up_fresh _ _ _ Hup b). Qed.

Lemma drop_gone :
  ∃ c, socks w !! sock b = Some c ∧
  run nstep [(b, Page (SockClose (sock b))); (b, Breaks (sock b) now)] n
  = Some (net_of b
            {| e_world := dropped Connecting [] w (sock b) c t; e_ip := e_ip x;
               e_read := e_read x ++ [O]; e_inbox := e_inbox x ++ [[]] |}
            (push y (sock (negb b)) (wire format_time Relay.MPeerDisconnected))
            (gone_server p (role_of role b) (pair_conn sock b) (n_server n) now s q)).
Proof.
  destruct (st_rest _ _ _ _ (up_settled _ _ _ Hup) b) as (c&Hc&[Hs _ Ha _ (c'&l&Hc'&Ho&Hl&Hp&_)]&_).
  rewrite Hc in Hc'. injection Hc' as <-. exists c. split; [done|].
  rewrite (net_of_eta b n) at 1. eapply run_cons.
  { apply page_event; [done|]. eapply (page_drops _ _ _ _ c l); try done. apply Hre. }
  rewrite with_page_more by (simpl; rewrite length_app, length_insert; simpl; lia).
  eapply run_cons; [|done].
  erewrite relay_breaks; [|apply (relay_drops cfg _ _ _ _ _ now s q drop_pair); apply Hre].
  cbn [fold_left]. unfold pair_conn. rewrite written_other. done.
Qed.

(** The page opens its new socket, and the relay reads the token. *)
Lemma drop_asks c y' :
  socks w !! sock b = Some c →
  run nstep [(b, Page (SockOpen m)); (b, Reads m now en)]
    (net_of b {| e_world := dropped Connecting [] w (sock b) c t; e_ip := e_ip x;
                 e_read := e_read x ++ [O]; e_inbox := e_inbox x ++ [[]] |} y'
       (gone_server p (role_of role b) (pair_conn sock b) (n_server n) now s q))
  = Some (net_of b
            {| e_world := dropped Open [reconnect_request (Some sid) (Some r) t] w (sock b) c t;
               e_ip := e_ip x; e_read := e_read x ++ [1%nat];
               e_inbox := e_inbox x ++ [[wire format_time Relay.MReconnected]] |}
            (push y' (sock (negb b)) (wire format_time Relay.MPeerReconnected)) back_server).
Proof.
  intros Hc. pose proof (page_reopens location randomKey w (sock b) c t) as Hopen.
  rewrite (re_id _ _ _ _ _ _ _ _ Hre), (re_role _ _ _ _ _ _ _ _ Hre) in Hopen.
  eapply run_cons; [by apply page_event|].
  rewrite with_page_same by (simpl; by rewrite !length_app).
  cbn [e_ip e_read e_inbox].
  pose proof (up_read _ _ _ Hup b) as Hr. pose proof (up_inbox _ _ _ Hup b) as Hi.
  eapply run_cons; [|done].
  erewrite relay_message with (sv' := back_server) (os :=
     [Relay.Send (pair_conn sock (negb b)) Relay.MPeerReconnected; Relay.Send (conn_of b m) Relay.MReconnected]).
  2: apply dropped_new.
  2: { cbn [e_read]. rewrite lookup_app_r, Hr, Nat.sub_diag by lia. done. }
  2: reflexivity.
  2: { rewrite bool_decide_false by apply drop_fresh. cbn [e_ip].
       rewrite <- (re_ip _ _ _ _ _ _ _ _ Hre).
       eapply relay_resumes; try apply Hre;
         [apply drop_pair|apply drop_token|apply drop_room|apply drop_fresh|apply drop_request..]. }
  cbn [fold_left]. unfold pair_conn. rewrite written_other, written_end.
  unfold read_one, push. cbn [e_world e_ip e_read e_inbox]. do 3 f_equal.
  - rewrite <- Hr, <- (Nat.add_0_r (length (e_read x))). by rewrite insert_app_r.
  - rewrite <- Hi, <- (Nat.add_0_r (length (e_inbox x))). by rewrite alter_app_r.
Qed.

(** The new socket once the relay has answered. *)
Definition resumed_conn : conn :=
  {| k_state := Open; k_listeners := [LReconnect 1 (cs_sessionId (cs w)) (cs_role (cs w)) t; LPaired];
     k_sent := [reconnect_request (Some sid) (Some r) t] |}.

(** The answers of the relay. *)
Lemma drop_answers v1 c :
  socks w !! sock b = Some c →
  (∃ j, joined v1 (sock (negb b)) j) →
  socks v1 = socks (e_world y) → cs v1 = cs (e_world y) →
  ∃ v v', run nstep [(b, Receives m); (negb b, Receives (sock (negb b)))]
       (net_of b
          {| e_world := dropped Open [reconnect_request (Some sid) (Some r) t] w (sock b) c t;
             e_ip := e_ip x; e_read := e_read x ++ [1%nat];
             e_inbox := e_inbox x ++ [[wire format_time Relay.MReconnected]] |}
          (push (stayed_page v1) (sock (negb b)) (wire format_time Relay.MPeerReconnected)) back_server)
     = Some (net_of b (back_page v) (stayed_page v') back_server)
    ∧ joined v m 1 ∧ socks v = <[sock b := set_ready c Closed]> (socks w) ++ [resumed_conn]
    ∧ cs v = set_epoch (cs w) (Some (e + 1))
    ∧ (∀ j, joined v1 (sock (negb b)) j → joined v' (sock (negb b)) j)
    ∧ socks v' = socks v1 ∧ cs v' = set_epoch (cs v1) (Some (e + 1)).
Proof.
  intros Hc [j Hj] S1 C1. destruct (up_settled _ _ _ Hup) as [_ Hrest].
  destruct (Hrest b) as (cx&_&Hjx&_). destruct (Hrest (negb b)) as (cy&_&_&_&Hiy).
  pose proof (up_epoch _ _ _ Hup b) as Hex. pose proof (up_epoch _ _ _ Hup (negb b)) as Hey.
  pose proof (up_inbox _ _ _ Hup b) as Hli.
  set (d := dropped Open [reconnect_request (Some sid) (Some r) t] w (sock b) c t).
  destruct (page_resumes format_time location randomKey d m 1 (cs_sessionId (cs w)) (cs_role (cs w)) t
              [reconnect_request (Some sid) (Some r) t]
              (jn_screen _ _ _ Hjx) (jn_role _ _ _ Hjx) (jn_tokens _ _ _ Hjx) (dropped_new _ _ _ _ _ _))
    as (v&Hv&J3&S3&C3).
  destruct (page_stays format_time location randomKey _ _ _ Hj) as (v'&Hv'&J'&S'&C').
  assert (socks v = <[sock b := set_ready c Closed]> (socks w) ++ [resumed_conn]) as Hsv.
  { rewrite S3. unfold d. simpl.
    replace m with (length (<[sock b := set_ready c Closed]> (socks w)) + 0)%nat
      by (rewrite length_insert; lia). by rewrite alter_app_r. }
  exists v, v'. split; [|split_and!; [done..| |done|done|]].
  - eapply run_cons.
    { eapply page_message; [|exact Hv]. cbn [e_inbox]. by rewrite lookup_app_r, Hli, Nat.sub_diag by lia. }
    eapply run_cons; [|done].
    rewrite with_page_same by (cbn [taken e_world]; rewrite Hsv; unfold d; simpl; by rewrite !length_app).
    rewrite other_takes with (w := v'); [|done|by rewrite S'|done].
    unfold taken. cbn [e_ip e_read e_inbox].
    replace m with (length (e_inbox x) + 0)%nat by lia. by rewrite insert_app_r.
  - rewrite C3. change (cs d) with (cs w). by rewrite Hex.
  - by rewrite C', C1, Hey.
Qed.

(** The whole run, and what is left of both pages. *)
Lemma drop_run :
  ∃ c v v', socks w !! sock b = Some c
    ∧ run nstep (drop_schedule b (sock b) (sock (negb b)) m now en) n
      = Some (net_of b (back_page v) (stayed_page v') back_server)
    ∧ joined v m 1 ∧ socks v = <[sock b := set_ready c Closed]> (socks w) ++ [resumed_conn]
    ∧ cs v = set_epoch (cs w) (Some (e + 1))
    ∧ (∀ j, joined (e_world y) (sock (negb b)) j → joined v' (sock (negb b)) j)
    ∧ socks v' = socks (e_world y) ∧ cs v' = set_epoch (cs (e_world y)) (Some (e + 1)).
Proof.
  destruct (up_settled _ _ _ Hup) as [_ Hrest]. destruct (Hrest (negb b)) as (cy&_&Hjy&_&Hiy).
  destruct drop_gone as (c&Hc&Hgone).
  destruct (page_told format_time location randomKey _ _ _ Hjy) as (v1&Hv1&J1&S1&C1).
  destruct (drop_answers v1 c Hc (ex_intro _ _ (J1 _ Hjy)) S1 C1) as (v&v'&Hr&Hj&Hs&Hcs&J'&S'&C').
  exists c, v, v'. split_and!; [done| |done..|auto|congruence|by rewrite C', C1].
  change (drop_schedule b (sock b) (sock (negb b)) m now en)
    with ([(b, Page (SockClose (sock b))); (b, Breaks (sock b) now)]
          ++ [(negb b, Receives (sock (negb b)))]
          ++ [(b, Page (SockOpen m)); (b, Reads m now en)]
          ++ [(b, Receives m); (negb b, Receives (sock (negb b)))]).
  rewrite run_app, Hgone. cbn [mbind option_bind].
  rewrite run_app. cbn [run]. rewrite other_takes with (w := v1) by (done || by rewrite S1).
  cbn [mbind option_bind]. rewrite run_app, (drop_asks c) by done. exact Hr.
Qed.

(** *** The session is up again *)

Definition moved : bool → nat := λ c, if decide (c = b) then m else sock c.

Lemma moved_here : moved b = m.
Proof. unfold moved. by rewrite decide_True. Qed.

Lemma moved_other : moved (negb b) = sock (negb b).
Proof. unfold moved. by rewrite decide_False by by destruct b. Qed.

Lemma role_other : role_of role (negb b) = Relay.other (role_of role b).
Proof. unfold role_of. destruct b; simpl; [by rewrite other_other|done]. Qed.

Lemma back_pair : pair_at p role (pair_conn moved false) (pair_conn moved true) back_server.
Proof.
  apply (side_pair p role moved b). unfold pair_conn. rewrite moved_here, moved_other.
  eapply resumed_pair with (sid := sid) (t := t) (d := reconnect_request (Some sid) (Some r) t) (en := en) (cfg := cfg);
    try apply Hre;
    [apply drop_pair|apply drop_token|apply drop_room|apply drop_fresh|apply drop_request..].
Qed.

Lemma back_count ip : Relay.count (Relay.hub back_server) ip = Relay.count (Relay.hub (n_server n)) ip.
Proof. eapply resumed_count; [apply Hre|apply drop_token|apply drop_room]. Qed.

Lemma back_sessions : Relay.sessions (Relay.hub back_server) = Relay.sessions (Relay.hub (n_server n)).
Proof. exact (gone_sessions p (role_of role b) (pair_conn sock b) (n_server n) now s q). Qed.

(** The file that was passing still is. *)
Lemma back_tracker : tracker (Relay.hub back_server) p = tracker (Relay.hub (n_server n)) p.
Proof.
  pose proof (re_store _ _ _ _ _ _ _ _ Hre) as Hs.
  unfold tracker, back_server. erewrite resumed_store by done. by rewrite Hs.
Qed.

Lemma back_resumable v :
  cs v = set_epoch (cs w) (Some (e + 1)) →
  ∃ s' q', resumable (back_page v) back_server (role_of role b) sid r t s' q'.
Proof.
  intros Hc. destruct Hre.
  exists (back s (role_of role b) q (conn_of b m) (Relay.p_ip q) now),
    {| Relay.p_conn := conn_of b m; Relay.p_ip := Relay.p_ip q; Relay.p_disconnectedAt := None;
       Relay.p_reconnectToken := Relay.p_reconnectToken q |}.
  split; cbn [e_world e_ip back_page]; rewrite ?Hc, ?back_count, ?back_sessions; try done.
  - by eapply resumed_store.
  - unfold back. simpl. by rewrite decide_True.
Qed.

Lemma stayed_resumable v :
  cs v = set_epoch (cs (e_world y)) (Some (e + 1)) →
  ∃ sid r t s q, resumable (stayed_page v) back_server (role_of role (negb b)) sid r t s q.
Proof.
  intros Hc. destruct (up_resume _ _ _ Hup (negb b)) as (sid2&r2&t2&s2&q2&[]).
  pose proof (re_store _ _ _ _ _ _ _ _ Hre) as Hs. assert (s2 = s) as -> by congruence.
  exists sid2, r2, t2, (back s (role_of role b) q (conn_of b m) (Relay.p_ip q) now), q2.
  split; cbn [e_world e_ip stayed_page]; rewrite ?Hc, ?back_count, ?back_sessions; try done.
  - by eapply resumed_store.
  - unfold back, away. simpl. rewrite role_other, !decide_False by apply other_ne. by rewrite <- role_other.
Qed.

Lemma back_up v v' c :
  joined v m 1 → socks v = <[sock b := set_ready c Closed]> (socks w) ++ [resumed_conn] →
  cs v = set_epoch (cs w) (Some (e + 1)) →
  (∀ j, joined (e_world y) (sock (negb b)) j → joined v' (sock (negb b)) j) →
  socks v' = socks (e_world y) → cs v' = set_epoch (cs (e_world y)) (Some (e + 1)) →
  session_up moved (net_of b (back_page v) (stayed_page v') back_server) (e + 1).
Proof.
  intros Hj Hs Hc Hj' Hs' Hc'.
  pose proof (up_read _ _ _ Hup) as Hr. pose proof (up_inbox _ _ _ Hup) as Hi.
  split; [split; [apply back_pair|]|..]; refine (bool_cases _ b _ _); rewrite ?net_of_end, ?net_of_other.
  - unfold at_rest. rewrite net_of_end, moved_here. exists resumed_conn. cbn [back_page e_world e_read e_inbox].
    rewrite Hs. split_and!; [|done|..].
    + by rewrite lookup_app_r, length_insert, Nat.sub_diag by (rewrite length_insert; lia).
    + by rewrite lookup_app_r, Hr, Nat.sub_diag by (rewrite Hr; lia).
    + by rewrite lookup_app_r, Hi, Nat.sub_diag by (rewrite Hi; lia).
  - unfold at_rest. rewrite net_of_other, moved_other. cbn [stayed_page e_world e_read e_inbox].
    destruct (st_rest _ _ _ _ (up_settled _ _ _ Hup) (negb b)) as (c'&H1&H2&H3&H4).
    exists c'. rewrite Hs'. auto.
  - cbn [back_page e_world]. by rewrite Hc.
  - cbn [stayed_page e_world]. by rewrite Hc'.
  - destruct (back_resumable v Hc) as (s'&q'&Hre'). by exists sid, r, t, s', q'.
  - by apply stayed_resumable.
  - cbn [back_page e_world e_read]. rewrite Hs, !length_app, length_insert, Hr. done.
  - cbn [stayed_page e_world e_read]. by rewrite Hs', Hr.
  - cbn [back_page e_world e_inbox]. rewrite Hs, !length_app, length_insert, Hi. done.
  - cbn [stayed_page e_world e_inbox]. by rewrite Hs', Hi.
  - intros k. cbn [back_page e_world]. rewrite Hs, length_app, length_insert. cbn [length].
    intros Hk. simpl. rewrite not_elem_of_union, not_elem_of_singleton. split.
    + intros He. destruct (conn_of_side b k) as [_ E1], (conn_of_side b m) as [_ E2].
      rewrite He, E2 in E1. lia.
    + apply (up_fresh _ _ _ Hup b). lia.
  - intros k. cbn [stayed_page e_world]. rewrite Hs'. intros Hk. simpl.
    rewrite not_elem_of_union, not_elem_of_singleton. split.
    + intros He. destruct (conn_of_side (negb b) k) as [E1 _], (conn_of_side b m) as [E2 _].
      rewrite He, E2 in E1. by destruct b.
    + by apply (up_fresh _ _ _ Hup (negb b)).
Qed.

End Drop.

(** ** Any number of drops *)

Section Drops.
Context `{WebCrypto}.
Context (format_time : Z → jsstr) (cfg : Relay.Config).
Context (location : url) (randomKey : nat → bytes).
Context (p : nat) (role : Relay.Role) (now : Z) (en : Relay.entropy).
Abbreviation nstep := (net_step format_time cfg location randomKey).
Abbreviation session_up := (session_up cfg p role).

(** One drop after the other, of the sides [bs]; the sides' sockets and the
    network after them. *)
Fixpoint drop_sides (bs : list bool) (sock : bool → nat) (n : net) : option ((bool → nat) * net) :=
  match bs with
  | [] => Some (sock, n)
  | b :: bs =>
      let m := length (socks (e_world (get_end b n))) in
      n' ← run nstep (drop_schedule b (sock b) (sock (negb b)) m now en) n;
      drop_sides bs (moved sock n b) n'
  end.

Lemma drop_once sock n e b :
  session_up sock n e →
  ∃ n', run nstep (drop_schedule b (sock b) (sock (negb b)) (length (socks (e_world (get_end b n)))) now en) n
        = Some n'
    ∧ session_up (moved sock n b) n' (e + 1)
    ∧ tracker (Relay.hub (n_server n')) p = tracker (Relay.hub (n_server n)) p
    ∧ ∀ c, cs (e_world (get_end c n')) = set_epoch (cs (e_world (get_end c n))) (Some (e + 1)).
Proof.
  intros Hup. destruct (up_resume _ _ _ _ _ _ Hup b) as (sid&r&t&s&q&Hre).
  destruct (drop_run format_time cfg location randomKey p role sock n e Hup b now en sid r t s q Hre)
    as (c&v&v'&_&Hr&Hj&Hs&Hc&Hj'&Hs'&Hc').
  eexists. split; [exact Hr|]. split; [by eapply back_up|].
  split; [change (n_server (net_of _ _ _ ?sv)) with sv; by eapply back_tracker|].
  refine (bool_cases _ b _ _); by rewrite ?net_of_end, ?net_of_other.
Qed.

(** The lemma form: what the session is afterwards. *)
Lemma drops_back bs sock n e :
  session_up sock n e →
  ∃ sock' n', drop_sides bs sock n = Some (sock', n')
    ∧ session_up sock' n' (e + Z.of_nat (length bs))
    ∧ tracker (Relay.hub (n_server n')) p = tracker (Relay.hub (n_server n)) p
    ∧ ∀ c, cs (e_world (get_end c n'))
           = set_epoch (cs (e_world (get_end c n))) (Some (e + Z.of_nat (length bs))).
Proof.
  revert sock n e. induction bs as [|b bs IH]; intros sock n e Hup; cbn [drop_sides length].
  - exists sock, n. rewrite Z.add_0_r. split_and!; [done..|]. intros c.
    rewrite <- (up_epoch _ _ _ _ _ _ Hup c). by destruct (cs _).
  - destruct (drop_once sock n e b Hup) as (n1&Hr&Hup1&Ht1&Hc1). rewrite Hr. cbn [mbind option_bind].
    destruct (IH _ _ _ Hup1) as (sock'&n'&Hd&Hup'&Ht'&Hc'). exists sock', n'.
    replace (e + Z.of_nat (S (length bs))) with (e + 1 + Z.of_nat (length bs)) by lia.
    split_and!; [done|done|congruence|]. intros c. by rewrite Hc', Hc1.
Qed.

(** C12: A dropped connection is made good: whichever sides of a paired session
    lose their connection, one at a time and any number of times, each of them
    comes back on a new socket with its token, and both pages are again settled
    in the session - on the paired screen, with their session key, their roles
    and their tokens as before -, in the same epoch, which is one higher for
    each drop, and can come back the next time. *)
Theorem drops_recovered bs sock n e :
  session_up sock n e →
  ∃ sock' n', drop_sides bs sock n = Some (sock', n')
    ∧ session_up sock' n' (e + Z.of_nat (length bs))
    ∧ ∀ c, let old := cs (e_world (get_end c n)) in
           getPairedSession (e_world (get_end c n'))
           = Some {| ps_socket := Some (sock' c); ps_sessionId := cs_sessionId old;
                     ps_sessionKey := cs_sessionKey old; ps_role := cs_role old;
                     ps_epoch := Some (e + Z.of_nat (length bs)); ps_transferRole := cs_transferRole old |}.
Proof.
  intros Hup. destruct (drops_back bs sock n e Hup) as (sock'&n'&Hd&Hup'&_&Hc).
  exists sock', n'. split_and!; [done..|]. intros c old.
  destruct (st_rest _ _ _ _ (up_settled _ _ _ _ _ _ Hup') c) as (k&_&[Hscr _ Ha _ _]&_).
  unfold getPairedSession. rewrite Hscr, Ha, (Hc c). by rewrite bool_decide_true.
Qed.

End Drops.
