(* ===== verification/DoubleDrop.v ===== *)
(** * Both connections of a pair drop

    The other drop schedules of ReconnectNet let one side come back before the
    next one drops. Here both are away at once: the relay has nobody to tell of
    the first that comes back, and the two pages end one epoch apart. *)

From stdpp Require Import base list list_numbers gmap sets strings.
From Stdlib Require Import ZArith Lia.
From S2P Require Import Prelude JsText Hex Json Utf8 Crypto WsClient PairingText PageState.
From S2P Require Import Hub HubFacts HubLimits HubPair HubReap HubLeak Messages.
From S2P Require Import Pairing Session RoleSwap Network SwapNet ReconnectNet.
Open Scope Z_scope.

(** ** The relay, whoever is there *)

Section Relay.
Context (cfg : Relay.Config) (p : nat) (now : Z) (en : Relay.entropy).

Lemma away_other s r q r' : r' ≠ r → Relay.connOf (away s r q now) r' = Relay.connOf s r'.
Proof. intros Hne. unfold away. by rewrite connOf_set_peer, decide_False. Qed.

Lemma away_self s r q : Relay.connOf (away s r q now) r = None.
Proof. unfold away. rewrite connOf_set_peer, decide_True by done. by rewrite bool_decide_false. Qed.

Lemma relay_loses sv r a s q :
  Relay.loops sv !! a = Some (p, r) → Relay.store (Relay.hub sv) !! p = Some s →
  Relay.s_peers s r = Some q →
  Relay.step cfg sv (Relay.Gone now a)
  = Some (gone_server p r a sv now s q,
          Relay.notify (Relay.connOf s (Relay.other r)) Relay.MPeerDisconnected
          ++ [Relay.Close a "connection closed"]).
Proof.
  intros Ha Hs Hq. unfold Relay.step. rewrite Ha. cbn [mbind option_bind].
  unfold Relay.serve_gone, Relay.HandleDisconnect. rewrite Hs. unfold Relay.markDisconnected. rewrite Hq.
  fold (away s r q now). by rewrite away_other by apply other_ne.
Qed.

Lemma gone_less sv r a s q ip :
  0 < Relay.count (Relay.hub sv) (Relay.p_ip q) →
  Relay.count (Relay.hub (gone_server p r a sv now s q)) ip
  = Relay.count (Relay.hub sv) ip - if decide (Relay.p_ip q = ip) then 1 else 0.
Proof.
  intros Hpos. unfold gone_server. cbn [Relay.hub]. rewrite count_decr.
  change (Relay.count (Relay.update _ _ _)) with (Relay.count (Relay.hub sv)).
  case_decide; [subst|lia]. rewrite (proj2 (Z.ltb_lt _ _)); lia.
Qed.

(** The session and the server once a side has its place back. *)
Definition regained_session (s : Relay.Session) (r : Relay.Role) (c : nat) (ip : jsstr) (t : bytes) :
    Relay.Session :=
  Relay.set_lastActivity
    (Relay.set_peer s r {| Relay.p_conn := c; Relay.p_ip := ip; Relay.p_disconnectedAt := None;
                           Relay.p_reconnectToken := t |}) now.

Definition regained (sv : Relay.server) (s : Relay.Session) (r : Relay.Role) (c : nat) (ip : jsstr)
    (t : bytes) : Relay.server :=
  {| Relay.hub := Relay.incr (Relay.update (Relay.hub sv) p (regained_session s r c ip t)) ip;
     Relay.loops := <[c := (p, r)]> (Relay.loops sv);
     Relay.seen := {[c]} ∪ Relay.seen sv |}.

Lemma relay_regains sv s r c ip q t sid d :
  c ∉ Relay.seen sv → Relay.opening_of d = Some (Relay.OReconnect sid r t) → Relay.too_large d = false →
  Relay.sessions (Relay.hub sv) !! sid = Some p → Relay.store (Relay.hub sv) !! p = Some s →
  Relay.s_peers s r = Some q → Relay.p_disconnectedAt q ≠ None → Relay.p_reconnectToken q = t → t ≠ [] →
  Relay.count (Relay.hub sv) ip < Relay.MaxSessionsPerIP cfg →
  Relay.step cfg sv (Relay.First now ip c en d)
  = Some (regained sv s r c ip t,
          Relay.notify (Relay.connOf s (Relay.other r)) Relay.MPeerReconnected
          ++ [Relay.Send c Relay.MReconnected]).
Proof.
  intros Hc Hd Hl Hse Hst Hq Hgone Ht Hne Hroom. unfold Relay.step. rewrite bool_decide_false, Hl by done.
  unfold Relay.serve_first. rewrite Hd. cbn [Relay.beginSession]. unfold Relay.Reconnect.
  rewrite Hse. cbn [mbind option_bind]. rewrite Hst. cbn [fmap option_fmap option_map].
  rewrite (proj2 (Z.leb_gt _ _)) by done. unfold Relay.reattach. rewrite Hq.
  cbn [Relay.connected]. rewrite bool_decide_false by done.
  rewrite Ht, bool_decide_false, bool_decide_true by done. cbn [orb negb].
  rewrite connOf_touched, connOf_set_peer, decide_False by apply other_ne. done.
Qed.

Lemma regained_store sv s s' r c ip t :
  Relay.store (Relay.hub sv) !! p = Some s' →
  Relay.store (Relay.hub (regained sv s r c ip t)) !! p = Some (regained_session s r c ip t).
Proof. intros Hs. simpl. apply list_lookup_insert_eq. by eapply lookup_lt_Some. Qed.

Lemma regained_count sv s r c ip t ip' :
  Relay.count (Relay.hub (regained sv s r c ip t)) ip'
  = Relay.count (Relay.hub sv) ip' + if decide (ip = ip') then 1 else 0.
Proof.
  unfold regained. cbn [Relay.hub]. rewrite count_incr.
  change (Relay.count (Relay.update _ _ _)) with (Relay.count (Relay.hub sv)).
  case_decide; subst; lia.
Qed.

(** *** Both go and both come back *)

Context (sv : Relay.server) (r : Relay.Role) (a b : nat) (s : Relay.Session) (q q' : Relay.peer).
Context (Hp : pair_at p r a b sv).
Context (Hs : Relay.store (Relay.hub sv) !! p = Some s).
Context (Hq : Relay.s_peers s r = Some q) (Hq' : Relay.s_peers s (Relay.other r) = Some q').
Context (sid sid' : jsstr) (Hid : Relay.sessions (Relay.hub sv) !! sid = Some p).
Context (Hid' : Relay.sessions (Relay.hub sv) !! sid' = Some p).
Context (Hne : Relay.p_reconnectToken q ≠ []) (Hne' : Relay.p_reconnectToken q' ≠ []).
Context (Hroom : 0 < Relay.count (Relay.hub sv) (Relay.p_ip q) ≤ Relay.MaxSessionsPerIP cfg).
Context (Hroom' : 0 < Relay.count (Relay.hub sv) (Relay.p_ip q') ≤ Relay.MaxSessionsPerIP cfg).
Context (Hboth : Relay.p_ip q = Relay.p_ip q' → 2 ≤ Relay.count (Relay.hub sv) (Relay.p_ip q)).
Context (c c' : nat) (Hc : c ∉ Relay.seen sv) (Hc' : c' ∉ Relay.seen sv) (Hcc : c ≠ c').

Definition first_gone : Relay.server := gone_server p r a sv now s q.
Definition both_gone : Relay.server :=
  gone_server p (Relay.other r) b first_gone now (away s r q now) q'.
Definition both_away : Relay.Session := away (away s r q now) (Relay.other r) q' now.
Definition one_back : Relay.server :=
  regained both_gone both_away r c (Relay.p_ip q) (Relay.p_reconnectToken q).
Definition half_back : Relay.Session :=
  regained_session both_away r c (Relay.p_ip q) (Relay.p_reconnectToken q).
Definition all_back : Relay.server :=
  regained one_back half_back (Relay.other r) c' (Relay.p_ip q') (Relay.p_reconnectToken q').

Lemma first_goes :
  Relay.step cfg sv (Relay.Gone now a)
  = Some (first_gone, [Relay.Send b Relay.MPeerDisconnected; Relay.Close a "connection closed"]).
Proof. by apply (relay_drops cfg p r a b). Qed.

Lemma first_gone_store : Relay.store (Relay.hub first_gone) !! p = Some (away s r q now).
Proof. by apply gone_store. Qed.

Lemma second_here : Relay.s_peers (away s r q now) (Relay.other r) = Some q'.
Proof. unfold away. simpl. by rewrite decide_False by apply other_ne. Qed.

Lemma second_goes :
  Relay.step cfg first_gone (Relay.Gone now b) = Some (both_gone, [Relay.Close b "connection closed"]).
Proof.
  assert (Relay.loops first_gone !! b = Some (p, Relay.other r)) as Hb.
  { unfold first_gone, gone_server. simpl. rewrite lookup_delete_ne; [apply Hp|].
    intros ->. pose proof (pa_a _ _ _ _ _ Hp) as H1. rewrite (pa_b _ _ _ _ _ Hp) in H1.
    injection H1 as H1. by apply (other_ne r). }
  rewrite (relay_loses first_gone (Relay.other r) b (away s r q now) q' Hb first_gone_store second_here).
  by rewrite other_other, away_self.
Qed.

Lemma both_gone_store : Relay.store (Relay.hub both_gone) !! p = Some both_away.
Proof. apply gone_store, first_gone_store. Qed.

Lemma both_gone_sessions : Relay.sessions (Relay.hub both_gone) = Relay.sessions (Relay.hub sv).
Proof. unfold both_gone, first_gone. by rewrite !gone_sessions. Qed.

Lemma both_gone_count ip :
  Relay.count (Relay.hub both_gone) ip
  = Relay.count (Relay.hub sv) ip - (if decide (Relay.p_ip q = ip) then 1 else 0)
    - (if decide (Relay.p_ip q' = ip) then 1 else 0).
Proof.
  assert (∀ ip, Relay.count (Relay.hub first_gone) ip
                = Relay.count (Relay.hub sv) ip - if decide (Relay.p_ip q = ip) then 1 else 0) as H1
    by (intros; apply gone_less; lia).
  unfold both_gone. rewrite gone_less; [by rewrite H1|].
  rewrite H1. case_decide as E; [|lia]. specialize (Hboth E). rewrite E in Hboth. lia.
Qed.

Lemma first_returns d :
  Relay.opening_of d = Some (Relay.OReconnect sid r (Relay.p_reconnectToken q)) → Relay.too_large d = false →
  Relay.step cfg both_gone (Relay.First now (Relay.p_ip q) c en d)
  = Some (one_back, [Relay.Send c Relay.MReconnected]).
Proof.
  intros Hd Hl.
  erewrite (relay_regains both_gone both_away r c); [|done|exact Hd|done| |apply both_gone_store| |..|done|].
  - unfold both_away. by rewrite away_self.
  - by rewrite both_gone_sessions.
  - unfold both_away, away. simpl. rewrite decide_False, decide_True; [reflexivity|done|].
    intros E. symmetry in E. by apply (other_ne r).
  - done.
  - done.
  - rewrite both_gone_count, decide_True by done. case_decide; lia.
Qed.

Lemma one_back_store : Relay.store (Relay.hub one_back) !! p = Some half_back.
Proof. eapply regained_store, both_gone_store. Qed.

Lemma second_returns d :
  Relay.opening_of d = Some (Relay.OReconnect sid' (Relay.other r) (Relay.p_reconnectToken q')) →
  Relay.too_large d = false →
  Relay.step cfg one_back (Relay.First now (Relay.p_ip q') c' en d)
  = Some (all_back, [Relay.Send c Relay.MPeerReconnected; Relay.Send c' Relay.MReconnected]).
Proof.
  intros Hd Hl.
  erewrite (relay_regains one_back half_back (Relay.other r) c');
    [| |exact Hd|done| |apply one_back_store| |..|done|].
  - rewrite other_other. unfold half_back, regained_session.
    by rewrite connOf_touched, connOf_set_peer, decide_True.
  - unfold one_back, regained. simpl. set_solver.
  - change (Relay.sessions (Relay.hub one_back)) with (Relay.sessions (Relay.hub both_gone)).
    by rewrite both_gone_sessions.
  - unfold half_back, regained_session, both_away, away. simpl.
    rewrite decide_False, decide_True; [reflexivity|done|apply other_ne].
  - done.
  - done.
  - unfold one_back. rewrite regained_count, both_gone_count. rewrite (decide_True (P := Relay.p_ip q' = _)) by done.
    case_decide; lia.
Qed.

Lemma all_back_pair d d' :
  Relay.opening_of d = Some (Relay.OReconnect sid r (Relay.p_reconnectToken q)) → Relay.too_large d = false →
  Relay.opening_of d' = Some (Relay.OReconnect sid' (Relay.other r) (Relay.p_reconnectToken q')) →
  Relay.too_large d' = false →
  pair_at p r c c' all_back.
Proof.
  intros Hd Hl Hd' Hl'. pose proof Hp as [Hok Hh _ _].
  pose proof first_goes as E1. pose proof second_goes as E2.
  pose proof (first_returns d Hd Hl) as E3. pose proof (second_returns d' Hd' Hl') as E4.
  split.
  - eapply step_server_ok, E4. eapply step_server_ok, E3. eapply step_server_ok, E2.
    by eapply step_server_ok, E1.
  - eapply step_hold, E4. eapply step_hold, E3. eapply step_hold, E2. by eapply step_hold, E1.
  - unfold all_back, regained. simpl. by rewrite lookup_insert_ne, lookup_insert_eq.
  - unfold all_back, regained. simpl. by rewrite lookup_insert_eq.
Qed.

End Relay.

(** ** A page whose connection has closed *)

Section Page.
Context `{WebCrypto}.
Context (format_time : Z → jsstr) (cfg : Relay.Config).
Context (location : url) (randomKey : nat → bytes).
Abbreviation nstep := (net_step format_time cfg location randomKey).
Context (b : bool) (x : endpoint) (w : world) (k i : nat) (c : conn).
Context (sid : jsstr) (r : PageState.role) (t : bytes).
Context (Hj : joined w k i) (Hc : socks w !! k = Some c).
Context (Hid : cs_sessionId (cs w) = Some sid) (Hr : cs_role (cs w) = Some r).
Context (Ht : cs_reconnectToken (cs w) = Some t).
Context (Hread : length (e_read x) = length (socks w)) (Hinbox : length (e_inbox x) = length (socks w)).
Local Abbreviation m := (length (socks w)).
Abbreviation request := (reconnect_request (Some sid) (Some r) t).

(** It has opened a new socket; has asked on it; has its place back. *)
Definition here_end : endpoint :=
  {| e_world := w; e_ip := e_ip x; e_read := e_read x; e_inbox := e_inbox x |}.
Definition closed_end : endpoint :=
  {| e_world := dropped Connecting [] w k c t; e_ip := e_ip x; e_read := e_read x ++ [O];
     e_inbox := e_inbox x ++ [[]] |}.
Definition asked_end (q : list data) : endpoint :=
  {| e_world := dropped Open [request] w k c t; e_ip := e_ip x; e_read := e_read x ++ [1%nat];
     e_inbox := e_inbox x ++ [q] |}.
Definition back_end (v : world) : endpoint :=
  {| e_world := v; e_ip := e_ip x; e_read := e_read x ++ [1%nat]; e_inbox := e_inbox x ++ [[]] |}.

Lemma end_closes y sv :
  nstep (net_of b here_end y sv) (b, Page (SockClose k)) = Some (net_of b closed_end y sv).
Proof.
  destruct Hj as [Hs _ Ha _ (c'&l&Hc'&Ho&Hl&Hp&_)]. rewrite Hc in Hc'. injection Hc' as <-.
  erewrite page_event; [|done|by eapply (page_drops _ _ _ _ c l)].
  by rewrite with_page_more by (simpl; rewrite length_app, length_insert; simpl; lia).
Qed.

Lemma end_asks y sv sv' now en os :
  conn_of b m ∉ Relay.seen sv →
  Relay.step cfg sv (Relay.First now (e_ip x) (conn_of b m) en request) = Some (sv', os) →
  run nstep [(b, Page (SockOpen m)); (b, Reads m now en)] (net_of b closed_end y sv)
  = Some (fold_left (written format_time) os (net_of b (asked_end []) y sv')).
Proof.
  intros Hnew Hs. pose proof (page_reopens location randomKey w k c t) as Hopen. rewrite Hid, Hr in Hopen.
  eapply run_cons; [by apply page_event|].
  rewrite with_page_same by (simpl; by rewrite !length_app). cbn [closed_end e_ip e_read e_inbox].
  eapply run_cons; [|done].
  erewrite relay_message with (sv' := sv') (os := os).
  2: apply dropped_new.
  2: { cbn [e_read]. by rewrite lookup_app_r, Hread, Nat.sub_diag by lia. }
  2: reflexivity.
  2: { by rewrite bool_decide_false. }
  do 2 f_equal. unfold read_one, asked_end. cbn [e_world e_ip e_read e_inbox]. f_equal.
  rewrite <- Hread, <- (Nat.add_0_r (length (e_read x))). by rewrite insert_app_r.
Qed.

Lemma asked_push q d : push (asked_end q) m d = asked_end (q ++ [d]).
Proof.
  unfold push, asked_end. cbn [e_world e_ip e_read e_inbox]. f_equal.
  rewrite <- Hinbox, <- (Nat.add_0_r (length (e_inbox x))). by rewrite alter_app_r.
Qed.

Lemma back_push v d :
  push (back_end v) m d
  = {| e_world := v; e_ip := e_ip x; e_read := e_read x ++ [1%nat]; e_inbox := e_inbox x ++ [[d]] |}.
Proof.
  unfold push, back_end. cbn [e_world e_ip e_read e_inbox]. f_equal.
  rewrite <- Hinbox, <- (Nat.add_0_r (length (e_inbox x))). by rewrite alter_app_r.
Qed.

(** The new socket once the relay has answered. *)
Definition back_conn : conn :=
  {| k_state := Open; k_listeners := [LReconnect 1 (Some sid) (Some r) t; LPaired]; k_sent := [request] |}.

Lemma end_resumes y sv :
  ∃ v, nstep (net_of b (asked_end [wire format_time Relay.MReconnected]) y sv) (b, Receives m)
       = Some (net_of b (back_end v) y sv)
    ∧ joined v m 1 ∧ socks v = <[k := set_ready c Closed]> (socks w) ++ [back_conn]
    ∧ cs v = set_epoch (cs w) ((λ e, e + 1) <$> cs_epoch (cs w)).
Proof.
  set (d := dropped Open [request] w k c t).
  destruct (page_resumes format_time location randomKey d m 1 (Some sid) (Some r) t [request]
              (jn_screen _ _ _ Hj) (jn_role _ _ _ Hj) (jn_tokens _ _ _ Hj)) as (v&Hv&Jv&Sv&Cv).
  { unfold d. rewrite dropped_new. unfold reopening. by rewrite Hid, Hr. }
  assert (socks v = <[k := set_ready c Closed]> (socks w) ++ [back_conn]) as Hsv.
  { rewrite Sv. unfold d. simpl.
    replace m with (length (<[k := set_ready c Closed]> (socks w)) + 0)%nat by (rewrite length_insert; lia).
    rewrite alter_app_r. unfold reopening, back_conn. by rewrite Hid, Hr. }
  exists v. split; [|by split_and!]. erewrite page_message; [|
    unfold asked_end; cbn [e_inbox]; by rewrite lookup_app_r, Hinbox, Nat.sub_diag by lia|exact Hv].
  rewrite with_page_same by (unfold taken, asked_end; cbn [e_world]; rewrite Hsv; simpl; by rewrite !length_app).
  unfold taken, asked_end, back_end. cbn [e_ip e_read e_inbox]. do 3 f_equal.
  replace m with (length (e_inbox x) + 0)%nat by lia. by rewrite insert_app_r.
Qed.

(** The settled page that has come back, on its new socket. *)
Lemma back_rest v :
  joined v m 1 → socks v = <[k := set_ready c Closed]> (socks w) ++ [back_conn] →
  ∃ c', socks v !! m = Some c' ∧ joined v m (length (k_sent c'))
    ∧ e_read (back_end v) !! m = Some (length (k_sent c')) ∧ e_inbox (back_end v) !! m = Some [].
Proof.
  intros Hv Hs. exists back_conn. rewrite Hs. unfold back_end. cbn [e_read e_inbox]. split_and!.
  - by rewrite lookup_app_r, length_insert, Nat.sub_diag by (rewrite length_insert; lia).
  - done.
  - by rewrite lookup_app_r, Hread, Nat.sub_diag by lia.
  - by rewrite lookup_app_r, Hinbox, Nat.sub_diag by lia.
Qed.

(** It is told that the other side is back, too. *)
Lemma back_hears y sv v :
  joined v m 1 → socks v = <[k := set_ready c Closed]> (socks w) ++ [back_conn] →
  ∃ v', nstep (net_of b (push (back_end v) m (wire format_time Relay.MPeerReconnected)) y sv) (b, Receives m)
        = Some (net_of b (back_end v') y sv)
    ∧ joined v' m 1 ∧ socks v' = socks v
    ∧ cs v' = set_epoch (cs v) ((λ e, e + 1) <$> cs_epoch (cs v)).
Proof.
  intros Hv Hs. destruct (page_stays format_time location randomKey v m 1 Hv) as (v'&Hv'&Jv'&Sv'&Cv').
  exists v'. split; [|by auto]. rewrite back_push.
  erewrite page_message; [|cbn [e_inbox]; by rewrite lookup_app_r, Hinbox, Nat.sub_diag by lia|exact Hv'].
  rewrite with_page_same by (unfold taken; cbn [e_world]; by rewrite Sv').
  unfold taken, back_end. cbn [e_ip e_read e_inbox]. do 3 f_equal.
  replace m with (length (e_inbox x) + 0)%nat by lia. by rewrite insert_app_r.
Qed.

End Page.

(** ** Both sides drop, and come back one after the other *)

(** The side [b] drops, the other side is told and drops, and [b] is back; the
    sides' sockets are the [k]-th and the [k']-th, the new one the [m]-th. *)
Definition first_schedule (b : bool) (k k' m : nat) (now : Z) (en : Relay.entropy) :
    list (bool * net_event) :=
  [(b, Page (SockClose k)); (b, Breaks k now); (negb b, Receives k');
   (negb b, Page (SockClose k')); (negb b, Breaks k' now);
   (b, Page (SockOpen m)); (b, Reads m now en); (b, Receives m)].

(** The other side is back, on its [m']-th socket. *)
Definition second_schedule (b : bool) (m m' : nat) (now : Z) (en : Relay.entropy) :
    list (bool * net_event) :=
  [(negb b, Page (SockOpen m')); (negb b, Reads m' now en); (negb b, Receives m'); (b, Receives m)].

Section Both.
Context `{WebCryptoLaws}.
Context (format_time : Z → jsstr) (cfg : Relay.Config).
Context (location : url) (randomKey : nat → bytes).
Context (p : nat) (role : Relay.Role) (sock : bool → nat) (n : net) (e : Z).
Context (Hup : session_up cfg p role sock n e) (b : bool) (now : Z) (en : Relay.entropy).
Abbreviation nstep := (net_step format_time cfg location randomKey).
Abbreviation page_step := (step location randomKey).
Local Abbreviation x := (get_end b n).
Local Abbreviation y := (get_end (negb b) n).
Local Abbreviation w := (e_world x).
Local Abbreviation u := (e_world y).
Local Abbreviation sv := (n_server n).
Local Abbreviation m := (length (socks w)).
Local Abbreviation m' := (length (socks u)).

(** The relay counts both of them when they share an address. *)
Context (Hcounted : e_ip x = e_ip y → 2 ≤ Relay.count (Relay.hub sv) (e_ip x)).
Context (sid : jsstr) (r : PageState.role) (t : bytes) (s : Relay.Session) (q : Relay.peer).
Context (Hre : resumable cfg p x sv (role_of role b) sid r t s q).
Context (sid' : jsstr) (r' : PageState.role) (t' : bytes) (q' : Relay.peer).
Context (Hre' : resumable cfg p y sv (role_of role (negb b)) sid' r' t' s q').

Local Abbreviation rl := (role_of role b).
Local Abbreviation a := (pair_conn sock b).
Local Abbreviation a' := (pair_conn sock (negb b)).
Local Abbreviation sv1 := (first_gone p now sv rl a s q).
Local Abbreviation sv2 := (both_gone p now sv rl a a' s q q').
Local Abbreviation sv3 := (one_back p now sv rl a a' s q q' (conn_of b m)).
Local Abbreviation sv4 := (all_back p now sv rl a a' s q q' (conn_of b m) (conn_of (negb b) m')).

Lemma other_rl : role_of role (negb b) = Relay.other rl.
Proof. unfold role_of. destruct b; simpl; [by rewrite other_other|done]. Qed.

Lemma tokens_there : Relay.p_reconnectToken q = t ∧ t ≠ [] ∧ Relay.p_reconnectToken q' = t' ∧ t' ≠ [].
Proof.
  pose proof (re_length _ _ _ _ _ _ _ _ _ _ Hre) as L1. pose proof (re_length _ _ _ _ _ _ _ _ _ _ Hre') as L2.
  split_and!; [apply Hre| |apply Hre'|]; intros E; by rewrite E in *.
Qed.

Lemma both_server :
  Relay.step cfg sv1 (Relay.Gone now a') = Some (sv2, [Relay.Close a' "connection closed"])
  ∧ Relay.step cfg sv2 (Relay.First now (e_ip x) (conn_of b m) en (reconnect_request (Some sid) (Some r) t))
    = Some (sv3, [Relay.Send (conn_of b m) Relay.MReconnected])
  ∧ Relay.step cfg sv3
      (Relay.First now (e_ip y) (conn_of (negb b) m') en (reconnect_request (Some sid') (Some r') t'))
    = Some (sv4, [Relay.Send (conn_of b m) Relay.MPeerReconnected;
                  Relay.Send (conn_of (negb b) m') Relay.MReconnected])
  ∧ conn_of b m ∉ Relay.seen sv2 ∧ conn_of (negb b) m' ∉ Relay.seen sv3
  ∧ pair_at p rl (conn_of b m) (conn_of (negb b) m') sv4.
Proof.
  destruct tokens_there as (T1&T2&T3&T4). pose proof other_rl as Hrl.
  pose proof (pair_side p role sock b _ (st_pair _ _ _ _ (up_settled _ _ _ _ _ _ Hup))) as Hp.
  pose proof (up_fresh _ _ _ _ _ _ Hup b m ltac:(done)) as F1.
  pose proof (up_fresh _ _ _ _ _ _ Hup (negb b) m' ltac:(done)) as F2.
  assert (conn_of b m ≠ conn_of (negb b) m') as F3.
  { intros E. destruct (conn_of_side b m) as [E1 _], (conn_of_side (negb b) m') as [E2 _].
    rewrite E, E2 in E1. by destruct b. }
  assert (Relay.opening_of (reconnect_request (Some sid) (Some r) t)
          = Some (Relay.OReconnect sid rl (Relay.p_reconnectToken q))) as O1.
  { rewrite T1, <- (re_wire _ _ _ _ _ _ _ _ _ _ Hre). apply request_opens; apply Hre. }
  assert (Relay.opening_of (reconnect_request (Some sid') (Some r') t')
          = Some (Relay.OReconnect sid' (Relay.other rl) (Relay.p_reconnectToken q'))) as O2.
  { rewrite T3, <- Hrl, <- (re_wire _ _ _ _ _ _ _ _ _ _ Hre'). apply request_opens; apply Hre'. }
  assert (Relay.too_large (reconnect_request (Some sid) (Some r) t) = false) as L1
    by (apply request_size; apply Hre).
  assert (Relay.too_large (reconnect_request (Some sid') (Some r') t') = false) as L2
    by (apply request_size; apply Hre').
  destruct Hre, Hre'. rewrite Hrl in *. rewrite <- re_ip, <- re_ip0 in *.
  assert (Relay.p_reconnectToken q ≠ []) by by rewrite T1.
  assert (Relay.p_reconnectToken q' ≠ []) by by rewrite T3.
  split_and!.
  - by eapply second_goes.
  - eapply first_returns with (sid := sid); done.
  - eapply second_returns with (sid' := sid'); done.
  - done.
  - unfold one_back, regained. cbn [Relay.seen]. rewrite not_elem_of_union, not_elem_of_singleton. by split.
  - eapply all_back_pair with (sid := sid) (sid' := sid'); done.
Qed.

Definition both_sock (c : bool) : nat := if decide (c = b) then m else m'.

Lemma both_sock_here : both_sock b = m.
Proof. unfold both_sock. by rewrite decide_True. Qed.

Lemma both_sock_other : both_sock (negb b) = m'.
Proof. unfold both_sock. by rewrite decide_False by by destruct b. Qed.

(** Until the first side is back. *)
Lemma lone_return :
  ∃ c c' u1 v j, socks w !! sock b = Some c ∧ socks u !! sock (negb b) = Some c'
    ∧ run nstep (first_schedule b (sock b) (sock (negb b)) m now en) n
      = Some (net_of b (back_end x v) (closed_end y u1 (sock (negb b)) c' t') sv3)
    ∧ joined u1 (sock (negb b)) j ∧ socks u1 = socks u ∧ cs u1 = cs u
    ∧ joined v m 1 ∧ socks v = <[sock b := set_ready c Closed]> (socks w) ++ [back_conn sid r t]
    ∧ cs v = set_epoch (cs w) (Some (e + 1)).
Proof.
  destruct (up_settled _ _ _ _ _ _ Hup) as [Hpair Hrest].
  destruct (Hrest b) as (c&Hc&Hjx&_). destruct (Hrest (negb b)) as (c'&Hc'&Hjy&_&Hiy).
  destruct both_server as (E2&E3&_&F1&_&_).
  destruct (drop_gone format_time cfg location randomKey p role sock n e Hup b now sid r t s q Hre)
    as (c0&Hc0&Hgone). rewrite Hc in Hc0. injection Hc0 as <-.
  destruct (page_told format_time location randomKey _ _ _ Hjy) as (u1&Hu1&J1&S1&C1).
  destruct (end_resumes format_time cfg location randomKey b x w (sock b) _ c sid r t Hjx
              (re_id _ _ _ _ _ _ _ _ _ _ Hre) (re_role _ _ _ _ _ _ _ _ _ _ Hre)
              (up_read _ _ _ _ _ _ Hup b) (up_inbox _ _ _ _ _ _ Hup b)
              (closed_end y u1 (sock (negb b)) c' t') sv3) as (v&Hv&Jv&Sv&Cv).
  exists c, c', u1, v, (length (k_sent c')). split_and!; [done|done| |by apply J1|done|done|done|done|].
  2: { by rewrite Cv, (up_epoch _ _ _ _ _ _ Hup b). }
  change (first_schedule b (sock b) (sock (negb b)) m now en)
    with ([(b, Page (SockClose (sock b))); (b, Breaks (sock b) now)]
          ++ [(negb b, Receives (sock (negb b))); (negb b, Page (SockClose (sock (negb b))));
              (negb b, Breaks (sock (negb b)) now)]
          ++ [(b, Page (SockOpen m)); (b, Reads m now en)] ++ [(b, Receives m)]).
  rewrite run_app, Hgone. cbn [mbind option_bind]. rewrite run_app.
  match goal with |- context [run nstep [?e1; ?e2; ?e3] ?z] =>
    assert (run nstep [e1; e2; e3] z
            = Some (net_of b (closed_end x w (sock b) c t) (closed_end y u1 (sock (negb b)) c' t') sv2)) as -> end.
  { eapply run_cons; [by apply other_takes; [|by rewrite S1|]|].
    rewrite <- net_of_swap. eapply run_cons.
    { eapply (end_closes format_time cfg location randomKey (negb b) y u1 (sock (negb b)) _ c' t').
      - by apply J1.
      - by rewrite S1.
      - rewrite C1. apply Hre'.
      - by rewrite S1, (up_read _ _ _ _ _ _ Hup).
      - by rewrite S1, (up_inbox _ _ _ _ _ _ Hup). }
    eapply run_cons; [by apply relay_breaks; exact E2|]. cbn [fold_left written]. by rewrite net_of_swap. }
  cbn [mbind option_bind]. rewrite run_app.
  erewrite (end_asks format_time cfg location randomKey b x w (sock b) c sid r t);
    [|apply Hre|apply Hre|apply (up_read _ _ _ _ _ _ Hup)|apply (up_inbox _ _ _ _ _ _ Hup)|exact F1|exact E3].
  cbn [mbind option_bind fold_left]. rewrite written_end, asked_push by apply (up_inbox _ _ _ _ _ _ Hup).
  by eapply run_cons; [exact Hv|].
Qed.

(** The other side is back as well. *)
Lemma both_return u1 v j c c' :
  socks w !! sock b = Some c → socks u !! sock (negb b) = Some c' →
  joined u1 (sock (negb b)) j → socks u1 = socks u → cs u1 = cs u →
  joined v m 1 → socks v = <[sock b := set_ready c Closed]> (socks w) ++ [back_conn sid r t] →
  cs v = set_epoch (cs w) (Some (e + 1)) →
  ∃ v' u', run nstep (second_schedule b m m' now en)
             (net_of b (back_end x v) (closed_end y u1 (sock (negb b)) c' t') sv3)
           = Some (net_of b (back_end x v') (back_end y u') sv4)
    ∧ joined v' m 1 ∧ socks v' = socks v ∧ cs v' = set_epoch (cs w) (Some (e + 2))
    ∧ joined u' m' 1
    ∧ socks u' = <[sock (negb b) := set_ready c' Closed]> (socks u1) ++ [back_conn sid' r' t']
    ∧ cs u' = set_epoch (cs u) (Some (e + 1)).
Proof.
  intros Hc Hc' Ju Su Cu Jv Sv Cv.
  destruct both_server as (_&_&E4&_&F2&_).
  pose proof (up_read _ _ _ _ _ _ Hup (negb b)) as Hr. pose proof (up_inbox _ _ _ _ _ _ Hup (negb b)) as Hi.
  pose proof (up_inbox _ _ _ _ _ _ Hup b) as Hib. rewrite <- Su in Hr, Hi.
  assert (cs_sessionId (cs u1) = Some sid') as Hid' by (rewrite Cu; apply Hre').
  assert (cs_role (cs u1) = Some r') as Hr' by (rewrite Cu; apply Hre').
  rewrite <- Su in E4, F2.
  set (x1 := push (back_end x v) m (wire format_time Relay.MPeerReconnected)).
  destruct (end_resumes format_time cfg location randomKey (negb b) y u1 (sock (negb b)) j c' sid' r' t' Ju
              Hid' Hr' Hr Hi x1 sv4) as (u'&Hu'&Ju'&Su'&Cu'). rewrite Su in Hu' at 1.
  destruct (back_hears format_time cfg location randomKey b x w (sock b) c sid r t
              (up_read _ _ _ _ _ _ Hup b) Hib (back_end y u') sv4 v Jv Sv) as (v'&Hv'&Jv'&Sv'&Cv').
  exists v', u'. rewrite Su in Ju'. split_and!; [|done|done| |done|done|].
  - change (second_schedule b m m' now en)
      with ([(negb b, Page (SockOpen m')); (negb b, Reads m' now en)] ++ [(negb b, Receives m'); (b, Receives m)]).
    rewrite run_app, <- net_of_swap.
    assert (m' = length (socks u1)) as -> by by rewrite Su.
    erewrite (end_asks format_time cfg location randomKey (negb b) y u1 (sock (negb b)) c' sid' r' t');
      [|done|done|done|done|exact F2|exact E4].
    cbn [mbind option_bind fold_left]. rewrite net_of_swap, written_end, written_other, asked_push by done.
    rewrite <- net_of_swap. eapply run_cons; [rewrite <- Su in Hu'; exact Hu'|].
    rewrite net_of_swap. eapply run_cons; [rewrite <- Su in Hv'; exact Hv'|done].
  - rewrite Cv', Cv. cbn [cs_epoch set_epoch fmap option_fmap option_map].
    replace (e + 2) with (e + 1 + 1) by lia. by destruct (cs w).
  - rewrite Cu', Cu. by rewrite (up_epoch _ _ _ _ _ _ Hup (negb b)).
Qed.

Lemma both_settled v' u' c c' :
  joined v' m 1 → socks v' = <[sock b := set_ready c Closed]> (socks w) ++ [back_conn sid r t] →
  joined u' m' 1 →
  socks u' = <[sock (negb b) := set_ready c' Closed]> (socks u) ++ [back_conn sid' r' t'] →
  settled p role both_sock (net_of b (back_end x v') (back_end y u') sv4).
Proof.
  intros Jv Sv Ju Su. destruct both_server as (_&_&_&_&_&Hp). split.
  - apply (side_pair p role both_sock b). unfold pair_conn. by rewrite both_sock_here, both_sock_other.
  - refine (bool_cases _ b _ _); unfold at_rest.
    + rewrite net_of_end, both_sock_here.
      apply (back_rest x w (sock b) c sid r t); [apply (up_read _ _ _ _ _ _ Hup)|apply (up_inbox _ _ _ _ _ _ Hup)|done..].
    + rewrite net_of_other, both_sock_other.
      apply (back_rest y u (sock (negb b)) c' sid' r' t');
        [apply (up_read _ _ _ _ _ _ Hup)|apply (up_inbox _ _ _ _ _ _ Hup)|done..].
Qed.

End Both.

(** The salts of two epochs that follow each other differ. *)
Lemma next_salt e : be_bytes 4 (e + 1) ≠ be_bytes 4 e.
Proof.
  intros He. apply (f_equal be_val) in He. rewrite !be_val_be_bytes in He.
  change (256 ^ Z.of_nat 4) with 4294967296 in He. revert He. divlia.
Qed.

Section Disagree.
Context `{WebCryptoLaws}.
Context (format_time : Z → jsstr) (cfg : Relay.Config).
Context (location : url) (randomKey : nat → bytes).
Context (p : nat) (role : Relay.Role) (now : Z) (en : Relay.entropy).
Abbreviation nstep := (net_step format_time cfg location randomKey).

(** C26: When both connections of a session drop before either side is back, the
    pages end one epoch apart. From any session between connections: the side
    [b] drops, the other side is told and drops, and [b] comes back; its page is
    an epoch on, and nothing is on the way to the other, which is not told. Then
    the other side comes back, an epoch on, and [b] is told, which puts it two
    epochs on. Both are settled again, each on the paired screen on its new
    connection, with the session, the key and the roles as before and with
    nothing on the way; but the keys under which they encrypt what they transfer
    are derived from the session key with different salts. *)
Theorem dropped_pages_disagree b sock n e :
  session_up cfg p role sock n e →
  (e_ip (get_end b n) = e_ip (get_end (negb b) n) →
     2 ≤ Relay.count (Relay.hub (n_server n)) (e_ip (get_end b n))) →
  let m := length (socks (e_world (get_end b n))) in
  let m' := length (socks (e_world (get_end (negb b) n))) in
  ∃ n1 n2, run nstep (first_schedule b (sock b) (sock (negb b)) m now en) n = Some n1
    ∧ cs_epoch (cs (e_world (get_end b n1))) = Some (e + 1)
    ∧ cs_epoch (cs (e_world (get_end (negb b) n1))) = Some e
    ∧ (∀ k, k = sock (negb b) ∨ k = m' → e_inbox (get_end (negb b) n1) !! k = Some [])
    ∧ run nstep (second_schedule b m m' now en) n1 = Some n2
    ∧ settled p role (both_sock n b) n2
    ∧ (∀ c, let old := cs (e_world (get_end c n)) in
         getPairedSession (e_world (get_end c n2))
         = Some {| ps_socket := Some (both_sock n b c); ps_sessionId := cs_sessionId old;
                   ps_sessionKey := cs_sessionKey old; ps_role := cs_role old;
                   ps_epoch := Some (if decide (c = b) then e + 2 else e + 1);
                   ps_transferRole := cs_transferRole old |})
    ∧ ∀ key, length key = 32%nat →
        deriveEpochKey key (e + 2) = Ok (hkdf_sha256 key (be_bytes 4 (e + 2)) EPOCH_INFO 256)
        ∧ deriveEpochKey key (e + 1) = Ok (hkdf_sha256 key (be_bytes 4 (e + 1)) EPOCH_INFO 256)
        ∧ be_bytes 4 (e + 2) ≠ be_bytes 4 (e + 1).
Proof.
  intros Hup Hcounted. cbv zeta.
  destruct (up_resume _ _ _ _ _ _ Hup b) as (sid&r&t&s&q&Hre).
  destruct (up_resume _ _ _ _ _ _ Hup (negb b)) as (sid'&r'&t'&s'&q'&Hre').
  assert (s' = s) as -> by (destruct Hre, Hre'; congruence).
  destruct (lone_return format_time cfg location randomKey p role sock n e Hup b now en Hcounted
              sid r t s q Hre sid' r' t' q' Hre') as (c&c'&u1&v&j&Hc&Hc'&Hr1&Ju&Su&Cu&Jv&Sv&Cv).
  destruct (both_return format_time cfg location randomKey p role sock n e Hup b now en Hcounted
              sid r t s q Hre sid' r' t' q' Hre' u1 v j c c' Hc Hc' Ju Su Cu Jv Sv Cv)
    as (v'&u'&Hr2&Jv'&Sv'&Cv'&Ju'&Su'&Cu').
  eexists _, _. split; [exact Hr1|]. rewrite net_of_end, net_of_other.
  destruct (st_rest _ _ _ _ (up_settled _ _ _ _ _ _ Hup) (negb b)) as (_&_&_&_&Hi).
  pose proof (up_inbox _ _ _ _ _ _ Hup (negb b)) as Hli.
  assert (settled p role (both_sock n b)
    (net_of b (back_end (get_end b n) v') (back_end (get_end (negb b) n) u')
       (all_back p now (n_server n) (role_of role b) (pair_conn sock b) (pair_conn sock (negb b)) s q q'
          (conn_of b (length (socks (e_world (get_end b n)))))
          (conn_of (negb b) (length (socks (e_world (get_end (negb b) n)))))))) as Hset.
  { eapply (both_settled cfg p role sock n e Hup b now en Hcounted sid r t s q Hre sid' r' t' q' Hre');
      [done|by rewrite Sv'|done|by rewrite Su', Su]. }
  split_and!.
  - cbn [back_end e_world]. by rewrite Cv.
  - cbn [closed_end e_world]. change (cs (dropped _ _ u1 _ _ _)) with (cs u1). rewrite Cu. by apply Hup.
  - cbn [closed_end e_inbox]. intros k [-> | ->].
    + rewrite lookup_app_l; [done|by eapply lookup_lt_Some].
    + by rewrite lookup_app_r, Hli, Nat.sub_diag by lia.
  - exact Hr2.
  - exact Hset.
  - intros c0. destruct (st_rest _ _ _ _ Hset c0) as (k&_&[Hscr _ Ha _ _]&_).
    unfold getPairedSession. rewrite Hscr, Ha, bool_decide_true by done.
    clear -Cv' Cu'. revert c0.
    refine (bool_cases _ b _ _); rewrite ?net_of_end, ?net_of_other; cbn [back_end e_world].
    + by rewrite Cv', decide_True.
    + rewrite Cu', decide_False; [done|by destruct b].
  - intros key Hk. rewrite !deriveEpochKey_ok by done. split_and!; [done..|].
    replace (e + 2) with (e + 1 + 1) by lia. apply next_salt.
Qed.

End Disagree.
