(* ===== verification/LateAnswer.v ===== *)
(** * An answer after the timer

    The refinement of SwapNet holds while an answer to a swap request arrives
    before the timer of the request. What a late acceptance does: the pages are
    in the same role, and no swap through the relay makes them differ again. *)

From stdpp Require Import base list list_numbers gmap sets strings.
From Stdlib Require Import ZArith Lia.
From S2P Require Import Prelude JsText Hex Json Utf8 Crypto WsClient PairingText PageState.
From S2P Require Import Pairing Session RoleSwap Hub HubFacts HubLimits HubPair Messages Network.
From S2P Require Import SwapNet ReconnectNet.
Open Scope Z_scope.

(** ** The specification from equal roles *)

(** The left side with the other role: the specification only flips roles, so it
    does the same with it. *)
Definition flipped (p : Spec.side * Spec.side) : Spec.side * Spec.side :=
  ({| Spec.role := Spec.flip (Spec.role p.1); Spec.awaiting := Spec.awaiting p.1;
      Spec.out := Spec.out p.1 |}, p.2).

Lemma flipped_step p q : Spec.step p q → Spec.step (flipped p) (flipped q).
Proof.
  intros [? ? [l r Ha|l r m o busy Ho]|[l1 l2] [r1 r2] Hs].
  - apply Spec.step_left. unfold flipped. cbn [fst snd Spec.ask Spec.role Spec.awaiting Spec.out].
    set (l' := {| Spec.role := Spec.flip (Spec.role l); Spec.awaiting := Spec.awaiting l; Spec.out := Spec.out l |}).
    exact (Spec.left_ask l' r Ha).
  - apply Spec.step_left. unfold flipped. cbn [fst snd].
    set (l' := {| Spec.role := Spec.flip (Spec.role l); Spec.awaiting := Spec.awaiting l; Spec.out := Spec.out l |}).
    replace {| Spec.role := Spec.flip (Spec.role (Spec.receive l m busy));
               Spec.awaiting := Spec.awaiting (Spec.receive l m busy);
               Spec.out := Spec.out (Spec.receive l m busy) |} with (Spec.receive l' m busy).
    { by eapply Spec.left_receive. }
    unfold l'. destruct m as [|[|]]; simpl; destruct (Spec.awaiting l) eqn:Ea; simpl; rewrite ?Ea; try done.
    all: by destruct busy.
  - apply Spec.step_right. cbn in *. inversion Hs; subst; unfold Spec.swap, flipped; simpl.
    + by apply Spec.left_ask.
    + by eapply Spec.left_receive.
Qed.

Lemma flipped_steps p q : rtc Spec.step p q → rtc Spec.step (flipped p) (flipped q).
Proof. induction 1; [done|]. eapply rtc_l; [by apply flipped_step|done]. Qed.

(** Equal roles stay equal, whatever is asked and answered. *)
Lemma equal_roles_stay p q :
  Spec.role p.1 = Spec.role p.2 → Spec.awaiting p.1 = false → Spec.awaiting p.2 = false →
  Spec.out p.1 = [] → Spec.out p.2 = [] → rtc Spec.step p q →
  Spec.out q.1 = [] → Spec.out q.2 = [] → Spec.role q.1 = Spec.role q.2.
Proof.
  intros Hr H1 H2 H3 H4 Hs H5 H6.
  assert (Spec.quiet (flipped p)) as Hq.
  { unfold Spec.quiet, flipped. cbn. split_and!; [|done..]. rewrite Hr. by destruct (Spec.role p.2). }
  pose proof (Spec.steps_inv _ _ Hq (flipped_steps _ _ Hs)) as Hi.
  destruct (Spec.inv_settled _ Hi H5 H6) as (Hne&_). cbn in Hne.
  by destruct (Spec.role q.1), (Spec.role q.2).
Qed.

(** ** The pages *)

Section Pages.
Context `{WebCrypto}.
Context (location : url) (randomKey : nat → bytes).
Abbreviation page_step := (step location randomKey).

Lemma joined_all w k n c : joined w k n → socks w !! k = Some c → joined w k (length (k_sent c)).
Proof.
  intros [H1 H2 H3 H4 (c'&l&Hk&Ho&Hl&Hp&_)] Hc. rewrite Hc in Hk. injection Hk as <-.
  split; [done..|]. exists c, l. split_and!; [done..|]. by rewrite drop_all.
Qed.

(** The page asks. *)
Lemma page_asks w k n c :
  joined w k n → socks w !! k = Some c → transferActive w = false →
  swapAwaitingResponse (vars w) = false →
  ∃ v, page_step w (Click "swapRolesButton" []) = Some v
    ∧ joined v k n ∧ socks v = <[k := pushed c role_swap_request]> (socks w) ∧ cs v = cs w
    ∧ swapAwaitingResponse (vars v) = true ∧ timers v = timers w ++ [TSwap].
Proof.
  intros Hj Hc Hb Hw.
  assert (k_state c = Open) as Ho by (destruct (jn_socket _ _ _ Hj) as (?&?&?&?&_); congruence).
  set (w1 := showSwapStatus (set_vars w (λ p, with_swapDisabled (with_swapAwaitingResponse p true) true))
               (Some "swapRequesting"%string)).
  assert (joined w1 k n) as Hj1 by by destruct Hj.
  pose proof (send_on_open w1 k c role_swap_request Hc Ho) as Es.
  destruct (sent_joined _ _ _ _ _ Hj1 (or_intror _ (mk_is_Some _ _ kind_request)) Es) as (Hj2&_).
  exists (add_timer (put_socks w1 (<[k := pushed c role_swap_request]> (socks w1))) TSwap).
  split; [|split_and!; [by destruct Hj2|done..]].
  unfold step, click, screen_view. rewrite (jn_screen _ _ _ Hj). 
  change (Some (requestRoleSwap w) = Some (add_timer (put_socks w1 (<[k := pushed c role_swap_request]> (socks w1))) TSwap)).
  unfold requestRoleSwap. rewrite Hb, Hw. fold w1. cbv zeta. rewrite (jn_active _ _ _ Hj1).
  cbn [mbind option_bind]. by rewrite Es.
Qed.

(** The page gives the answer up. *)
Lemma page_gives_up w k n i :
  joined w k n → timers w !! i = Some TSwap → swapAwaitingResponse (vars w) = true →
  ∃ v, page_step w (TimerFires i) = Some v
    ∧ joined v k n ∧ socks v = socks w ∧ cs v = cs w ∧ swapAwaitingResponse (vars v) = false.
Proof.
  intros Hj Hi Hw. eexists. split.
  { cbn [step]. rewrite Hi. cbn [mbind option_bind]. reflexivity. }
  unfold swap_timeout. cbn [put_timers vars]. rewrite Hw. cbn [negb]. split_and!; [by destruct Hj|done..].
Qed.

(** The other page accepts. *)
Lemma page_accepts u k n c :
  joined u k n → socks u !! k = Some c → transferActive u = false →
  swapAwaitingResponse (vars u) = false →
  ∃ v, page_step u (SockMessage k role_swap_request) = Some v
    ∧ joined v k n ∧ socks v = <[k := pushed c (role_swap_response true)]> (socks u)
    ∧ cs_transferRole (cs v) = Spec.flip <$> cs_transferRole (cs u)
    ∧ swapAwaitingResponse (vars v) = false.
Proof.
  intros Hj Hc Hb Hw.
  assert (k_state c = Open) as Ho by (destruct (jn_socket _ _ _ Hj) as (?&?&?&?&_); congruence).
  eexists. split.
  { rewrite (arrives_joined _ _ _ _ _ _ Hj (or_intror _ (mk_is_Some _ _ kind_request))). reflexivity. }
  unfold role_swap_request. rewrite received_sendEnvelope by done.
  match goal with |- context [on_message _ _ _ _ _ ?m] => set (env := m) end. cbn [on_message].
  assert (∀ t, t ≠ "role_swap_request"%string → has_type env t = false) as Hno.
  { intros t Ht. apply (has_type_one env "role_swap_request"); [by vm_compute|congruence]. }
  assert (has_type env "role_swap_request" = true) as Hty by by vm_compute.
  unfold paired_message. rewrite !Hno, Hty by done. cbv iota.
  unfold swap_requested. rewrite Hb, Hw. cbn [orb negb]. cbv zeta.
  pose proof (send_on_open u k c (role_swap_response true) Hc Ho) as Es. rewrite Es.
  destruct (sent_joined _ _ _ _ _ Hj (or_intror _ (mk_is_Some _ _ (kind_response true))) Es) as (Hj2&_).
  destruct (flip_joined _ _ _ Hj2) as (Hj3&Hr&Haw&Hso). split_and!; [done|by rewrite Hso| |done].
  destruct (jn_role _ _ _ Hj3) as [r3 E3], (jn_role _ _ _ Hj) as [r E].
  rewrite E3 in Hr |- *. change (cs (put_socks u _)) with (cs u) in Hr. rewrite E in Hr |- *.
  cbn in Hr |- *. by rewrite Hr.
Qed.

(** An answer that nobody awaits. *)
Lemma page_ignores_answer w k n a :
  joined w k n → swapAwaitingResponse (vars w) = false →
  page_step w (SockMessage k (role_swap_response a)) = Some w.
Proof.
  intros Hj Hw.
  rewrite (arrives_joined _ _ _ _ _ _ Hj (or_intror _ (mk_is_Some _ _ (kind_response a)))).
  unfold role_swap_response. rewrite received_sendEnvelope by apply response_wf.
  match goal with |- context [on_message _ _ _ _ _ ?m] => set (env := m) end. cbn [on_message].
  assert (∀ t, t ≠ "role_swap_response"%string → has_type env t = false) as Hno.
  { intros t Ht. apply (has_type_one env "role_swap_response"); [by vm_compute|congruence]. }
  unfold paired_message. rewrite !Hno by done. case_match; [|done].
  unfold swap_answered. by rewrite Hw.
Qed.

End Pages.

(** ** The run *)

Section Late.
Context `{WebCrypto}.
Context (format_time : Z → jsstr) (cfg : Relay.Config).
Context (location : url) (randomKey : nat → bytes).
Context (p : nat) (role : Relay.Role) (sock : bool → nat).
Context (now : Z) (en : Relay.entropy).
Abbreviation nstep := (net_step format_time cfg location randomKey).

(** The side [b] asks, the relay passes the request on, the other side accepts,
    the relay passes the acceptance on, and the side [b] gets it; its timer, the
    [i]-th of its page, fires after the first [j] of these. *)
Definition swap_schedule (b : bool) : list (bool * net_event) :=
  [(b, Page (Click "swapRolesButton" [])); (b, Reads (sock b) now en);
   (negb b, Receives (sock (negb b))); (negb b, Reads (sock (negb b)) now en);
   (b, Receives (sock b))].

Definition late_schedule (b : bool) (i j : nat) : list (bool * net_event) :=
  take j (swap_schedule b) ++ [(b, Page (TimerFires i))] ++ drop j (swap_schedule b).

(** The relay passes a side's last message on. *)
Lemma last_passes b x sv c i d :
  pair_at p role (pair_conn sock false) (pair_conn sock true) sv →
  socks (e_world x) !! sock b = Some c → e_read x !! sock b = Some i → k_sent c !! i = Some d →
  fits d = true → (match d with DText _ => true | _ => false end) = true → passed_on d = true →
  ∃ sv', (∀ y, nstep (net_of b x y sv) (b, Reads (sock b) now en)
               = Some (net_of b (read_one x (sock b) i) (push y (sock (negb b)) d) sv'))
    ∧ pair_at p role (pair_conn sock false) (pair_conn sock true) sv'.
Proof.
  intros Hp Hc Hi Hd Hf Ht Hpass.
  destruct (relay_reads cfg p role sock sv b now d Hp Hf) as (sv'&Hs&Hp'); [by destruct d|].
  exists sv'. split; [|done]. intros y. rewrite Hpass in Hs.
  erewrite relay_message; [| exact Hc | exact Hi | exact Hd |].
  2: { rewrite bool_decide_true; [exact Hs|]. pose proof (pair_side p role sock b _ Hp) as Hp2.
       eapply ok_loops; [apply Hp2|apply Hp2]. }
  cbn [fold_left]. unfold pair_conn. by rewrite written_other.
Qed.

(** An endpoint with another page. *)
Definition page_of (x : endpoint) (w : world) (rd : list nat) (q : list (list data)) : endpoint :=
  {| e_world := w; e_ip := e_ip x; e_read := rd; e_inbox := q |}.

Lemma page_of_eta x : x = page_of x (e_world x) (e_read x) (e_inbox x).
Proof. by destruct x. Qed.

(** A page does something on its own, and opens no socket. *)
Lemma page_does b x v v' rd q y sv e :
  is_message e = false → step location randomKey v e = Some v' → length (socks v') = length (socks v) →
  nstep (net_of b (page_of x v rd q) y sv) (b, Page e) = Some (net_of b (page_of x v' rd q) y sv).
Proof.
  intros He Hs Hl. erewrite page_event by done. by rewrite with_page_same.
Qed.

(** The pages of the run: the side [x] that asks, before ([v1]) and after ([v2])
    its timer, and the side [y] that accepts. *)
Record late_pages (x y : endpoint) (k k' : nat) (c c' : conn) (v1 v2 u : world) : Prop := {
  la_x : socks (e_world x) !! k = Some c ∧ e_read x !! k = Some (length (k_sent c)) ∧ e_inbox x !! k = Some [];
  la_y : socks (e_world y) !! k' = Some c' ∧ e_read y !! k' = Some (length (k_sent c')) ∧ e_inbox y !! k' = Some [];
  la_ask : step location randomKey (e_world x) (Click "swapRolesButton" []) = Some v1;
  la_asked v : v = v1 ∨ v = v2 → socks v = <[k := pushed c role_swap_request]> (socks (e_world x));
  la_timer : step location randomKey v1 (TimerFires (length (timers (e_world x)))) = Some v2;
  la_accept : step location randomKey (e_world y) (SockMessage k' role_swap_request) = Some u;
  la_accepted : socks u = <[k' := pushed c' (role_swap_response true)]> (socks (e_world y));
  la_late : step location randomKey v2 (SockMessage k (role_swap_response true)) = Some v2;
  la_joined : joined v2 k (length (k_sent c)) ∧ joined u k' (length (k_sent c'))
}.

Section Run.
Context (b : bool) (x y : endpoint) (c c' : conn) (v1 v2 u : world).
Context (Hl : late_pages x y (sock b) (sock (negb b)) c c' v1 v2 u).
Local Abbreviation k := (sock b).
Local Abbreviation k' := (sock (negb b)).
Local Abbreviation rd := (<[k := S (length (k_sent c))]> (e_read x)).
Local Abbreviation rd' := (<[k' := S (length (k_sent c'))]> (e_read y)).
Local Abbreviation answer := (role_swap_response true).

(** The network at the end. *)
Definition split_net (sv : Relay.server) : net :=
  net_of b (page_of x v2 rd (e_inbox x)) (page_of y u rd' (e_inbox y)) sv.

Lemma asks sv :
  nstep (net_of b x y sv) (b, Page (Click "swapRolesButton" []))
  = Some (net_of b (page_of x v1 (e_read x) (e_inbox x)) y sv).
Proof.
  rewrite (page_of_eta x) at 1. apply page_does; [done|apply Hl|].
  by rewrite (la_asked _ _ _ _ _ _ _ _ _ Hl v1 (or_introl eq_refl)), length_insert.
Qed.

Lemma gives_up r q y' sv :
  nstep (net_of b (page_of x v1 r q) y' sv) (b, Page (TimerFires (length (timers (e_world x)))))
  = Some (net_of b (page_of x v2 r q) y' sv).
Proof.
  apply page_does; [done|apply Hl|].
  by rewrite (la_asked _ _ _ _ _ _ _ _ _ Hl v1 (or_introl eq_refl)),
    (la_asked _ _ _ _ _ _ _ _ _ Hl v2 (or_intror eq_refl)).
Qed.

Lemma request_passes v sv :
  v = v1 ∨ v = v2 → pair_at p role (pair_conn sock false) (pair_conn sock true) sv →
  ∃ sv', nstep (net_of b (page_of x v (e_read x) (e_inbox x)) y sv) (b, Reads k now en)
         = Some (net_of b (page_of x v rd (e_inbox x)) (push y k' role_swap_request) sv')
    ∧ pair_at p role (pair_conn sock false) (pair_conn sock true) sv'.
Proof.
  intros Hv Hp. destruct (la_x _ _ _ _ _ _ _ _ _ Hl) as (Hc&Hr&_).
  destruct (last_passes b (page_of x v (e_read x) (e_inbox x)) sv (pushed c role_swap_request)
           (length (k_sent c)) role_swap_request Hp) as (sv'&Hs&Hp');
    [|done|simpl; by apply list_lookup_middle|by apply fits_request|done..|by exists sv'].
  cbn [page_of e_world]. rewrite (la_asked _ _ _ _ _ _ _ _ _ Hl v Hv).
  apply list_lookup_insert_eq. by eapply lookup_lt_Some.
Qed.

Lemma accepts x' sv :
  nstep (net_of b x' (push y k' role_swap_request) sv) (negb b, Receives k')
  = Some (net_of b x' (page_of y u (e_read y) (e_inbox y)) sv).
Proof.
  apply other_takes; [apply Hl| |apply Hl].
  by rewrite (la_accepted _ _ _ _ _ _ _ _ _ Hl), length_insert.
Qed.

Lemma answer_passes sv :
  pair_at p role (pair_conn sock false) (pair_conn sock true) sv →
  ∃ sv', (∀ x', nstep (net_of b x' (page_of y u (e_read y) (e_inbox y)) sv) (negb b, Reads k' now en)
                = Some (net_of b (push x' k answer) (page_of y u rd' (e_inbox y)) sv'))
    ∧ pair_at p role (pair_conn sock false) (pair_conn sock true) sv'.
Proof.
  intros Hp. destruct (la_y _ _ _ _ _ _ _ _ _ Hl) as (Hc&Hr&_).
  destruct (last_passes (negb b) (page_of y u (e_read y) (e_inbox y)) sv (pushed c' answer)
              (length (k_sent c')) answer Hp) as (sv'&Hs&Hp');
    [|done|simpl; by apply list_lookup_middle|by apply fits_response|done..|].
  { cbn [page_of e_world]. rewrite (la_accepted _ _ _ _ _ _ _ _ _ Hl).
    apply list_lookup_insert_eq. by eapply lookup_lt_Some. }
  exists sv'. split; [|done]. intros x'. specialize (Hs x'). by rewrite !net_of_swap, negb_involutive in Hs.
Qed.

Lemma answer_lost y' sv :
  nstep (net_of b (push (page_of x v2 rd (e_inbox x)) k answer) y' sv) (b, Receives k)
  = Some (net_of b (page_of x v2 rd (e_inbox x)) y' sv).
Proof.
  rewrite <- !(net_of_swap b). pose proof (other_takes format_time cfg location randomKey (negb b) y'
    (page_of x v2 rd (e_inbox x)) sv k answer v2) as Ht. rewrite negb_involutive in Ht.
  apply Ht; [apply Hl|done|apply Hl].
Qed.

(** Whenever the timer fires, the network ends the same way. *)
Lemma late_run j sv :
  (1 ≤ j ≤ 4)%nat → pair_at p role (pair_conn sock false) (pair_conn sock true) sv →
  ∃ sv', run nstep (late_schedule b (length (timers (e_world x))) j) (net_of b x y sv) = Some (split_net sv')
    ∧ pair_at p role (pair_conn sock false) (pair_conn sock true) sv'.
Proof.
  intros Hj Hp.
  pose proof asks as Ha. pose proof gives_up as Hg. pose proof accepts as Ht. pose proof answer_lost as Hlost.
  assert (j = 1 ∨ j = 2 ∨ j = 3 ∨ j = 4)%nat as Hcases by lia.
  destruct (decide (j = 1%nat)) as [->|Hne].
  - destruct (request_passes v2 sv (or_intror eq_refl) Hp) as (s1&R1&Hp1).
    destruct (answer_passes s1 Hp1) as (s2&A&Hp2). exists s2. split; [|done].
    repeat (eapply run_cons; [first [apply Ha|apply Hg|apply R1|apply Ht|apply A|apply Hlost]|]). done.
  - destruct (request_passes v1 sv (or_introl eq_refl) Hp) as (s1&R1&Hp1).
    destruct (answer_passes s1 Hp1) as (s2&A&Hp2). exists s2. split; [|done].
    destruct Hcases as [?|[->|[->| ->]]]; [done|..];
      repeat (eapply run_cons; [first [apply Ha|apply Hg|apply R1|apply Ht|apply A|apply Hlost]|]); done.
Qed.

Lemma late_settled sv :
  pair_at p role (pair_conn sock false) (pair_conn sock true) sv →
  settled p role sock (split_net sv).
Proof.
  intros Hp. split; [done|]. destruct (la_x _ _ _ _ _ _ _ _ _ Hl) as (Hc&Hr&Hq).
  destruct (la_y _ _ _ _ _ _ _ _ _ Hl) as (Hc'&Hr'&Hq'). destruct (la_joined _ _ _ _ _ _ _ _ _ Hl) as [J1 J2].
  refine (bool_cases _ b _ _); unfold at_rest, split_net; rewrite ?net_of_end, ?net_of_other; cbn [page_of e_world e_read e_inbox].
  - exists (pushed c role_swap_request).
    assert (socks v2 !! k = Some (pushed c role_swap_request)) as Hs.
    { rewrite (la_asked _ _ _ _ _ _ _ _ _ Hl v2 (or_intror eq_refl)). apply list_lookup_insert_eq. by eapply lookup_lt_Some. }
    split_and!; [done|by eapply joined_all| |done]. cbn [pushed k_sent]. rewrite length_app, Nat.add_1_r.
    apply list_lookup_insert_eq. by eapply lookup_lt_Some.
  - exists (pushed c' answer).
    assert (socks u !! k' = Some (pushed c' answer)) as Hs.
    { rewrite (la_accepted _ _ _ _ _ _ _ _ _ Hl). apply list_lookup_insert_eq. by eapply lookup_lt_Some. }
    split_and!; [done|by eapply joined_all| |done]. cbn [pushed k_sent]. rewrite length_app, Nat.add_1_r.
    apply list_lookup_insert_eq. by eapply lookup_lt_Some.
Qed.

(** Both pages have the role the page that asked had. *)
Lemma late_roles n sv :
  x = get_end b n → y = get_end (negb b) n → settled p role sock n →
  cs_transferRole (cs (e_world (n_left n))) ≠ cs_transferRole (cs (e_world (n_right n))) →
  cs v2 = cs (e_world x) → cs_transferRole (cs u) = Spec.flip <$> cs_transferRole (cs (e_world y)) →
  swapAwaitingResponse (vars v2) = false → swapAwaitingResponse (vars u) = false →
  (∀ a, cs_transferRole (cs (e_world (get_end a (split_net sv)))) = cs_transferRole (cs (e_world x)))
  ∧ ∀ a, swapAwaitingResponse (vars (e_world (get_end a (split_net sv)))) = false.
Proof.
  intros Ex Ey Hset Hne C2 R3 W2 W3.
  split; refine (bool_cases _ b _ _); unfold split_net;
    rewrite ?net_of_end, ?net_of_other; cbn [page_of e_world]; [by rewrite C2| |done..].
  rewrite R3, Ex, Ey. clear -Hset Hne.
  destruct (st_rest _ _ _ _ Hset false) as (_&_&[_ [r1 E1] _ _ _]&_).
  destruct (st_rest _ _ _ _ Hset true) as (_&_&[_ [r2 E2] _ _ _]&_).
  destruct b; cbn in *; rewrite E1, E2 in *; by destruct r1, r2.
Qed.

End Run.

(** The pages of a settled pair at rest make such a run. *)
Lemma late_pages_exist n b :
  settled p role sock n →
  (∀ a, transferActive (e_world (get_end a n)) = false
        ∧ swapAwaitingResponse (vars (e_world (get_end a n))) = false) →
  ∃ c c' v1 v2 u,
    late_pages (get_end b n) (get_end (negb b) n) (sock b) (sock (negb b)) c c' v1 v2 u
    ∧ cs v2 = cs (e_world (get_end b n))
    ∧ cs_transferRole (cs u) = Spec.flip <$> cs_transferRole (cs (e_world (get_end (negb b) n)))
    ∧ swapAwaitingResponse (vars v2) = false ∧ swapAwaitingResponse (vars u) = false.
Proof.
  intros [_ Hrest] Hfree. destruct (Hfree b) as [Hb Hw], (Hfree (negb b)) as [Hb' Hw'].
  destruct (Hrest b) as (c&Hc&Hj&Hi&Hq), (Hrest (negb b)) as (c'&Hc'&Hj'&Hi'&Hq').
  destruct (page_asks location randomKey _ _ _ _ Hj Hc Hb Hw) as (v1&Hv1&J1&S1&C1&W1&T1).
  destruct (page_gives_up location randomKey v1 (sock b) (length (k_sent c))
              (length (timers (e_world (get_end b n)))) J1) as (v2&Hv2&J2&S2&C2&W2);
    [by rewrite T1, list_lookup_middle|done|].
  destruct (page_accepts location randomKey _ _ _ _ Hj' Hc' Hb' Hw') as (u&Hu&J3&S3&R3&W3).
  exists c, c', v1, v2, u. split_and!; [|congruence|done..].
  split; try done.
  - intros v [-> | ->]; [done|by rewrite S2].
  - by eapply page_ignores_answer.
Qed.

(** Two settled pages in the same role, whatever they do then. *)
Lemma split_stays n es n' :
  settled p role sock n →
  cs_transferRole (cs (e_world (n_left n))) = cs_transferRole (cs (e_world (n_right n))) →
  (∀ a, swapAwaitingResponse (vars (e_world (get_end a n))) = false) →
  run (swap_step format_time cfg location randomKey p sock) es n = Some n' →
  (∀ a, omap kind (pending sock n' a) = []) →
  cs_transferRole (cs (e_world (n_left n'))) = cs_transferRole (cs (e_world (n_right n'))).
Proof.
  intros Hset Hr Hw Hrun Hno. pose proof (settled_silent _ _ _ _ Hset) as Hs.
  apply settled_matches in Hset as Hm.
  destruct (swap_run_simulated _ _ _ _ _ _ _ _ _ _ _ Hm Hrun) as (pes&[l r]&Hpr&Hm').
  destruct (run_follows _ _ _ _ _ _ _ (proj1 (mt_side _ _ _ _ _ Hm false))
              (proj1 (mt_side _ _ _ _ _ Hm true)) Hpr) as (_&_&Hsteps).
  change (rtc Spec.step (abs (rest_peer sock n false, rest_peer sock n true).1,
                         abs (rest_peer sock n false, rest_peer sock n true).2) (abs (l, r).1, abs (l, r).2))
    in Hsteps.
  rewrite <- (matches_sides _ _ _ _ _ Hm), <- (matches_sides _ _ _ _ _ Hm') in Hsteps.
  apply equal_roles_stay in Hsteps; [| |exact (Hw false)|exact (Hw true)| | |exact (Hno false)|exact (Hno true)].
  2: { unfold page_sides, page_side. cbn. by rewrite Hr. }
  2,3: cbn; by rewrite Hs.
  destruct (mt_side _ _ _ _ _ Hm' false) as ([_ [r1 E1] _ _ _]&Ew&_).
  destruct (mt_side _ _ _ _ _ Hm' true) as ([_ [r2 E2] _ _ _]&Ew'&_).
  rewrite Ew in E1. rewrite Ew' in E2. unfold page_sides, page_side in Hsteps.
  cbn in Hsteps, E1, E2. rewrite E1, E2 in *. cbn in Hsteps. by f_equal.
Qed.

(** C37: An acceptance that arrives after the timer of its request splits a pair
    for good. From any two pages paired through the relay with opposite roles
    and nothing on the way, where no transfer runs: one asks for a swap, the
    relay passes the request and the acceptance on, and the timer of the request
    fires at any point before the acceptance arrives. Then the page that
    accepted has flipped its role and the page that asked ignores the answer:
    both are settled again, nobody awaits anything, and both have the role the
    page that asked had. Whatever the two do then between connections - more
    swaps, answered in time, and transfers, in any interleaving -, whenever no
    swap message is on the way their roles are equal again. *)
Theorem late_answer_splits_roles n b j :
  settled p role sock n →
  cs_transferRole (cs (e_world (n_left n))) ≠ cs_transferRole (cs (e_world (n_right n))) →
  (∀ a, transferActive (e_world (get_end a n)) = false
        ∧ swapAwaitingResponse (vars (e_world (get_end a n))) = false) →
  (1 ≤ j ≤ 4)%nat →
  ∃ n', run nstep (late_schedule b (length (timers (e_world (get_end b n)))) j) n = Some n'
    ∧ settled p role sock n'
    ∧ (∀ a, cs_transferRole (cs (e_world (get_end a n'))) = cs_transferRole (cs (e_world (get_end b n)))
            ∧ swapAwaitingResponse (vars (e_world (get_end a n'))) = false)
    ∧ ∀ es n'', run (swap_step format_time cfg location randomKey p sock) es n' = Some n'' →
        (∀ a, omap kind (pending sock n'' a) = []) →
        cs_transferRole (cs (e_world (n_left n''))) = cs_transferRole (cs (e_world (n_right n''))).
Proof.
  intros Hset Hne Hfree Hj.
  destruct (late_pages_exist n b Hset Hfree) as (c&c'&v1&v2&u&Hl&C2&R3&W2&W3).
  destruct (late_run b _ _ c c' v1 v2 u Hl j (n_server n) Hj (st_pair _ _ _ _ Hset)) as (sv'&Hrun&Hp').
  rewrite <- net_of_eta in Hrun.
  pose proof (late_settled b _ _ c c' v1 v2 u Hl sv' Hp') as Hset'.
  destruct (late_roles b _ _ c c' v2 u n sv' eq_refl eq_refl Hset Hne C2 R3 W2 W3) as [Hroles Hawait].
  eexists. split; [exact Hrun|]. split; [done|]. split; [by split|].
  intros es n'' Hr Hno. eapply split_stays; [exact Hset'| |done|exact Hr|done].
  pose proof (Hroles false) as H1. pose proof (Hroles true) as H2. cbn [get_end] in H1, H2. congruence.
Qed.

End Late.
