(* ===== verification/PairNet.v ===== *)
(** * Pairing through the relay

    The pages of the host and of the guest from their first screens to the
    paired screen, over the relay of Hub, for every session id and key: the
    host's link gives the guest the session and the key, the relay joins the two
    connections, and both pages end with one key and opposite roles. *)

From stdpp Require Import base list list_numbers gmap sets strings.
From Stdlib Require Import ZArith Lia.
From S2P Require Import Prelude JsText Hex Base64url Json Utf8 Crypto WsClient PairingText PageState.
From S2P Require Import Pairing Session RoleSwap Hub HubFacts HubLimits HubPair HubLeak Messages.
From S2P Require Import Network SwapNet ReconnectNet.
Open Scope Z_scope.

(** A page whose first socket is its only one. *)
Definition page_world (c : cstate) (s : option nat) (k : option conn) (h : option handle)
    (ps : list promise) : world :=
  {| vars := {| currentState := c; activeSocket := s; activeStopScan := None;
                activeTransferHandle := (λ _, O) <$> h; swapAwaitingResponse := false;
                pendingSendFiles := None; reconnectStatus := None; swapStatus := None;
                swapDisabled := false |};
     socks := option_list k; handles := option_list h; scans := []; promises := ps; timers := [] |}.

Definition new_conn (st : ready_state) (ls : list listener) (ms : list data) : option conn :=
  Some {| k_state := st; k_listeners := ls; k_sent := ms |}.

(** *** Paired pages

    What the two pages are once they have a session and its key, however they got
    them: [l] is the listener the flow left on the socket, [ms] what the page had
    sent. *)
Section Keyed.
Context `{WebCryptoLaws}.
Context (key : bytes) (sid : jsstr) (Hlen : length key = 32%nat).

(** The reconnect token of the session. *)
Definition token : bytes :=
  match deriveReconnectToken key sid with Ok t => t | Throw _ => [] end.

Lemma token_derives :
  deriveReconnectToken key sid = Ok token ∧ bytes_ok token ∧ length token = 32%nat.
Proof.
  assert (∃ m, deriveReconnectToken key sid = Ok (hmac_sha256 key m)) as [m Hm].
  { unfold deriveReconnectToken. rewrite assertLength_ok by (by rewrite Hlen).
    cbn [mbind result_bind]. cbv zeta.
    rewrite ta_set_ok by (rewrite length_zeros; lia). cbn [mbind result_bind].
    rewrite ta_set_ok; [by eexists|].
    rewrite !length_app, length_take, length_drop, length_zeros. lia. }
  unfold token. rewrite Hm. split_and!; [done|apply hmac_ok|apply hmac_length].
Qed.

Lemma epoch_derives e : ∃ k, deriveEpochKey key e = Ok k.
Proof. eexists. by apply deriveEpochKey_ok. Qed.

Definition screen_handle (r : transfer_role) : handle :=
  {| h_socket := Some O; h_epoch := Some 0; h_role := Some r; h_detached := false;
     h_active := false; h_files := [] |}.

Definition role_at_start (r : role) : transfer_role :=
  match r with Host => ReceiverRole | Guest => SenderRole end.

(** A paired page: whether it has derived its token and its transfer screen. *)
Definition paired_page (tok ren : bool) (r : role) (l : listener) (ms : list data) : world :=
  let c := paired_screen (Some sid) (Some key) r in
  page_world (if tok then set_token c token else c) (Some O)
    (new_conn Open [l; LPaired] (ms ++ if tok then [token_message token] else []))
    (if ren then Some (screen_handle (role_at_start r)) else None)
    ((if tok then [] else [PToken O token])
     ++ (if ren then [] else [PRender (Some O) (Some 0) (Some (role_at_start r))])).

(** Both pages finish alike. *)
Lemma finalize_paired c l r ms :
  finalizePaired (page_world c (Some O) (new_conn Open [l] ms) None []) 0 (Some sid) (Some key) r
  = paired_page false false r l ms.
Proof.
  unfold finalizePaired. destruct token_derives as [Ht _]. change (default [] (Some sid)) with sid. rewrite Ht.
  unfold render, renderPaired, renderTransferUI, getPairedSession, transfer_key, cs. cbn.
  rewrite bool_decide_true by done. cbn.
  destruct (epoch_derives 0) as [k Hk]. cbn in Hk. rewrite Hk.
  unfold paired_page. cbn [app]. rewrite app_nil_r. destruct r; reflexivity.
Qed.

Lemma page_token location randomKey ren r l ms x :
  step location randomKey (paired_page false ren r l ms) (PromiseSettles 0 x)
  = Some (paired_page true ren r l ms).
Proof. unfold paired_page. cbn [app]. rewrite app_nil_r. by destruct ren. Qed.

Lemma page_ready location randomKey tok r l ms x :
  step location randomKey (paired_page tok false r l ms) (PromiseSettles (if tok then 0 else 1) x)
  = Some (paired_page tok true r l ms).
Proof. unfold paired_page. by destruct tok. Qed.

End Keyed.

Abbreviation ready key sid := (paired_page key sid true true).

Section Pages.
Context `{WebCryptoLaws}.
Context (location : url) (randomKey : nat → bytes).
Context (sid : jsstr) (Hsid : Forall url_char sid) (Hne : sid ≠ []).
Context (Hkey : bytes_ok (randomKey 0)) (Hlen : length (randomKey 0) = 32%nat).
Abbreviation key := (randomKey 0).
Abbreviation page_step := (step location randomKey).

Lemma sid_unit : Forall unit_ok sid.
Proof. clear -Hsid. eapply Forall_impl; [exact Hsid|]. intros c. unfold url_char, unit_ok. lia. Qed.

(** *** The host's page *)

Definition host_link : jsstr := buildPairingURL location sid key.

Definition created : data := go_envelope "session_created" (Some (JObj [(js "sessionId", JStr sid)])).
Definition paired : data := go_envelope "paired" (Some (JObj [(js "sessionId", JStr sid)])).

Definition host_generating (st : ready_state) (ms : list data) : world :=
  page_world (at_screen ReceiverGenerating) (Some O) (new_conn st [LReceiverFlow] ms) None [].

Definition host_waiting : world :=
  page_world (session_screen ReceiverWaiting (Some sid) (Some key) (Some host_link)) (Some O)
    (new_conn Open [LReceiverFlow] [create_message]) None [].

Lemma host_starts :
  page_step (start true []) (Click "startReceive" []) = Some (host_generating Connecting []).
Proof. reflexivity. Qed.

Lemma host_opens :
  page_step (host_generating Connecting []) (SockOpen 0) = Some (host_generating Open [create_message]).
Proof. reflexivity. Qed.

Lemma created_wf : json_wf (JObj [(js "sessionId", JStr sid)]).
Proof. apply single_wf. apply sid_unit. Qed.

Lemma host_creates : page_step (host_generating Open [create_message]) (SockMessage 0 created) = Some host_waiting.
Proof.
  unfold step. cbn [socks host_generating page_world new_conn option_list]. cbn [lookup list_lookup].
  unfold created. rewrite received_go_envelope by apply created_wf. reflexivity.
Qed.

Lemma host_told :
  page_step host_waiting (SockMessage 0 paired)
  = Some (paired_page key sid false false Host LReceiverFlow [create_message]).
Proof.
  unfold step, host_waiting. cbn [socks page_world new_conn option_list]. cbn [lookup list_lookup].
  unfold paired. rewrite received_go_envelope by apply created_wf. cbn [mbind option_bind k_state].
  rewrite <- (finalize_paired _ _ Hlen (session_screen ReceiverWaiting (Some sid) (Some key) (Some host_link))).
  reflexivity.
Qed.

(** *** The guest's page *)

(** The fragment of the link, as the address bar of the guest's page has it. *)
Definition link_hash : jsstr := js "#" ++ fragment sid (Base64url.encode key).

Lemma link_parsed : parsePairingText link_hash = Some (sid, key).
Proof.
  apply parse_fragment; [done..|]. right. exists []. split; [|set_solver].
  rewrite trim_none; [done|]. constructor; [done|].
  eapply Forall_impl; [apply fragment_chars; [done|by apply encode_chars]|apply frag_not_space].
Qed.

Lemma host_link_hash : host_link = u_base location ++ link_hash.
Proof. unfold host_link. by rewrite buildPairingURL_eq. Qed.

Definition guest_detected : world :=
  page_world (session_screen JoinDetected (Some sid) (Some key) None) None None None [].

Definition guest_joining (st : ready_state) (ms : list data) : world :=
  page_world (session_screen Joining (Some sid) (Some key) None) (Some O)
    (new_conn st [LJoin sid key] ms) None [].

Lemma guest_loads : start true link_hash = guest_detected.
Proof.
  unfold start, initPairing. cbn [negb].
  assert (1 <? Z.of_nat (length link_hash) = true) as ->.
  { apply Z.ltb_lt. unfold link_hash, fragment. rewrite !length_app. simpl. lia. }
  by rewrite link_parsed.
Qed.

Lemma guest_joins :
  page_step guest_detected (Click "joinDetectedButton" []) = Some (guest_joining Connecting []).
Proof. reflexivity. Qed.

Lemma guest_opens :
  page_step (guest_joining Connecting []) (SockOpen 0) = Some (guest_joining Open [join_message sid]).
Proof. reflexivity. Qed.

Lemma guest_paired :
  page_step (guest_joining Open [join_message sid]) (SockMessage 0 paired)
  = Some (paired_page key sid false false Guest (LJoin sid key) [join_message sid]).
Proof.
  unfold step, guest_joining. cbn [socks page_world new_conn option_list]. cbn [lookup list_lookup].
  unfold paired. rewrite received_go_envelope by apply created_wf. cbn [mbind option_bind k_state].
  rewrite <- (finalize_paired _ _ Hlen (session_screen Joining (Some sid) (Some key) None)).
  reflexivity.
Qed.

End Pages.

(** ** The relay *)

Section Relay.
Context (cfg : Relay.Config) (sid : jsstr).

(** A peer of the session, with the token the relay keeps for it. *)
Definition session_peer (c : nat) (ip : jsstr) (t : bytes) : Relay.peer :=
  {| Relay.p_conn := c; Relay.p_ip := ip; Relay.p_disconnectedAt := None; Relay.p_reconnectToken := t |}.

Lemma relay_creates sv now ip c en :
  c ∉ Relay.seen sv → Relay.count (Relay.hub sv) ip < Relay.MaxSessionsPerIP cfg →
  Relay.step cfg sv (Relay.First now ip c en create_message)
  = Some ({| Relay.hub := Relay.add_session (Relay.hub sv) now ip c (Relay.e_id en);
             Relay.loops := <[c := (length (Relay.store (Relay.hub sv)), Relay.RoleHost)]> (Relay.loops sv);
             Relay.seen := {[c]} ∪ Relay.seen sv |},
          [Relay.Send c (Relay.MSessionCreated (Relay.e_id en))]).
Proof.
  intros Hc Hm. unfold Relay.step. rewrite bool_decide_false by done.
  change (Relay.too_large create_message) with false. cbv iota.
  unfold Relay.serve_first. rewrite opening_create. cbn [Relay.beginSession].
  unfold Relay.CreateSession. by rewrite (proj2 (Z.leb_gt _ _)).
Qed.

Lemma relay_joins sv now ip c en p s hc :
  Forall unit_ok sid → (length sid ≤ 1000)%nat →
  c ∉ Relay.seen sv → Relay.sessions (Relay.hub sv) !! sid = Some p →
  Relay.store (Relay.hub sv) !! p = Some s → Relay.count (Relay.hub sv) ip < Relay.MaxSessionsPerIP cfg →
  Relay.connOf s Relay.RoleHost = Some hc → Relay.s_peers s Relay.RoleGuest = None →
  Relay.step cfg sv (Relay.First now ip c en (join_message sid))
  = Some ({| Relay.hub := Relay.incr (Relay.update (Relay.hub sv) p
                            (Relay.set_lastActivity (Relay.set_peer s Relay.RoleGuest (session_peer c ip [])) now)) ip;
             Relay.loops := <[c := (p, Relay.RoleGuest)]> (Relay.loops sv);
             Relay.seen := {[c]} ∪ Relay.seen sv |},
          [Relay.Send hc (Relay.MPaired (Relay.s_ID s)); Relay.Send c (Relay.MPaired (Relay.s_ID s))]).
Proof.
  intros Hu Hl Hc Hp Hs Hm Hh Hg. unfold Relay.step.
  assert (Relay.too_large (join_message sid) = false) as ->.
  { unfold join_message, sendEnvelope. apply text_size. pose proof (length_quote sid).
    part_lengths. unfold Relay.maxMessageSize. lia. }
  rewrite bool_decide_false by done. cbv iota. unfold Relay.serve_first. rewrite opening_join by done.
  cbn [Relay.beginSession]. unfold Relay.JoinSession, Relay.attachGuest.
  rewrite Hp, (proj2 (Z.leb_gt _ _)), Hs, Hh by done. unfold Relay.attach. by rewrite Hg.
Qed.

(** A token is kept, and nothing is written. *)
Definition token_kept (sv : Relay.server) (p : nat) (r : Relay.Role) (t : bytes) : Relay.server :=
  {| Relay.hub := Relay.RegisterReconnectToken (Relay.hub sv) p r t;
     Relay.loops := Relay.loops sv; Relay.seen := Relay.seen sv |}.

Lemma relay_keeps_token sv now c p r t :
  bytes_ok t → length t = 32%nat → Relay.loops sv !! c = Some (p, r) →
  Relay.step cfg sv (Relay.Later now c (token_message t)) = Some (token_kept sv p r t, []).
Proof.
  intros Ht Hl Hc. unfold Relay.step. rewrite Hc. cbn [mbind option_bind].
  rewrite token_size by done. unfold Relay.serve_message. by rewrite token_input.
Qed.

End Relay.

(** ** The network *)

Definition one (w : world) (ip : jsstr) (i : nat) (q : list data) : endpoint :=
  {| e_world := w; e_ip := ip; e_read := [i]; e_inbox := [q] |}.

Section Net.
Context `{WebCryptoLaws}.
Context (format_time : Z → jsstr) (cfg : Relay.Config).
Context (location : url) (randomKey : nat → bytes).
Abbreviation nstep := (net_step format_time cfg location randomKey).
Abbreviation page_step := (step location randomKey).

Lemma page_moves n b ip w i q e w' :
  get_end b n = one w ip i q → is_message e = false → page_step w e = Some w' →
  length (socks w') = length (socks w) →
  nstep n (b, Page e) = Some (put_end b n (one w' ip i q)).
Proof.
  intros Hx He Hs Hl. rewrite put_end_eta. rewrite (net_of_eta b n) at 1. rewrite Hx.
  rewrite page_event with (w := w') by done. by rewrite with_page_same.
Qed.

(** The page's first socket. *)
Lemma page_connects n b ip w e w' :
  get_end b n = page_at ip w → is_message e = false → page_step w e = Some w' →
  length (socks w) = O → length (socks w') = 1%nat →
  nstep n (b, Page e) = Some (put_end b n (one w' ip 0 [])).
Proof.
  intros Hx He Hs Hl Hl'. rewrite put_end_eta. rewrite (net_of_eta b n) at 1. rewrite Hx.
  rewrite page_event with (w := w') by done.
  rewrite with_page_more by (cbn [e_world page_at]; by rewrite Hl, Hl'). done.
Qed.

Lemma page_gets n b ip w i d q w' :
  get_end b n = one w ip i (d :: q) → page_step w (SockMessage 0 d) = Some w' →
  length (socks w') = length (socks w) →
  nstep n (b, Receives 0) = Some (put_end b n (one w' ip i q)).
Proof.
  intros Hx Hs Hl. rewrite put_end_eta. rewrite (net_of_eta b n) at 1. rewrite Hx.
  rewrite page_message with (d := d) (q := q) (w := w') by done.
  by rewrite with_page_same.
Qed.

Lemma relay_gets n b ip w c i d q now en sv os :
  get_end b n = one w ip i q → socks w !! O = Some c → k_sent c !! i = Some d →
  Relay.step cfg (n_server n)
    (if bool_decide (conn_of b 0 ∈ Relay.seen (n_server n)) then Relay.Later now (conn_of b 0) d
     else Relay.First now ip (conn_of b 0) en d) = Some (sv, os) →
  nstep n (b, Reads 0 now en)
  = Some (fold_left (written format_time) os (put_server (put_end b n (one w ip (S i) q)) sv)).
Proof.
  intros Hx Hc Hd Hs. rewrite put_end_eta. rewrite (net_of_eta b n) at 1. rewrite Hx.
  rewrite relay_message with (c := c) (i := i) (d := d) (sv' := sv) (os := os) by done.
  by rewrite put_server_of.
Qed.

End Net.

(** ** Pages that are ready *)

Definition net_at (x y : endpoint) (s : Relay.server) : net :=
  {| n_left := x; n_right := y; n_server := s |}.

Section Ready.
Context `{WebCryptoLaws}.
Context (cfg : Relay.Config) (key : bytes) (sid : jsstr) (hip gip : jsstr) (p : nat).
Context (Hlen : length key = 32%nat) (Hsid : Forall unit_ok sid) (Hshort : (length sid ≤ 1000)%nat).
Abbreviation token := (token key sid).

(** What the relay knows of a session whose two pages are there, on their first
    sockets: [t] are the tokens it keeps. *)
Record serves (t : bool → bytes) (sv : Relay.server) : Prop := {
  sv_pair : pair_at p Relay.RoleHost 0 1 sv;
  sv_listed : Relay.sessions (Relay.hub sv) !! sid = Some p;
  sv_store : ∃ s, Relay.store (Relay.hub sv) !! p = Some s
    ∧ ∀ b : bool, Relay.s_peers s (role_of Relay.RoleHost b)
                  = Some (session_peer (conn_of b 0) (if b then gip else hip) (t b));
  sv_room ip : ip = hip ∨ ip = gip → 0 < Relay.count (Relay.hub sv) ip ≤ Relay.MaxSessionsPerIP cfg;
  sv_fresh b k : (1 ≤ k)%nat → conn_of b k ∉ Relay.seen sv
}.

Lemma ready_up lh lg mh mg sv :
  serves (λ _, token) sv → passive lh → passive lg →
  session_up cfg p Relay.RoleHost (λ _, O)
    (net_at (one (ready key sid Host lh mh) hip (S (length mh)) [])
            (one (ready key sid Guest lg mg) gip (S (length mg)) []) sv) 0.
Proof.
  intros [Hp Hse (s&Hst&Hpe) Hro Hfr] Hh Hg. set (n := net_at _ _ _).
  destruct (token_derives key sid Hlen) as (_&Hb&Ht).
  assert (∀ b, at_rest (λ _, O) n b) as Hrest.
  { assert (∀ ms : list data, length (ms ++ [token_message token]) = S (length ms)) as Hms.
    { intros ms. rewrite length_app. simpl. lia. }
    intros []; (eexists; split; [reflexivity|]); (split_and!; [|cbn; by rewrite Hms|reflexivity]);
      (split; [reflexivity|by eexists|reflexivity|by constructor|]).
    - eexists _, lg. split_and!; [reflexivity..|done|done|]. simpl. by rewrite drop_all.
    - eexists _, lh. split_and!; [reflexivity..|done|done|]. simpl. by rewrite drop_all. }
  split; [by split|by intros []| |by intros []..|].
  - intros b. eexists sid, (if b then Guest else Host), token, s, _.
    split; [by destruct b..|done|done|done|done|done|done|exact (Hpe b)|done|by destruct b|].
    destruct b; [apply (Hro gip)|apply (Hro hip)]; auto.
  - intros b k Hk. apply Hfr. by destruct b.
Qed.

End Ready.

(** ** Pairing by a link *)

(** The host's page opens a session; the guest's, which was loaded with the host's
    link, joins it; both are told, derive their tokens and their screens, and the
    relay reads the tokens. *)
Definition host_schedule (now : Z) (en : Relay.entropy) : list (bool * net_event) :=
  [(false, Page (Click "startReceive" [])); (false, Page (SockOpen 0)); (false, Reads 0 now en);
   (false, Receives 0)].

Definition guest_schedule (now : Z) (en : Relay.entropy) : list (bool * net_event) :=
  [(true, Page (Click "joinDetectedButton" [])); (true, Page (SockOpen 0)); (true, Reads 0 now en);
   (false, Receives 0); (true, Receives 0)].

Definition settle_schedule (b : bool) (now : Z) (en : Relay.entropy) : list (bool * net_event) :=
  [(b, Page (PromiseSettles 0 (Throw ErrType))); (b, Page (PromiseSettles 0 (Throw ErrType)));
   (b, Reads 0 now en)].

Lemma written_left format_time w ip i q y s m :
  written format_time (net_at (one w ip i q) y s) (Relay.Send 0 m)
  = net_at (one w ip i (q ++ [wire format_time m])) y s.
Proof. reflexivity. Qed.

Lemma written_right format_time x w ip i q s m :
  written format_time (net_at x (one w ip i q) s) (Relay.Send 1 m)
  = net_at x (one w ip i (q ++ [wire format_time m])) s.
Proof. reflexivity. Qed.

Lemma put_left x y s x' : put_end false (net_at x y s) x' = net_at x' y s.
Proof. reflexivity. Qed.

Lemma put_right x y s y' : put_end true (net_at x y s) y' = net_at x y' s.
Proof. reflexivity. Qed.

Lemma put_server_at x y s s' : put_server (net_at x y s) s' = net_at x y s'.
Proof. reflexivity. Qed.

(** The next step of a run. *)
Ltac net_tidy :=
  rewrite ?put_left, ?put_right, ?put_server_at; cbn [fold_left];
  rewrite ?written_left, ?written_right; cbn [app].
Ltac net_page H := eapply run_cons; [eapply page_moves; [reflexivity|reflexivity|exact H|reflexivity]|]; net_tidy.
Ltac net_connect H :=
  eapply run_cons; [eapply page_connects; [reflexivity|reflexivity|exact H|reflexivity..]|]; net_tidy.
Ltac net_get H := eapply run_cons; [eapply page_gets; [reflexivity|exact H|reflexivity]|]; net_tidy.
Ltac net_read sv os :=
  eapply run_cons; [eapply (relay_gets _ _ _ _ _ _ _ _ _ _ _ _ _ _ sv os); [reflexivity..|]|]; net_tidy.

Section Pairing.
Context `{WebCryptoLaws}.
Context (format_time : Z → jsstr) (cfg : Relay.Config).
Context (location : url) (randomKey : nat → bytes).
Abbreviation key := (randomKey 0).
Context (Hkey : bytes_ok key) (Hlen : length key = 32%nat).
Abbreviation nstep := (net_step format_time cfg location randomKey).

Context (sid : jsstr) (Hsid : Forall url_char sid) (Hne : sid ≠ []) (Hshort : (length sid ≤ 1000)%nat).
Abbreviation en := {| Relay.e_id := sid; Relay.e_draws := [] |}.

(** A server with room for two more connections, to which the pages are new. *)
Context (sv : Relay.server) (hip gip : jsstr) (now : Z).
Context (Hok : server_ok sv) (Hhold : loops_hold sv).
Context (Hnew : ∀ b k, conn_of b k ∉ Relay.seen sv).
Context (Hroom : ∀ ip, ip = hip ∨ ip = gip →
                   0 ≤ Relay.count (Relay.hub sv) ip < Relay.MaxSessionsPerIP cfg - 1).
Abbreviation p := (length (Relay.store (Relay.hub sv))).

Definition hosting : Relay.Session :=
  Relay.set_lastActivity (Relay.set_peer (Relay.newSession sid now) Relay.RoleHost (session_peer 0 hip [])) now.

Definition hosted_server : Relay.server :=
  {| Relay.hub := Relay.add_session (Relay.hub sv) now hip 0 sid;
     Relay.loops := <[0%nat := (p, Relay.RoleHost)]> (Relay.loops sv);
     Relay.seen := {[0%nat]} ∪ Relay.seen sv |}.

Definition joined_server : Relay.server :=
  {| Relay.hub := Relay.incr (Relay.update (Relay.hub hosted_server) p
                    (Relay.set_lastActivity
                       (Relay.set_peer hosting Relay.RoleGuest (session_peer 1 gip [])) now)) gip;
     Relay.loops := <[1%nat := (p, Relay.RoleGuest)]> (Relay.loops hosted_server);
     Relay.seen := {[1%nat]} ∪ Relay.seen hosted_server |}.

Definition pair_start : net :=
  net_at (page_at hip (start true [])) (page_at gip (start true (link_hash randomKey sid))) sv.

Lemma host_part :
  run nstep (host_schedule now en) pair_start
  = Some (net_at (one (host_waiting location randomKey sid) hip 1 [])
                 (page_at gip (start true (link_hash randomKey sid))) hosted_server).
Proof.
  unfold host_schedule, pair_start.
  net_connect (host_starts location randomKey). net_page (host_opens location randomKey).
  net_read hosted_server [Relay.Send 0 (Relay.MSessionCreated sid)].
  { cbn [n_server net_at]. change (conn_of false 0) with 0%nat.
    rewrite bool_decide_false by apply (Hnew false 0).
    apply (relay_creates cfg sv now hip 0 en); [apply (Hnew false 0)|]. pose proof (Hroom hip (or_introl eq_refl)). lia. }
  change (wire format_time (Relay.MSessionCreated sid)) with (created sid).
  net_get (host_creates location randomKey sid Hsid). done.
Qed.

Lemma hosted_count ip : ip = hip ∨ ip = gip →
  Relay.count (Relay.hub hosted_server) ip < Relay.MaxSessionsPerIP cfg.
Proof.
  intros Hip. pose proof (Hroom ip Hip). unfold hosted_server, Relay.add_session. cbn [Relay.hub].
  rewrite count_incr. case_decide; [subst|];
    change (Relay.count (Relay.with_sessions _ _)) with (Relay.count (Relay.hub sv)); lia.
Qed.

Lemma hosted_session :
  Relay.sessions (Relay.hub hosted_server) !! sid = Some p
  ∧ Relay.store (Relay.hub hosted_server) !! p = Some hosting.
Proof.
  split; [apply lookup_insert_eq|]. unfold hosted_server, Relay.add_session. simpl.
  by rewrite lookup_app_r, Nat.sub_diag by lia.
Qed.

Lemma guest_part :
  run nstep (guest_schedule now en)
    (net_at (one (host_waiting location randomKey sid) hip 1 [])
            (page_at gip (start true (link_hash randomKey sid))) hosted_server)
  = Some (net_at (one (paired_page key sid false false Host LReceiverFlow [create_message]) hip 1 [])
                 (one (paired_page key sid false false Guest (LJoin sid key) [join_message sid]) gip 1 [])
                 joined_server).
Proof.
  rewrite guest_loads by done. unfold guest_schedule. destruct hosted_session as [Hp Hs].
  net_connect (guest_joins location randomKey sid). net_page (guest_opens location randomKey sid).
  net_read joined_server [Relay.Send 0 (Relay.MPaired sid); Relay.Send 1 (Relay.MPaired sid)].
  { cbn [n_server net_at]. change (conn_of true 0) with 1%nat.
    pose proof (Hnew true 0) as Hn. rewrite bool_decide_false by set_solver.
    apply (relay_joins cfg sid hosted_server now gip 1 en p hosting 0); try done; [|set_solver|].
    - by apply sid_unit.
    - apply hosted_count. by right. }
  change (wire format_time (Relay.MPaired sid)) with (paired sid).
  net_get (host_told location randomKey sid Hsid Hlen).
  net_get (guest_paired location randomKey sid Hsid Hlen). done.
Qed.

(** A paired page's promises settle, and the relay reads its token. *)
Lemma settle_part n b ip r l msg q rl :
  get_end b n = one (paired_page key sid false false r l [msg]) ip 1 [] →
  conn_of b 0 ∈ Relay.seen (n_server n) → Relay.loops (n_server n) !! conn_of b 0 = Some (q, rl) →
  run nstep (settle_schedule b now en) n
  = Some (put_server (put_end b n (one (ready key sid r l [msg]) ip 2 []))
            (token_kept (n_server n) q rl (token key sid))).
Proof.
  intros Hn Hs Hl. destruct (token_derives key sid Hlen) as (_&Hb&Ht). unfold settle_schedule.
  eapply run_cons; [eapply page_moves; [exact Hn|reflexivity|apply page_token|reflexivity]|].
  eapply run_cons; [eapply page_moves; [apply get_put|reflexivity|apply page_ready|reflexivity]|].
  eapply run_cons.
  { eapply relay_gets with (sv := token_kept (n_server n) q rl (token key sid)) (os := []);
      [apply get_put|reflexivity..|].
    rewrite !server_put, bool_decide_true by done. by apply relay_keeps_token. }
  cbn [fold_left run]. by destruct b.
Qed.

Definition link_schedule : list (bool * net_event) :=
  host_schedule now en ++ guest_schedule now en
  ++ settle_schedule false now en ++ settle_schedule true now en.

Lemma joined_loops :
  Relay.loops joined_server !! 0%nat = Some (p, Relay.RoleHost)
  ∧ Relay.loops joined_server !! 1%nat = Some (p, Relay.RoleGuest)
  ∧ {[0%nat; 1%nat]} ⊆ Relay.seen joined_server.
Proof.
  unfold joined_server, hosted_server. simpl.
  split_and!; [by rewrite lookup_insert_ne, lookup_insert_eq|by rewrite lookup_insert_eq|set_solver].
Qed.

(** The server and the network once both tokens are kept. *)
Definition ready_server : Relay.server :=
  token_kept (token_kept joined_server p Relay.RoleHost (token key sid)) p Relay.RoleGuest
    (token key sid).

Definition ready_net : net :=
  net_at (one (ready key sid Host LReceiverFlow [create_message]) hip 2 [])
         (one (ready key sid Guest (LJoin sid key) [join_message sid]) gip 2 []) ready_server.

Lemma link_run : run nstep link_schedule pair_start = Some ready_net.
Proof.
  destruct joined_loops as (L0&L1&Hseen).
  unfold link_schedule. rewrite run_app, host_part. cbn [mbind option_bind].
  rewrite run_app, guest_part. cbn [mbind option_bind].
  rewrite run_app, (settle_part _ false hip Host LReceiverFlow create_message p Relay.RoleHost);
    [|done|apply Hseen; set_solver|exact L0].
  cbn [mbind option_bind].
  rewrite (settle_part _ true gip Guest (LJoin sid key) (join_message sid) p Relay.RoleGuest);
    [done|done|apply Hseen; set_solver|exact L1].
Qed.

(** *** What the server knows *)

Lemma joined_counts ip : ip = hip ∨ ip = gip →
  0 < Relay.count (Relay.hub joined_server) ip ≤ Relay.MaxSessionsPerIP cfg.
Proof.
  intros Hip. pose proof (Hroom ip Hip). unfold joined_server. cbn [Relay.hub]. rewrite count_incr.
  change (Relay.count (Relay.update (Relay.hub hosted_server) _ _))
    with (Relay.count (Relay.hub hosted_server)).
  unfold hosted_server, Relay.add_session. cbn [Relay.hub]. rewrite !count_incr.
  change (Relay.count (Relay.with_sessions _ _)) with (Relay.count (Relay.hub sv)).
  pose proof (Hroom hip (or_introl eq_refl)). pose proof (Hroom gip (or_intror eq_refl)).
  repeat case_decide; subst; destruct Hip; subst; try done; lia.
Qed.

Definition ready_session : Relay.Session :=
  Relay.setReconnectToken
    (Relay.setReconnectToken
       (Relay.set_lastActivity (Relay.set_peer hosting Relay.RoleGuest (session_peer 1 gip [])) now)
       Relay.RoleHost (token key sid))
    Relay.RoleGuest (token key sid).

Lemma kept_store s q r t sn :
  Relay.store (Relay.hub s) !! q = Some sn →
  Relay.store (Relay.hub (token_kept s q r t)) !! q = Some (Relay.setReconnectToken sn r t)
  ∧ Relay.sessions (Relay.hub (token_kept s q r t)) = Relay.sessions (Relay.hub s)
  ∧ Relay.count (Relay.hub (token_kept s q r t)) = Relay.count (Relay.hub s).
Proof.
  intros Hs. unfold token_kept, Relay.RegisterReconnectToken. cbn [Relay.hub]. rewrite Hs.
  split_and!; [|done..]. simpl. apply list_lookup_insert_eq. by eapply lookup_lt_Some.
Qed.

Lemma ready_hub :
  Relay.store (Relay.hub ready_server) !! p = Some ready_session
  ∧ Relay.sessions (Relay.hub ready_server) !! sid = Some p
  ∧ Relay.count (Relay.hub ready_server) = Relay.count (Relay.hub joined_server).
Proof.
  destruct hosted_session as [Hp Hs].
  assert (Relay.store (Relay.hub joined_server) !! p
          = Some (Relay.set_lastActivity (Relay.set_peer hosting Relay.RoleGuest (session_peer 1 gip [])) now)) as H1.
  { unfold joined_server. simpl. apply list_lookup_insert_eq. by eapply lookup_lt_Some. }
  destruct (kept_store _ _ Relay.RoleHost (token key sid) _ H1) as (H2&S2&C2).
  destruct (kept_store _ _ Relay.RoleGuest (token key sid) _ H2) as (H3&S3&C3).
  split_and!; [exact H3|unfold ready_server; by rewrite S3, S2|unfold ready_server; congruence].
Qed.

Lemma ready_serves : serves cfg sid hip gip p (λ _, token key sid) ready_server.
Proof.
  destruct ready_hub as (Hst&Hse&Hco), joined_loops as (L0&L1&_). split.
  - eapply (net_pair format_time cfg location randomKey p Relay.RoleHost (λ _, O) _ _ ready_net);
      [exact link_run|done|done|exact L0|exact L1].
  - done.
  - exists ready_session. split; [done|]. by intros [].
  - intros ip Hip. rewrite Hco. by apply joined_counts.
  - intros b k Hk. change (Relay.seen ready_server) with ({[1%nat]} ∪ ({[0%nat]} ∪ Relay.seen sv)).
    unfold conn_of. pose proof (Hnew b k). unfold conn_of in *. destruct b; set_solver by lia.
Qed.

(** C8: Pairing by a link works through the relay, for every session id, every
    key and wherever the pages are: the host's page opens a session and shows its
    link, whose fragment the guest's page was loaded with; the guest joins, and
    both pages end on the paired screen, settled on their connections, with
    the same session, the same session key and the same reconnect token, in
    epoch 0, the host receiving and the guest sending, each with the transfer
    screen of that epoch and role, and able to reconnect. (On a server with room
    for two more sessions at both addresses.) *)
Theorem link_pairs_pages :
  ∃ n1 n, run nstep (host_schedule now en) pair_start = Some n1
    ∧ cs (e_world (n_left n1))
      = session_screen ReceiverWaiting (Some sid) (Some key)
          (Some (u_base location ++ link_hash randomKey sid))
    ∧ run nstep link_schedule pair_start = Some n
    ∧ session_up cfg p Relay.RoleHost (λ _, O) n 0
    ∧ (∀ b, cs (e_world (get_end b n))
            = set_token (paired_screen (Some sid) (Some key) (if b then Guest else Host))
                (token key sid))
    ∧ (∀ b, getPairedSession (e_world (get_end b n))
            = Some {| ps_socket := Some O; ps_sessionId := Some sid; ps_sessionKey := Some key;
                      ps_role := Some (if b then Guest else Host); ps_epoch := Some 0;
                      ps_transferRole := Some (if b then SenderRole else ReceiverRole) |})
    ∧ (∀ b, swapAwaitingResponse (vars (e_world (get_end b n))) = false)
    ∧ (∀ b, (activeTransferHandle (vars (e_world (get_end b n)))
             ≫= λ h, handles (e_world (get_end b n)) !! h)
            = Some (screen_handle (if b then SenderRole else ReceiverRole))).
Proof.
  eexists _, ready_net. split_and!; [apply host_part| |apply link_run| |by intros []..].
  2: { apply (ready_up cfg key sid hip gip p Hlen); [by apply sid_unit|done|apply ready_serves|done|done]. }
  cbn [e_world n_left net_at one host_waiting page_world vars currentState cs].
  by rewrite host_link_hash.
Qed.

End Pairing.
