(* ===== verification/CodeNet.v ===== *)
(** * Pages that pair by a code, and their key exchange

    [code_step] is the network of Network with the key exchanges of Pake that its
    pages have started: an exchange starts with its page's promise, sends on the
    socket of that promise, takes what its listener is there for, and its outcome
    settles the promise. Then the pages' screens of pairing by a code, and what
    the relay does for two of them. *)

From stdpp Require Import base list list_numbers gmap sets strings.
From Stdlib Require Import ZArith Lia.
From S2P Require Import Prelude JsText Hex Json Utf8 Crypto WsClient PairingText PageState.
From S2P Require Import Pairing Session RoleSwap Pake Hub HubFacts HubLimits HubPair HubLeak Messages.
From S2P Require Import Network SwapNet ReconnectNet PairNet.
Open Scope Z_scope.

Definition is_exchange (x : promise) : bool := match x with PPake _ _ _ _ => true | _ => false end.

(** [pake.init]'s role. *)
Definition pake_role (r : role) : Z := match r with Host => 0 | Guest => 1 end.

(** The page's exchange: its promise, its socket, and its code and role, with the
    randomness of the page. *)
Definition the_exchange (rand : Z) (w : world) : option (nat * nat * Pake.side) :=
  match list_find (λ x, is_exchange x = true) (promises w) with
  | Some (i, PPake k code _ r) =>
      Some (i, k, {| x_code := go_string (JStr <$> code); x_role := pake_role r; x_rand := rand |})
  | _ => None
  end.

Section Exchanges.
Context `{WebCrypto, PakeLib}.
Context (format_time : Z → jsstr) (cfg : Relay.Config).
Context (location : url) (randomKey : nat → bytes) (rand : bool → Z).

(** Two pages, the relay, and the exchange of each page. *)
Record code_net := { c_net : net; c_left : Pake.peer; c_right : Pake.peer }.

Inductive code_event :=
| Net (e : net_event)
| Resumes      (* an awaited promise of the exchange settles *)
| Settles.     (* the exchange is over, and so is its promise *)

Definition get_peer (b : bool) (x : code_net) : Pake.peer := if b then c_right x else c_left x.
Definition put_peer (b : bool) (x : code_net) (p : Pake.peer) : code_net :=
  if b then {| c_net := c_net x; c_left := c_left x; c_right := p |}
  else {| c_net := c_net x; c_left := p; c_right := c_right x |}.
Definition put_net (x : code_net) (n : net) : code_net :=
  {| c_net := n; c_left := c_left x; c_right := c_right x |}.

(** The module keeps its instances for the next exchange. *)
Definition again (p : Pake.peer) : Pake.peer :=
  {| x_pc := XInit; x_wasm := x_wasm p; x_sent := [] |}.

(** The message the socket receives next. *)
Definition next_message (x : endpoint) (k : nat) : option data := e_inbox x !! k ≫= head.

(** The exchange takes a message of its socket, if its listener is there. *)
Definition overhears (b : bool) (x : code_net) (k : nat) : Pake.peer :=
  let p := get_peer b x in
  match the_exchange (rand b) (e_world (get_end b (c_net x))), next_message (get_end b (c_net x)) k with
  | Some (_, k', _), Some d => if bool_decide (k = k') then xmessage p d else p
  | _, _ => p
  end.

(** The promise of an exchange only settles with its outcome. *)
Definition settles_exchange (w : world) (e : net_event) : bool :=
  match e with
  | Page (PromiseSettles i _) => match promises w !! i with Some x => is_exchange x | None => false end
  | _ => false
  end.

(** The messages the exchange has sent in a step. *)
Definition new_messages (p p' : Pake.peer) : list data := drop (length (x_sent p)) (x_sent p').

Definition code_step (x : code_net) (e : bool * code_event) : option code_net :=
  let '(b, e) := e in
  let n := c_net x in
  let w := e_world (get_end b n) in
  match e with
  | Net e =>
      if settles_exchange w e then None
      else
        n' ← net_step format_time cfg location randomKey n (b, e);
        Some (put_net (match e with Receives k => put_peer b x (overhears b x k) | _ => x end) n')
  | Resumes =>
      '(_, k, s) ← the_exchange (rand b) w;
      p ← xresume s (get_peer b x);
      let w := fold_left (λ w d, try_send w k d) (new_messages (get_peer b x) p) w in
      Some (put_net (put_peer b x p) (put_end b n (with_page (get_end b n) w)))
  | Settles =>
      '(i, _, _) ← the_exchange (rand b) w;
      match x_pc (get_peer b x) with
      | XDone r =>
          n' ← net_step format_time cfg location randomKey n (b, Page (PromiseSettles i r));
          Some (put_net (put_peer b x (again (get_peer b x))) n')
      | _ => None
      end
  end.

(** While pairing, the users wait, and the connections hold. *)
Definition pairing_event (e : code_event) : bool :=
  match e with
  | Net (Reads _ _ _) | Net (Receives _) | Net (Page (PromiseSettles _ _)) | Resumes | Settles => true
  | _ => false
  end.

Definition exchange_message (d : data) : bool :=
  match received d with
  | Some env => has_type env "pake_msg" || has_type env "pake_confirm"
  | None => false
  end.

(** No message of the exchange arrives before its listener is attached. *)
Definition punctual (x : code_net) (e : bool * code_event) : bool :=
  let '(b, e) := e in
  match e with
  | Net (Receives k) =>
      match next_message (get_end b (c_net x)) k with
      | Some d => negb (exchange_message d) || waiting (get_peer b x)
      | None => true
      end
  | _ => true
  end.

Definition pairing_step (x : code_net) (e : bool * code_event) : option code_net :=
  if pairing_event e.2 && punctual x e then code_step x e else None.

End Exchanges.

(** ** The pages *)

Definition create_code_message : data := sendEnvelope "create_code_session" JNull.
Definition join_code_message (code : jsstr) : data :=
  sendEnvelope "join_by_code" (JObj [(js "code", JStr code)]).

Definition role_at (b : bool) : role := if b then Guest else Host.

Section Pages.
Context `{WebCryptoLaws}.
Context (location : url) (randomKey : nat → bytes).
Context (code sid : jsstr).
Context (Hcode : Forall (λ c, 48 ≤ c ≤ 57) code) (Hsix : length code = 6%nat).
Context (Hsid : Forall unit_ok sid) (Hne : sid ≠ []).
Abbreviation page_step := (step location randomKey).

Definition flow (b : bool) : listener := if b then LJoinByCode code else LReceiverCodeFlow.
Definition asks (b : bool) : data := if b then join_code_message code else create_code_message.

Definition code_roles : world := page_world (at_screen CodeRoleSelect) None None None [].
Definition guest_enters : world := page_world (at_screen CodeSenderEntry) None None None [].

(** Connecting to the relay, and asking it. *)
Definition asking (b : bool) (st : ready_state) (ms : list data) : world :=
  page_world (at_screen (if b then Joining else CodeReceiverGenerating)) (Some O)
    (new_conn st [flow b] ms) None [].

(** Waiting for the other page: the host shows the code. *)
Definition code_waiting (b : bool) : world :=
  page_world (if b then at_screen Joining else code_screen (Some code)) (Some O)
    (new_conn Open [flow b] [asks b]) None [].

(** In the exchange, with its messages so far. *)
Definition verifying (b : bool) (ms : list data) : world :=
  page_world (at_screen Verifying) (Some O) (new_conn Open [flow b] (asks b :: ms)) None
    [PPake O (Some code) (Some sid) (role_at b)].

Lemma page_chooses : page_step (start true []) (Click "remoteCodeLink" []) = Some code_roles.
Proof. reflexivity. Qed.

Lemma host_asks : page_step code_roles (Click "roleReceive" []) = Some (asking false Connecting []).
Proof. reflexivity. Qed.

Lemma guest_chooses : page_step code_roles (Click "roleSend" []) = Some guest_enters.
Proof. reflexivity. Qed.

(** The guest types the code as the host's page shows it. *)
Lemma guest_asks :
  page_step guest_enters (Click "senderPasteButton" (codeInput (formatCode code)))
  = Some (asking true Connecting []).
Proof.
  assert (submitCode (codeInput (formatCode code)) = Some code) as Hs.
  { unfold submitCode. rewrite only_digits_codeInput, only_digits_format, take_ge by (done || lia).
    by rewrite bool_decide_false by lia. }
  change (Some (join_code (codeInput (formatCode code)) guest_enters) = Some (asking true Connecting [])).
  unfold join_code. by rewrite Hs.
Qed.

Lemma page_opens b : page_step (asking b Connecting []) (SockOpen 0) = Some (asking b Open [asks b]).
Proof. by destruct b. Qed.

Definition code_created (t : jsstr) : data :=
  go_envelope "code_session_created" (Some (JObj [(js "code", JStr code); (js "expiresAt", JStr t)])).

Lemma code_unit : Forall unit_ok code.
Proof. eapply Forall_impl; [exact Hcode|]. unfold unit_ok. simpl. lia. Qed.

Lemma host_shows t :
  Forall unit_ok t →
  page_step (asking false Open [asks false]) (SockMessage 0 (code_created t)) = Some (code_waiting false).
Proof.
  intros Ht. unfold step. cbn [socks asking page_world new_conn option_list]. cbn [lookup list_lookup].
  unfold code_created. rewrite received_go_envelope; [reflexivity|].
  apply pair_wf; [done|apply code_unit|exact Ht].
Qed.

(** The guest's page waits at once. *)
Lemma guest_waits : asking true Open [asks true] = code_waiting true.
Proof. reflexivity. Qed.

Lemma page_verifies b :
  page_step (code_waiting b) (SockMessage 0 (paired sid)) = Some (verifying b []).
Proof.
  unfold step, code_waiting. cbn [socks page_world new_conn option_list]. cbn [lookup list_lookup].
  unfold paired. rewrite received_go_envelope by (by apply single_wf). cbn [mbind option_bind k_state].
  set (env := JObj _).
  assert (payload_text env "sessionId" = Some sid) as Ht.
  { change (to_text (Some (JStr sid)) = Some sid). unfold to_text. by rewrite bool_decide_false. }
  change (Some (on_message location randomKey (code_waiting b) 0 (flow b) env) = Some (verifying b [])).
  destruct b; cbn [flow on_message]; unfold joinByCode_message, receiverCodeFlow_message; rewrite Ht;
    reflexivity.
Qed.

(** The flow's listener leaves the messages of the exchange alone. *)
Lemma page_ignores b ms d t p :
  received d = Some (envelope t p) → t = "pake_msg"%string ∨ t = "pake_confirm"%string →
  page_step (verifying b ms) (SockMessage 0 d) = Some (verifying b ms).
Proof.
  intros Hd Ht. unfold step. cbn [socks verifying page_world]. rewrite Hd.
  change (Some (on_message location randomKey (verifying b ms) 0 (flow b) (envelope t p))
          = Some (verifying b ms)).
  destruct b; cbn [flow on_message]; unfold joinByCode_message, receiverCodeFlow_message;
    rewrite !has_type_envelope; destruct Ht as [-> | ->]; reflexivity.
Qed.

Lemma page_says b ms l :
  fold_left (λ w d, try_send w 0 d) l (verifying b ms) = verifying b (ms ++ l).
Proof.
  revert ms. induction l as [|d l IH]; intros ms; simpl; [by rewrite app_nil_r|].
  change (try_send (verifying b ms) 0 d) with (verifying b (ms ++ [d])). by rewrite IH, <- app_assoc.
Qed.

Lemma page_pairs b ms k :
  length k = 32%nat →
  page_step (verifying b ms) (PromiseSettles 0 (Ok k))
  = Some (paired_page k sid false false (role_at b) (flow b) (asks b :: ms)).
Proof.
  intros Hk. rewrite <- (finalize_paired k sid Hk (at_screen Verifying)). reflexivity.
Qed.

Lemma page_exchange b ms r :
  the_exchange r (verifying b ms)
  = Some (0, 0, {| x_code := code; x_role := pake_role (role_at b); x_rand := r |})%nat.
Proof. reflexivity. Qed.

End Pages.

(** ** The relay *)

Section Relay.
Context (cfg : Relay.Config) (sid code : jsstr).

Lemma opening_create_code : Relay.opening_of create_code_message = Some Relay.OCreateCodeSession.
Proof. unfold Relay.opening_of, create_code_message. by rewrite parseEnvelope_sendEnvelope. Qed.

Lemma opening_join_code :
  Forall unit_ok code → Relay.opening_of (join_code_message code) = Some (Relay.OJoinByCode code).
Proof.
  intros. unfold Relay.opening_of, join_code_message.
  by rewrite parseEnvelope_sendEnvelope by (by apply single_wf).
Qed.

(** The server once it has opened a session with a code. *)
Definition code_hosted (sv : Relay.server) (now : Z) (ip : jsstr) (c : nat) : Relay.server :=
  let h := Relay.add_session (Relay.hub sv) now ip c sid in
  {| Relay.hub := Relay.with_codes h
       (<[code := {| Relay.ce_session := sid; Relay.ce_expiresAt := now + Relay.PairingCodeTTL cfg |}]>
          (Relay.codes h));
     Relay.loops := <[c := (length (Relay.store (Relay.hub sv)), Relay.RoleHost)]> (Relay.loops sv);
     Relay.seen := {[c]} ∪ Relay.seen sv |}.

Lemma relay_creates_code sv now ip c en :
  c ∉ Relay.seen sv → Relay.count (Relay.hub sv) ip < Relay.MaxSessionsPerIP cfg →
  Relay.e_id en = sid → Relay.newUniqueCodeLocked (Relay.hub sv) (Relay.e_draws en) = Some code →
  Relay.step cfg sv (Relay.First now ip c en create_code_message)
  = Some (code_hosted sv now ip c,
          [Relay.Send c (Relay.MCodeSessionCreated code (now + Relay.PairingCodeTTL cfg))]).
Proof.
  intros Hc Hm He Hd. unfold Relay.step. rewrite bool_decide_false by done.
  change (Relay.too_large create_code_message) with false. cbv iota.
  unfold Relay.serve_first. rewrite opening_create_code. cbn [Relay.beginSession].
  unfold Relay.CreateCodeSession. by rewrite (proj2 (Z.leb_gt _ _)), Hd, He.
Qed.

(** The guesses, with one more of the address. *)
Definition guessed (h : Relay.Hub) (ip : jsstr) (now : Z) : gmap jsstr Relay.guessBudget :=
  let b := Relay.current_budget cfg h ip now in
  <[ip := {| Relay.gb_count := Relay.gb_count b + 1; Relay.gb_windowStart := Relay.gb_windowStart b |}]>
    (Relay.guesses h).

(** The server once the guest has used the code. *)
Definition code_joined (sv : Relay.server) (p : nat) (s : Relay.Session) (now : Z) (ip : jsstr) (c : nat) :
    Relay.server :=
  let h := Relay.with_codes (Relay.with_guesses (Relay.hub sv) (guessed (Relay.hub sv) ip now))
             (delete code (Relay.codes (Relay.hub sv))) in
  {| Relay.hub := Relay.incr (Relay.update h p
                    (Relay.set_lastActivity (Relay.set_peer s Relay.RoleGuest (session_peer c ip [])) now)) ip;
     Relay.loops := <[c := (p, Relay.RoleGuest)]> (Relay.loops sv);
     Relay.seen := {[c]} ∪ Relay.seen sv |}.

Lemma relay_joins_code sv now ip c en p s hc entry :
  Forall unit_ok code → (length code ≤ 6)%nat → c ∉ Relay.seen sv →
  Relay.gb_count (Relay.current_budget cfg (Relay.hub sv) ip now) < Relay.MaxPairingAttempts cfg →
  Relay.codes (Relay.hub sv) !! code = Some entry → Relay.ce_session entry = sid →
  now ≤ Relay.ce_expiresAt entry →
  Relay.count (Relay.hub sv) ip < Relay.MaxSessionsPerIP cfg →
  Relay.sessions (Relay.hub sv) !! sid = Some p → Relay.store (Relay.hub sv) !! p = Some s →
  Relay.connOf s Relay.RoleHost = Some hc → Relay.s_peers s Relay.RoleGuest = None →
  Relay.step cfg sv (Relay.First now ip c en (join_code_message code))
  = Some (code_joined sv p s now ip c,
          [Relay.Send hc (Relay.MPaired (Relay.s_ID s)); Relay.Send c (Relay.MPaired (Relay.s_ID s))]).
Proof.
  intros Hu Hl Hc Hb Hcode He Hx Hm Hse Hst Hh Hg. unfold Relay.step.
  assert (Relay.too_large (join_code_message code) = false) as ->.
  { unfold join_code_message, sendEnvelope. apply text_size. pose proof (length_quote code).
    part_lengths. unfold Relay.maxMessageSize. lia. }
  rewrite bool_decide_false by done. cbv iota. unfold Relay.serve_first. rewrite opening_join_code by done.
  cbn [Relay.beginSession]. unfold Relay.JoinByCode, Relay.checkAndRecordGuessLocked. cbv zeta.
  rewrite (proj2 (Z.leb_gt _ _)) by done. cbn [negb Relay.codes Relay.with_guesses]. rewrite Hcode.
  rewrite (proj2 (Z.ltb_ge _ _)) by done.
  change (Relay.count (Relay.with_codes _ _)) with (Relay.count (Relay.hub sv)).
  rewrite (proj2 (Z.leb_gt _ _)) by done. cbn [Relay.sessions Relay.with_codes Relay.with_guesses].
  rewrite He, Hse. unfold Relay.attachGuest. cbn [Relay.store Relay.with_codes Relay.with_guesses].
  rewrite Hst, Hh. unfold Relay.attach. by rewrite Hg.
Qed.

End Relay.

(** *** What the relay does for a session *)

Section Serves.
Context (cfg : Relay.Config) (sid hip gip : jsstr) (p : nat).
Abbreviation serves := (serves cfg sid hip gip p).

Lemma serves_ext t t' sv : (∀ b, t' b = t b) → serves t sv → serves t' sv.
Proof.
  intros He [Hp Hl (s&Hs&Ht) Hr Hf]. split; [done|done| |done|done].
  exists s. split; [done|]. intros b. by rewrite He.
Qed.

(** A change of the session that keeps its connections. *)
Lemma serves_update t t' sv s s' :
  serves t sv → Relay.store (Relay.hub sv) !! p = Some s →
  (∀ b, Relay.s_peers s' (role_of Relay.RoleHost b)
        = Some (session_peer (conn_of b 0) (if b then gip else hip) (t' b))) →
  let sv' := {| Relay.hub := Relay.update (Relay.hub sv) p s'; Relay.loops := Relay.loops sv;
                Relay.seen := Relay.seen sv |} in
  pair_at p Relay.RoleHost 0 1 sv' → serves t' sv'.
Proof.
  intros [_ Hl _ Hr Hf] Hs Hp sv' Hpair. split; [done|done| |done|done].
  exists s'. split; [|done]. simpl. apply list_lookup_insert_eq. by eapply lookup_lt_Some.
Qed.

Lemma serves_conn t sv s r :
  serves t sv → Relay.store (Relay.hub sv) !! p = Some s →
  Relay.connOf s r = Some (match r with Relay.RoleHost => 0 | Relay.RoleGuest => 1 end)%nat.
Proof.
  intros [_ _ (s'&Hs'&Hp) _ _] Hs. rewrite Hs in Hs'. injection Hs' as <-.
  unfold Relay.connOf. destruct r; [specialize (Hp false)|specialize (Hp true)]; simpl in Hp; by rewrite Hp.
Qed.

Lemma serves_loop t sv b :
  serves t sv → Relay.loops sv !! conn_of b 0 = Some (p, role_of Relay.RoleHost b)
                ∧ conn_of b 0 ∈ Relay.seen sv.
Proof.
  intros [[Hok _ Ha Hb] _ _ _ _].
  assert (Relay.loops sv !! conn_of b 0 = Some (p, role_of Relay.RoleHost b)) as Hl by by destruct b.
  split; [done|]. by eapply (ok_loops _ Hok).
Qed.

Lemma serves_keeps_pair t sv e sv' o :
  serves t sv → Relay.step cfg sv e = Some (sv', o) → Relay.loops sv' = Relay.loops sv →
  pair_at p Relay.RoleHost 0 1 sv'.
Proof.
  intros [[Hok Hh Ha Hb] _ _ _ _] Hs Hl.
  split; [by eapply step_server_ok|by eapply step_hold|by rewrite Hl|by rewrite Hl].
Qed.

(** A text for the other page is passed on. *)
Lemma serves_relays t sv b now d :
  serves t sv → Relay.input_of (DText d) = Relay.IRelay → Relay.too_large (DText d) = false →
  ∃ sv', Relay.step cfg sv (Relay.Later now (conn_of b 0) (DText d))
         = Some (sv', [Relay.Send (conn_of (negb b) 0) (Relay.MRelayed (DText d))])
    ∧ serves t sv'.
Proof.
  intros Hsv Hi Hl. destruct (serves_loop t sv b Hsv) as [Hc _].
  destruct (sv_store _ _ _ _ _ _ _ Hsv) as (s&Hs&Hp).
  set (s' := Relay.set_lastActivity s now).
  set (sv' := {| Relay.hub := Relay.update (Relay.hub sv) p s'; Relay.loops := Relay.loops sv;
                 Relay.seen := Relay.seen sv |}).
  assert (Relay.step cfg sv (Relay.Later now (conn_of b 0) (DText d))
          = Some (sv', [Relay.Send (conn_of (negb b) 0) (Relay.MRelayed (DText d))])) as Hstep.
  { unfold Relay.step. rewrite Hc. cbn [mbind option_bind]. rewrite Hl. unfold Relay.serve_message.
    rewrite Hi. unfold Relay.Relay. rewrite Hs. cbv zeta.
    change (Relay.connOf (Relay.set_lastActivity s now)) with (Relay.connOf s).
    rewrite (serves_conn t sv s) by done. by destruct b. }
  exists sv'. split; [done|]. apply (serves_update t t sv s s'); [done..|].
  by eapply serves_keeps_pair.
Qed.

(** A token is kept for its side. *)
Lemma serves_token t sv b now tk :
  serves t sv → bytes_ok tk → length tk = 32%nat →
  ∃ sv', Relay.step cfg sv (Relay.Later now (conn_of b 0) (token_message tk)) = Some (sv', [])
    ∧ serves (λ c, if eqb c b then tk else t c) sv'.
Proof.
  intros Hsv Hb Hl. destruct (serves_loop t sv b Hsv) as [Hc _].
  destruct (sv_store _ _ _ _ _ _ _ Hsv) as (s&Hs&Hp).
  exists (token_kept sv p (role_of Relay.RoleHost b) tk).
  pose proof (relay_keeps_token cfg sv now (conn_of b 0) p _ tk Hb Hl Hc) as Hstep. split; [done|].
  unfold token_kept, Relay.RegisterReconnectToken in *. rewrite Hs in *.
  eapply (serves_update t); [done|exact Hs| |by eapply serves_keeps_pair].
  intros c. unfold Relay.setReconnectToken. rewrite (Hp b). unfold Relay.set_peer. cbn [Relay.s_peers].
  destruct b, c; cbn [role_of eqb]; first [rewrite decide_True by done|rewrite decide_False by done]; 
    first [done|apply (Hp true)|apply (Hp false)].
Qed.

End Serves.
