(* ===== verification/CodeStages.v ===== *)
(** * The stages of pairing by a code

    Once the relay has joined two pages, each of them is at a stage: not told yet,
    in the exchange after so many steps, or paired. The stages and what the relay
    has read determine the whole network up to the server; every punctual event
    moves one of them on, and when none can happen, both pages are ready. Then
    the schedule on which a message arrives before its listener, what can still
    happen after it, and how the relay's reaper ends it. *)

From stdpp Require Import base list list_numbers gmap sets strings.
From Stdlib Require Import ZArith Lia.
From S2P Require Import Prelude JsText Hex Json Utf8 Crypto WsClient PairingText PageState.
From S2P Require Import Pairing Session RoleSwap Pake Hub HubFacts HubLimits HubPair HubReap HubLeak Messages.
From S2P Require Import Network SwapNet ReconnectNet PairNet CodeNet.
Open Scope Z_scope.

(** ** The stages of a side *)

(** A side is waiting to be told that it is paired; is in the exchange, after its
    [n]-th step; or is paired, and has derived its token and its screen or not. *)
Inductive stage := Told | Verify (n : nat) | Over (tok ren : bool).

Definition pos (s : stage) : nat := match s with Told => 0 | Verify n => n | Over _ _ => 8 end.

(** The steps a side has made. *)
Definition rank (s : stage) : nat :=
  match s with Told => 0 | Verify n => S n | Over tok ren => 10 + Nat.b2n tok + Nat.b2n ren end.

Definition upd {A} (b : bool) (v : A) (f : bool → A) (c : bool) : A := if eqb c b then v else f c.

Lemma upd_here {A} b (v : A) f : upd b v f b = v.
Proof. unfold upd. by rewrite eqb_reflx. Qed.

Lemma upd_there {A} b (v : A) f : upd b v f (negb b) = f (negb b).
Proof. by destruct b. Qed.

Section Stages.
Context `{WebCryptoLaws, PakeLaws}.
Context (format_time : Z → jsstr) (cfg : Relay.Config).
Context (location : url) (randomKey : nat → bytes) (rand : bool → Z).
Context (sid : jsstr) (Hsid : Forall unit_ok sid) (Hne : sid ≠ []) (Hshort : (length sid ≤ 1000)%nat).
Context (code : jsstr) (Hcode : Forall (λ c, 48 ≤ c ≤ 57) code) (Hsix : length code = 6%nat).
Context (hip gip : jsstr) (p : nat).

(** The side of the exchange a page is. *)
Definition code_side (b : bool) : Pake.side :=
  {| x_code := code; x_role := pake_role (role_at b); x_rand := rand b |}.

(** The library with this code: the two instances, before and after, and the
    key; its messages are not huge. *)
Context (pa pb pa' pb' : pake_t) (k : bytes).
Context (Hpake : pake_agree (code_side false) (code_side true) pa pb pa' pb' k).
Context (Hk : length k = 32%nat).
Context (Hsmall : ∀ q, q = pa ∨ q = pb' → Z.of_nat (length (Bytes q)) ≤ 40000).

Abbreviation cstep := (code_step format_time cfg location randomKey rand).
Abbreviation pstep := (pairing_step format_time cfg location randomKey rand).
Abbreviation page_step := (step location randomKey).
Abbreviation token := (token k sid).
Abbreviation serves := (serves cfg sid hip gip p).

Definition peer_at (b : bool) (n : nat) : Pake.peer :=
  if b then guest_at pa pb pb' k n else host_at pa pa' pb' k n.

(** What a side has sent in the exchange. *)
Definition msgs (b : bool) (s : stage) : list data := x_sent (peer_at b (pos s)).

Definition tokens (s : stage) : list data :=
  match s with Over true _ => [token_message token] | _ => [] end.

Definition world_of (b : bool) (s : stage) : world :=
  match s with
  | Told => code_waiting code b
  | Verify n => verifying code sid b (x_sent (peer_at b n))
  | Over tok ren => paired_page k sid tok ren (role_at b) (flow code b) (asks code b :: msgs b s)
  end.

Definition exchange_of (b : bool) (s : stage) : Pake.peer :=
  match s with Over _ _ => again (peer_at b 8) | _ => peer_at b (pos s) end.

(** What is on its way to a side: that it is paired, and what the relay has read
    of the other side's messages, less those it has taken. *)
Definition queue (st : bool → stage) (rd : bool → nat) (b : bool) : list data :=
  match st b with Told => [paired sid] | _ => [] end
  ++ drop (Pake.taken (pos (st b))) (take (rd (negb b)) (msgs (negb b) (st (negb b)))).

Definition end_at (st : bool → stage) (rd : bool → nat) (b : bool) : endpoint :=
  one (world_of b (st b)) (if b then gip else hip) (S (rd b)) (queue st rd b).

Definition code_at (st : bool → stage) (rd : bool → nat) (sv : Relay.server) : code_net :=
  {| c_net := net_at (end_at st rd false) (end_at st rd true) sv;
     c_left := exchange_of false (st false); c_right := exchange_of true (st true) |}.

Record on_stage (st : bool → stage) (rd : bool → nat) (sv : Relay.server) : Prop := {
  os_stage b : (pos (st b) ≤ 8)%nat;
  os_read b : (rd b ≤ length (msgs b (st b) ++ tokens (st b)))%nat;
  os_taken b : (Pake.taken (pos (st b)) ≤ rd (negb b))%nat;
  os_serves : serves (λ b, if (3 <=? rd b)%nat then token else []) sv
}.

Definition measure (st : bool → stage) (rd : bool → nat) : nat :=
  (rank (st false) + rank (st true) + rd false + rd true)%nat.

(** *** The exchange of a side *)

Lemma peer_resumes b n q :
  xresume (code_side b) (peer_at b n) = Some q → (n ≤ 8)%nat →
  q = peer_at b (S n) ∧ n ≠ 8%nat ∧ Pake.taken (S n) = Pake.taken n
  ∧ x_sent (peer_at b n) `prefix_of` x_sent (peer_at b (S n)).
Proof.
  intros Hr Hn. pose proof (xresume_sent _ _ _ Hr) as Hp. pose proof (taken_resumes pa pb pa' pb' k n q) as [T1 T2].
  destruct b.
  - destruct (guest_resumes _ (code_side true) eq_refl _ _ _ _ _ Hpake n q Hr Hn) as [-> ?]. by eauto 6.
  - destruct (host_resumes (code_side false) _ eq_refl _ _ _ _ _ Hpake n q Hr Hn) as [-> ?]. by eauto 6.
Qed.

Lemma xmessage_sent q d : x_sent (xmessage q d) = x_sent q.
Proof. unfold xmessage. by repeat case_match. Qed.

Lemma peer_takes b i n d :
  waiting (peer_at b n) = true → x_sent (peer_at (negb b) i) !! Pake.taken n = Some d → (n ≤ 8)%nat →
  xmessage (peer_at b n) d = peer_at b (S n) ∧ Pake.taken (S n) = S (Pake.taken n) ∧ n ≠ 8%nat.
Proof.
  intros Hw Hd Hn. destruct b; [by apply (guest_takes pa pb pa' pb' k i)|by apply (host_takes pa pb pa' pb' k n i)].
Qed.

Lemma peer_settled b n r : x_pc (peer_at b n) = XDone r → (n ≤ 8)%nat → n = 8%nat ∧ r = Ok k.
Proof.
  intros Hr Hn. destruct b; destruct n as [|[|[|[|[|[|[|[|[|n]]]]]]]]]; simpl in Hr; try done;
    try lia; by injection Hr as <-.
Qed.

(** Its messages. *)
Lemma msgs_in b s i d :
  msgs b s !! i = Some d →
  (∃ q, (q = pa ∨ q = pb') ∧ d = pake_msg (Bytes q)) ∨ d = pake_confirm (computeConfirmTag k).
Proof.
  unfold msgs. generalize (pos s). intros n Hd. apply list_elem_of_lookup_2 in Hd.
  destruct b; destruct n as [|[|[|[|[|[|[|[|n]]]]]]]]; simpl in Hd; set_solver.
Qed.

Lemma length_msgs b s : (length (msgs b s) ≤ 2)%nat.
Proof. unfold msgs. generalize (pos s). intros n. by destruct b; destruct n as [|[|[|[|[|[|[|[|n]]]]]]]]; simpl; lia. Qed.

Lemma msg_received b s i d :
  msgs b s !! i = Some d →
  ∃ t v, received d = Some (envelope t v) ∧ (t = "pake_msg"%string ∨ t = "pake_confirm"%string).
Proof.
  intros [(q&_&->)| ->]%msgs_in; eexists _, _.
  - split; [apply received_pake_msg, Bytes_unit|by left].
  - split; [apply received_pake_confirm, tag_ok|by right].
Qed.

Lemma msg_exchange b s i d : msgs b s !! i = Some d → exchange_message d = true.
Proof.
  intros (t&v&Hd&Ht)%msg_received. unfold exchange_message. rewrite Hd, !has_type_envelope.
  by destruct Ht as [-> | ->].
Qed.

Lemma msg_passes b s i d :
  msgs b s !! i = Some d →
  ∃ t, d = DText t ∧ Relay.input_of d = Relay.IRelay ∧ Relay.too_large d = false.
Proof.
  intros [(q&Hq&->)| ->]%msgs_in; (eexists; split; [reflexivity|]).
  - split; [apply relayed_envelope; [by apply single_wf, Bytes_unit|done..]|].
    unfold pake_msg, sendEnvelope. apply text_size. pose proof (length_quote (Bytes q)).
    pose proof (Hsmall q Hq). part_lengths. unfold Relay.maxMessageSize. lia.
  - split; [apply relayed_envelope; [by apply single_wf, toHex_unit, tag_ok|done..]|].
    unfold pake_confirm, sendEnvelope. apply text_size.
    pose proof (length_quote (toHex (computeConfirmTag k))) as Hq.
    rewrite length_toHex in Hq by apply tag_ok. unfold computeConfirmTag in *. rewrite hmac_length in Hq.
    part_lengths. unfold Relay.maxMessageSize. lia.
Qed.

(** *** Moving between stages *)

Lemma code_ext (x y : code_net) :
  (∀ b, get_end b (c_net x) = get_end b (c_net y)) → n_server (c_net x) = n_server (c_net y) →
  (∀ b, get_peer b x = get_peer b y) → x = y.
Proof.
  destruct x as [[xl xr xs] xp xq], y as [[yl yr ys] yp yq]. simpl. intros He -> Hp.
  pose proof (He false). pose proof (He true). pose proof (Hp false). pose proof (Hp true).
  by simplify_eq/=.
Qed.

Lemma end_of_code st rd sv b : get_end b (c_net (code_at st rd sv)) = end_at st rd b.
Proof. by destruct b. Qed.

Lemma peer_of_code st rd sv b : get_peer b (code_at st rd sv) = exchange_of b (st b).
Proof. by destruct b. Qed.

Lemma put_peer_same b (x : code_net) : put_peer b x (get_peer b x) = x.
Proof. by destruct b, x. Qed.

Lemma get_peer_put b (x : code_net) q : get_peer b (put_peer b x q) = q.
Proof. by destruct b. Qed.

Lemma get_peer_other b (x : code_net) q : get_peer (negb b) (put_peer b x q) = get_peer (negb b) x.
Proof. by destruct b. Qed.

Lemma get_peer_net b (x : code_net) n : get_peer b (put_net x n) = get_peer b x.
Proof. by destruct b. Qed.

(** A side's stage changes, and what it has sent only grows. *)
Definition follows (rd : nat) (b : bool) (s s' : stage) : Prop :=
  rank s' = S (rank s) ∧ (pos s' ≤ 8)%nat
  ∧ (length (msgs b s ++ tokens s) ≤ length (msgs b s' ++ tokens s'))%nat
  ∧ take rd (msgs b s') = take rd (msgs b s).

Lemma queue_other st rd b s :
  take (rd b) (msgs b s) = take (rd b) (msgs b (st b)) →
  queue (upd b s st) rd (negb b) = queue st rd (negb b).
Proof. intros Ht. unfold queue. by rewrite negb_involutive, upd_there, upd_here, Ht. Qed.

Lemma stage_moves st rd sv b s :
  on_stage st rd sv → follows (rd b) b (st b) s → (Pake.taken (pos s) ≤ rd (negb b))%nat →
  on_stage (upd b s st) rd sv ∧ measure (upd b s st) rd = S (measure st rd).
Proof.
  intros [H3 H4 H5 H6] (Hr&Hp&Hl&_) Ht. split.
  - split; [..|done]; apply (bool_cases _ b); rewrite ?upd_here, ?upd_there; auto.
    specialize (H4 b). lia.
  - unfold measure. destruct b; cbn [upd eqb]; lia.
Qed.

Lemma code_moves st rd sv b s y q :
  follows (rd b) b (st b) s →
  y = one (world_of b s) (if b then gip else hip) (S (rd b)) (queue (upd b s st) rd b) →
  q = exchange_of b s →
  put_net (put_peer b (code_at st rd sv) q) (put_end b (c_net (code_at st rd sv)) y)
  = code_at (upd b s st) rd sv.
Proof.
  intros (_&_&_&Ht) -> ->. apply code_ext; [|by destruct b|]; apply (bool_cases _ b);
    rewrite ?end_of_code, ?get_peer_net, ?get_peer_put, ?get_peer_other, ?peer_of_code; cbn [c_net put_net].
  - rewrite get_put. unfold end_at. by rewrite upd_here.
  - rewrite get_put_other, end_of_code. unfold end_at. by rewrite queue_other, upd_there by done.
  - by rewrite upd_here.
  - by rewrite upd_there.
Qed.

(** A side's next message is read by the relay, and written to the other side
    unless it is for the relay. *)
Lemma code_reads st rd sv sv' b d :
  (msgs b (st b) ++ tokens (st b)) !! rd b = Some d → (Pake.taken (pos (st (negb b))) ≤ rd b)%nat →
  put_net (code_at st rd sv)
    (fold_left (written format_time)
       (if (rd b <? length (msgs b (st b)))%nat
        then [Relay.Send (conn_of (negb b) 0) (Relay.MRelayed d)] else [])
       (put_server (put_end b (c_net (code_at st rd sv))
          (one (world_of b (st b)) (if b then gip else hip) (S (S (rd b))) (queue st rd b))) sv'))
  = code_at st (upd b (S (rd b)) rd) sv'.
Proof.
  intros Hd Ht.
  assert (queue st (upd b (S (rd b)) rd) b = queue st rd b) as Hq.
  { unfold queue. by rewrite upd_there. }
  assert (queue st (upd b (S (rd b)) rd) (negb b)
          = queue st rd (negb b) ++ if (rd b <? length (msgs b (st b)))%nat then [d] else []) as Ho.
  { unfold queue. rewrite negb_involutive, upd_here, <- (app_assoc _ (drop _ _)). f_equal.
    case_match eqn:E.
    - apply Nat.ltb_lt in E. rewrite lookup_app_l in Hd by done.
      erewrite take_S_r by done. rewrite drop_app_le; [done|]. rewrite length_take. lia.
    - apply Nat.ltb_ge in E. by rewrite !take_ge, app_nil_r by lia. }
  apply code_ext; [apply (bool_cases _ b)| |by intros []]; rewrite ?end_of_code; unfold end_at;
    rewrite ?Hq, ?Ho, ?upd_here, ?upd_there; case_match; destruct b; cbn; by rewrite ?app_nil_r.
Qed.

(** *** The events *)

Lemma world_exchange b s :
  the_exchange (rand b) (world_of b s)
  = match s with Verify _ => Some (0, 0, code_side b)%nat | _ => None end.
Proof. by destruct s as [|n|[] []], b. Qed.

Lemma world_socks b s :
  ∃ ls, socks (world_of b s)
        = [{| k_state := Open; k_listeners := ls; k_sent := asks code b :: msgs b s ++ tokens s |}].
Proof.
  destruct s as [|n|tok ren]; eexists; [by destruct b|cbn; by rewrite app_nil_r|].
  unfold msgs. by destruct tok.
Qed.

(** What a side does next. *)
Definition goes_on (st : bool → stage) (rd : bool → nat) (sv : Relay.server) (b : bool) (x : code_net) : Prop :=
  ∃ s, x = code_at (upd b s st) rd sv ∧ follows (rd b) b (st b) s
       ∧ (Pake.taken (pos s) ≤ rd (negb b))%nat.

(** A side that stays where it is in the exchange. *)
Lemma follows_same rd b s s' :
  rank s' = S (rank s) → pos s' = pos s → (pos s ≤ 8)%nat → (length (tokens s) ≤ length (tokens s'))%nat →
  follows rd b s s'.
Proof.
  intros Hr Hp H8 Ht. unfold follows, msgs. rewrite Hp. split_and!; [done|done| |done].
  rewrite !length_app. lia.
Qed.

Lemma follows_verify rd b n :
  x_sent (peer_at b n) `prefix_of` x_sent (peer_at b (S n)) → (n ≤ 8)%nat → n ≠ 8%nat →
  (rd ≤ length (msgs b (Verify n) ++ tokens (Verify n)))%nat → follows rd b (Verify n) (Verify (S n)).
Proof.
  intros Hp Hn H8 Hr. unfold follows, msgs in *. cbn [pos tokens rank] in *. rewrite !app_nil_r in *.
  split_and!; [done|lia|by apply prefix_length|]. destruct Hp as [l Hl]. rewrite Hl. by apply take_app_le.
Qed.

Lemma page_says_more n b w :
  verifying code sid b (x_sent (peer_at b n)) = w → x_sent (peer_at b n) `prefix_of` x_sent (peer_at b (S n)) →
  fold_left (λ w d, try_send w 0 d) (new_messages (peer_at b n) (peer_at b (S n))) w
  = verifying code sid b (x_sent (peer_at b (S n))).
Proof.
  intros <- [l Hl]. unfold new_messages. rewrite Hl, drop_app_length. apply page_says.
Qed.

Lemma resume_moves st rd sv b x :
  on_stage st rd sv → cstep (code_at st rd sv) (b, Resumes) = Some x → goes_on st rd sv b x.
Proof.
  intros [H3 H4 H5 _]. unfold code_step. rewrite end_of_code, peer_of_code.
  change (e_world (end_at st rd b)) with (world_of b (st b)). rewrite world_exchange.
  specialize (H3 b). specialize (H4 b). specialize (H5 b). destruct (st b) as [|n|] eqn:E; [done| |done].
  cbn [mbind option_bind exchange_of pos]. intros (q&Hq&Hx)%bind_Some.
  destruct (peer_resumes b n q Hq H3) as (->&Hn&Ht&Hp). injection Hx as <-.
  assert (follows (rd b) b (st b) (Verify (S n))) as Hf by (rewrite E; by apply follows_verify).
  exists (Verify (S n)). split_and!; [|done|cbn [pos] in *; by rewrite Ht].
  apply code_moves; [done| |done]. rewrite (page_says_more n) by (done || by unfold world_of; rewrite E).
  rewrite with_page_same by (unfold end_at; cbn [e_world one]; by rewrite E).
  unfold end_at, one, queue. cbn [e_ip e_read e_inbox]. rewrite upd_here, upd_there, E. cbn [pos]. by rewrite Ht.
Qed.

(** The page's own step. *)
Lemma page_moves_on st rd sv b s e w y x :
  follows (rd b) b (st b) s → y = put_peer b (code_at st rd sv) (exchange_of b s) →
  queue (upd b s st) rd b = queue st rd b → is_message e = false →
  page_step (world_of b (st b)) e = Some w → w = world_of b s →
  (n ← net_step format_time cfg location randomKey (c_net (code_at st rd sv)) (b, Page e);
   Some (put_net y n)) = Some x →
  x = code_at (upd b s st) rd sv.
Proof.
  intros Hf -> Hq He Hw -> Hs.
  destruct (world_socks b s) as [ls Hl], (world_socks b (st b)) as [ls' Hl'].
  erewrite page_moves in Hs; [|rewrite end_of_code; reflexivity|done|exact Hw|by rewrite Hl, Hl'].
  cbn [mbind option_bind] in Hs. injection Hs as <-. apply code_moves; [done| |done]. by rewrite Hq.
Qed.

(** Between stages whose exchange is at one place, nothing is taken. *)
Lemma queue_same st rd b s :
  st b ≠ Told → s ≠ Told → pos s = pos (st b) → queue (upd b s st) rd b = queue st rd b.
Proof.
  intros H3 H4 Hp. unfold queue. rewrite upd_here, upd_there, Hp. by destruct s, (st b).
Qed.

(** A step of the page that is not the exchange's. *)
Lemma same_goes_on st rd sv b s e w y x :
  on_stage st rd sv → st b ≠ Told → s ≠ Told → rank s = S (rank (st b)) → pos s = pos (st b) →
  (length (tokens (st b)) ≤ length (tokens s))%nat →
  y = put_peer b (code_at st rd sv) (exchange_of b s) → is_message e = false →
  page_step (world_of b (st b)) e = Some w → w = world_of b s →
  (n ← net_step format_time cfg location randomKey (c_net (code_at st rd sv)) (b, Page e);
   Some (put_net y n)) = Some x →
  goes_on st rd sv b x.
Proof.
  intros [H3 _ H5 _] Ht Ht' Hr Hp Hl Hq He Hw Hs Hx. pose proof (H3 b). pose proof (H5 b).
  assert (follows (rd b) b (st b) s) as Hf by by apply follows_same.
  exists s. split_and!; [|done|by rewrite Hp].
  eapply page_moves_on; [exact Hf|exact Hq|by apply queue_same|exact He|exact Hw|exact Hs|exact Hx].
Qed.

Lemma settle_moves st rd sv b x :
  on_stage st rd sv → cstep (code_at st rd sv) (b, Settles) = Some x → goes_on st rd sv b x.
Proof.
  intros Hon. unfold code_step. rewrite end_of_code, peer_of_code.
  change (e_world (end_at st rd b)) with (world_of b (st b)). rewrite world_exchange.
  pose proof (os_stage _ _ _ Hon b) as H8. destruct (st b) as [|n|] eqn:E; [done| |done].
  cbn [mbind option_bind exchange_of pos] in *.
  destruct (x_pc (peer_at b n)) as [| | | | | | | |r] eqn:Hr; try done.
  destruct (peer_settled b n r Hr H8) as [-> ->]. intros Hx.
  eapply (same_goes_on st rd sv b (Over false false) (PromiseSettles 0 (Ok k))); rewrite ?E;
    [done..|cbn [world_of]; by apply page_pairs|done|exact Hx].
Qed.

Lemma promise_moves st rd sv b i r x :
  on_stage st rd sv → cstep (code_at st rd sv) (b, Net (Page (PromiseSettles i r))) = Some x →
  goes_on st rd sv b x.
Proof.
  intros Hon. unfold code_step. rewrite end_of_code.
  change (e_world (end_at st rd b)) with (world_of b (st b)). cbn [settles_exchange].
  destruct (promises (world_of b (st b)) !! i) as [y|] eqn:Hy.
  2: { cbn [net_step]. rewrite end_of_code. change (e_world (end_at st rd b)) with (world_of b (st b)).
       unfold step. by rewrite Hy. }
  destruct (st b) as [|n|tok ren] eqn:E; cbn [world_of] in Hy.
  - by destruct b.
  - destruct i; [|done]. cbn in Hy. by injection Hy as <-.
  - assert (is_exchange y = false) as ->.
    { destruct tok, ren, i as [|[|i]]; cbn in Hy; simplify_eq; done. }
    assert (code_at st rd sv = put_peer b (code_at st rd sv) (again (peer_at b 8))) as Hsame.
    { rewrite <- (put_peer_same b) at 1. by rewrite peer_of_code, E. }
    intros Hx.
    destruct i as [|i].
    + destruct tok.
      * destruct ren; [done|].
        eapply (same_goes_on st rd sv b (Over true true) (PromiseSettles 0 r)); rewrite ?E;
          [done..|exact Hsame|done|exact (page_ready k sid location randomKey true _ _ _ r)|done|exact Hx].
      * eapply (same_goes_on st rd sv b (Over true ren) (PromiseSettles 0 r)); rewrite ?E;
          [done..|by destruct ren|done|cbn; lia|exact Hsame|done|exact (page_token k sid location randomKey ren _ _ _ r)|done|exact Hx].
    + destruct tok, ren, i as [|i]; cbn in Hy; try done.
      eapply (same_goes_on st rd sv b (Over false true) (PromiseSettles 1 r)); rewrite ?E;
        [done..|exact Hsame|done|exact (page_ready k sid location randomKey false _ _ _ r)|done|exact Hx].
Qed.

(** The relay reads a side's next message. *)
Definition read_on (st : bool → stage) (rd : bool → nat) (b : bool) (x : code_net) : Prop :=
  ∃ sv', x = code_at st (upd b (S (rd b)) rd) sv' ∧ on_stage st (upd b (S (rd b)) rd) sv'.

Lemma reads_on st rd sv sv' b d x :
  on_stage st rd sv → (msgs b (st b) ++ tokens (st b)) !! rd b = Some d →
  serves (λ c, if (3 <=? upd b (S (rd b)) rd c)%nat then token else []) sv' →
  x = put_net (code_at st rd sv)
        (fold_left (written format_time)
           (if (rd b <? length (msgs b (st b)))%nat
            then [Relay.Send (conn_of (negb b) 0) (Relay.MRelayed d)] else [])
           (put_server (put_end b (c_net (code_at st rd sv))
              (one (world_of b (st b)) (if b then gip else hip) (S (S (rd b))) (queue st rd b))) sv')) →
  read_on st rd b x.
Proof.
  intros [H3 H4 H5 _] Hd Hs ->. pose proof (H5 (negb b)) as Ht. rewrite negb_involutive in Ht.
  exists sv'. split; [by apply code_reads|]. split; [done| | |done].
  - apply (bool_cases _ b); rewrite ?upd_here, ?upd_there; [by eapply lookup_lt_Some|done].
  - apply (bool_cases _ b); rewrite ?negb_involutive, ?upd_here, ?upd_there; [done|lia].
Qed.

Lemma read_moves st rd sv b i now en x :
  on_stage st rd sv → cstep (code_at st rd sv) (b, Net (Reads i now en)) = Some x → read_on st rd b x.
Proof.
  intros Hon. unfold code_step. cbn [settles_exchange]. intros (n&Hn&[= <-])%bind_Some.
  cbn [net_step] in Hn. rewrite end_of_code in Hn. unfold end_at in Hn. cbn [e_world e_read one e_ip e_inbox] in Hn.
  destruct (world_socks b (st b)) as [ls Hl]. rewrite Hl in Hn. destruct i as [|i]; [|done].
  cbn [mbind option_bind lookup list_lookup k_sent] in Hn.
  apply bind_Some in Hn as (d&Hd&Hn). rewrite server_put in Hn.
  change ((msgs b (st b) ++ tokens (st b)) !! rd b = Some d) in Hd.
  change (n_server (c_net (code_at st rd sv))) with sv in Hn.
  pose proof (os_serves _ _ _ Hon) as Hsv. destruct (serves_loop _ _ _ _ _ _ _ b Hsv) as [Hc Hseen].
  rewrite bool_decide_true in Hn by done.
  destruct (Nat.ltb_spec (rd b) (length (msgs b (st b)))) as [Hlt|Hge].
  - rewrite lookup_app_l in Hd by done. destruct (msg_passes _ _ _ _ Hd) as (t&->&Hi&Hf).
    destruct (serves_relays _ _ _ _ _ _ _ b now t Hsv Hi Hf) as (sv'&Hst&Hsv').
    rewrite Hst in Hn. injection Hn as <-. eapply (reads_on st rd sv sv' b (DText t)); [done| | |].
    + by rewrite lookup_app_l.
    + eapply serves_ext; [|exact Hsv']. pose proof (length_msgs b (st b)).
      apply (bool_cases _ b); rewrite ?upd_here, ?upd_there; [|done].
      by rewrite !(proj2 (Nat.leb_gt _ _)) by lia.
    + by rewrite (proj2 (Nat.ltb_lt _ _)) by done.
  - pose proof Hd as Hd'. rewrite lookup_app_r in Hd by done.
    assert (rd b - length (msgs b (st b)) = 0 ∧ d = token_message token ∧ length (msgs b (st b)) = 2)%nat as (H0'&->&H2').
    { destruct (st b) as [| |[] ren]; try done. destruct (_ - _)%nat eqn:E; [|done].
      injection Hd as <-. split_and!; [done|done|by destruct b]. }
    destruct (token_derives k sid Hk) as (_&Hb&Hlen).
    destruct (serves_token _ _ _ _ _ _ _ b now token Hsv Hb Hlen) as (sv'&Hst&Hsv').
    rewrite Hst in Hn. injection Hn as <-. eapply (reads_on st rd sv sv' b); [done|exact Hd'| |].
    + eapply serves_ext; [|exact Hsv'].
      apply (bool_cases _ b); rewrite ?upd_here, ?upd_there, ?eqb_reflx; [|by rewrite eqb_negb1].
      by rewrite (proj2 (Nat.leb_le _ _)) by lia.
    + by rewrite (proj2 (Nat.ltb_ge _ _)) by done.
Qed.

(** The next message of a side that is in the exchange. *)
Lemma queue_next st rd b n d q :
  st b = Verify n → queue st rd b = d :: q →
  msgs (negb b) (st (negb b)) !! Pake.taken n = Some d ∧ (S (Pake.taken n) ≤ rd (negb b))%nat
  ∧ q = drop (S (Pake.taken n)) (take (rd (negb b)) (msgs (negb b) (st (negb b)))).
Proof.
  unfold queue. intros ->. cbn [pos app]. intros Hq.
  assert (take (rd (negb b)) (msgs (negb b) (st (negb b))) !! Pake.taken n = Some d) as Hd.
  { apply (f_equal (lookup O)) in Hq. rewrite lookup_drop, Nat.add_0_r in Hq. exact Hq. }
  apply lookup_take_Some in Hd as Hd'. destruct Hd' as [Hm Hlt]. split_and!; [done|lia|].
  erewrite drop_S in Hq by exact Hd. by injection Hq.
Qed.

(** A side that receives goes on with its page and its exchange. *)
Lemma code_receives st rd sv b s d q w x :
  on_stage st rd sv → follows (rd b) b (st b) s → (Pake.taken (pos s) ≤ rd (negb b))%nat →
  queue st rd b = d :: q → q = queue (upd b s st) rd b →
  page_step (world_of b (st b)) (SockMessage 0 d) = Some w → w = world_of b s →
  overhears rand b (code_at st rd sv) 0 = exchange_of b s →
  cstep (code_at st rd sv) (b, Net (Receives 0)) = Some x → goes_on st rd sv b x.
Proof.
  intros Hon Hf Ht Hq -> Hw -> Ho Hx. exists s. split_and!; [|done..].
  unfold code_step in Hx. cbn [settles_exchange] in Hx. rewrite Ho in Hx.
  destruct (world_socks b s) as [ls Hl], (world_socks b (st b)) as [ls' Hl'].
  erewrite page_gets in Hx; [|rewrite end_of_code; unfold end_at; rewrite Hq; reflexivity|exact Hw|by rewrite Hl, Hl'].
  cbn [mbind option_bind] in Hx. injection Hx as <-. by apply code_moves.
Qed.

Lemma receive_moves st rd sv b i x :
  on_stage st rd sv → punctual (code_at st rd sv) (b, Net (Receives i)) = true →
  cstep (code_at st rd sv) (b, Net (Receives i)) = Some x → goes_on st rd sv b x.
Proof.
  intros Hon Hp Hx.
  assert (i = O ∧ ∃ d q, queue st rd b = d :: q) as (->&d&q&Hq).
  { unfold code_step in Hx. cbn [settles_exchange net_step] in Hx. rewrite end_of_code in Hx.
    destruct i as [|i]; [|done]. split; [done|]. unfold end_at in Hx.
    cbn [e_inbox one mbind option_bind lookup list_lookup] in Hx.
    destruct (queue st rd b) as [|d q]; [done|]. by eexists _, _. }
  cbn [punctual] in Hp. rewrite end_of_code, peer_of_code in Hp. unfold next_message, end_at in Hp.
  cbn [e_inbox one mbind option_bind lookup list_lookup] in Hp. rewrite Hq in Hp. cbn [head] in Hp.
  assert (overhears rand b (code_at st rd sv) 0
          = match st b with Verify n => xmessage (peer_at b n) d | _ => exchange_of b (st b) end) as Ho.
  { unfold overhears, next_message. rewrite end_of_code, peer_of_code.
    change (e_world (end_at st rd b)) with (world_of b (st b)). rewrite world_exchange.
    unfold end_at. cbn [e_inbox one mbind option_bind lookup list_lookup]. rewrite Hq.
    by destruct (st b). }
  pose proof (os_stage _ _ _ Hon b) as H8. destruct (st b) as [|n|tok ren] eqn:E.
  - assert (d = paired sid ∧ q = queue (upd b (Verify 0) st) rd b) as [-> Hq'].
    { unfold queue in *. rewrite upd_here, upd_there. rewrite E in Hq. by injection Hq as <- <-. }
    eapply (code_receives st rd sv b (Verify 0)); rewrite ?E;
      [done|by split_and!|cbn; lia|exact Hq|exact Hq'|by apply page_verifies|by destruct b|by destruct b|exact Hx].
  - destruct (queue_next st rd b n d q E Hq) as (Hd&Hr&Hq').
    rewrite (msg_exchange _ _ _ _ Hd) in Hp. cbn [negb orb exchange_of pos] in *.
    destruct (peer_takes b _ n d Hp Hd H8) as (Hm&Ht&Hn).
    assert (x_sent (peer_at b (S n)) = x_sent (peer_at b n)) as Hs by by rewrite <- Hm, xmessage_sent.
    destruct (msg_received _ _ _ _ Hd) as (t&v&Hd'&Hty).
    eapply (code_receives st rd sv b (Verify (S n))); rewrite ?E;
      [done| |cbn [pos]; by rewrite Ht|exact Hq| |by eapply page_ignores| |by rewrite Ho|exact Hx].
    + apply follows_verify; [by rewrite Hs|done|done|]. pose proof (os_read _ _ _ Hon b) as Hrd. by rewrite E in Hrd.
    + rewrite Hq'. unfold queue. rewrite upd_here, upd_there. cbn [pos app]. by rewrite Ht.
    + cbn [world_of]. by rewrite Hs.
  - exfalso. unfold queue in Hq. rewrite E in Hq. cbn [app pos] in Hq.
    rewrite drop_ge in Hq; [done|]. rewrite length_take.
    pose proof (length_msgs (negb b) (st (negb b))). change (Pake.taken 8) with 2%nat. lia.
Qed.

(** *** Runs *)

Definition at_some_stage (x : code_net) (m : nat) : Prop :=
  ∃ st rd sv, x = code_at st rd sv ∧ on_stage st rd sv ∧ measure st rd = m.

Lemma pairing_moves st rd sv e x :
  on_stage st rd sv → pstep (code_at st rd sv) e = Some x → at_some_stage x (S (measure st rd)).
Proof.
  intros Hon. unfold pairing_step. destruct e as [b e]. cbn [snd].
  destruct (pairing_event e && _) eqn:Hal; [|done]. apply andb_true_iff in Hal as [He Hp]. intros Hx.
  assert (goes_on st rd sv b x ∨ read_on st rd b x) as [(s&->&Hf&Ht)|(sv'&->&Hon')].
  { destruct e as [[[]| | | |]| |]; try done.
    - left. by eapply promise_moves.
    - right. by eapply read_moves.
    - left. by eapply receive_moves.
    - left. by apply resume_moves.
    - left. by apply settle_moves. }
  - eexists _, _, _. split; [done|]. by apply stage_moves.
  - eexists _, _, _. split_and!; [done..|]. unfold measure. destruct b; cbn [upd eqb]; lia.
Qed.

Lemma rank_bound st rd sv : on_stage st rd sv → (measure st rd ≤ 30)%nat.
Proof.
  intros [H3 H4 _ _]. unfold measure.
  assert (∀ b, rank (st b) + rd b ≤ 15)%nat as Hb; [|pose proof (Hb false); pose proof (Hb true); lia].
  intros b. specialize (H3 b). specialize (H4 b). rewrite length_app in H4. pose proof (length_msgs b (st b)).
  destruct (st b) as [|n|[] []]; cbn [rank tokens length Nat.b2n pos] in *; lia.
Qed.

Lemma pairing_run es st rd sv x :
  on_stage st rd sv → run pstep es (code_at st rd sv) = Some x →
  at_some_stage x (length es + measure st rd).
Proof.
  revert st rd sv. induction es as [|e es IH]; intros st rd sv Hon; cbn [run].
  - intros [= <-]. by eexists _, _, _.
  - intros (x1&H1'&Hr)%bind_Some. destruct (pairing_moves _ _ _ _ _ Hon H1') as (st1&rd1&sv1&->&Hon1&Hm).
    destruct (IH _ _ _ Hon1 Hr) as (st2&rd2&sv2&->&Hon2&Hm2). eexists _, _, _. split_and!; [done..|]. simpl. lia.
Qed.

(** *** What can happen *)

Lemma can_resume st rd sv b n :
  st b = Verify n → is_Some (xresume (code_side b) (peer_at b n)) →
  is_Some (pstep (code_at st rd sv) (b, Resumes)).
Proof.
  intros E [q Hq]. unfold pairing_step. cbn [snd pairing_event punctual andb]. unfold code_step.
  rewrite end_of_code, peer_of_code. change (e_world (end_at st rd b)) with (world_of b (st b)).
  rewrite world_exchange, E. cbn [mbind option_bind exchange_of pos]. by rewrite Hq.
Qed.

Lemma can_settle st rd sv b : st b = Verify 8 → is_Some (pstep (code_at st rd sv) (b, Settles)).
Proof.
  intros E. unfold pairing_step. cbn [snd pairing_event punctual andb]. unfold code_step.
  rewrite end_of_code, peer_of_code. change (e_world (end_at st rd b)) with (world_of b (st b)).
  rewrite world_exchange, E. cbn [mbind option_bind exchange_of pos].
  assert (x_pc (peer_at b 8) = XDone (Ok k)) as -> by by destruct b.
  cbn [net_step]. rewrite end_of_code. change (e_world (end_at st rd b)) with (world_of b (st b)).
  rewrite E. cbn [world_of]. by rewrite page_pairs.
Qed.

Lemma can_finish st rd sv b tok ren :
  st b = Over tok ren → tok && ren = false →
  is_Some (pstep (code_at st rd sv) (b, Net (Page (PromiseSettles 0 (Throw ErrType))))).
Proof.
  intros E Ht. unfold pairing_step. cbn [snd pairing_event punctual andb]. unfold code_step. cbn [net_step].
  rewrite end_of_code. change (e_world (end_at st rd b)) with (world_of b (st b)). rewrite E.
  destruct tok, ren; [done|by eexists..].
Qed.

Lemma can_read st rd sv b now en :
  on_stage st rd sv → (rd b < length (msgs b (st b) ++ tokens (st b)))%nat →
  is_Some (pstep (code_at st rd sv) (b, Net (Reads 0 now en))).
Proof.
  intros Hon [d Hd]%lookup_lt_is_Some. unfold pairing_step. cbn [snd pairing_event punctual andb].
  unfold code_step. cbn [settles_exchange]. destruct (world_socks b (st b)) as [ls Hl].
  destruct (serves_loop _ _ _ _ _ _ _ b (os_serves _ _ _ Hon)) as [Hc Hseen].
  destruct (Relay.step cfg sv (Relay.Later now (conn_of b 0) d)) as [[sv' os]|] eqn:Hst.
  - erewrite relay_gets; [by eexists|by rewrite end_of_code|by rewrite Hl|exact Hd|].
    change (n_server (c_net (code_at st rd sv))) with sv. by rewrite bool_decide_true.
  - exfalso. unfold Relay.step in Hst. by rewrite Hc in Hst.
Qed.

Lemma can_receive st rd sv b d q :
  queue st rd b = d :: q → exchange_message d = false ∨ waiting (exchange_of b (st b)) = true →
  is_Some (pstep (code_at st rd sv) (b, Net (Receives 0))).
Proof.
  intros Hq Hd. unfold pairing_step. cbn [snd pairing_event punctual andb].
  rewrite end_of_code, peer_of_code. unfold next_message, end_at.
  cbn [e_inbox one mbind option_bind lookup list_lookup]. rewrite Hq. cbn [head].
  assert (negb (exchange_message d) || waiting (exchange_of b (st b)) = true) as ->.
  { destruct Hd as [-> | ->]; [done|]. apply orb_true_r. }
  unfold code_step. cbn [settles_exchange net_step]. rewrite end_of_code. unfold end_at.
  cbn [e_inbox e_world one mbind option_bind lookup list_lookup]. rewrite Hq.
  destruct (world_socks b (st b)) as [ls Hl]. unfold step. rewrite Hl.
  cbn [mbind option_bind lookup list_lookup k_state]. destruct (received d); by eexists.
Qed.

Definition stuck (x : code_net) : Prop := ∀ e, pstep x e = None.

Lemma not_stuck x e : stuck x → is_Some (pstep x e) → False.
Proof. intros Hs [y Hy]. by rewrite Hs in Hy. Qed.

(** A stuck side is ready, or waits in the exchange for a message that the other
    has not sent. *)
Lemma stuck_side st rd sv b :
  on_stage st rd sv → stuck (code_at st rd sv) →
  rd b = length (msgs b (st b) ++ tokens (st b))
  ∧ (st b = Over true true
     ∨ ∃ n, st b = Verify n ∧ waiting (peer_at b n) = true
            ∧ ((length (msgs (negb b) (st (negb b))) ≤ Pake.taken n)%nat
               ∨ (rd (negb b) < length (msgs (negb b) (st (negb b))))%nat)).
Proof.
  intros Hon Hs. pose proof (os_read _ _ _ Hon b) as Hr. pose proof (os_stage _ _ _ Hon b) as H8. split.
  { destruct (decide (rd b < length (msgs b (st b) ++ tokens (st b)))%nat); [|lia].
    destruct (not_stuck _ _ Hs (can_read _ _ _ b 0 {| Relay.e_id := []; Relay.e_draws := [] |} Hon l)). }
  destruct (st b) as [|n|tok ren] eqn:E.
  - destruct (not_stuck _ (b, Net (Receives 0)) Hs). eapply can_receive; [unfold queue; by rewrite E|left].
    unfold exchange_message, paired. by rewrite received_go_envelope by (by apply single_wf).
  - right. exists n. split; [done|].
    assert (waiting (peer_at b n) = true) as Hw.
    { pose proof (xresume_total (code_side b) (peer_at b n)) as Ht.
      unfold waiting. destruct (x_pc (peer_at b n)) eqn:Ex; try done;
        try (destruct (not_stuck _ _ Hs (can_resume _ _ sv b n E Ht))).
      destruct (peer_settled _ _ _ Ex H8) as [-> _].
      destruct (not_stuck _ _ Hs (can_settle _ rd sv b E)). }
    split; [done|]. destruct (decide (rd (negb b) < length (msgs (negb b) (st (negb b))))%nat); [by right|left].
    destruct (decide (length (msgs (negb b) (st (negb b))) ≤ Pake.taken n)%nat) as [|Hlt]; [done|exfalso].
    destruct (queue st rd b) as [|d q] eqn:Hq.
    + apply (f_equal length) in Hq. unfold queue in Hq. rewrite E in Hq. cbn [app pos length] in Hq.
      rewrite length_drop, length_take in Hq. lia.
    + eapply not_stuck; [exact Hs|]. eapply can_receive; [exact Hq|right]. by rewrite E.
  - left. destruct (tok && ren) eqn:Ht; [by destruct tok, ren|].
    destruct (not_stuck _ _ Hs (can_finish _ rd sv _ _ _ E Ht)).
Qed.

Lemma stuck_ready st rd sv :
  on_stage st rd sv → stuck (code_at st rd sv) → ∀ b, st b = Over true true ∧ rd b = 3%nat.
Proof.
  intros Hon Hs.
  assert (∀ b, st b = Over true true) as Hb.
  { destruct (stuck_side st rd sv false Hon Hs) as [R1 [E1|(n&E1&W1&Q1)]],
      (stuck_side st rd sv true Hon Hs) as [R2 [E2|(m&E2&W2&Q2)]].
    1: by intros [].
    all: exfalso; pose proof (os_stage _ _ _ Hon false); pose proof (os_stage _ _ _ Hon true);
      cbn [negb] in *; rewrite E1, E2 in *; rewrite ?length_app in *; unfold msgs in *; cbn [pos] in *.
    - destruct m as [|[|[|[|[|[|[|[|[|m]]]]]]]]]; try done; cbn in *; lia.
    - destruct n as [|[|[|[|[|[|[|[|[|n]]]]]]]]]; try done; cbn in *; lia.
    - destruct n as [|[|[|[|[|[|[|[|[|n]]]]]]]]]; try done;
        destruct m as [|[|[|[|[|[|[|[|[|m]]]]]]]]]; try done; cbn in *; lia. }
  intros b. split; [done|]. destruct (stuck_side st rd sv b Hon Hs) as [-> _]. rewrite Hb. by destruct b.
Qed.

(** *** A message that arrives early *)

Lemma rank_verify s n : rank s = S n → (n ≤ 8)%nat → s = Verify n.
Proof. intros Hr Hn. destruct s as [|m|tok ren]; simpl in Hr; [done| |lia]. by injection Hr as ->. Qed.

Lemma pairing_is_step x e y : pstep x e = Some y → cstep x e = Some y.
Proof. unfold pairing_step. by destruct (_ && _). Qed.

(** Where a side is after its next step in the exchange. *)
Lemma goes_to st rd sv b x n :
  goes_on st rd sv b x → rank (st b) = n → (n ≤ 8)%nat → on_stage st rd sv →
  x = code_at (upd b (Verify n) st) rd sv ∧ on_stage (upd b (Verify n) st) rd sv.
Proof.
  intros (s&->&Hf&Ht) Hr Hn Hon. pose proof Hf as (Hr'&_). rewrite Hr in Hr'.
  rewrite <- (rank_verify s n Hr' Hn). split; [done|]. by apply stage_moves.
Qed.

(** The host's first message, with the guest in the exchange but not listening
    yet. *)
Definition early (b : bool) : stage := if b then Verify 0 else Verify 1.
Definition early_read (b : bool) : nat := if b then 0%nat else 1%nat.

(** Both sides wait, with the same messages on their way. *)
Definition stranded (q : list data) (sv : Relay.server) : code_net :=
  {| c_net := net_at (one (world_of false (Verify 1)) hip 2 q) (one (world_of true (Verify 1)) gip 1 q) sv;
     c_left := peer_at false 1; c_right := peer_at true 1 |}.

Definition early_schedule : list (bool * code_event) := [(true, Net (Receives 0)); (true, Resumes)].

Lemma first_resumes b : xresume (code_side b) (peer_at b 0) = Some (peer_at b 1).
Proof.
  assert (peer_at b 0 = init_peer) as H0' by by destruct b.
  pose proof (xresume_total (code_side b) (peer_at b 0)) as Ht. rewrite H0' in Ht. destruct Ht as [q Hq].
  rewrite <- H0' in Hq. destruct (peer_resumes b 0 q Hq) as [-> _]; [lia|done].
Qed.

Lemma told_receives st rd sv b :
  on_stage st rd sv → st b = Told →
  cstep (code_at st rd sv) (b, Net (Receives 0)) = Some (code_at (upd b (Verify 0) st) rd sv)
  ∧ on_stage (upd b (Verify 0) st) rd sv.
Proof.
  intros Hon E.
  assert (is_Some (pstep (code_at st rd sv) (b, Net (Receives 0)))) as [x Hx].
  { eapply can_receive; [unfold queue; by rewrite E|left].
    unfold exchange_message, paired. by rewrite received_go_envelope by (by apply single_wf). }
  pose proof (pairing_is_step _ _ _ Hx) as Hc. unfold pairing_step in Hx.
  destruct (_ && _) eqn:Hp in Hx; [|done]. apply andb_true_iff in Hp as [_ Hp].
  destruct (goes_to st rd sv b x 0 (receive_moves _ _ _ _ _ _ Hon Hp Hx)) as [-> Hon']; [by rewrite E|lia|done|done].
Qed.

Lemma side_starts st rd sv b :
  on_stage st rd sv → st b = Verify 0 →
  cstep (code_at st rd sv) (b, Resumes) = Some (code_at (upd b (Verify 1) st) rd sv)
  ∧ on_stage (upd b (Verify 1) st) rd sv.
Proof.
  intros Hon E.
  destruct (can_resume st rd sv b 0 E) as [x Hx]; [rewrite first_resumes; by eexists|].
  apply pairing_is_step in Hx.
  destruct (goes_to st rd sv b x 1 (resume_moves _ _ _ _ _ Hon Hx)) as [-> Hon']; [by rewrite E|lia|done|done].
Qed.

(** The relay reads the host's message at [now]. *)
Definition first_schedule (now : Z) : list (bool * code_event) :=
  [(false, Net (Receives 0)); (false, Resumes);
   (false, Net (Reads 0 now {| Relay.e_id := []; Relay.e_draws := [] |})); (true, Net (Receives 0))].

(** The session while both sides wait: joined, listed, and not used since [t]. *)
Record idle_since (t : Z) (sv : Relay.server) : Prop := {
  is_ok : server_ok sv;
  is_listed : listed (Relay.hub sv);
  is_session : Relay.sessions (Relay.hub sv) !! sid = Some p;
  is_store : ∃ s, Relay.store (Relay.hub sv) !! p = Some s ∧ Relay.s_lastActivity s = t
    ∧ ∀ b : bool, Relay.s_peers s (role_of Relay.RoleHost b)
                  = Some (session_peer (conn_of b 0) (if b then gip else hip) [])
}.

(** The relay has just read a message of the exchange. *)
Lemma read_idle st rd sv b now en x :
  on_stage st rd sv → listed (Relay.hub sv) → (rd b < length (msgs b (st b)))%nat →
  cstep (code_at st rd sv) (b, Net (Reads 0 now en)) = Some x →
  serves (λ _, []) (n_server (c_net x)) → idle_since now (n_server (c_net x)).
Proof.
  intros Hon Hl Hlt Hx Hsv'. unfold code_step in Hx. cbn [settles_exchange] in Hx.
  apply bind_Some in Hx as (n&Hn&[= <-]). change (c_net (put_net _ n)) with n in *.
  cbn [net_step] in Hn. rewrite end_of_code in Hn. unfold end_at in Hn.
  cbn [e_world e_read one e_ip e_inbox] in Hn.
  destruct (world_socks b (st b)) as [ls Hls]. rewrite Hls in Hn.
  cbn [mbind option_bind lookup list_lookup k_sent] in Hn.
  apply bind_Some in Hn as (d&Hd&Hn). rewrite server_put in Hn.
  change ((msgs b (st b) ++ tokens (st b)) !! rd b = Some d) in Hd.
  rewrite lookup_app_l in Hd by done. destruct (msg_passes _ _ _ _ Hd) as (u&->&Hi&Hf).
  change (n_server (c_net (code_at st rd sv))) with sv in Hn.
  pose proof (os_serves _ _ _ Hon) as Hsv. destruct (serves_loop _ _ _ _ _ _ _ b Hsv) as [Hc Hseen].
  rewrite bool_decide_true in Hn by done.
  destruct (sv_store _ _ _ _ _ _ _ Hsv) as (s&Hs&_).
  destruct (Relay.step cfg sv (Relay.Later now (conn_of b 0) (DText u))) as [[sv' os]|] eqn:Hst; [|done].
  injection Hn as Hn. assert (n_server n = sv') as Hser.
  { rewrite <- Hn. exact (proj2 (written_all format_time os b _)). }
  assert (Relay.store (Relay.hub sv') !! p = Some (Relay.set_lastActivity s now)) as Hs'.
  { unfold Relay.step in Hst. rewrite Hc in Hst. cbn [mbind option_bind] in Hst. rewrite Hf in Hst.
    unfold Relay.serve_message in Hst. rewrite Hi in Hst. unfold Relay.Relay in Hst. rewrite Hs in Hst.
    injection Hst as <- _. apply list_lookup_insert_eq. by eapply lookup_lt_Some. }
  rewrite Hser in Hsv' |- *. destruct Hsv' as [[Hok _ _ _] Hli (s1&Hs1&Hp1) _ _].
  split; [done|by eapply step_listed|done|]. exists s1. rewrite Hs' in Hs1. by injection Hs1 as <-.
Qed.

Lemma first_run sv now :
  on_stage (λ _, Told) (λ _, O) sv → listed (Relay.hub sv) →
  ∃ sv', run cstep (first_schedule now) (code_at (λ _, Told) (λ _, O) sv) = Some (code_at early early_read sv')
    ∧ idle_since now sv'.
Proof.
  intros Hon Hli. destruct (told_receives _ _ _ false Hon eq_refl) as [S1 Hon1].
  destruct (side_starts _ _ _ false Hon1 eq_refl) as [S2 Hon2].
  destruct (can_read _ _ _ false now {| Relay.e_id := []; Relay.e_draws := [] |} Hon2) as [x Hx]; [simpl; lia|].
  apply pairing_is_step in Hx.
  destruct (read_moves _ _ _ _ _ _ _ _ Hon2 Hx) as (sv'&E&Hon3). subst x.
  destruct (told_receives _ _ _ true Hon3 eq_refl) as [S4 _].
  exists sv'. split.
  - unfold first_schedule. eapply run_cons; [exact S1|]. eapply run_cons; [exact S2|].
    eapply run_cons; [exact Hx|]. by eapply run_cons; [exact S4|].
  - eapply (read_idle _ _ sv false now _ _ Hon2 Hli) in Hx; [done|simpl; lia|].
    eapply serves_ext; [|exact (os_serves _ _ _ Hon3)]. by intros [].
Qed.

Lemma early_strands sv : run cstep early_schedule (code_at early early_read sv) = Some (stranded [] sv).
Proof.
  set (d := pake_msg (Bytes pa)).
  assert (page_step (world_of true (Verify 0)) (SockMessage 0 d) = Some (world_of true (Verify 0))) as Hd.
  { eapply page_ignores; [apply received_pake_msg, Bytes_unit|by left]. }
  set (x1 := {| c_net := net_at (one (world_of false (Verify 1)) hip 2 [])
                           (one (world_of true (Verify 0)) gip 1 []) sv;
                c_left := peer_at false 1; c_right := peer_at true 0 |}).
  apply run_cons with x1.
  - unfold code_step. cbn [settles_exchange].
    erewrite page_gets; [|reflexivity|exact Hd|reflexivity]. cbn [mbind option_bind]. unfold x1.
    assert (overhears rand true (code_at early early_read sv) 0 = peer_at true 0) as ->; [|done].
    change (xmessage init_peer d = init_peer). unfold xmessage. by destruct (received d).
  - apply run_cons with (stranded [] sv); [|done]. unfold code_step.
    change (the_exchange _ _) with (Some (0, 0, code_side true)%nat). cbn [mbind option_bind].
    change (get_peer true x1) with (peer_at true 0). by rewrite first_resumes.
Qed.

(** What can still happen to them: their connections can be lost, and the relay
    cleans up. *)
Definition interrupts (e : code_event) : bool :=
  match e with Net (Breaks _ _) | Net (Page (SockClose _)) | Net (Reaps _) => true | _ => false end.

Lemma stranded_stays sv b e : interrupts e = false → cstep (stranded [] sv) (b, e) = None.
Proof.
  intros He.
  assert (∃ w ip i n, get_end b (c_net (stranded [] sv)) = one w ip i [] ∧ w = world_of b (Verify 1)
    ∧ length (k_sent (default {| k_state := Open; k_listeners := []; k_sent := [] |} (socks w !! O))) = i
    ∧ get_peer b (stranded [] sv) = peer_at b n ∧ n = 1%nat) as (w&ip&i&n&Hx&->&Hl&Hp&->).
  { destruct b; by eexists _, _, _, 1%nat. }
  unfold code_step. rewrite Hx, Hp. cbn [e_world one].
  destruct e as [e| |].
  - destruct (settles_exchange _ e) eqn:Hse; [done|]. cbn [net_step]. rewrite Hx.
    cbn [e_world e_read e_inbox one].
    destruct e as [e|j now en|j|j now|now]; try done.
    + destruct e as [key input|j|j d|j|j|j r|j f|j|j|j t|h a|files]; try done.
      * by destruct b, j.
      * destruct j; [by destruct b|by destruct b].
    + destruct j; [|by destruct b]. cbn [lookup list_lookup mbind option_bind].
      destruct b; subst i; reflexivity.
    + by destruct j.
  - change (the_exchange _ _) with (Some (0, 0, code_side b)%nat). cbn [mbind option_bind]. by destruct b.
  - change (the_exchange _ _) with (Some (0, 0, code_side b)%nat). cbn [mbind option_bind]. by destruct b.
Qed.

(** *** The relay's clean-up while they wait *)

Definition ended : data := wire format_time (Relay.MSessionEnded "inactivity_timeout").

Lemma reap_writes sv now sv' o q :
  Relay.step cfg sv (Relay.Reap now) = Some (sv', o) →
  (∀ b, map (wire format_time) (to_conn (conn_of b 0) o) = q) →
  cstep (stranded [] sv) (false, Net (Reaps now)) = Some (stranded q sv').
Proof.
  intros Hs Hq. unfold code_step. cbn [settles_exchange net_step].
  change (n_server (c_net (stranded [] sv))) with sv. rewrite Hs.
  cbn [fmap option_fmap option_map mbind option_bind]. unfold put_net, stranded, served.
  cbn [c_net c_left c_right fst snd]. do 2 f_equal.
  assert (∀ b, _) as Hw by (intros b; exact (written_all format_time o b
    (put_server (net_at (one (world_of false (Verify 1)) hip 2 []) (one (world_of true (Verify 1)) gip 1 []) sv) sv'))).
  destruct (Hw false) as [Hl Hsv], (Hw true) as [Hr _]. destruct (fold_left _ _ _) as [x y sv1].
  cbn in Hl, Hr, Hsv. unfold net_at, one. rewrite Hl, Hr, Hsv, <- (Hq false) at 1. by rewrite <- (Hq true).
Qed.

Lemma idle_conn (b : bool) s :
  Relay.s_peers s (role_of Relay.RoleHost b) = Some (session_peer (conn_of b 0) (if b then gip else hip) []) →
  Relay.connAndIP s (role_of Relay.RoleHost b) = Some (conn_of b 0, if b then gip else hip).
Proof. intros Hs. unfold Relay.connAndIP. by rewrite Hs. Qed.

Lemma idle_used t now s :
  (∀ b : bool, Relay.s_peers s (role_of Relay.RoleHost b)
     = Some (session_peer (conn_of b 0) (if b then gip else hip) [])) →
  Relay.s_lastActivity s = t → now - t < Relay.SessionInactivityTimeout cfg → expired cfg s now = false.
Proof.
  intros Hp <- Ht. unfold expired. rewrite (proj2 (Z.leb_gt _ _)) by done.
  pose proof (Hp false) as H0'. pose proof (Hp true) as H1'. simpl in H0', H1'.
  unfold Relay.graceExpired. by rewrite H0', H1'.
Qed.

(** Before the timeout the clean-up leaves them as they are, afterwards it tells
    both that the session has ended. *)
Lemma reap_spares t sv now :
  idle_since t sv → now - t < Relay.SessionInactivityTimeout cfg →
  ∃ sv', cstep (stranded [] sv) (false, Net (Reaps now)) = Some (stranded [] sv') ∧ idle_since t sv'.
Proof.
  intros [Hok Hl Hse (s&Hs&Ht&Hp)] Hnow. pose proof (idle_used t now s Hp Ht Hnow) as Hx.
  destruct (Relay.step cfg sv (Relay.Reap now)) as [[sv' o]|] eqn:E.
  2: { unfold Relay.step in E. by destruct (Relay.ReapOnce _ _ _). }
  destruct (reap_used cfg sv now sv' o sid p s Hok Hl E Hse Hs Hx) as (Hq&Hse'&Hst&_&_).
  exists sv'. split.
  - eapply reap_writes; [exact E|]. intros b.
    rewrite (Hq (role_of Relay.RoleHost b)); [done|]. eapply slot_connAndIP; [done|by apply idle_conn].
  - split; [by eapply step_server_ok|by eapply step_listed|done|]. exists s. by rewrite Hst.
Qed.

Lemma reap_ends t sv now :
  idle_since t sv → Relay.SessionInactivityTimeout cfg ≤ now - t →
  ∃ sv', cstep (stranded [] sv) (false, Net (Reaps now)) = Some (stranded [ended] sv').
Proof.
  intros [Hok Hl Hse (s&Hs&Ht&Hp)] Hnow. subst t.
  destruct (Relay.step cfg sv (Relay.Reap now)) as [[sv' o]|] eqn:E.
  2: { unfold Relay.step in E. by destruct (Relay.ReapOnce _ _ _). }
  exists sv'. eapply reap_writes; [exact E|]. intros b.
  by erewrite (reap_idle cfg sv now sv' o sid p s); [|done..|by apply idle_conn|done].
Qed.

Lemma spared_run t ts : ∀ sv,
  idle_since t sv → Forall (λ now, now - t < Relay.SessionInactivityTimeout cfg) ts →
  ∃ sv', run cstep (map (λ now, (false, Net (Reaps now))) ts) (stranded [] sv) = Some (stranded [] sv')
    ∧ idle_since t sv'.
Proof.
  induction ts as [|now ts IH]; intros sv Hi Hts; [by exists sv|].
  apply Forall_cons in Hts as [Hnow Hts]. destruct (reap_spares t sv now Hi Hnow) as (sv1&Hs1&Hi1).
  destruct (IH sv1 Hi1 Hts) as (sv'&Hr&Hi'). exists sv'. split; [|done]. by eapply run_cons.
Qed.

(** Neither page listens to the news; the close of its connection ends the wait. *)
Definition ending_schedule : list (bool * code_event) :=
  [(false, Net (Receives 0)); (true, Net (Receives 0));
   (false, Net (Page (SockClose 0))); (true, Net (Page (SockClose 0)))].

Lemma verifying_hears b :
  page_step (world_of b (Verify 1)) (SockMessage 0 ended) = Some (world_of b (Verify 1)).
Proof.
  unfold step, ended. cbn [world_of socks verifying page_world]. cbn [Network.wire].
  rewrite received_go_envelope by (by apply single_wf, js_unit_ok).
  set (env := JObj _).
  change (Some (on_message location randomKey (verifying code sid b (x_sent (peer_at b 1))) 0 (flow code b) env)
          = Some (verifying code sid b (x_sent (peer_at b 1)))).
  by destruct b.
Qed.

Lemma verifying_closes b :
  ∃ w, page_step (world_of b (Verify 1)) (SockClose 0) = Some w ∧ length (socks w) = 1%nat
    ∧ cs w = error_screen (Some (js "connection_lost")).
Proof. destruct b; eexists; by split_and!. Qed.

Lemma ended_ignored b : xmessage (peer_at b 1) ended = peer_at b 1.
Proof.
  unfold xmessage, ended. cbn [Network.wire]. rewrite received_go_envelope by (by apply single_wf, js_unit_ok).
  by destruct b.
Qed.

Lemma ended_run sv :
  ∃ z, run cstep ending_schedule (stranded [ended] sv) = Some z
    ∧ ∀ b, cs (e_world (get_end b (c_net z))) = error_screen (Some (js "connection_lost")).
Proof.
  destruct (verifying_closes false) as (w0&Hw0&Hl0&Hc0), (verifying_closes true) as (w1&Hw1&Hl1&Hc1).
  set (mk := λ x y, {| c_net := net_at x y sv; c_left := peer_at false 1; c_right := peer_at true 1 |}).
  exists (mk (one w0 hip 2 []) (one w1 gip 1 [])). split; [|by intros []]. unfold ending_schedule.
  apply run_cons with (mk (one (world_of false (Verify 1)) hip 2 []) (one (world_of true (Verify 1)) gip 1 [ended])).
  { unfold code_step. cbn [settles_exchange].
    erewrite page_gets; [|reflexivity|apply verifying_hears|reflexivity]. cbn [mbind option_bind].
    change (overhears rand false (stranded [ended] sv) 0) with (xmessage (peer_at false 1) ended).
    by rewrite ended_ignored. }
  apply run_cons with (mk (one (world_of false (Verify 1)) hip 2 []) (one (world_of true (Verify 1)) gip 1 [])).
  { unfold code_step. cbn [settles_exchange].
    erewrite page_gets; [|reflexivity|apply verifying_hears|reflexivity]. cbn [mbind option_bind].
    assert (∀ x, overhears rand true (mk x (one (world_of true (Verify 1)) gip 1 [ended])) 0
                 = xmessage (peer_at true 1) ended) as -> by done.
    by rewrite ended_ignored. }
  apply run_cons with (mk (one w0 hip 2 []) (one (world_of true (Verify 1)) gip 1 [])).
  { unfold code_step. cbn [settles_exchange].
    by erewrite page_moves; [|reflexivity|reflexivity|exact Hw0|by rewrite Hl0]. }
  apply run_cons with (mk (one w0 hip 2 []) (one w1 gip 1 [])); [|done].
  unfold code_step. cbn [settles_exchange].
  by erewrite page_moves; [|reflexivity|reflexivity|exact Hw1|by rewrite Hl1].
Qed.

End Stages.
