(* ===== verification/CodePair.v ===== *)
(** * Pairing by a code through the relay

    The users open a session with a code and type it; then, on every schedule on
    which no message of the key exchange arrives before its listener, both pages
    end paired with one key. A message that does arrive early strands them until
    the relay's reaper ends the session. *)

From stdpp Require Import base list list_numbers gmap sets strings.
From Stdlib Require Import ZArith Lia.
From S2P Require Import Prelude JsText Hex Json Utf8 Crypto WsClient PairingText PageState.
From S2P Require Import Pairing Session RoleSwap Pake Hub HubFacts HubLimits HubPair HubReap HubLeak Messages.
From S2P Require Import Network SwapNet ReconnectNet PairNet CodeNet CodeStages.
Open Scope Z_scope.

(** ** The code *)

Lemma length_digits fuel z acc m :
  0 ≤ z < 10 ^ Z.of_nat (S m) → (length (digits_aux fuel 10 z acc) ≤ S m + length acc)%nat.
Proof.
  revert z acc m. induction fuel as [|fuel IH]; intros z acc m Hz; cbn [digits_aux]; [lia|].
  case_match eqn:E; [cbn; lia|]. apply Z.ltb_ge in E. destruct m as [|m]; [simpl in Hz; lia|].
  rewrite (Nat2Z.inj_succ (S m)), Z.pow_succ_r in Hz by lia.
  etrans; [apply (IH (z / 10) _ m)|cbn; lia].
  split; [apply Z.div_pos; lia|apply Z.div_lt_upper_bound; lia].
Qed.

(** The relay's codes have six digits: its random numbers are below a million. *)
Lemma format_code_six n :
  0 ≤ n < 10 ^ 6 → Forall (λ c, 48 ≤ c ≤ 57) (Relay.format_code n) ∧ length (Relay.format_code n) = 6%nat.
Proof.
  intros Hn. unfold Relay.format_code, padStart. split.
  - apply Forall_app. split; [apply Forall_replicate; lia|].
    eapply Forall_impl; [apply num_to_string_digits; lia|]. intros c. unfold is_digit, digit_val.
    destruct ((48 <=? c) && (c <=? 57)) eqn:E; [apply andb_true_iff in E; lia|].
    destruct ((97 <=? c) && (c <=? 122)) eqn:E1; [|destruct ((65 <=? c) && (c <=? 90)) eqn:E2; [|done]];
      cbn [mbind option_bind]; case_match eqn:E3; try done; destruct (_ <? 10) eqn:E4; try done;
      rewrite ?andb_true_iff in *; lia.
  - rewrite length_app, length_replicate. unfold num_to_string.
    pose proof (length_digits (S (Z.to_nat (Z.log2 n))) n [] 5 Hn). simpl in *. lia.
Qed.

(** ** Pairing by a code *)

Section Opening.
Context `{WebCryptoLaws, PakeLib}.
Context (format_time : Z → jsstr) (cfg : Relay.Config).
Context (location : url) (randomKey : nat → bytes) (rand : bool → Z).
Abbreviation cstep := (code_step format_time cfg location randomKey rand).
Abbreviation page_step := (step location randomKey).

(** A network whose pages have no exchange yet. *)
Definition opening_net (n : net) : code_net := {| c_net := n; c_left := init_peer; c_right := init_peer |}.

Lemma code_lift n b e n' :
  net_step format_time cfg location randomKey n (b, e) = Some n' →
  promises (e_world (get_end b n)) = [] →
  cstep (opening_net n) (b, Net e) = Some (opening_net n').
Proof.
  intros Hn Hp. unfold code_step. cbn [c_net opening_net].
  assert (settles_exchange (e_world (get_end b n)) e = false) as ->.
  { unfold settles_exchange. destruct e as [e| | | |]; try done. destruct e; try done. by rewrite Hp. }
  rewrite Hn. cbn [mbind option_bind]. unfold put_net, opening_net. f_equal.
  destruct e; try done. unfold overhears, the_exchange. cbn [c_net]. rewrite Hp. by destruct b.
Qed.

(** A page without a socket, before and after. *)
Lemma page_browses n b ip w e w' :
  get_end b n = page_at ip w → is_message e = false → page_step w e = Some w' →
  length (socks w) = O → length (socks w') = O →
  net_step format_time cfg location randomKey n (b, Page e) = Some (put_end b n (page_at ip w')).
Proof.
  intros Hx He Hs Hl Hl'. rewrite put_end_eta. rewrite (net_of_eta b n) at 1. rewrite Hx.
  rewrite page_event with (w := w') by done. rewrite with_page_same by (cbn [e_world page_at]; lia). done.
Qed.

End Opening.

Ltac code_net tac := eapply run_cons; [apply code_lift; [tac|reflexivity]|]; net_tidy.

Section Pairing.
Context `{WebCryptoLaws, PakeLaws}.
Context (format_time : Z → jsstr) (Htime : ∀ t, Forall unit_ok (format_time t)).
Context (cfg : Relay.Config) (location : url) (randomKey : nat → bytes) (rand : bool → Z).
Context (sid : jsstr) (Hsid : Forall unit_ok sid) (Hne : sid ≠ []) (Hshort : (length sid ≤ 1000)%nat).

(** A server with room for two more connections, to which the pages are new, and
    which lets the guest guess; its random numbers give a code that is not in
    use. The guest uses the code in time. *)
Context (sv : Relay.server) (hip gip : jsstr) (t0 t1 : Z).
Context (Hok : server_ok sv) (Hhold : loops_hold sv).
Context (Hnew : ∀ b k, conn_of b k ∉ Relay.seen sv).
Context (Hroom : ∀ ip, ip = hip ∨ ip = gip →
                   0 ≤ Relay.count (Relay.hub sv) ip < Relay.MaxSessionsPerIP cfg - 1).
Context (Hguess : Relay.gb_count (Relay.current_budget cfg (Relay.hub sv) gip t1)
                  < Relay.MaxPairingAttempts cfg).
Context (Hintime : t1 ≤ t0 + Relay.PairingCodeTTL cfg).
Context (draws : list Z) (Hdraws : Forall (λ d, 0 ≤ d < 10 ^ 6) draws).
Context (code : jsstr) (Hdrawn : Relay.newUniqueCodeLocked (Relay.hub sv) draws = Some code).
Abbreviation en := {| Relay.e_id := sid; Relay.e_draws := draws |}.
Abbreviation p := (length (Relay.store (Relay.hub sv))).

(** The library, when both sides have this code. *)
Context (pa pb pa' pb' : pake_t) (k : bytes).
Context (Hpake : pake_agree (code_side rand code false) (code_side rand code true) pa pb pa' pb' k).
Context (Hk : length k = 32%nat).
Context (Hsmall : ∀ q, q = pa ∨ q = pb' → Z.of_nat (length (Bytes q)) ≤ 40000).

Abbreviation cstep := (code_step format_time cfg location randomKey rand).
Abbreviation pstep := (pairing_step format_time cfg location randomKey rand).

Lemma drawn_six : Forall (λ c, 48 ≤ c ≤ 57) code ∧ length code = 6%nat.
Proof.
  unfold Relay.newUniqueCodeLocked in Hdrawn. apply fmap_Some in Hdrawn as ((i&c)&Hf&->).
  apply list_find_Some in Hf as (Hi&_&_). simpl.
  apply list_lookup_fmap_Some in Hi as (n&->&Hi). apply format_code_six.
  apply lookup_take_Some in Hi as [Hi _]. by eapply Forall_lookup_1 in Hdraws.
Qed.

Definition code_hosting : Relay.Session :=
  Relay.set_lastActivity (Relay.set_peer (Relay.newSession sid t0) Relay.RoleHost (session_peer 0 hip [])) t0.

Definition hosted : Relay.server := code_hosted cfg sid code sv t0 hip 0.
Definition joined : Relay.server := code_joined cfg code hosted p code_hosting t1 gip 1.

Definition host_opening : list (bool * code_event) :=
  [(false, Net (Page (Click "remoteCodeLink" []))); (false, Net (Page (Click "roleReceive" [])));
   (false, Net (Page (SockOpen 0))); (false, Net (Reads 0 t0 en)); (false, Net (Receives 0))].

(** The guest types what the host's page shows. *)
Definition guest_opening : list (bool * code_event) :=
  [(true, Net (Page (Click "remoteCodeLink" []))); (true, Net (Page (Click "roleSend" [])));
   (true, Net (Page (Click "senderPasteButton" (codeInput (formatCode code)))));
   (true, Net (Page (SockOpen 0))); (true, Net (Reads 0 t1 en))].

Definition code_start : code_net :=
  opening_net (net_at (page_at hip (start true [])) (page_at gip (start true [])) sv).

Definition shown : code_net :=
  opening_net (net_at (one (code_waiting code false) hip 1 []) (page_at gip (start true [])) hosted).

Lemma host_count : Relay.count (Relay.hub sv) hip < Relay.MaxSessionsPerIP cfg.
Proof. pose proof (Hroom hip (or_introl eq_refl)). lia. Qed.

Lemma hosted_step :
  Relay.step cfg sv (Relay.First t0 hip 0 en create_code_message)
  = Some (hosted, [Relay.Send 0 (Relay.MCodeSessionCreated code (t0 + Relay.PairingCodeTTL cfg))]).
Proof. apply relay_creates_code; [apply (Hnew false 0)|apply host_count|done|done]. Qed.

Lemma hosted_counts ip :
  Relay.count (Relay.hub hosted) ip
  = Relay.count (Relay.hub sv) ip + if decide (hip = ip) then 1 else 0.
Proof.
  change (Relay.count (Relay.hub hosted)) with (Relay.count (Relay.add_session (Relay.hub sv) t0 hip 0 sid)).
  unfold Relay.add_session. rewrite count_incr.
  change (Relay.count (Relay.with_sessions _ _)) with (Relay.count (Relay.hub sv)). case_decide; subst; lia.
Qed.

Lemma joined_step :
  Relay.step cfg hosted (Relay.First t1 gip 1 en (join_code_message code))
  = Some (joined, [Relay.Send 0 (Relay.MPaired sid); Relay.Send 1 (Relay.MPaired sid)]).
Proof.
  destruct drawn_six as [Hc H6].
  eapply (relay_joins_code cfg sid code hosted t1 gip 1 en p code_hosting 0);
    [by apply code_unit|by rewrite H6| |done|apply lookup_insert_eq|done|done| |apply lookup_insert_eq| |done|done].
  - pose proof (Hnew true 0). unfold hosted, code_hosted. cbn [Relay.seen]. set_solver.
  - pose proof (Hroom gip (or_intror eq_refl)). pose proof (Hroom hip (or_introl eq_refl)).
    rewrite hosted_counts. case_decide; subst; lia.
  - unfold hosted, code_hosted, Relay.add_session. simpl. by rewrite lookup_app_r, Nat.sub_diag by lia.
Qed.

Lemma host_opens_code : run cstep host_opening code_start = Some shown.
Proof.
  destruct drawn_six as [Hc H6]. unfold host_opening, code_start.
  code_net ltac:(eapply page_browses; [reflexivity|reflexivity|apply page_chooses|reflexivity..]).
  code_net ltac:(eapply page_connects; [reflexivity|reflexivity|apply (host_asks _ _ code)|reflexivity..]).
  code_net ltac:(eapply page_moves; [reflexivity|reflexivity|apply page_opens|reflexivity]).
  code_net ltac:(eapply (relay_gets _ _ _ _ _ _ _ _ _ _ _ _ _ _ hosted); [reflexivity..|]).
  { cbn [n_server net_at]. change (conn_of false 0) with 0%nat.
    rewrite bool_decide_false by apply (Hnew false 0). apply hosted_step. }
  code_net ltac:(eapply page_gets; [reflexivity|by apply host_shows, Htime|reflexivity]).
  reflexivity.
Qed.

Lemma guest_opens_code :
  run cstep guest_opening shown
  = Some (code_at sid code hip gip pa pb pa' pb' k (λ _, Told) (λ _, O) joined).
Proof.
  destruct drawn_six as [Hc H6]. unfold guest_opening, shown.
  code_net ltac:(eapply page_browses; [reflexivity|reflexivity|apply page_chooses|reflexivity..]).
  code_net ltac:(eapply page_browses; [reflexivity|reflexivity|apply guest_chooses|reflexivity..]).
  code_net ltac:(eapply page_connects; [reflexivity|reflexivity|by apply guest_asks|reflexivity..]).
  code_net ltac:(eapply page_moves; [reflexivity|reflexivity|apply page_opens|reflexivity]).
  code_net ltac:(eapply (relay_gets _ _ _ _ _ _ _ _ _ _ _ _ _ _ joined); [reflexivity..|]).
  { cbn [n_server net_at]. change (conn_of true 0) with 1%nat. pose proof (Hnew true 0).
    rewrite bool_decide_false by (unfold hosted, code_hosted; cbn [Relay.seen]; set_solver). apply joined_step. }
  cbn [run]. done.
Qed.

Lemma joined_serves : serves cfg sid hip gip p (λ _, []) joined.
Proof.
  pose proof (step_server_ok _ _ _ _ _ Hok hosted_step) as Hok1.
  pose proof (step_server_ok _ _ _ _ _ Hok1 joined_step) as Hok2.
  pose proof (step_hold _ _ _ _ _ Hhold hosted_step) as Hh1.
  pose proof (step_hold _ _ _ _ _ Hh1 joined_step) as Hh2. split.
  - split; [done|done|by unfold joined, code_joined; simpl; rewrite lookup_insert_ne, lookup_insert_eq|apply lookup_insert_eq].
  - apply lookup_insert_eq.
  - eexists. split.
    + unfold joined, code_joined. simpl. apply list_lookup_insert_eq. rewrite length_app. simpl. lia.
    + by intros [].
  - intros ip Hip. unfold joined, code_joined. cbn [Relay.hub]. rewrite count_incr.
    change (Relay.count (Relay.update _ _ _)) with (Relay.count (Relay.hub hosted)). rewrite !hosted_counts.
    pose proof (Hroom hip (or_introl eq_refl)). pose proof (Hroom gip (or_intror eq_refl)).
    repeat case_decide; subst; destruct Hip; subst; try done; lia.
  - intros b j Hj. change (Relay.seen joined) with ({[1%nat]} ∪ ({[0%nat]} ∪ Relay.seen sv)).
    pose proof (Hnew b j). unfold conn_of in *. destruct b; set_solver by lia.
Qed.

(** The server lists its sessions under their IDs. *)
Context (Hlisted : listed (Relay.hub sv)).

Lemma joined_listed : listed (Relay.hub joined).
Proof. eapply step_listed, joined_step. eapply step_listed, hosted_step. exact Hlisted. Qed.

Lemma joined_on_stage :
  on_stage cfg sid hip gip p pa pb pa' pb' k (λ _, Told) (λ _, O) joined.
Proof. split; intros; [cbn; lia|lia|done|apply joined_serves]. Qed.

(** Both sides at the end. *)
Lemma paired_at_last st rd s :
  on_stage cfg sid hip gip p pa pb pa' pb' k st rd s → (∀ b, st b = Over true true ∧ rd b = 3%nat) →
  let n := c_net (code_at sid code hip gip pa pb pa' pb' k st rd s) in
  session_up cfg p Relay.RoleHost (λ _, O) n 0
  ∧ (∀ b, cs (e_world (get_end b n)) = set_token (paired_screen (Some sid) (Some k) (role_at b)) (token k sid))
  ∧ (∀ b, swapAwaitingResponse (vars (e_world (get_end b n))) = false)
  ∧ (∀ b, (activeTransferHandle (vars (e_world (get_end b n))) ≫= λ h, handles (e_world (get_end b n)) !! h)
          = Some (screen_handle (role_at_start (role_at b)))).
Proof.
  intros Hon Hr.
  assert (∀ b, end_at sid code hip gip pa pb pa' pb' k st rd b
               = one (ready k sid (role_at b) (flow code b) (asks code b :: msgs pa pb pa' pb' k b (Over true true)))
                   (if b then gip else hip) 4 []) as He.
  { intros b. unfold end_at, queue. destruct (Hr b) as [-> ->], (Hr (negb b)) as [-> ->]. by destruct b. }
  unfold code_at. cbn [c_net]. rewrite (He false), (He true). split_and!; [|by intros []..].
  apply (ready_up cfg k sid hip gip p Hk Hsid Hshort); [|done..].
  eapply serves_ext; [|exact (os_serves _ _ _ _ _ _ _ _ _ _ _ _ _ Hon)].
  intros b. simpl. by destruct (Hr b) as [_ ->].
Qed.

(** C9: Pairing by a code works through the relay, on every schedule: the host's page
    shows the code the relay drew, the guest types what is shown, and the relay
    joins the two connections. Then, however the relay reads the messages and the
    pages receive them and however the promises of the key exchange and of the
    pages settle, as long as no message of the exchange arrives before its
    listener, the run is over after 30 events, and only then: both pages are on
    the paired screen, settled on their connections, with the session, the key of
    the exchange and the reconnect token of both, in epoch 0, the host receiving
    and the guest sending, each with the transfer screen of that epoch and role,
    and able to reconnect. *)
Theorem code_pairs_pages :
  ∃ x0, run cstep host_opening code_start = Some shown
    ∧ cs (e_world (n_left (c_net shown))) = code_screen (Some code)
    ∧ run cstep guest_opening shown = Some x0
    ∧ ∀ es x, run pstep es x0 = Some x →
        (length es ≤ 30)%nat
        ∧ ((∀ e, pstep x e = None) →
             length es = 30%nat
             ∧ session_up cfg p Relay.RoleHost (λ _, O) (c_net x) 0
             ∧ (∀ b, cs (e_world (get_end b (c_net x)))
                     = set_token (paired_screen (Some sid) (Some k) (role_at b)) (token k sid))
             ∧ (∀ b, swapAwaitingResponse (vars (e_world (get_end b (c_net x)))) = false)
             ∧ (∀ b, (activeTransferHandle (vars (e_world (get_end b (c_net x))))
                      ≫= λ h, handles (e_world (get_end b (c_net x))) !! h)
                     = Some (screen_handle (role_at_start (role_at b))))).
Proof.
  destruct drawn_six as [Hc H6]. eexists. split; [apply host_opens_code|split; [done|]].
  split; [apply guest_opens_code|]. intros es x Hrun.
  destruct (pairing_run format_time cfg location randomKey rand sid Hsid Hne Hshort code Hc H6 hip gip p
              pa pb pa' pb' k Hpake Hk Hsmall es _ _ _ x joined_on_stage Hrun) as (st&rd&s&->&Hon&Hm).
  assert (measure st rd ≤ 30)%nat as Hle by by eapply rank_bound.
  change (measure (λ _, Told) (λ _, O)) with O in Hm. split; [lia|]. intros Hs.
  assert (∀ b, st b = Over true true ∧ rd b = 3%nat) as Hr by (intros b; by eapply stuck_ready).
  split; [|by apply paired_at_last].
  destruct (Hr false) as [S0 R0], (Hr true) as [S1 R1]. unfold measure in Hm. rewrite S0, S1, R0, R1 in Hm.
  simpl in Hm. lia.
Qed.

(** C35: A message of the key exchange that arrives early strands both pages. When
    the host's first message reaches the guest's page while that still loads its
    WASM module, nobody listens, and both wait for a message that does not come.
    They show the screen that says that the code is being verified, which has no
    button; nothing can happen but that a connection is lost or that the relay
    cleans up, and whenever it does so less than the inactivity timeout after it
    read that message, all stays as it is. The first clean-up after that tells both
    that the session has ended, which neither page listens to; when it has closed
    their connections, both show that the connection was lost. *)
Theorem early_message_strands_pages t2 :
  ∃ x, run cstep (host_opening ++ guest_opening ++ first_schedule t2 ++ early_schedule) code_start = Some x
    ∧ ∀ ts, Forall (λ now, now - t2 < Relay.SessionInactivityTimeout cfg) ts →
      ∃ y, run cstep (map (λ now, (false, Net (Reaps now))) ts) x = Some y
        ∧ (∀ b, cs (e_world (get_end b (c_net y))) = at_screen Verifying
                ∧ v_buttons (screen_view (cs (e_world (get_end b (c_net y))))) = [])
        ∧ (∀ b e, interrupts e = false → cstep y (b, e) = None)
        ∧ ∀ now, Relay.SessionInactivityTimeout cfg ≤ now - t2 →
            ∃ y' z, cstep y (false, Net (Reaps now)) = Some y'
              ∧ (∀ b, e_inbox (get_end b (c_net y'))
                      = [[wire format_time (Relay.MSessionEnded "inactivity_timeout")]])
              ∧ run cstep ending_schedule y' = Some z
              ∧ ∀ b, cs (e_world (get_end b (c_net z))) = error_screen (Some (js "connection_lost")).
Proof.
  destruct drawn_six as [Hc H6].
  destruct (first_run format_time cfg location randomKey rand sid Hsid Hne Hshort code Hc H6 hip gip p
              pa pb pa' pb' k Hpake Hk Hsmall joined t2 joined_on_stage joined_listed) as (sv'&Hf&Hi).
  exists (stranded sid code hip gip pa pb pa' pb' k [] sv'). split.
  { rewrite run_app, host_opens_code. cbn [mbind option_bind].
    rewrite run_app, guest_opens_code. cbn [mbind option_bind].
    rewrite run_app, Hf. cbn [mbind option_bind]. by eapply early_strands. }
  intros ts Hts. edestruct spared_run as (sv2&Hr&Hi2); [exact Hi|exact Hts|].
  eexists. split; [exact Hr|]. split; [by intros []|].
  split; [intros b e; by apply stranded_stays|].
  intros now Hnow. edestruct reap_ends as (sv3&Hr3); [exact Hi2|exact Hnow|].
  edestruct ended_run as (z&Hz&Hcs). exists (stranded sid code hip gip pa pb pa' pb' k [ended format_time] sv3), z.
  split; [exact Hr3|]. split; [by intros []|]. by split.
Qed.

End Pairing.
