(* ===== verification/Relayed.v ===== *)
(** * A transfer through the relay

    The two ends of Link on two connections of the relay of Hub: each side's
    messages reach the relay in the order they were sent, it writes to the other
    side's connection, and what it wrote arrives in that order. Meanwhile other
    connections come and go and other sessions do whatever they do. The pair
    then behaves as the two ends of one connection, so that the theorems of
    Transfer and Delivery hold of it. *)

From stdpp Require Import base list list_numbers gmap sets strings.
From Stdlib Require Import ZArith Lia.
From S2P Require Import Prelude JsText Hex Json Utf8 Crypto WsClient Frame Sender Receiver.
From S2P Require Import Stream Pacing Link Transfer FileWriter TransferUi Delivery.
From S2P Require Import Hub HubFacts HubLimits HubPair Messages Network.
Open Scope Z_scope.

Record relayed := {
  y_link : link;            (* both ends, and how much each of them has received *)
  y_server : Relay.server;
  y_up : nat;               (* messages of the sender that the relay has read *)
  y_down : nat;             (* ... of the receiver *)
  y_fwd : list data;        (* written to the receiver's connection *)
  y_back : list data        (* ... to the sender's *)
}.

Inductive relayed_event :=
| EvEnd (e : link_event)    (* an event of either end, or a message arrives there *)
| EvUp (now : Z)            (* the relay reads the sender's next message *)
| EvDown (now : Z)          (* ... the receiver's *)
| EvElse (e : Relay.event). (* anything else at the relay *)

Definition put_link (y : relayed) (l : link) : relayed :=
  {| y_link := l; y_server := y_server y; y_up := y_up y; y_down := y_down y;
     y_fwd := y_fwd y; y_back := y_back y |}.
Definition put_read (y : relayed) (up down : nat) : relayed :=
  {| y_link := y_link y; y_server := y_server y; y_up := up; y_down := down;
     y_fwd := y_fwd y; y_back := y_back y |}.
Definition put_relay (y : relayed) (sv : Relay.server) (fwd back : list data) : relayed :=
  {| y_link := y_link y; y_server := sv; y_up := y_up y; y_down := y_down y;
     y_fwd := fwd; y_back := back |}.

Section Relayed.
Context `{WebCrypto}.
Context (args : send_args).
Context (rkey : bytes).     (* the epoch key of the receiver's screen *)
Context (format_time : Z → jsstr) (cfg : Relay.Config).
Context (p a b : nat).      (* the session, the sender's and the receiver's connection *)

(** What the relay has written to a connection. *)
Definition written_to (c : nat) (os : list Relay.out) : list data :=
  omap (λ o, match o with
             | Relay.Send c' m => if decide (c' = c) then Some (wire format_time m) else None
             | Relay.Close _ _ => None
             end) os.

Definition relay_moves (y : relayed) (e : Relay.event) : option relayed :=
  '(sv, os) ← Relay.step cfg (y_server y) e;
  Some (put_relay y sv (y_fwd y ++ written_to b os) (y_back y ++ written_to a os)).

(** The relay's other events are [foreign]: not the pair's own, and no reap that
    finds its session out of use. *)
Definition relayed_step (y : relayed) (e : relayed_event) : option relayed :=
  let l := y_link y in
  match e with
  | EvEnd EvForward =>
      m ← y_fwd y !! l_fwd l;
      r ← receiver_step rkey (l_rx l) (RMessage m);
      Some (put_link y {| l_tx := l_tx l; l_rx := r; l_fwd := S (l_fwd l); l_back := l_back l |})
  | EvEnd EvBack =>
      m ← y_back y !! l_back l;
      s ← sendFile_step args (l_tx l) (SMessage m);
      Some (put_link y {| l_tx := s; l_rx := l_rx l; l_fwd := l_fwd l; l_back := S (l_back l) |})
  | EvEnd (EvRecv (RMessage _)) => None
  | EvEnd (EvRecv e) =>
      r ← receiver_step rkey (l_rx l) e;
      Some (put_link y {| l_tx := l_tx l; l_rx := r; l_fwd := l_fwd l; l_back := l_back l |})
  | EvEnd e => put_link y <$> link_step args l e
  | EvUp now =>
      d ← s_sent (l_tx l) !! y_up y;
      relay_moves (put_read y (S (y_up y)) (y_down y)) (Relay.Later now a d)
  | EvDown now =>
      d ← r_sent (l_rx l) !! y_down y;
      relay_moves (put_read y (y_up y) (S (y_down y))) (Relay.Later now b d)
  | EvElse e => if decide (foreign cfg p a b (y_server y) e) then relay_moves y e else None
  end.

End Relayed.

Definition init_relayed (sv : Relay.server) : relayed :=
  {| y_link := init_link; y_server := sv; y_up := 0; y_down := 0; y_fwd := []; y_back := [] |}.

(** The ends' events of a run. *)
Definition ends (es : list relayed_event) : list link_event :=
  omap (λ e, match e with EvEnd e => Some e | _ => None end) es.

#[export] Instance is_end_dec e : Decision (∃ e', e = EvEnd e').
Proof. destruct e; [left; by eexists|right; by intros [e' ?]..]. Defined.

Definition relayed_event_ok (e : relayed_event) : Prop :=
  match e with EvEnd e => link_event_ok e | _ => True end.

Definition calm_relayed (e : relayed_event) : bool :=
  match e with EvEnd e => calm_link e | _ => true end.

(** ** The relay is a connection *)

Section Facts.
Context `{WebCryptoLaws}.
Context (args : send_args) (Hargs : args_ok args).
Context (format_time : Z → jsstr) (cfg : Relay.Config).
Context (p : nat) (role : Relay.Role) (a b : nat).

Local Abbreviation f := (sa_file args).
Local Abbreviation fileId := (sa_fileId args).
Local Abbreviation total := (totalChunks f).
Local Abbreviation step := (relayed_step args (sa_epochKey args) format_time cfg p a b).
Local Abbreviation written_to := (written_to format_time).

(** The metadata is no larger than what the relay reads, and the file with its
    frames no larger than what it passes on. *)
Context (Hmeta : Relay.too_large (meta_msg args) = false).
Context (Hsize : f_size f + 42 * total ≤ Relay.MaxFileSize cfg).

(** The relay has counted the chunks among the first [n] messages, at most. *)
Definition counted (n : nat) (c : Relay.currentFileState) : Prop :=
  Z.of_nat n ≤ total → ∀ s, Relay.s_currentFile s = c →
  ∃ m, m ≤ 42 * Z.of_nat (n - 1) + offset args (Z.of_nat (n - 1)) ∧ passing fileId m s.

Lemma counted_more n c : counted n c → counted (S n) c.
Proof.
  intros Hc Hn s Hs. destruct (Hc ltac:(lia) s Hs) as (m&Hm&Hp). exists m. split; [|done].
  unfold offset in *. pose proof (Zle_0_nat (length (f_content f))).
  replace (S n - 1)%nat with n by lia. unfold CHUNK_SIZE in *. lia.
Qed.

Lemma frame_fields i last ct :
  let frame := frame_bytes fileId i last ct in
  (Relay.chunkFrameHeaderLen ≤ length frame)%nat ∧ nth 0 frame 0 = Relay.chunkFrameTypeFile
  ∧ slice 2 18 frame = fileId ∧ (Z.land (nth 1 frame 0) 1 =? 1) = last.
Proof.
  unfold frame_bytes. pose proof (ao_fileId _ Hargs). split_and!.
  - rewrite !length_app, length_be_bytes. simpl. unfold Relay.chunkFrameHeaderLen. lia.
  - done.
  - apply slice_app_mid; simpl; lia.
  - by destruct last.
Qed.

(** The chunk [i] is the message at [i + 1]. *)
Lemma chunk_admitted i c :
  Z.of_nat i < total → counted (S i) c →
  ∃ c', admits cfg c (chunk_msg args (Z.of_nat i)) c' ∧ counted (S (S i)) c'.
Proof.
  intros Hi Hc. unfold chunk_msg. set (last := isLast args (Z.of_nat i)).
  set (frame := frame_bytes _ _ _ _).
  destruct (frame_fields (Z.of_nat i) last (chunk_ct args (Z.of_nat i))) as (Hl&Ht&Hid&Hlast).
  fold frame in Hl, Ht, Hid, Hlast.
  assert (Z.of_nat (length frame) = offset args (Z.of_nat i + 1) - offset args (Z.of_nat i) + 42) as Hlen
    by (apply length_chunk_frame; [done|lia]).
  set (s0 := Relay.set_currentFile (Relay.newSession [] 0) c).
  destruct (Hc ltac:(lia) s0 eq_refl) as (m&Hm&Hp). replace (S i - 1)%nat with i in Hm by lia.
  set (m' := m + Z.of_nat (length frame)).
  assert (m' ≤ 42 * Z.of_nat (S i) + offset args (Z.of_nat (S i))) as Hm'.
  { unfold m'. rewrite Hlen. replace (Z.of_nat (S i)) with (Z.of_nat i + 1) by lia. lia. }
  exists (if last then Relay.no_file
          else {| Relay.cf_fileID := fileId; Relay.cf_active := true; Relay.cf_blocked := false;
                  Relay.cf_bytesSoFar := m' |}).
  split.
  - intros s Hs. assert (passing fileId m s) as Hps by (unfold passing in *; by rewrite Hs).
    rewrite (record_admitted (Relay.MaxFileSize cfg) fileId m s frame Hps Hl Ht Hid).
    + rewrite Hlast. eexists _, _. done.
    + fold m'. unfold offset in Hm'. lia.
  - intros Hn s Hs. assert (last = false) as Hf by (unfold last, isLast; lia). rewrite Hf in Hs.
    exists m'. split; [by replace (S (S i) - 1)%nat with (S i) by lia|by left].
Qed.

(** Whatever the sender sends, the relay passes on. *)
Lemma msg_admitted n m c :
  msg_at args n m → counted n c → ∃ c', admits cfg c m c' ∧ counted (S n) c'.
Proof.
  intros [[-> ->]|[(i&->&Hi&->)|[_ ->]]] Hc.
  - exists c. split; [done|by apply counted_more].
  - by apply chunk_admitted.
  - exists c. split; [done|by apply counted_more].
Qed.

(** The relay has passed on what it has read, and nothing else. *)
Record relay_inv (y : relayed) : Prop := {
  ri_pair : pair_at p role a b (y_server y);
  ri_fwd : y_fwd y = take (y_up y) (s_sent (l_tx (y_link y)));
  ri_back : y_back y = take (y_down y) (r_sent (l_rx (y_link y)));
  ri_up : (y_up y ≤ length (s_sent (l_tx (y_link y))))%nat;
  ri_down : (y_down y ≤ length (r_sent (l_rx (y_link y))))%nat;
  ri_count : ∃ c, tracker (Relay.hub (y_server y)) p = Some c ∧ counted (y_up y) c
}.

Lemma written_silent c o : silent c o → written_to c o = [].
Proof.
  intros Hs. unfold Relayed.written_to. induction o as [|x o IH]; [done|].
  assert (silent c o) as Ho by (intros m Hm; apply (Hs m); by right).
  simpl. destruct x as [c' m|]; [|by apply IH]. case_decide as Hc; [|by apply IH].
  subst. destruct (Hs m). by left.
Qed.

(** The relay's other events. *)
Lemma else_inv y e y' : relay_inv y → step y (EvElse e) = Some y' → relay_inv y' ∧ y_link y' = y_link y.
Proof.
  intros [Hp Hf Hb Hu Hd (c&Hc&Hn)]. simpl. case_decide as He; [|done].
  unfold relay_moves. destruct (Relay.step _ _ _) as [[sv os]|] eqn:E; [|done]. intros [= <-].
  split; [|done].
  rewrite !written_silent by (eapply foreign_silent; eauto). rewrite !app_nil_r.
  split; simpl; [by eapply foreign_pair|done..|].
  exists c. split; [by eapply foreign_tracker|done].
Qed.

(** It reads a message of the pair's. *)
Lemma passed sv r x x' c c' now d :
  pair_at p r x x' sv → x ≠ x' → tracker (Relay.hub sv) p = Some c →
  Relay.input_of d = Relay.IRelay → Relay.too_large d = false → admits cfg c d c' →
  ∃ sv' os, Relay.step cfg sv (Relay.Later now x d) = Some (sv', os)
    ∧ pair_at p r x x' sv' ∧ tracker (Relay.hub sv') p = Some c'
    ∧ written_to x' os = [d] ∧ written_to x os = [].
Proof.
  intros Hp Hne Ht Hi Hl Ha.
  destruct (relay_passes cfg p r x x' sv now d c c' Hp Ht Hi Hl Ha) as (sv'&Hs&Hp'&Ht').
  eexists sv', _. split_and!; [done..| |]; simpl; [by rewrite decide_True|by rewrite decide_False].
Qed.

Lemma pair_distinct sv : pair_at p role a b sv → a ≠ b.
Proof.
  intros [_ _ Ha Hb] ->. rewrite Ha in Hb. injection Hb as He. by destruct (other_ne role).
Qed.

Lemma up_moves clean y now d :
  relay_inv y → link_inv args clean (y_link y) → s_sent (l_tx (y_link y)) !! y_up y = Some d →
  ∃ y', step y (EvUp now) = Some y' ∧ relay_inv y' ∧ y_link y' = y_link y.
Proof.
  intros [Hp Hf Hb Hu Hd (c&Hc&Hn)] Hl Hm.
  assert (msg_at args (y_up y) d) as Hat by (eapply log_inv_lookup; [apply Hl|done]).
  destruct (msg_admitted _ _ _ Hat Hn) as (c'&Ha&Hn').
  destruct (passed (y_server y) role a b c c' now d) as (sv&os&Hs&Hp'&Hc'&Hw&Hw');
    [done|by eapply pair_distinct|done|by eapply sender_msg_relayed|by eapply sender_msg_fits|done|].
  eexists. split.
  { cbn [relayed_step]. rewrite Hm. cbn [mbind option_bind]. unfold relay_moves.
    cbn [y_server put_read]. rewrite Hs. reflexivity. }
  split; [|done]. split; simpl; rewrite ?Hw, ?Hw', ?app_nil_r; try done.
  - by rewrite Hf, (take_S_r _ _ _ Hm).
  - by apply lookup_lt_Some in Hm.
  - by exists c'.
Qed.

Lemma down_moves clean y now d :
  relay_inv y → link_inv args clean (y_link y) → r_sent (l_rx (y_link y)) !! y_down y = Some d →
  ∃ y', step y (EvDown now) = Some y' ∧ relay_inv y' ∧ y_link y' = y_link y.
Proof.
  intros [Hp Hf Hb Hu Hd (c&Hc&Hn)] Hl Hm.
  destruct (stream_told args clean _ _ (li_stream _ _ _ Hl)) as (k&n&_&Hk&Hnt&_).
  destruct (ack_log_lookup args clean _ _ _ _ Hk Hm) as (i&Hi&_&Hcase).
  apply ack_log_nonneg in Hi. pose proof (total_pos f).
  assert (total ≤ max_safe).
  { destruct Hargs as [_ _ _ [_ _ _ Hsz]]. unfold totalChunks, CHUNK_SIZE, max_safe in *. divlia. }
  assert (length (toHex fileId) ≤ 32)%nat by by rewrite fileId_hex.
  assert (Relay.input_of d = Relay.IRelay ∧ Relay.too_large d = false ∧ admits cfg c d c) as (Hr&Ht&Ha).
  { destruct Hcase as [[-> Hlt]|[_ ->]]; split_and!; try done.
    - apply ack_relayed; [done|lia].
    - apply chunk_ack_fits; [done|lia].
    - by apply abort_relayed.
    - by apply file_abort_fits. }
  destruct (passed (y_server y) (Relay.other role) b a c c now d) as (sv&os&Hs&Hp'&Hc'&Hw&Hw');
    [by apply pair_swap|by apply not_eq_sym; eapply pair_distinct|done..|].
  eexists. split.
  { cbn [relayed_step]. rewrite Hm. cbn [mbind option_bind]. unfold relay_moves.
    cbn [y_server put_read]. rewrite Hs. reflexivity. }
  split; [|done]. split; simpl; rewrite ?Hw, ?Hw', ?app_nil_r; try done.
  - apply pair_swap in Hp'. by rewrite other_other in Hp'.
  - by rewrite Hb, (take_S_r _ _ _ Hm).
  - by apply lookup_lt_Some in Hm.
  - by exists c.
Qed.

Lemma take_prefix {A} n (l l' : list A) : (n ≤ length l)%nat → l `prefix_of` l' → take n l' = take n l.
Proof. intros Hn [k ->]. by rewrite take_app_le. Qed.

(** What the ends do keeps what the relay has read. *)
Lemma grown_inv y l :
  relay_inv y → s_sent (l_tx (y_link y)) `prefix_of` s_sent (l_tx l) →
  r_sent (l_rx (y_link y)) `prefix_of` r_sent (l_rx l) → relay_inv (put_link y l).
Proof.
  intros [Hp Hf Hb Hu Hd Hc] H1 H2.
  pose proof (prefix_length _ _ H1). pose proof (prefix_length _ _ H2).
  split; simpl; [done|by rewrite (take_prefix _ _ _ Hu H1)|by rewrite (take_prefix _ _ _ Hd H2)
                |lia|lia|done].
Qed.

Lemma link_grows l e l' :
  link_step args l e = Some l' →
  s_sent (l_tx l) `prefix_of` s_sent (l_tx l') ∧ r_sent (l_rx l) `prefix_of` r_sent (l_rx l').
Proof.
  intros He. destruct e as [e|e| |]; cbn [link_step] in He.
  - destruct e; try done; apply bind_Some in He as (s&Hs&[= <-]);
      (split; [by eapply send_grows|done]).
  - destruct e; try done; apply bind_Some in He as (s&Hs&[= <-]);
      (split; [done|by eapply recv_grows]).
  - apply bind_Some in He as (m&_&He). apply bind_Some in He as (s&Hs&[= <-]).
    split; [done|by eapply recv_grows].
  - apply bind_Some in He as (m&_&He). apply bind_Some in He as (s&Hs&[= <-]).
    split; [by eapply send_grows|done].
Qed.

(** An event of the ends is one of the connection. *)
Lemma end_moves y e y' :
  relay_inv y → step y (EvEnd e) = Some y' →
  link_step args (y_link y) e = Some (y_link y') ∧ relay_inv y'.
Proof.
  intros Hy He.
  assert (∃ l, link_step args (y_link y) e = Some l ∧ y' = put_link y l) as (l&Hl&->).
  { destruct e as [e|e| |]; cbn [relayed_step] in He.
    - destruct (link_step args (y_link y) (EvSend e)) as [l|]; [|done]. injection He as <-. by exists l.
    - destruct e; [done|..]; apply bind_Some in He as (r&Hr&[= <-]); eexists; (split; [|done]);
        cbn [link_step]; by rewrite Hr.
    - rewrite (ri_fwd _ Hy) in He. apply bind_Some in He as (m&Hm&He).
      apply lookup_take_Some in Hm as [Hm _]. apply bind_Some in He as (r&Hr&[= <-]).
      eexists. split; [|done]. cbn [link_step]. rewrite Hm. cbn [mbind option_bind]. by rewrite Hr.
    - rewrite (ri_back _ Hy) in He. apply bind_Some in He as (m&Hm&He).
      apply lookup_take_Some in Hm as [Hm _]. apply bind_Some in He as (r&Hr&[= <-]).
      eexists. split; [|done]. cbn [link_step]. rewrite Hm. cbn [mbind option_bind]. by rewrite Hr. }
  split; [done|]. apply link_grows in Hl as [H1 H2]. by apply grown_inv.
Qed.

(** The relay's events are none of the connection's. *)
Lemma relay_moves_inv clean y e y' :
  relay_inv y → link_inv args clean (y_link y) → (∀ e', e ≠ EvEnd e') → step y e = Some y' →
  y_link y' = y_link y ∧ relay_inv y'.
Proof.
  intros Hy Hl Hne He. destruct e as [e|now|now|e]; [by destruct (Hne e)|..].
  - destruct (s_sent (l_tx (y_link y)) !! y_up y) as [d|] eqn:Hm; [|by simpl in He; rewrite Hm in He].
    destruct (up_moves clean y now d Hy Hl Hm) as (y1&H1&Hi&Hk). rewrite H1 in He. by simplify_eq.
  - destruct (r_sent (l_rx (y_link y)) !! y_down y) as [d|] eqn:Hm; [|by simpl in He; rewrite Hm in He].
    destruct (down_moves clean y now d Hy Hl Hm) as (y1&H1&Hi&Hk). rewrite H1 in He. by simplify_eq.
  - destruct (else_inv y e y' Hy He) as [Hi Hk]. done.
Qed.

Lemma relayed_run clean es y0 y :
  relay_inv y0 → link_inv args clean (y_link y0) → Forall relayed_event_ok es →
  (clean = true → Forall (λ e, calm_relayed e = true) es) →
  run step es y0 = Some y →
  run (link_step args) (ends es) (y_link y0) = Some (y_link y) ∧ relay_inv y
  ∧ link_inv args clean (y_link y).
Proof.
  intros Hy Hl Hok Hcl. revert y0 Hy Hl.
  induction Hok as [|e es He Hok IH]; intros y0 Hy Hl; [by intros [= <-]|]. cbn [run].
  intros (y1&H1&Hr)%bind_Some.
  assert (clean = true → Forall (λ e, calm_relayed e = true) es) as Hcl'
    by (intros Hc; by destruct (Forall_cons_1 _ _ _ (Hcl Hc))).
  destruct (decide (∃ e', e = EvEnd e')) as [[e' ->]|Hne].
  - destruct (end_moves y0 e' y1 Hy H1) as [Hs Hy1]. cbn [ends omap list_omap run]. rewrite Hs.
    cbn [mbind option_bind]. apply IH; try done. eapply link_step_inv; [done|exact Hl|exact He| |exact Hs].
    intros Hc. by destruct (Forall_cons_1 _ _ _ (Hcl Hc)).
  - destruct (relay_moves_inv clean y0 e y1 Hy Hl) as [Heq Hy1];
      [by intros e' ->; apply Hne; eexists|done|]. rewrite <- Heq in Hl |- *.
    assert (ends (e :: es) = ends es) as ->.
    { destruct e; [destruct Hne; by eexists|done..]. }
    by apply IH.
Qed.


(** Every event but the relay's other ones is work on the file. *)
Definition own_event (e : relayed_event) : bool :=
  match e with EvElse _ => false | _ => true end.

Lemma reads_counted y e y' :
  step y e = Some y' →
  (y_up y' + y_down y' + length (ends [e])
   = y_up y + y_down y + if own_event e then 1 else 0)%nat.
Proof.
  intros He. destruct e as [e|now|now|e]; cbn [relayed_step] in He.
  - assert (y_up y' = y_up y ∧ y_down y' = y_down y) as [-> ->]; [|simpl; lia].
    destruct e as [e|e| |]; [by destruct (link_step _ _ _); simplify_eq/=|destruct e; [done|..]|..];
      by repeat apply bind_Some in He as (?&_&He); simplify_eq.
  - apply bind_Some in He as (d&_&He). unfold relay_moves in He. destruct (Relay.step _ _ _) as [[]|];
      simplify_eq/=. lia.
  - apply bind_Some in He as (d&_&He). unfold relay_moves in He. destruct (Relay.step _ _ _) as [[]|];
      simplify_eq/=. lia.
  - case_decide; [|done]. unfold relay_moves in He. destruct (Relay.step _ _ _) as [[]|]; simplify_eq/=. lia.
Qed.

Lemma run_counted es y y' :
  run step es y = Some y' →
  (y_up y' + y_down y' + length (ends es)
   = y_up y + y_down y + length (filter (λ e, own_event e = true) es))%nat.
Proof.
  revert y. induction es as [|e es IH]; intros y; cbn [run]; [intros [= <-]; simpl; lia|].
  intros (y1&H1&Hr)%bind_Some. apply IH in Hr. apply reads_counted in H1.
  change (e :: es) with ([e] ++ es). unfold ends in *. rewrite omap_app, length_app, filter_app, length_app.
  destruct (own_event e) eqn:E.
  - rewrite (filter_cons_True _ e) by done. simpl in *. lia.
  - rewrite (filter_cons_False _ e) by (by rewrite E). simpl in *. lia.
Qed.

Lemma clean_reads y :
  relay_inv y → link_inv args true (y_link y) → (y_up y + y_down y ≤ 1 + 2 * Z.to_nat total)%nat.
Proof.
  intros Hy Hl. destruct (clean_sent args (y_link y) Hl) as (n&Hn&Hs&_).
  assert (length (s_sent (l_tx (y_link y))) ≤ S (Z.to_nat total))%nat as Hlen.
  { destruct Hs as [-> | ->]; [simpl; lia|]. rewrite length_sent_log; lia. }
  pose proof (li_fwd _ _ _ Hl).
  destruct (phase_bounds args _ _ (li_stream _ _ _ Hl)) as [_ Hb]; [lia|].
  pose proof (ri_up _ Hy). pose proof (ri_down _ Hy). lia.
Qed.

(** ** What follows *)

Context (sv : Relay.server) (Hpair : pair_at p role a b sv).
Context (Hnew : ∀ c, tracker (Relay.hub sv) p = Some c →
                  Relay.cf_active c = false ∨ Relay.cf_fileID c ≠ fileId).

Lemma init_relay_inv : relay_inv (init_relayed sv).
Proof.
  split; simpl; [done|done|done|lia|lia|].
  pose proof (pa_hold _ _ _ _ _ Hpair _ _ _ (pa_a _ _ _ _ _ Hpair)) as Hs. unfold slot in Hs. unfold tracker in *.
  destruct (Relay.store (Relay.hub sv) !! p) as [s|]; [|done]. eexists. split; [done|].
  intros _ s' Hs'. exists 0. split; [unfold offset, f_size; simpl; lia|]. right. rewrite Hs'. auto.
Qed.

(** C2: The relay is a connection: whatever other connections and sessions do
    meanwhile, and whatever goes wrong at the two ends, a run of a transfer
    through the relay is a run of the transfer over one connection that delivers
    in order - the relay has written to either side what it has read from the
    other, unchanged, in order, and nothing else. (Until one of the two
    connections breaks, or the session ends, and for a file whose frames stay
    below the size limit.) *)
Theorem relay_is_a_connection es y :
  Forall relayed_event_ok es → run step es (init_relayed sv) = Some y →
  run (link_step args) (ends es) init_link = Some (y_link y)
  ∧ y_fwd y = take (y_up y) (s_sent (l_tx (y_link y)))
  ∧ y_back y = take (y_down y) (r_sent (l_rx (y_link y))).
Proof.
  intros Hok Hrun.
  destruct (relayed_run false es (init_relayed sv) y) as (Hr&Hy&_);
    [apply init_relay_inv|by apply link_inv_init|done..|].
  split_and!; [done|apply Hy..].
Qed.

Lemma calm_ends es :
  Forall (λ e, calm_relayed e = true) es → Forall (λ e, calm_link e = true) (ends es).
Proof.
  induction 1 as [|e es He _ IH]; [constructor|]. destruct e; simpl; [by constructor|done..].
Qed.

(** Where nothing can happen, the relay has nothing left to read. *)
Lemma quiet_relayed y :
  relay_inv y → link_inv args true (y_link y) →
  (∀ e y', calm_relayed e = true → own_event e = true → step y e ≠ Some y') →
  quiet args (y_link y).
Proof.
  intros Hy Hl Hq.
  assert (y_up y = length (s_sent (l_tx (y_link y)))) as Hup.
  { destruct (s_sent (l_tx (y_link y)) !! y_up y) as [d|] eqn:Hm.
    - destruct (up_moves true y 0 d Hy Hl Hm) as (y'&Hs&_). by destruct (Hq (EvUp 0) y').
    - apply lookup_ge_None in Hm. pose proof (ri_up _ Hy). lia. }
  assert (y_down y = length (r_sent (l_rx (y_link y)))) as Hdown.
  { destruct (r_sent (l_rx (y_link y)) !! y_down y) as [d|] eqn:Hm.
    - destruct (down_moves true y 0 d Hy Hl Hm) as (y'&Hs&_). by destruct (Hq (EvDown 0) y').
    - apply lookup_ge_None in Hm. pose proof (ri_down _ Hy). lia. }
  intros e l' Hc He.
  assert (∃ y', step y (EvEnd e) = Some y') as [y' Hs]; [|by destruct (Hq (EvEnd e) y')].
  destruct e as [e|e| |]; cbn [relayed_step]; [by rewrite He; eexists|..]; cbn [link_step] in He.
  - destruct e; [done|..]; apply bind_Some in He as (r&Hr&_); rewrite Hr; by eexists.
  - rewrite (ri_fwd _ Hy), Hup, firstn_all. apply bind_Some in He as (m&->&He).
    apply bind_Some in He as (r&Hr&_). cbn [mbind option_bind]. rewrite Hr. by eexists.
  - rewrite (ri_back _ Hy), Hdown, firstn_all. apply bind_Some in He as (m&->&He).
    apply bind_Some in He as (r&Hr&_). cbn [mbind option_bind]. rewrite Hr. by eexists.
Qed.

(** End to end, through the relay: when nothing goes wrong at the two ends,
    on every schedule and whatever else happens at the relay, the transfer is
    over after 8 events for each chunk and 7 more; and when it has nothing left
    to do, the promise of [sendFile] has resolved and the receiver's user has the
    sender's file, byte for byte - on disk or downloaded, whatever the browser
    answers for the sink -, its row finished at 100 %. *)
Lemma calm_delivers env es y pg :
  Forall (λ e, calm_relayed e = true) es → run step es (init_relayed sv) = Some y →
  (length (filter (λ e, own_event e = true) es) ≤ 7 + 8 * Z.to_nat total)%nat ∧
  ((∀ e y', calm_relayed e = true → own_event e = true → step y e ≠ Some y') →
   s_pc (l_tx (y_link y)) = PDone (Ok ()) ∧
   ∃ u r, run (ReceiverUi.handle env) (r_calls (l_rx (y_link y))) (ReceiverUi.init pg) = Some u
     ∧ ReceiverUi.u_rows u !! toHex fileId = Some r
     ∧ saved (ReceiverUi.row_sink r) (ReceiverUi.u_page u) = Some (f_content f)
     ∧ ReceiverUi.row_done r = true ∧ ReceiverUi.row_progress r = 100
     ∧ ReceiverUi.row_received r = f_size f ∧ ReceiverUi.isActive u = false).
Proof.
  intros Hok Hrun.
  destruct (relayed_run true es (init_relayed sv) y) as (Hr&Hy&Hl);
    [apply init_relay_inv|by apply link_inv_init| |done..|].
  { eapply Forall_impl; [done|]. intros [[[]| | |]| | |]; simpl; try done. by destruct failed. }
  split.
  - assert (length (ends es) ≤ 6 + 6 * Z.to_nat total)%nat as Hends.
    { assert (Forall (λ e, calm_link e = true) (ends es)) as Hcalm by by apply calm_ends.
      destruct (clean_run_inv args Hargs _ _ Hcalm Hr) as [_ <-]. by apply progress_bound. }
    apply run_counted in Hrun. simpl in Hrun. pose proof (clean_reads y Hy Hl). lia.
  - intros Hq. destruct (quiet_done args (y_link y) (quiet_relayed y Hy Hl Hq) Hl) as (Hpc&Hcalls&_).
    split; [done|]. rewrite Hcalls. by apply handle_story.
Qed.

End Facts.
