(* ===== verification/EndToEnd.v ===== *)
(** * From two open pages to a saved file

    The parts together: two pages pair through the relay, lose and get back
    their connections, derive the key of the epoch they are in, and one sends
    the other a file over the connections they then have. *)

From stdpp Require Import base list list_numbers gmap sets strings.
From Stdlib Require Import ZArith Lia.
From S2P Require Import Prelude JsText Hex Base64url Json Utf8 Crypto WsClient Frame Sender Receiver.
From S2P Require Import Stream Pacing Link Transfer FileWriter TransferUi Delivery.
From S2P Require Import PairingText PageState Pairing Session RoleSwap.
From S2P Require Import Hub HubFacts HubLimits HubPair HubLeak Messages.
From S2P Require Import Network SwapNet ReconnectNet PairNet Relayed.
Open Scope Z_scope.

(** The session as the page of the side [b] hands it to the transfer screen. *)
Definition handed (n : net) (b : bool) (session : paired_session) : Prop :=
  getPairedSession (e_world (get_end b n)) = Some session.

Section Up.
Context `{WebCryptoLaws}.
Context (format_time : Z → jsstr) (cfg : Relay.Config) (p : nat) (role : Relay.Role).
Context (sock : bool → nat) (n : net) (e : Z) (Hup : session_up cfg p role sock n e).
Context (key : bytes) (Hlen : length key = 32%nat).
Context (Hkeys : ∀ b, cs_sessionKey (cs (e_world (get_end b n))) = Some key).

Lemma up_session b :
  let c := cs (e_world (get_end b n)) in
  handed n b {| ps_socket := Some (sock b); ps_sessionId := cs_sessionId c; ps_sessionKey := Some key;
                ps_role := cs_role c; ps_epoch := Some e; ps_transferRole := cs_transferRole c |}.
Proof.
  intros c. destruct (st_rest _ _ _ _ (up_settled _ _ _ _ _ _ Hup) b) as (k&_&[Hscr _ Ha _ _]&_).
  unfold handed, getPairedSession. rewrite Hscr, Ha, (Hkeys b), (up_epoch _ _ _ _ _ _ Hup b).
  by rewrite bool_decide_true.
Qed.

(** The connections of a session that is up are a pair of the relay's, whichever
    side sends. *)
Lemma up_pair b :
  pair_at p (role_of role b) (pair_conn sock b) (pair_conn sock (negb b)) (n_server n).
Proof. apply pair_side, (st_pair _ _ _ _ (up_settled _ _ _ _ _ _ Hup)). Qed.

End Up.

Section Transfer.
Context `{WebCryptoLaws}.
Context (format_time : Z → jsstr) (cfg : Relay.Config).
Context (location : url) (randomKey : nat → bytes).
Abbreviation key := (randomKey 0).
Context (Hkey : bytes_ok key) (Hlen : length key = 32%nat).
Abbreviation nstep := (net_step format_time cfg location randomKey).

Context (sid : jsstr) (Hsid : Forall url_char sid) (Hne : sid ≠ []) (Hshort : (length sid ≤ 1000)%nat).
Context (sv : Relay.server) (hip gip : jsstr) (now : Z).
Context (Hok : server_ok sv) (Hhold : loops_hold sv).
Context (Hnew : ∀ b k, conn_of b k ∉ Relay.seen sv).
Context (Hroom : ∀ ip, ip = hip ∨ ip = gip →
                   0 ≤ Relay.count (Relay.hub sv) ip < Relay.MaxSessionsPerIP cfg - 1).
Abbreviation p := (length (Relay.store (Relay.hub sv))).
Abbreviation paired_net := (ready_net randomKey sid sv hip gip now).

(** No file has passed through the session that the pages opened. *)
Lemma fresh_session : tracker (Relay.hub (n_server paired_net)) p = Some Relay.no_file.
Proof.
  unfold tracker. destruct (ready_hub randomKey Hlen sid Hshort sv hip gip now) as (Hs&_).
  cbn [n_server ready_net net_at]. by rewrite Hs.
Qed.

(** C1: From two open pages to a saved file: the host's page opens a session, the
    guest's joins it by the link, both are paired; then the two sides lose and
    get back their connections any number of times, in any order. Both pages
    then hand the same session to their transfer screens, in an epoch of one for
    each drop, the guest as the sender and the host as the receiver, and each
    screen derives its epoch key. Whatever file the guest sends under its key
    over the two connections of that moment to the host, who decrypts under its
    own, and whatever else happens at the relay meanwhile: as long as nobody interferes, the transfer takes no
    more than [7 + 8 * total] steps, and when it has no step left [sendFile] has
    returned and the host's page has saved exactly the file's bytes, with its
    row done and at 100 %. (Where the metadata is no larger than the relay
    reads, and the file with its frames no larger than what it passes on.) *)
Theorem linked_pages_transfer bs now' en' :
  ∃ sock n (ek : bool → bytes),
    (n0 ← run nstep (link_schedule sid now) (pair_start randomKey sid sv hip gip);
     drop_sides format_time cfg location randomKey now' en' bs (λ _, O) n0) = Some (sock, n)
    ∧ (∀ b : bool, ∃ session, handed n b session
         ∧ ps_socket session = Some (sock b) ∧ ps_epoch session = Some (Z.of_nat (length bs))
         ∧ ps_transferRole session = Some (if b then SenderRole else ReceiverRole)
         ∧ transfer_key session = Ok (ek b))
    ∧ ∀ args env pg es y,
        let step := relayed_step args (ek false) format_time cfg p (pair_conn sock true) (pair_conn sock false) in
        let total := totalChunks (sa_file args) in
        args_ok args → sa_epochKey args = ek true →
        Relay.too_large (meta_msg args) = false →
        f_size (sa_file args) + 42 * total ≤ Relay.MaxFileSize cfg →
        Forall (λ e, calm_relayed e = true) es → run step es (init_relayed (n_server n)) = Some y →
        (length (filter (λ e, own_event e = true) es) ≤ 7 + 8 * Z.to_nat total)%nat
        ∧ ((∀ e y', calm_relayed e = true → own_event e = true → step y e ≠ Some y') →
           s_pc (l_tx (y_link y)) = PDone (Ok ()) ∧
           ∃ u r, run (ReceiverUi.handle env) (r_calls (l_rx (y_link y))) (ReceiverUi.init pg) = Some u
             ∧ ReceiverUi.u_rows u !! toHex (sa_fileId args) = Some r
             ∧ saved (ReceiverUi.row_sink r) (ReceiverUi.u_page u) = Some (f_content (sa_file args))
             ∧ ReceiverUi.row_done r = true ∧ ReceiverUi.row_progress r = 100
             ∧ ReceiverUi.row_received r = f_size (sa_file args) ∧ ReceiverUi.isActive u = false).
Proof.
  destruct (epoch_derives key Hlen (Z.of_nat (length bs))) as [ek Hek].
  destruct (drops_back format_time cfg location randomKey p Relay.RoleHost now' en' bs (λ _, O) paired_net 0)
    as (sock&n&Hd&Hup&Ht&Hc).
  { apply (ready_up cfg key sid hip gip p Hlen); [by apply sid_unit|done| |done|done].
    by apply (ready_serves format_time cfg location randomKey). }
  rewrite Z.add_0_l in Hup, Hc.
  assert (∀ b, cs_sessionKey (cs (e_world (get_end b n))) = Some key) as Hkeys by by intros []; rewrite Hc.
  exists sock, n, (λ _, ek). split_and!.
  - rewrite (link_run format_time cfg location randomKey) by done. exact Hd.
  - intros b. eexists. split; [by eapply up_session|]. split_and!; [done..| |exact Hek].
    cbn [ps_transferRole]. rewrite Hc. by destruct b.
  - intros args env pg es y step total Hargs <- Hmeta Hsize Hcalm Hrun.
    apply (calm_delivers args Hargs format_time cfg p Relay.RoleGuest _ _ Hmeta Hsize (n_server n)
             (up_pair cfg p Relay.RoleHost sock n _ Hup true)) with (es := es); [|done..].
    intros c. rewrite Ht, fresh_session. intros [= <-]. by left.
Qed.

End Transfer.
