(* ===== verification/Sample.v ===== *)
(** * Concrete transfers

    A Web Crypto simple enough to evaluate, which keeps the laws the development
    relies on, and runs of the transfers and transfer screens of the theorems
    with it. A ciphertext here is the plaintext followed by a checksum of the
    key, the nonce, the additional data and the plaintext. *)

From stdpp Require Import base list list_numbers gmap sets strings.
From Stdlib Require Import ZArith Lia.
From S2P Require Import Prelude JsText Hex Json Utf8 Crypto WsClient Frame Sender Receiver.
From S2P Require Import Stream Pacing Link Transfer FileWriter TransferUi Delivery.
Open Scope Z_scope.

Definition checksum (l : bytes) : Z := fold_left (λ a b, (a * 31 + b + 7) mod 2 ^ 64) l 5.

Definition toy_encrypt (k iv aad p : bytes) : bytes :=
  p ++ be_bytes 16 (checksum (k ++ iv ++ aad ++ p)).

Definition toy_decrypt (k iv aad c : bytes) : option bytes :=
  let p := take (length c - 16) c in
  if bool_decide (toy_encrypt k iv aad p = c) then Some p else None.

#[export] Instance toy_crypto : WebCrypto := {|
  hkdf_sha256 ikm salt info n := be_bytes (Z.to_nat (n / 8)) (checksum (ikm ++ salt ++ info));
  hmac_sha256 key msg := be_bytes 32 (checksum (key ++ msg));
  aes_gcm_encrypt := toy_encrypt;
  aes_gcm_decrypt := toy_decrypt
|}.

#[export] Instance toy_laws : WebCryptoLaws.
Proof.
  constructor; intros; simpl in *.
  - rewrite length_be_bytes, Z.mul_comm, Z.div_mul by lia. lia.
  - apply be_bytes_ok.
  - reflexivity.
  - apply be_bytes_ok.
  - unfold toy_decrypt.
    replace (take _ _) with p; [by rewrite bool_decide_true|].
    unfold toy_encrypt. rewrite length_app, length_be_bytes.
    by rewrite take_app_length' by lia.
  - unfold toy_encrypt. by rewrite length_app, length_be_bytes.
  - unfold toy_decrypt in *. destruct (bool_decide _) eqn:E; simplify_eq.
    by apply bool_decide_eq_true in E.
  - apply Forall_app. split; [done|apply be_bytes_ok].
Qed.

Definition sample_file : file :=
  {| f_name := js "notes.txt"; f_type := js "text/plain"; f_content := [104; 105; 33] |}.

Definition sample_args : send_args :=
  {| sa_epochKey := zeros 32; sa_file := sample_file; sa_fileId := seqZ 1 16; sa_signal := true |}.

Lemma sample_args_ok : args_ok sample_args.
Proof.
  split; [by vm_compute|by vm_compute| |split]; simpl.
  - apply (bool_decide_unpack _). by vm_compute.
  - apply js_unit_ok.
  - apply js_unit_ok.
  - apply (bool_decide_unpack _). by vm_compute.
  - by vm_compute.
Qed.

(** A run in which nothing goes wrong. *)
Definition sample_events : list link_event :=
  [EvSend SResume; EvSend SResume; EvForward; EvRecv RResume; EvSend (SRead None);
   EvRecv RResume; EvSend SResume; EvForward; EvRecv (RHandler None); EvRecv RResume;
   EvRecv (RHandler None); EvBack].

Definition sample_link : link :=
  default init_link (run (link_step sample_args) sample_events init_link).

Lemma sample_run : run (link_step sample_args) sample_events init_link = Some sample_link.
Proof. by vm_compute. Qed.

Lemma sample_calm : Forall (λ e, calm_link e = true) sample_events.
Proof. apply (bool_decide_unpack _). by vm_compute. Qed.

Lemma sample_events_ok : Forall link_event_ok sample_events.
Proof. by repeat constructor. Qed.

(** A run in which the receiver cancels while the chunk is decrypted. *)
Definition cancelled_events : list link_event :=
  [EvSend SResume; EvSend SResume; EvForward; EvRecv RResume; EvRecv RResume;
   EvRecv (RHandler None); EvSend (SRead None); EvSend SResume; EvForward;
   EvRecv RAbortCurrent; EvBack; EvRecv RResume].
Definition cancelled_link : link :=
  default init_link (run (link_step sample_args) cancelled_events init_link).

(** No event of a clean run is left. *)
Lemma sample_stuck e l' : calm_link e = true → link_step sample_args sample_link e ≠ Some l'.
Proof.
  intros Hc. apply eq_None_ne_Some_1 with (x := l').
  destruct e as [[|[e|]|d| |]|[d| | | | |[e|]]| |]; try discriminate Hc; by vm_compute.
Qed.

(** ** The transfer theorems, on these runs *)

Lemma receiver_told_story_witness :
  told (r_calls (l_rx cancelled_link)) `prefix_of`
    HFileStart (toHex (seqZ 1 16)) (Some (JStr (js "notes.txt"))) (Some (JNum 3))
      (Some (JStr (js "text/plain")))
    :: [HChunk (toHex (seqZ 1 16)) 0 true [104; 105; 33]] ++ [HFileComplete (toHex (seqZ 1 16))].
Proof.
  apply (receiver_told_story sample_args sample_args_ok cancelled_events cancelled_link);
    [by repeat constructor|by vm_compute].
Defined.

Lemma receiver_gets_prefix_witness :
  let calls := r_calls (l_rx cancelled_link) in
  (∃ k, 0 ≤ k ≤ 1 ∧ received_bytes calls = take (Z.to_nat (k * CHUNK_SIZE)) [104; 105; 33])
  ∧ (HFileComplete (toHex (seqZ 1 16)) ∈ calls → received_bytes calls = [104; 105; 33]).
Proof.
  apply (receiver_gets_prefix sample_args sample_args_ok cancelled_events cancelled_link);
    [by repeat constructor|by vm_compute].
Defined.

Lemma resolved_delivered_witness : received_bytes (r_calls (l_rx sample_link)) = [104; 105; 33].
Proof.
  apply (resolved_delivered sample_args sample_args_ok sample_events sample_link);
    [apply sample_events_ok|apply sample_run|by vm_compute].
Defined.

Lemma window_respected_witness : chunks_sent (l_tx sample_link) ≤ Z.of_nat (l_back sample_link) + WINDOW_SIZE.
Proof.
  apply (window_respected sample_args sample_args_ok sample_events sample_link);
    [apply sample_events_ok|apply sample_run].
Defined.

Lemma transfer_completes_witness :
  length sample_events = 12%nat ∧ s_pc (l_tx sample_link) = PDone (Ok ())
  ∧ r_calls (l_rx sample_link) = story sample_args
  ∧ received_bytes (r_calls (l_rx sample_link)) = [104; 105; 33].
Proof.
  refine (proj2 (transfer_completes sample_args sample_args_ok sample_events sample_link _ _) _);
    [apply sample_calm|apply sample_run|apply sample_stuck].
Defined.

(** The connection is lost while the one chunk of the file is read. *)
Definition reading_sender : sender :=
  default init_sender (run (sendFile_step sample_args) [SResume; SResume] init_sender).

Definition unheard_sender : sender :=
  default init_sender (run (sendFile_step sample_args) [SClose; SRead None; SResume] reading_sender).

Lemma drop_while_reading_hangs_witness :
  ((∃ i, s_pc unheard_sender = PWindow i) ∨ s_pc unheard_sender = PFinal)
  ∧ (∀ failed, sendFile_step sample_args unheard_sender (SRead failed) = None)
  ∧ ∀ s3, sendFile_step sample_args unheard_sender SSignal = Some s3 →
      s_pc s3 = PDone (Throw ErrConnectionLost).
Proof.
  refine (proj2 (proj2 (drop_while_reading_hangs sample_args sample_args_ok [SResume; SResume]
    reading_sender (default init_sender (sendFile_step sample_args reading_sender SClose))
    [SRead None; SResume] unheard_sender (-1) _ _ _ _ _ _ _ _ _)) _).
  - by repeat constructor.
  - by vm_compute.
  - exists 0. left. by vm_compute.
  - by vm_compute.
  - by vm_compute.
  - by vm_compute.
  - by vm_compute.
  - by repeat constructor.
  - by vm_compute.
  - intros [|[]| | |]; try discriminate; intros _; by vm_compute.
Defined.


(** ** Frames and chunks *)

Lemma chunk_frame_roundtrip_witness :
  ∃ frame, buildChunkFrame (seqZ 1 16) 5 true [9; 8] = Ok frame ∧ length frame = 28%nat
    ∧ parseChunkFrame frame = Some {| fr_fileId := seqZ 1 16; fr_index := 5; fr_isLast := true;
                                      fr_ciphertext := [9; 8] |}
    ∧ ∀ g j last' ct', length g = 16%nat → 0 ≤ j < 2 ^ 64 → buildChunkFrame g j last' ct' = Ok frame →
        g = seqZ 1 16 ∧ j = 5 ∧ last' = true ∧ ct' = [9; 8].
Proof. apply (chunk_frame_roundtrip (seqZ 1 16) 5 true [9; 8]); [done|lia]. Defined.

Definition sample_chunk : bytes :=
  match encryptChunk (zeros 32) (seqZ 1 16) 5 true [9; 8] with Ok c => c | Throw _ => [] end.

Lemma chunk_cipher_exact_witness :
  decryptChunk (zeros 32) (seqZ 1 16) 5 true sample_chunk = Ok [9; 8]
  ∧ length sample_chunk = 18%nat
  ∧ ∀ c' p', decryptChunk (zeros 32) (seqZ 1 16) 5 true c' = Ok p' →
      encryptChunk (zeros 32) (seqZ 1 16) 5 true p' = Ok c'.
Proof. apply (chunk_cipher_exact (zeros 32) (seqZ 1 16) 5 true [9; 8]). by vm_compute. Defined.

Lemma chunk_place_bound_witness :
  (chunkNonce 5 = chunkNonce METADATA_CHUNK_INDEX → 5 = METADATA_CHUNK_INDEX)
  ∧ (chunkAAD (seqZ 1 16) 5 true = chunkAAD (seqZ 2 16) METADATA_CHUNK_INDEX false →
     seqZ 1 16 = seqZ 2 16 ∧ 5 = METADATA_CHUNK_INDEX ∧ true = false).
Proof. apply chunk_place_bound; first [done|unfold METADATA_CHUNK_INDEX; lia]. Defined.

(** ** Sinks and screens *)

(** A browser without file system access, and one with a chosen folder. *)
Definition no_access : answers :=
  {| dirHandle := None; showSaveFilePicker := None |}.

Definition sample_preview : sink * page :=
  let s := createFileSink (js "a.png") (js "image/png") no_access in
  match write_all s [[1; 2]; [3]] with
  | Ok s => match close s init_page with Ok r => r | Throw _ => (s, init_page) end
  | Throw _ => (s, init_page)
  end.

Lemma preview_lifetime_witness :
  match getPreviewUrl sample_preview.1 with
  | Some url =>
      mode sample_preview.1 = "blob"%string ∧ last (p_downloads sample_preview.2) = Some (js "a.png", url)
      ∧ (∃ b, p_urls sample_preview.2 !! url = Some b ∧ blob_content b = [1; 2; 3]
              ∧ blob_type b = js "image/png")
      ∧ p_urls (preview_timeout sample_preview.1 sample_preview.2).2 = ∅
      ∧ p_urls (abort sample_preview.1 sample_preview.2).2 = ∅
      ∧ getPreviewUrl (preview_timeout sample_preview.1 sample_preview.2).1 = None
      ∧ getPreviewUrl (abort sample_preview.1 sample_preview.2).1 = None
  | None => mode sample_preview.1 = "fsa"%string ∧ sample_preview.2 = init_page
  end.
Proof.
  apply (preview_lifetime (js "a.png") (js "image/png") no_access [[1; 2]; [3]]
           (Blob (js "a.png") (js "image/png") [[1; 2]; [3]] None)
           sample_preview.1 init_page sample_preview.2);
    [done|by vm_compute|by vm_compute].
Defined.

(** The two files of a pick, sent one after the other, with a second pick while
    the first is sent. *)
Definition ui_events : list SenderUi.event :=
  [SenderUi.Picked true [sample_file; sample_file]; SenderUi.Progress 3 3;
   SenderUi.SendFiles [sample_file]; SenderUi.Settled (Ok ()); SenderUi.Progress 1 3].

Definition ui_state : SenderUi.state :=
  default SenderUi.init (run SenderUi.step ui_events SenderUi.init).

Lemma ui_run : run SenderUi.step ui_events SenderUi.init = Some ui_state.
Proof. by vm_compute. Qed.

Lemma batches_in_order_witness :
  SenderUi.calls ui_state ++ default [] (SenderUi.batch ui_state) = [sample_file; sample_file].
Proof. apply (SenderUi.batches_in_order ui_events ui_state ui_run). by vm_compute. Defined.

Lemma rows_follow_calls_witness :
  SenderUi.row_text <$> SenderUi.rows ui_state
  = [row_label (js "notes.txt") (Some 3); row_label (js "notes.txt") (Some 3)]
  ∧ SenderUi.input_disabled ui_state = true
  ∧ ∃ done r, SenderUi.rows ui_state = done ++ [r] ∧ Forall SenderUi.final_status done
      ∧ SenderUi.sending_status r.
Proof. apply (SenderUi.rows_follow_calls ui_events ui_state ui_run). Defined.

(** A receiver's screen half way through a file. *)
Definition half_way : ReceiverUi.state :=
  default (ReceiverUi.init init_page)
    (run (ReceiverUi.handle no_access)
       [HFileStart (js "ab") (Some (JStr (js "a.txt"))) (Some (JNum 6)) (Some (JStr (js "text/plain")));
        HChunk (js "ab") 0 false [1; 2; 3]] (ReceiverUi.init init_page)).

Definition half_row : ReceiverUi.row := default
  (ReceiverUi.Build_row [] (Blob [] [] [] None) 0 None false false 0 "" None)
  (ReceiverUi.u_rows half_way !! js "ab").

Lemma error_closes_rows_witness :
  ∃ r', ReceiverUi.u_rows (ReceiverUi.onError half_way) !! js "ab" = Some r'
    ∧ ReceiverUi.row_done r' = true
    ∧ (ReceiverUi.row_done half_row = true → r' = half_row)
    ∧ (ReceiverUi.row_done half_row = false →
         ReceiverUi.row_status r' = "transferError"%string ∧ ReceiverUi.row_cancelHidden r' = true
         ∧ ReceiverUi.row_sink r' = (abort (ReceiverUi.row_sink half_row) (ReceiverUi.u_page half_way)).1).
Proof. apply (ReceiverUi.error_closes_rows half_way (js "ab") half_row). by vm_compute. Defined.

(** A receiver's screen that awaits the sink of a file. *)
Definition choosing : ReceiverUi.state :=
  ReceiverUi.onFileStart (ReceiverUi.init init_page) (js "ab") (js "a.txt") (Some 6)
    (js "text/plain").

Definition chosen : ReceiverUi.starting := default
  (ReceiverUi.Build_starting [] [] [] None []) (ReceiverUi.u_starting choosing).

Lemma drop_while_choosing_file_leaves_row_witness :
  let u' := ReceiverUi.sink_created (ReceiverUi.onError choosing) chosen no_access in
  ReceiverUi.isActive u' = false ∧
  ∃ r, ReceiverUi.u_rows u' !! js "ab" = Some r ∧ ReceiverUi.row_done r = false
    ∧ ReceiverUi.row_cancelHidden r = false ∧ ReceiverUi.row_status r ≠ "transferError"%string
    ∧ collected (ReceiverUi.row_sink r) [].
Proof.
  apply (ReceiverUi.drop_while_choosing_file_leaves_row choosing chosen no_access). by vm_compute.
Defined.

Lemma file_delivered_witness :
  ∃ u r, run (ReceiverUi.handle no_access) (r_calls (l_rx sample_link)) (ReceiverUi.init init_page) = Some u
    ∧ ReceiverUi.u_rows u !! toHex (seqZ 1 16) = Some r
    ∧ saved (ReceiverUi.row_sink r) (ReceiverUi.u_page u) = Some [104; 105; 33]
    ∧ ReceiverUi.row_done r = true ∧ ReceiverUi.row_progress r = 100
    ∧ ReceiverUi.row_received r = 3 ∧ ReceiverUi.isActive u = false.
Proof.
  apply (file_delivered sample_args sample_args_ok no_access sample_events sample_link init_page);
    [apply sample_calm|apply sample_run|apply sample_stuck].
Defined.
