(* ===== verification/SamplePake.v ===== *)
(** * A concrete key exchange

    A library simple enough to evaluate, the exchange over it, and the runs of
    the theorems of Pake on it. *)

From stdpp Require Import base list list_numbers gmap sets strings.
From Stdlib Require Import ZArith Lia.
From S2P Require Import Prelude JsText Hex Json Utf8 Crypto WsClient Receiver Pake Sample.
Open Scope Z_scope.

(** Both sides' messages are their passwords and the key is a checksum of both:
    nothing is secret, but sides with one password agree. *)
#[export] Instance toy_pake : PakeLib := {|
  pake_t := jsstr * jsstr;
  InitCurve password _ _ := Ok (map (λ c, c mod 65536) password, []);
  Bytes p := map (λ c, c mod 65536) p.1;
  Update p message := Ok (p.1, message);
  SessionKey p := Ok (be_bytes 32 (checksum p.1 + checksum p.2))
|}.

#[export] Instance toy_pake_laws : PakeLaws.
Proof.
  constructor. intros p. simpl. apply Forall_fmap, Forall_forall. intros c _.
  unfold unit_ok. simpl. apply Z.mod_pos_bound. lia.
Qed.

Definition host_side : Pake.side := {| x_code := js "123456"; x_role := 0; x_rand := 7 |}.
Definition guest_side : Pake.side := {| x_code := js "123456"; x_role := 1; x_rand := 8 |}.

Definition pake_events : list xevent :=
  [HostResumes; GuestResumes; ToGuest; GuestResumes; ToHost; HostResumes; GuestResumes;
   HostResumes; GuestResumes; HostResumes; ToHost; ToGuest; GuestResumes; HostResumes;
   GuestResumes; HostResumes].

Definition pake_end : exchange :=
  Eval vm_compute in
  default init_exchange (run (xstep host_side guest_side) pake_events init_exchange).

Definition pake_key : bytes := Eval vm_compute in
  be_bytes 32 (checksum (js "123456") + checksum (js "123456")).

Lemma pake_agreed :
  pake_agree host_side guest_side (js "123456", []) (js "123456", []) (js "123456", js "123456")
    (js "123456", js "123456") pake_key.
Proof. split; try by vm_compute. apply (bool_decide_unpack _). by vm_compute. Qed.

Lemma pake_run : run (xstep host_side guest_side) pake_events init_exchange = Some pake_end.
Proof. vm_cast_no_check (eq_refl (Some pake_end)). Qed.

Lemma pake_host_key : x_pc (x_host pake_end) = XDone (Ok pake_key).
Proof. by vm_compute. Qed.

Lemma pake_guest_key : x_pc (x_guest pake_end) = XDone (Ok pake_key).
Proof. by vm_compute. Qed.

Lemma exchange_agrees_witness : hmac_sha256 pake_key CONFIRM_INFO = hmac_sha256 pake_key CONFIRM_INFO.
Proof.
  exact (exchange_agrees host_side guest_side pake_events pake_end pake_key pake_key
           pake_run pake_host_key pake_guest_key).
Defined.
