(* ===== verification/SampleText.v ===== *)
(** * Concrete links, preferences, QR codes and loadings

    The runs of the theorems of PairingText, AppPage, QrEncode and PakeLoad. *)

From stdpp Require Import base list list_numbers gmap sets strings.
From Stdlib Require Import ZArith Lia.
From S2P Require Import Prelude JsText Json Utf8 Base64url PairingText PageState Pairing Strings I18n.
From S2P Require Import AppPage Sample.
From S2P Require Import QrEncode PakeLoad.
Open Scope Z_scope.

Definition page_url : url :=
  {| u_base := js "https://send.example/"; u_query := Some (js "x=1"); u_fragment := None |}.

Definition session_key : bytes := seqZ 1 32.

Lemma pairing_link_roundtrip_witness :
  parsePairingText (js " " ++ buildPairingURL page_url (js "s-1") session_key ++ [10])
  = Some (js "s-1", session_key)
  ∧ parsePairingText (js "#" ++ fragment (js "s-1") (Base64url.encode session_key))
    = Some (js "s-1", session_key)
  ∧ parsePairingText (fragment (js "s-1") (Base64url.encode session_key)) = Some (js "s-1", session_key).
Proof.
  apply (pairing_link_roundtrip page_url (js "s-1") session_key (js " ") [10]);
    first [discriminate|reflexivity|apply (bool_decide_unpack _); by vm_compute].
Defined.

Definition sample_link_text : jsstr := js "#s=s-1&k=" ++ Base64url.encode session_key.

Lemma parsePairingText_sound_witness : js "s-1" ≠ [] ∧ length session_key = SESSION_KEY_BYTES.
Proof. apply (parsePairingText_sound sample_link_text). by vm_compute. Defined.

(** An English page on its first screen, changed to Polish and to the dark theme. *)
Definition sample_interface : Interface.state :=
  Interface.load (Some ["de-DE"; "en-GB"]%string) None (Some ∅) (at_screen RoleSelect).

Definition interface_events : list Interface.event :=
  [Interface.ClickLang "pl"%string; Interface.ClickTheme "dark"%string].

Definition interface_end : Interface.state :=
  default sample_interface
    (run (Interface.step (Some ["de-DE"; "en-GB"]%string) None) interface_events sample_interface).

Lemma interface_run :
  run (Interface.step (Some ["de-DE"; "en-GB"]%string) None) interface_events sample_interface
  = Some interface_end.
Proof. reflexivity. Qed.

(** The page is Polish and its screen still English. *)
Lemma toggles_follow_preferences_witness :
  (∃ pref theme, Lang.lang_attr (Interface.lang interface_end)
                 = Lang.resolveLocale (Some ["de-DE"; "en-GB"]%string) None pref
     ∧ Theme.dataset_theme (Lang.outside (Interface.lang interface_end)) = Theme.apply theme)
  ∧ Lang.lang_attr (Interface.lang interface_end) = "pl"%string
  ∧ Interface.screen interface_end = Interface.rendered "en" (at_screen RoleSelect)
  ∧ Interface.screen interface_end ≠ Interface.rendered "pl" (at_screen RoleSelect).
Proof.
  split; [|split_and!; [by vm_compute..|by vm_compute]].
  destruct (Interface.toggles_follow_preferences (Some ["de-DE"; "en-GB"]%string) None (Some ∅)
              (at_screen RoleSelect) interface_events interface_end interface_run)
    as (pref&theme&_&_&_&_&Ha&_&_&_&_&_&Hd&_).
  by exists pref, theme.
Defined.

(** ** QR codes and the loading of pake.js *)

(** A code of the smallest size, with a chequered pattern. *)
Definition chequered : qr := {| moduleCount := 21; isDark := λ row col, Z.even (row + col) |}.

Lemma renderQR_shows_witness :
  ∃ c, renderQR (λ _, Ok chequered) (js "https://send.example/") 240 = Ok c
    ∧ c_width c = c_height c
    ∧ c_width c = cell_size chequered 240 * (21 + 2 * QUIET_ZONE_MODULES)
    ∧ (21 + 2 * QUIET_ZONE_MODULES ≤ 240 → c_width c ≤ 240)
    ∧ (∀ x y, 0 ≤ x < c_width c → 0 ≤ y < c_height c →
         pixel c x y = Some (if module_at chequered (cell_size chequered 240) x y then Black else White)).
Proof.
  apply (renderQR_shows (λ _, Ok chequered) (js "https://send.example/") 240 chequered);
    [reflexivity|discriminate].
Defined.

(** Polls ten milliseconds apart that never find the module. *)
Fixpoint idle_polls (t : Z) (n : nat) : list (Z * bool) :=
  match n with O => [] | S n => (t, false) :: idle_polls (t + POLL_INTERVAL_MS) n end.

Lemma idle_spaced t n : spaced t (idle_polls t n).
Proof. revert t. induction n; intros; simpl; [done|]. split; [lia|done]. Qed.

Lemma waitFor_ends_witness :
  ∃ r, waitFor 0 (idle_polls 0 502) = Some r ∧ (r = Ok () → ∃ now, (now, true) ∈ idle_polls 0 502).
Proof. apply (waitFor_ends 0 (idle_polls 0 502)); [apply idle_spaced|reflexivity]. Defined.

Definition failed_loader : loader :=
  {| readyPromise := Some (Failed ErrType); goInstanceStarted := false |}.

Lemma load_failure_sticks_witness :
  ready failed_loader = Some (Throw ErrType) ∧ Forall (λ x, x = Call) [Call; Call].
Proof. by apply (load_failure_sticks failed_loader ErrType [Call; Call] failed_loader). Defined.
