(* ===== verification/SamplePairing.v ===== *)
(** * Concrete pairings

    Two pages that pair over a link, and the runs of the theorems on sessions,
    screens and late events on them. *)

From stdpp Require Import base list list_numbers gmap sets strings.
From Stdlib Require Import ZArith Lia.
From S2P Require Import Prelude JsText Hex Json Utf8 Crypto WsClient PairingText PageState.
From S2P Require Import Pairing Session Screens RoleSwap Races Sample SampleText.
Open Scope Z_scope.

Definition random_key (k : nat) : bytes := seqZ (Z.of_nat k + 1) 32.

Abbreviation page_step := (Pairing.step page_url random_key).

Definition relay (type : string) (payload : json) : data := sendEnvelope type payload.

(** The host: it creates a session, shows the link and is paired; its reconnect
    token and its transfer screen are ready. *)
Definition host_events : list event :=
  [Click "startReceive" []; SockOpen 0;
   SockMessage 0 (relay "session_created" (JObj [(js "sessionId", JStr (js "s-1"))]));
   SockMessage 0 (relay "paired" (JObj [(js "sessionId", JStr (js "s-1"))]));
   PromiseSettles 0 (Throw ErrType); PromiseSettles 0 (Throw ErrType)].

Definition host_page : world :=
  Eval vm_compute in
  default blank (run page_step host_events (start true [])).

(** The guest: it opens the host's link and joins. *)
Definition guest_events : list event :=
  [Click "joinDetectedButton" []; SockOpen 0;
   SockMessage 0 (relay "paired" (JObj [(js "sessionId", JStr (js "s-1"))]));
   PromiseSettles 0 (Throw ErrType); PromiseSettles 0 (Throw ErrType)].

Definition guest_page : world :=
  Eval vm_compute in
  default blank (run page_step guest_events
    (start true (js "#" ++ fragment (js "s-1") (Base64url.encode (random_key 0))))).

(** Evaluating a run: the result is compared by evaluation too. *)
Ltac eval_run := match goal with |- _ = ?r => vm_cast_no_check (eq_refl r) end.

Lemma host_run : run page_step host_events (start true []) = Some host_page.
Proof. eval_run. Qed.

Lemma host_fifo : run (fifo_step page_url random_key) host_events (start true []) = Some host_page.
Proof. eval_run. Qed.

Lemma session_wellformed_witness :
  (cs_screen (cs host_page) = Paired →
     is_Some (cs_role (cs host_page)) ∧ (∃ e, cs_epoch (cs host_page) = Some e ∧ 0 ≤ e)
     ∧ is_Some (cs_transferRole (cs host_page)))
  ∧ (∀ a, TReconnect a ∈ timers host_page → 2 ≤ a ≤ RECONNECT_MAX_ATTEMPTS)
  ∧ (∀ k c a sid r token, socks host_page !! k = Some c →
       LReconnect a sid r token ∈ k_listeners c → 1 ≤ a ≤ RECONNECT_MAX_ATTEMPTS).
Proof. exact (session_wellformed page_url random_key true [] host_events host_page host_run). Defined.

Lemma host_paired : cs_screen (cs host_page) = Paired.
Proof. eval_run. Qed.

Lemma host_key : cs_sessionKey (cs host_page) = Some (random_key 0).
Proof. eval_run. Qed.

Lemma host_screens : pending_screens host_page = [].
Proof. eval_run. Qed.

Lemma transfer_screen_current_witness :
  ∃ h x, activeTransferHandle (vars host_page) = Some h ∧ handles host_page !! h = Some x
    ∧ h_epoch x = cs_epoch (cs host_page) ∧ h_role x = cs_transferRole (cs host_page)
    ∧ h_detached x = false.
Proof.
  exact (transfer_screen_current page_url random_key true [] host_events host_page host_fifo
           host_paired (ex_intro _ (random_key 0) (conj host_key eq_refl)) host_screens).
Defined.

Definition no_conn : conn := {| k_state := Closed; k_listeners := []; k_sent := [] |}.
Definition conn_at (w : world) (k : nat) : conn := default no_conn (socks w !! k).

Lemma host_active : activeSocket (vars host_page) = Some 0%nat.
Proof. eval_run. Qed.

Lemma host_conn : socks host_page !! 0%nat = Some (conn_at host_page 0).
Proof. eval_run. Qed.

Lemma host_open : k_state (conn_at host_page 0) = Open.
Proof. eval_run. Qed.

Lemma host_listeners : k_listeners (conn_at host_page 0) = [LReceiverFlow; LPaired].
Proof. eval_run. Qed.

Lemma host_token : is_Some (cs_reconnectToken (cs host_page)).
Proof. eexists. vm_compute. reflexivity. Qed.

Lemma reconnect_gives_up_witness :
  let n := length (socks host_page) in
  ∃ w', run page_step
          (SockClose 0 :: failures n (timers host_page) 1 14 ++ [SockClose (n + 14)]) host_page = Some w'
    ∧ cs w' = error_screen (Some (js "connection_lost"))
    ∧ length (socks w') = (n + 15)%nat ∧ timers w' = timers host_page.
Proof.
  apply (reconnect_gives_up page_url random_key host_page 0 (conn_at host_page 0) LReceiverFlow);
    [apply host_paired|apply host_token|apply host_active|apply host_conn|by rewrite host_open
    |apply host_listeners|discriminate].
Defined.

(** *** Late events *)

Definition waiting_page : world := Eval vm_compute in
  default blank (run page_step (take 3 host_events) (start true [])).

Lemma back_then_close_shows_error_witness :
  ∃ w1 w2, page_step waiting_page (Click "backButton" []) = Some w1
    ∧ (cs w1 = at_screen RoleSelect ∨ cs w1 = at_screen CodeRoleSelect)
    ∧ page_step w1 (SockClose 0) = Some w2
    ∧ cs w2 = error_screen (Some (js "connection_lost")).
Proof.
  apply (back_then_close_shows_error page_url random_key waiting_page 0 (conn_at waiting_page 0)
           LReceiverFlow); [left|..]; try exact I; eval_run.
Defined.

(** The host's connection has dropped and its first new socket is open. *)
Definition resuming_page : world :=
  Eval vm_compute in
  default blank (run page_step [SockClose 0; SockOpen 1] host_page).

Definition host_token_bytes : bytes := Eval vm_compute in
  default [] (cs_reconnectToken (cs host_page)).

Lemma reconnected_after_disconnect_witness :
  ∃ w1 w2 c2, page_step resuming_page (Click "disconnectButton" []) = Some w1 ∧ cs w1 = at_screen RoleSelect
    ∧ page_step w1 (SockMessage 1 (relay "reconnected" JNull)) = Some w2
    ∧ cs_screen (cs w2) = RoleSelect ∧ activeSocket (vars w2) = Some 1%nat
    ∧ socks w2 !! 1%nat = Some c2 ∧ LPaired ∈ k_listeners c2.
Proof.
  apply (reconnected_after_disconnect page_url random_key resuming_page 1 (conn_at resuming_page 1)
           1 (Some (js "s-1")) (Some Host) host_token_bytes (relay "reconnected" JNull)
           (envelope "reconnected" JNull)); eval_run.
Defined.

(** The scanning screen was left for the host's flow before the camera answered. *)
Definition left_page : world :=
  Eval vm_compute in
  default blank (run page_step [Click "startSend" []; Click "backButton" []; Click "startReceive" []; SockOpen 0] (start true [])).

Definition no_scan : scan := {| sc_state := Stopped; sc_cancelled := false |}.

Lemma camera_refused_after_leaving_witness :
  ∃ w' c', page_step left_page (ScanRefused 0) = Some w'
    ∧ cs w' = error_screen (Some (js "camera_error"))
    ∧ activeSocket (vars w') = None ∧ socks w' !! 0%nat = Some c' ∧ k_state c' = Closing.
Proof.
  apply (camera_refused_after_leaving page_url random_key left_page 0
           (default no_scan (scans left_page !! 0%nat)) 0 (conn_at left_page 0)); eval_run.
Defined.

(** The peer reconnects twice before an epoch key is derived. *)
Definition twice_rendered : world :=
  Eval vm_compute in
  default blank (run page_step
    [SockMessage 0 (relay "peer_reconnected" JNull); SockMessage 0 (relay "peer_reconnected" JNull)]
    host_page).

Lemma overtaken_screen_keeps_listening_witness :
  ∃ w' x y, run page_step [PromiseSettles 0 (Throw ErrType); PromiseSettles 0 (Throw ErrType)]
              twice_rendered = Some w'
    ∧ handles w' = handles twice_rendered ++ [x; y]
    ∧ h_epoch x = Some 1 ∧ h_role x = Some ReceiverRole ∧ h_detached x = false
    ∧ activeTransferHandle (vars w') = Some (S (length (handles twice_rendered)))
    ∧ promises w' = [].
Proof.
  apply (overtaken_screen_keeps_listening page_url random_key twice_rendered (Some 0%nat) (Some 1)
           (Some ReceiverRole) (Some 0%nat) (Some 2) (Some ReceiverRole)); eval_run.
Defined.
