(* ===== verification/SampleNet.v ===== *)
(** * A concrete network

    Two pages pair through the relay, over a link, and lose their connections;
    and the relay's theorems on concrete hubs. *)

From stdpp Require Import base list list_numbers gmap sets strings.
From Stdlib Require Import ZArith Lia.
From S2P Require Import Prelude JsText Hex Json Utf8 Crypto WsClient PairingText PageState.
From S2P Require Import Pairing Session RoleSwap Hub HubLocks HubFacts HubLimits HubPair HubLeak Network.
From S2P Require Import SwapNet ReconnectNet DoubleDrop LateAnswer PairNet.
From S2P Require Import Sample SampleText SamplePairing.
Open Scope Z_scope.

(** The relay's default configuration. *)
Definition second : Z := 1000000000.
Definition default_config : Relay.Config := {|
  Relay.MaxFileSize := 10 * 1024 * 1024 * 1024;
  Relay.MaxSessionsPerIP := 10;
  Relay.SessionInactivityTimeout := 300 * second;
  Relay.ReconnectGracePeriod := 45 * second;
  Relay.PairingCodeTTL := 300 * second;
  Relay.MaxPairingAttempts := 5
|}.

Definition session_id : Relay.entropy := {| Relay.e_id := js "s-1"; Relay.e_draws := [] |}.

Abbreviation run_net :=
  (run (net_step (λ _, js "2026-01-01T00:00:00Z") default_config page_url random_key)).

(** The host's page and the guest's, which was opened with the host's link. *)
Definition net_start : net := {|
  n_left := page_at (js "192.0.2.1") (start true []);
  n_right := page_at (js "198.51.100.7")
    (start true (js "#" ++ fragment (js "s-1") (Base64url.encode (random_key 0))));
  n_server := Relay.new_server
|}.

Definition left (e : event) : bool * net_event := (false, Page e).
Definition right (e : event) : bool * net_event := (true, Page e).
Definition settles : event := PromiseSettles 0 (Throw ErrType).

Definition pair_events : list (bool * net_event) :=
  [left (Click "startReceive" []); left (SockOpen 0); (false, Reads 0 0 session_id); (false, Receives 0);
   right (Click "joinDetectedButton" []); right (SockOpen 0); (true, Reads 0 0 session_id);
   (false, Receives 0); (true, Receives 0);
   left settles; left settles; right settles; right settles;
   (false, Reads 0 0 session_id); (true, Reads 0 0 session_id)].

Definition paired_net : net := Eval vm_compute in default net_start (run_net pair_events net_start).

Lemma paired_run : run_net pair_events net_start = Some paired_net.
Proof. eval_run. Qed.

(** ** Pairing and reconnecting *)

Lemma sample_room ip : 0 ≤ Relay.count (Relay.hub Relay.new_server) ip < Relay.MaxSessionsPerIP default_config - 1.
Proof. split; by vm_compute. Qed.

Lemma sample_chars : Forall Base64url.url_char (js "s-1").
Proof. apply (bool_decide_unpack _). by vm_compute. Qed.

Lemma sample_key : bytes_ok (random_key 0) ∧ length (random_key 0) = 32%nat.
Proof. split; apply (bool_decide_unpack _); by vm_compute. Qed.

Lemma sample_new b k : conn_of b k ∉ Relay.seen Relay.new_server.
Proof. done. Qed.

Lemma sample_hold : loops_hold Relay.new_server.
Proof. by intros c q s. Qed.

Lemma sample_id : js "s-1" ≠ [] ∧ (length (js "s-1") ≤ 1000)%nat.
Proof. split; [done|]. apply (bool_decide_unpack _). by vm_compute. Qed.

Abbreviation sample_time := (λ _ : Z, js "2026-01-01T00:00:00Z").

Lemma sample_up :
  session_up default_config 0 Relay.RoleHost (λ _, O)
    (ready_net random_key (js "s-1") Relay.new_server (js "192.0.2.1") (js "198.51.100.7") 0) 0.
Proof.
  apply (ready_up default_config (random_key 0) (js "s-1") (js "192.0.2.1") (js "198.51.100.7") 0
           (proj2 sample_key) (sid_unit _ sample_chars) (proj2 sample_id)); [|done..].
  exact (ready_serves sample_time default_config page_url random_key (proj1 sample_key) (proj2 sample_key)
    (js "s-1") sample_chars (proj1 sample_id) (proj2 sample_id) Relay.new_server _ _ 0
    new_server_ok sample_hold sample_new (λ ip _, sample_room ip)).
Qed.

Lemma link_pairs_pages_witness :
  ∃ n, run_net (link_schedule (js "s-1") 0)
         (pair_start random_key (js "s-1") Relay.new_server (js "192.0.2.1") (js "198.51.100.7")) = Some n
    ∧ session_up default_config 0 Relay.RoleHost (λ _, O) n 0.
Proof.
  destruct (link_pairs_pages sample_time default_config page_url random_key
    (proj1 sample_key) (proj2 sample_key)
    (js "s-1") sample_chars (proj1 sample_id) (proj2 sample_id) Relay.new_server
    (js "192.0.2.1") (js "198.51.100.7") 0
    new_server_ok sample_hold sample_new (λ ip _, sample_room ip)) as (n1&n&_&_&Hr&Hup&_).
  exists n. split; [exact Hr|exact Hup].
Defined.

(** The host drops, then the guest, then the host again. *)
Lemma drops_recovered_witness :
  ∃ sock n, drop_sides (λ _, js "2026-01-01T00:00:00Z") default_config page_url random_key second session_id
              [false; true; false] (λ _, O)
              (ready_net random_key (js "s-1") Relay.new_server (js "192.0.2.1") (js "198.51.100.7") 0)
            = Some (sock, n)
    ∧ session_up default_config 0 Relay.RoleHost sock n 3.
Proof.
  destruct (drops_recovered sample_time default_config page_url random_key 0
              Relay.RoleHost second session_id [false; true; false] _ _ _ sample_up) as (sock&n&Hd&Hup&_).
  exists sock, n. split; [exact Hd|exact Hup].
Defined.

(** Both drop, and the host is back first. *)
Abbreviation sample_ready :=
  (ready_net random_key (js "s-1") Relay.new_server (js "192.0.2.1") (js "198.51.100.7") 0).

Lemma dropped_pages_disagree_witness :
  ∃ n1 n2, run_net (first_schedule false 0 0 1 second session_id) sample_ready = Some n1
    ∧ run_net (second_schedule false 1 1 second session_id) n1 = Some n2
    ∧ cs_epoch (cs (e_world (n_left n1))) = Some 1 ∧ cs_epoch (cs (e_world (n_right n1))) = Some 0
    ∧ (ps_epoch <$> getPairedSession (e_world (n_left n2))) = Some (Some 2)
    ∧ (ps_epoch <$> getPairedSession (e_world (n_right n2))) = Some (Some 1)
    ∧ be_bytes 4 2 ≠ be_bytes 4 1.
Proof.
  destruct (dropped_pages_disagree sample_time default_config page_url random_key 0 Relay.RoleHost
              second session_id false _ _ _ sample_up) as (n1&n2&H1&H2&H3&_&H4&_&H5&H6).
  { apply (bool_decide_unpack _). by vm_compute. }
  exists n1, n2. split; [exact H1|]. split; [exact H4|]. split; [exact H2|]. split; [exact H3|].
  split; [exact (f_equal (fmap ps_epoch) (H5 false))|].
  split; [exact (f_equal (fmap ps_epoch) (H5 true))|].
  exact (proj2 (proj2 (H6 (zeros 32) ltac:(done)))).
Defined.

(** ** The swap through the relay

    The host asks, the relay passes the request on while another session opens,
    the guest accepts and the host follows. *)

Definition swap_net_events : list swap_event :=
  [OnNet false (Page (Click "swapRolesButton" [])); OnNet false (Reads 0 0 session_id);
   Elsewhere (Relay.First 0 (js "203.0.113.5") 9 {| Relay.e_id := js "s-2"; Relay.e_draws := [] |}
                create_message);
   OnNet true (Receives 0); OnNet true (Page settles); OnNet true (Reads 0 0 session_id);
   OnNet false (Receives 0); Sends true (sendEnvelope "file_ack" JNull)].

Abbreviation run_swap :=
  (run (swap_step (λ _, js "2026-01-01T00:00:00Z") default_config page_url random_key 0 (λ _, O))).

Definition swapped_net : net := Eval vm_compute in default net_start (run_swap swap_net_events paired_net).

Lemma swap_net_run : run_swap swap_net_events paired_net = Some swapped_net.
Proof. eval_run. Qed.

Lemma net_rest b : at_rest (λ _, O) paired_net b.
Proof.
  assert (∀ w, promises w = [] → Forall token_ok (promises w)) as Hno by (by intros w ->).
  destruct b.
  - exists (conn_at (e_world (n_right paired_net)) 0). split_and!; [eval_run| |eval_run|eval_run].
    split; [eval_run|by eexists; vm_compute|eval_run|apply Hno; eval_run|].
    exists (conn_at (e_world (n_right paired_net)) 0), (LJoin (js "s-1") (random_key 0)).
    split_and!; try eval_run; [discriminate|done|]. rewrite drop_all. constructor.
  - exists (conn_at (e_world (n_left paired_net)) 0). split_and!; [eval_run| |eval_run|eval_run].
    split; [eval_run|by eexists; vm_compute|eval_run|apply Hno; eval_run|].
    exists (conn_at (e_world (n_left paired_net)) 0), LReceiverFlow.
    split_and!; try eval_run; [discriminate|done|]. rewrite drop_all. constructor.
Qed.

Lemma net_settled : settled 0 Relay.RoleHost (λ _, O) paired_net.
Proof.
  split; [|apply net_rest]. eapply net_pair; [apply paired_run|apply new_server_ok|by intros c q s|eval_run..].
Qed.


Lemma roles_opposite_through_relay_witness :
  cs_transferRole (cs (e_world (n_left swapped_net)))
  ≠ cs_transferRole (cs (e_world (n_right swapped_net))).
Proof.
  refine (proj1 (proj1 (roles_opposite_through_relay _ _ _ _ _ _ _ _ swap_net_events _ net_settled
                          _ _ swap_net_run) _)).
  - apply (bool_decide_unpack _). by vm_compute.
  - intros []; eval_run.
  - intros []; eval_run.
Defined.

(** The same swap, with the host's timer firing while the guest's acceptance is
    on its way. *)
Lemma late_answer_splits_roles_witness :
  ∃ n, run_net (late_schedule (λ _, O) 0 session_id false 0 4) paired_net = Some n
    ∧ ∀ a, cs_transferRole (cs (e_world (get_end a n))) = Some ReceiverRole.
Proof.
  destruct (late_answer_splits_roles sample_time default_config page_url random_key 0 Relay.RoleHost (λ _, O)
              0 session_id paired_net false 4 net_settled) as (n&Hr&_&Hroles&_).
  - apply (bool_decide_unpack _). by vm_compute.
  - intros []; split; eval_run.
  - lia.
  - exists n. split; [exact Hr|]. intros a. exact (eq_trans (proj1 (Hroles a)) ltac:(eval_run)).
Defined.

(** ** The relay's theorems *)

Definition create_event : Relay.event :=
  Relay.First 0 (js "192.0.2.1") 0 session_id create_message.
Definition join_event : Relay.event :=
  Relay.First 0 (js "198.51.100.7") 1 session_id (join_message (js "s-1")).
Definition greeting : data := sendEnvelope "pake_msg" JNull.

Definition two_joined : Relay.server * list Relay.out :=
  default (Relay.new_server, [])
    (run (Relay.log_step default_config) [create_event; join_event] (Relay.new_server, [])).

Lemma relay_keeps_sessions_apart_witness :
  ∃ now c p r, Relay.Later 0 0 greeting = Relay.Later now c greeting
    ∧ Relay.loops two_joined.1 !! c = Some (p, r)
    ∧ slot (Relay.hub two_joined.1) p (Relay.other r) = Some 1%nat ∧ 1%nat ≠ c
    ∧ (∀ x, Relay.loops two_joined.1 !! 1%nat = Some x → x = (p, Relay.other r)).
Proof.
  eapply (relay_keeps_sessions_apart default_config [create_event; join_event] two_joined.1
            two_joined.2 (Relay.Later 0 0 greeting)
            (default (Relay.new_server, []) (Relay.step default_config two_joined.1
                                               (Relay.Later 0 0 greeting))).1
            [Relay.Send 1 (Relay.MRelayed greeting)] 1 greeting).
  - eval_run.
  - eval_run.
  - by left.
Defined.

Definition file_chunk : bytes := 1 :: 0 :: replicate 16 7 ++ replicate 12 0.

Lemma file_size_enforced_witness :
  let vs := verdicts 75 (Relay.newSession [] 0) (replicate 4 file_chunk) in
  ∃ k, (k ≤ length (replicate 4 file_chunk))%nat
    ∧ map Relay.v_drop vs
      = replicate k false ++ replicate (length (replicate 4 file_chunk) - k) true
    ∧ total (take (k - 1) (replicate 4 file_chunk)) ≤ 75
    ∧ ((k < length (replicate 4 file_chunk))%nat → 75 < total (take k (replicate 4 file_chunk)))
    ∧ aborts vs = if bool_decide (75 < total (replicate 4 file_chunk)) then 1%nat else O.
Proof.
  apply (file_size_enforced 75 (replicate 16 7)); [lia|by left|].
  apply Forall_replicate. split_and!; [by vm_compute; lia|done..].
Defined.

(** Nine guesses, the reaper after each. *)
Definition guessing : list timed :=
  concat (map (λ i, [(i * second, HubLocks.Locks.QJoinByCode (js "000000") (js "192.0.2.1") (Z.to_nat i));
                     (i * second, HubLocks.Locks.QReapOnce)])
            (seqZ 0 9)).

Lemma code_guesses_limited_witness :
  Z.of_nat (guesses_from default_config (js "192.0.2.1") Relay.NewHub guessing) ≤ 5.
Proof.
  apply (code_guesses_limited default_config 0 (js "192.0.2.1") Relay.NewHub guessing);
    [done|done|]. apply (bool_decide_unpack _). by vm_compute.
Defined.

Lemma ended_sessions_lock_out_witness :
  ∃ sv, run (move default_config)
          (concat (map (round (js "192.0.2.1") (js "198.51.100.7") (λ _, js "s-1")) (seq 0 10)))
          Relay.new_server = Some sv
    ∧ Relay.sessions (Relay.hub sv) = ∅ ∧ Relay.loops sv = ∅
    ∧ ∀ now c en, c ∉ Relay.seen sv →
        ∃ sv', Relay.step default_config sv (Relay.First now (js "192.0.2.1") c en create_message)
               = Some (sv', [Relay.Send c (Relay.MError "too_many_sessions"
                                             "too many concurrent sessions for this client");
                             Relay.Close c "connection closed"])
          ∧ Relay.hub sv' = Relay.hub sv ∧ Relay.loops sv' = ∅.
Proof.
  apply (ended_sessions_lock_out default_config (js "192.0.2.1") (js "198.51.100.7"));
    [discriminate|intros _; apply js_unit_ok|by vm_compute|by vm_compute].
Defined.
