(* ===== verification/SampleCode.v ===== *)
(** * A concrete pairing by a code

    The relay draws the code 123456, the guest types it, and the two pages run the
    exchange of SamplePake over the relay: the theorems of CodePair on that run. *)

From stdpp Require Import base list list_numbers gmap sets strings.
From Stdlib Require Import ZArith Lia.
From S2P Require Import Prelude JsText Hex Json Utf8 Crypto WsClient PairingText PageState.
From S2P Require Import Pairing Session Pake Hub HubFacts HubLimits HubPair HubReap Network.
From S2P Require Import SwapNet ReconnectNet PairNet CodeNet CodeStages CodePair.
From S2P Require Import Sample SamplePake SampleText SamplePairing SampleNet.
Open Scope Z_scope.

Definition sample_rand (b : bool) : Z := if b then 8 else 7.

Abbreviation host_ip := (js "192.0.2.1").
Abbreviation guest_ip := (js "198.51.100.7").
Abbreviation sample_draws := [123456; 42].

Abbreviation run_code :=
  (run (code_step sample_time default_config page_url random_key sample_rand)).
Abbreviation run_pairing :=
  (run (pairing_step sample_time default_config page_url random_key sample_rand)).

Abbreviation sample_start := (code_start Relay.new_server host_ip guest_ip).
Abbreviation sample_host := (host_opening (js "s-1") 0 sample_draws).
Abbreviation sample_guest := (guest_opening (js "s-1") 0 sample_draws (js "123456")).
Abbreviation sample_shown :=
  (shown default_config (js "s-1") Relay.new_server host_ip guest_ip 0 (js "123456")).

Definition host (e : code_event) : bool * code_event := (false, e).
Definition guest (e : code_event) : bool * code_event := (true, e).
Definition relayed : code_event := Net (Reads 0 second session_id).
Definition receives : code_event := Net (Receives 0).
Definition derived : code_event := Net (Page (PromiseSettles 0 (Throw ErrType))).

Definition code_events : list (bool * code_event) :=
  [host receives; guest receives; host Resumes; guest Resumes; host relayed; guest receives;
   guest Resumes; guest relayed; host receives; host Resumes; guest Resumes; host Resumes;
   guest Resumes; host Resumes; guest relayed; host relayed; host receives; guest receives;
   host Resumes; guest Resumes; host Resumes; host Settles; host derived; guest Resumes;
   host relayed; guest Settles; guest derived; guest derived; host derived; guest relayed].

Definition code_opened : code_net := Eval vm_compute in
  default sample_shown (run_code sample_guest sample_shown).
Definition code_end : code_net := Eval vm_compute in
  default code_opened (run_pairing code_events code_opened).

Lemma code_opened_run : run_code sample_guest sample_shown = Some code_opened.
Proof. eval_run. Qed.

Lemma code_end_run : run_pairing code_events code_opened = Some code_end.
Proof. eval_run. Qed.

Lemma sample_digits : Forall (λ d, 0 ≤ d < 10 ^ 6) sample_draws.
Proof. repeat (constructor; [lia|]). constructor. Qed.

Lemma sample_messages q :
  q = (js "123456", []) ∨ q = (js "123456", js "123456") → Z.of_nat (length (Bytes q)) ≤ 40000.
Proof. by intros [-> | ->]; vm_compute. Qed.

Lemma sample_time_ok (t : Z) : Forall unit_ok (sample_time t).
Proof. apply js_unit_ok. Qed.

(** A run of thirty events cannot go on. *)
Lemma code_pairs_pages_witness :
  ∃ x0, run_code sample_host sample_start = Some sample_shown
    ∧ run_code sample_guest sample_shown = Some x0
    ∧ ∃ x, run_pairing code_events x0 = Some x
        ∧ session_up default_config 0 Relay.RoleHost (λ _, O) (c_net x) 0
        ∧ ∀ b, cs (e_world (get_end b (c_net x)))
               = set_token (paired_screen (Some (js "s-1")) (Some pake_key) (role_at b))
                   (token pake_key (js "s-1")).
Proof.
  destruct (code_pairs_pages sample_time sample_time_ok default_config page_url random_key sample_rand
    (js "s-1") (sid_unit _ sample_chars) (proj1 sample_id) (proj2 sample_id) Relay.new_server
    host_ip guest_ip 0 0 new_server_ok sample_hold sample_new (λ ip _, sample_room ip)
    ltac:(done) ltac:(done) sample_draws sample_digits (js "123456") ltac:(done)
    _ _ _ _ pake_key pake_agreed ltac:(done) sample_messages) as (x0&H1&_&H2&H3).
  exists x0. split; [exact H1|]. split; [exact H2|].
  pose proof code_opened_run as Hx. rewrite H2 in Hx. injection Hx as ->.
  exists code_end. split; [apply code_end_run|].
  destruct (proj2 (H3 code_events code_end code_end_run)) as (_&Hup&Hcs&_); [|by split].
  intros e. destruct (pairing_step _ _ _ _ _ code_end e) as [y|] eqn:He; [exfalso|done].
  destruct (H3 (code_events ++ [e]) y) as [Hle _].
  - rewrite run_app, code_end_run. cbn [mbind option_bind run]. by rewrite He.
  - simpl in Hle. lia.
Defined.

Lemma sample_listed : listed (Relay.hub Relay.new_server).
Proof. by intros id q. Qed.

(** The relay reads the host's message at time 0 and cleans up after a second and
    after five minutes. *)
Lemma early_message_strands_pages_witness :
  ∃ x y y' z, run_code (sample_host ++ sample_guest ++ first_schedule 0 ++ early_schedule) sample_start = Some x
    ∧ run_code [(false, Net (Reaps second))] x = Some y
    ∧ (∀ b, cs_screen (cs (e_world (get_end b (c_net y)))) = Verifying)
    ∧ run_code [(false, Net (Reaps (300 * second)))] y = Some y'
    ∧ run_code ending_schedule y' = Some z
    ∧ ∀ b, cs_screen (cs (e_world (get_end b (c_net z)))) = Error.
Proof.
  destruct (early_message_strands_pages sample_time sample_time_ok default_config page_url random_key
    sample_rand (js "s-1") (sid_unit _ sample_chars) (proj1 sample_id) (proj2 sample_id) Relay.new_server
    host_ip guest_ip 0 0 new_server_ok sample_hold sample_new (λ ip _, sample_room ip)
    ltac:(done) ltac:(done) sample_draws sample_digits (js "123456") ltac:(done)
    _ _ _ _ pake_key pake_agreed ltac:(done) sample_messages sample_listed 0) as (x&Hx&Hs).
  destruct (Hs [second]) as (y&Hy&Hv&_&He); [by repeat constructor|].
  destruct (He (300 * second)) as (y'&z&Hy'&_&Hz&Hc); [by vm_compute|].
  exists x, y, y', z. split_and!; [exact Hx|exact Hy| | |exact Hz|].
  - intros b. by destruct (Hv b) as [-> _].
  - eapply run_cons; [exact Hy'|done].
  - intros b. by rewrite Hc.
Defined.
