(* ===== verification/SampleRelay.v ===== *)
(** * A concrete transfer through the relay

    Two connections pair at the relay, and the file of Sample goes through it
    while a third connection opens a session of its own. Then a host that comes
    back with its token, a code that is used twice, and a reap. *)

From stdpp Require Import base list list_numbers gmap sets strings.
From Stdlib Require Import ZArith Lia.
From S2P Require Import Prelude JsText Hex Json Utf8 Crypto WsClient Frame Sender Receiver.
From S2P Require Import Stream Pacing Link Transfer FileWriter TransferUi Delivery.
From S2P Require Import Hub HubFacts HubLimits HubPair HubTokens HubReap HubLeak.
From S2P Require Import PairingText PageState Pairing Messages Network SwapNet ReconnectNet PairNet Relayed EndToEnd.
From S2P Require Import Sample SampleText SamplePairing SampleNet.
Open Scope Z_scope.

Definition paired_server : Relay.server := two_joined.1.

(** What the relay reads before a message arrives. *)
Definition through (e : link_event) : list relayed_event :=
  match e with
  | EvForward => [EvUp 0; EvEnd EvForward]
  | EvBack => [EvDown 0; EvEnd EvBack]
  | e => [EvEnd e]
  end.

Definition other_session : relayed_event :=
  EvElse (Relay.First 0 (js "203.0.113.5") 2 {| Relay.e_id := js "s-2"; Relay.e_draws := [] |}
            create_message).

Definition relayed_events : list relayed_event := other_session :: concat (map through sample_events).

Abbreviation sample_relayed_step :=
  (relayed_step sample_args (sa_epochKey sample_args) (λ _, []) default_config 0 0 1).

Definition relayed_end : relayed :=
  Eval vm_compute in
    default (init_relayed paired_server)
      (run sample_relayed_step relayed_events (init_relayed paired_server)).

Lemma relayed_sample_run :
  run sample_relayed_step relayed_events (init_relayed paired_server) = Some relayed_end.
Proof. eval_run. Qed.

Lemma paired_server_reached :
  run (Relay.log_step default_config) [create_event; join_event] (Relay.new_server, [])
  = Some (paired_server, two_joined.2).
Proof. eval_run. Qed.

(** No file has passed yet. *)
Lemma nothing_counted c :
  tracker (Relay.hub paired_server) 0 = Some c →
  Relay.cf_active c = false ∨ Relay.cf_fileID c ≠ sa_fileId sample_args.
Proof.
  assert (tracker (Relay.hub paired_server) 0 = Some Relay.no_file) as -> by eval_run.
  intros [= <-]. by left.
Qed.

Lemma relayed_stuck e y' :
  calm_relayed e = true → own_event e = true → sample_relayed_step relayed_end e ≠ Some y'.
Proof.
  intros Hc Ho. apply eq_None_ne_Some_1 with (x := y').
  destruct e as [[[|[e|]|d| |]|[d| | | | |[e|]]| |]|now|now|e]; try discriminate Hc; try discriminate Ho;
    reflexivity.
Qed.

Lemma paired_server_pair : pair_at 0 Relay.RoleHost 0 1 paired_server.
Proof. by apply (run_pair _ _ _ _ _ _ _ _ paired_server_reached); vm_compute. Qed.

Lemma relay_is_a_connection_witness :
  run (link_step sample_args) (ends relayed_events) init_link = Some (y_link relayed_end)
  ∧ y_fwd relayed_end = take (y_up relayed_end) (s_sent (l_tx (y_link relayed_end)))
  ∧ y_back relayed_end = take (y_down relayed_end) (r_sent (l_rx (y_link relayed_end))).
Proof.
  apply (relay_is_a_connection sample_args sample_args_ok (λ _, []) default_config 0 Relay.RoleHost 0 1)
    with (sv := paired_server);
    [by vm_compute|by vm_compute|apply paired_server_pair|apply nothing_counted|by repeat constructor|apply relayed_sample_run].
Defined.

(** ** From the pages to the file

    The pages of SampleNet pair by the link, the host's connection breaks and
    comes back, then the guest's; the file goes over the new connections, under
    the key of epoch 2. *)

Definition far : (bool → nat) * net :=
  Eval vm_compute in
    default (λ _, O, net_start)
      (n0 ← run_net (link_schedule (js "s-1") 0) net_start;
       drop_sides sample_time default_config page_url random_key second session_id [false; true] (λ _, O) n0).

Definition far_key : bytes :=
  Eval vm_compute in match deriveEpochKey (random_key 0) 2 with Ok k => k | Throw _ => [] end.

Definition far_args : send_args :=
  {| sa_epochKey := far_key; sa_file := sample_file; sa_fileId := seqZ 1 16; sa_signal := true |}.

Abbreviation far_step := (relayed_step far_args far_key sample_time default_config 0 4 3).

Definition far_end : relayed :=
  Eval vm_compute in
    default (init_relayed (n_server far.2)) (run far_step relayed_events (init_relayed (n_server far.2))).

Lemma far_run : run far_step relayed_events (init_relayed (n_server far.2)) = Some far_end.
Proof. eval_run. Qed.

Lemma far_args_ok : args_ok far_args.
Proof. split; [by vm_compute|apply sample_args_ok..]. Qed.

Lemma far_stuck e y' :
  calm_relayed e = true → own_event e = true → far_step far_end e ≠ Some y'.
Proof.
  intros Hc Ho. apply eq_None_ne_Some_1 with (x := y').
  destruct e as [[[|[e|]|d| |]|[d| | | | |[e|]]| |]|now|now|e]; try discriminate Hc; try discriminate Ho;
    reflexivity.
Qed.

Lemma far_session b session : handed far.2 b session → transfer_key session = Ok far_key.
Proof. destruct b; intros [= <-]; by vm_compute. Qed.

Lemma linked_pages_transfer_witness :
  s_pc (l_tx (y_link far_end)) = PDone (Ok ())
  ∧ ∃ u r, run (ReceiverUi.handle no_access) (r_calls (l_rx (y_link far_end))) (ReceiverUi.init init_page) = Some u
      ∧ ReceiverUi.u_rows u !! toHex (seqZ 1 16) = Some r
      ∧ saved (ReceiverUi.row_sink r) (ReceiverUi.u_page u) = Some [104; 105; 33].
Proof.
  destruct (linked_pages_transfer sample_time default_config page_url random_key
    (proj1 sample_key) (proj2 sample_key)
    (js "s-1") sample_chars (proj1 sample_id) (proj2 sample_id) Relay.new_server
    (js "192.0.2.1") (js "198.51.100.7") 0
    new_server_ok sample_hold sample_new (λ ip _, sample_room ip) [false; true] second session_id)
    as (sock&n&ek&Hr&Hs&Ht).
  assert ((sock, n) = far) as Hf.
  { apply (inj Some). rewrite <- Hr. eval_run. }
  pose proof (f_equal fst Hf : sock = far.1) as Hsock. pose proof (f_equal snd Hf : n = far.2) as Hn.
  clear Hf Hr. rewrite Hsock, Hn in Ht. rewrite Hn in Hs.
  assert (∀ b, ek b = far_key) as Hek.
  { intros b. destruct (Hs b) as (session&Hh&_&_&_&Hk). apply far_session in Hh.
    rewrite Hk in Hh. by injection Hh. }
  clear Hs. rewrite !Hek in Ht.
  destruct (Ht far_args no_access init_page relayed_events far_end far_args_ok eq_refl) as [_ Hdone];
    [vm_compute; reflexivity|vm_compute; discriminate|by repeat constructor|exact far_run|].
  clear Ht. destruct (Hdone far_stuck) as (Hpc&u&r&Hu&Hrow&Hsaved&_).
  split; [exact Hpc|]. exists u, r. split; [exact Hu|]. split; [exact Hrow|exact Hsaved].
Defined.

(** ** Places, codes and reaps *)

Abbreviation relay_step := (Relay.step default_config).
Abbreviation relay_run es sv := (run (Relay.log_step default_config) es (sv, [])).

Definition sample_token : bytes := [1; 2; 3].
Definition token_event : Relay.event :=
  Relay.Later 0 0 (sendEnvelope "reconnect_token" (JObj [(js "tokenHex", JStr (toHex sample_token))])).
Definition reconnect_event : Relay.event :=
  Relay.First second (js "192.0.2.9") 2 session_id
    (sendEnvelope "reconnect" (JObj [(js "sessionId", JStr (js "s-1")); (js "role", JStr (js "host"));
                                     (js "tokenHex", JStr (toHex sample_token))])).
Definition away_events : list Relay.event := [create_event; join_event; token_event; Relay.Gone 0 0].
Definition away_server : Relay.server * list Relay.out :=
  Eval vm_compute in default (Relay.new_server, []) (relay_run away_events Relay.new_server).
Definition back_server : Relay.server * list Relay.out :=
  Eval vm_compute in default (Relay.new_server, []) (relay_step away_server.1 reconnect_event).

Lemma host_place_needs_token_witness :
  slot (Relay.hub away_server.1) 0 Relay.RoleHost = None ∧
  ∃ now ip en d id t, reconnect_event = Relay.First now ip 2 en d
    ∧ Relay.opening_of d = Some (Relay.OReconnect id Relay.RoleHost t)
    ∧ t ≠ [] ∧ registered default_config away_events 0 Relay.RoleHost t.
Proof.
  apply (host_place_needs_token default_config away_events away_server.1 away_server.2 reconnect_event
           back_server.1 back_server.2 0 2); [eval_run|eval_run|by vm_compute; lia|eval_run|].
  assert (slot (Relay.hub away_server.1) 0 Relay.RoleHost = None) as -> by eval_run. discriminate.
Defined.

Definition code_message : data := sendEnvelope "join_by_code" (JObj [(js "code", JStr (js "123456"))]).
Definition code_events : list Relay.event :=
  [Relay.First 0 (js "192.0.2.1") 0 {| Relay.e_id := js "s-1"; Relay.e_draws := [123456] |}
     (sendEnvelope "create_code_session" JNull)].
Definition code_server : Relay.server :=
  Eval vm_compute in (default (Relay.new_server, []) (relay_run code_events Relay.new_server)).1.
Definition code_joined : Relay.server * list Relay.out :=
  Eval vm_compute in
    default (Relay.new_server, [])
      (relay_step code_server (Relay.First 0 (js "198.51.100.7") 1 session_id code_message)).
Definition code_refused : Relay.server * list Relay.out :=
  Eval vm_compute in
    default (Relay.new_server, [])
      (relay_step code_joined.1 (Relay.First second (js "203.0.113.5") 2 session_id code_message)).

Lemma code_used_once_witness :
  Relay.loops code_refused.1 = Relay.loops code_joined.1 ∧
  ∃ e, (e = Relay.ErrInvalidCode ∨ e = Relay.ErrTooManyAttempts)
    ∧ code_refused.2 = [Relay.Send 2 (Relay.MError (Relay.errCode e) (Relay.errText e code_message));
                        Relay.Close 2 "connection closed"].
Proof.
  apply (code_used_once default_config code_server 0 (js "198.51.100.7") 1 session_id code_message
           (js "123456") code_joined.1 code_joined.2 [] code_joined.1 [] second (js "203.0.113.5") 2
           session_id code_message); try eval_run.
  - intros text Hin. unfold code_joined in Hin. simpl in Hin.
    rewrite !elem_of_cons, elem_of_nil in Hin. naive_solver.
  - intros (c&t&Hin). by apply elem_of_nil in Hin.
Defined.

Definition reaped_server : Relay.server * list Relay.out :=
  Eval vm_compute in default (Relay.new_server, []) (relay_step away_server.1 (Relay.Reap (60 * second))).

Lemma reaping_exact_witness :
  Relay.sessions (Relay.hub away_server.1) !! js "s-1" = Some 0%nat ∧
  let h := Relay.hub away_server.1 in let h' := Relay.hub reaped_server.1 in
  (∀ id p, Relay.sessions h' !! id = Some p
           ↔ Relay.sessions h !! id = Some p ∧ alive default_config h (60 * second) p)
  ∧ (∀ id p s r c ip, Relay.sessions h !! id = Some p → Relay.store h !! p = Some s →
       expired default_config s (60 * second) = true → Relay.connAndIP s r = Some (c, ip) →
       ∃ reason, Relay.Send c (Relay.MSessionEnded reason) ∈ reaped_server.2
         ∧ Relay.Close c reason ∈ reaped_server.2)
  ∧ (∀ p r c m, alive default_config h (60 * second) p → slot h p r = Some c →
       Relay.Send c m ∉ reaped_server.2)
  ∧ (∀ code x, Relay.codes h' !! code = Some x
               ↔ Relay.codes h !! code = Some x ∧ 60 * second ≤ Relay.ce_expiresAt x)
  ∧ (∀ ip b, Relay.guesses h' !! ip = Some b
             ↔ Relay.guesses h !! ip = Some b
               ∧ 60 * second - Relay.gb_windowStart b < Relay.PairingCodeTTL default_config).
Proof.
  split; [eval_run|].
  apply (reaping_exact default_config away_events away_server.1 away_server.2 (60 * second)); eval_run.
Defined.
