(* ===== verification/SampleLocks.v ===== *)
(** * Concrete overlapping calls

    Two guests of one address that join at once, two guests of one session, and a
    host that comes back while its guest ends the session. *)

From stdpp Require Import base list list_numbers gmap sets strings.
From Stdlib Require Import ZArith Lia.
From S2P Require Import Prelude JsText Hex Json WsClient Hub HubLocks HubFacts HubReap HubLeak HubRaces.
From S2P Require Import SamplePairing SampleNet SampleRelay.
Open Scope Z_scope.
Import Relay Locks.

(** One session for each address. *)
Definition strict_config : Config := {|
  MaxFileSize := 100; MaxSessionsPerIP := 1; SessionInactivityTimeout := 300 * second;
  ReconnectGracePeriod := 45 * second; PairingCodeTTL := 300 * second; MaxPairingAttempts := 5
|}.

Abbreviation strict_run := (run (busy_step strict_config)).
Abbreviation guest_ip := (js "203.0.113.5").
Abbreviation join_of id c := (QJoinSession (js id) guest_ip c).

Definition hosting_events : list busy_event :=
  [Calls (QCreateSession (js "192.0.2.1") 0 (js "s-1")); Runs 0 0; Runs 0 0;
   Calls (QCreateSession (js "192.0.2.2") 1 (js "s-2")); Runs 1 0; Runs 1 0].

(** Both joins find the count at 0. *)
Definition racing_events : list busy_event :=
  [Calls (join_of "s-1" 2); Calls (join_of "s-2" 3); Runs 2 0; Runs 3 0]
  ++ replicate 5 (Runs 2 0) ++ replicate 5 (Runs 3 0).

Definition hosting_busy : busy := Eval vm_compute in default new_busy (strict_run hosting_events new_busy).
Definition racing_busy : busy :=
  Eval vm_compute in default new_busy (strict_run (hosting_events ++ racing_events) new_busy).

Lemma racing_run : strict_run (hosting_events ++ racing_events) new_busy = Some racing_busy.
Proof. eval_run. Qed.

(** A bound on every state of a run, computed. *)
Lemma overlaps_checked cfg ip n es b :
  forallb (λ k, match run (busy_step cfg) (take k es) b with
                | Some b1 => overlapping ip (b_calls b1) <=? n | None => true end)
    (seq 0 (S (length es))) = true →
  ∀ k b1, run (busy_step cfg) (take k es) b = Some b1 → overlapping ip (b_calls b1) ≤ n.
Proof.
  intros Hall k b1 Hr. rewrite forallb_forall in Hall.
  assert (take k es = take (Nat.min k (length es)) es) as Hk.
  { destruct (decide (k ≤ length es)%nat); [by rewrite Nat.min_l|].
    by rewrite Nat.min_r, !take_ge by lia. }
  rewrite Hk in Hr. specialize (Hall (Nat.min k (length es))). rewrite Hr in Hall.
  apply Z.leb_le, Hall, in_seq. lia.
Qed.

Lemma limit_up_to_overlaps_witness :
  count (b_hub racing_busy) guest_ip = 2 ∧ count (b_hub racing_busy) guest_ip ≤ 1 - 1 + 2.
Proof.
  split; [eval_run|].
  apply (limit_up_to_overlaps strict_config guest_ip 2 (hosting_events ++ racing_events));
    [done|apply racing_run|]. apply overlaps_checked. by vm_compute.
Defined.

Lemma joins_overrun_limit_witness :
  ∃ es b, strict_run es {| b_hub := b_hub hosting_busy; b_calls := []; b_log := [] |} = Some b
    ∧ count (b_hub b) guest_ip = 2.
Proof.
  destruct (joins_overrun_limit strict_config 0 guest_ip (b_hub hosting_busy)
              [(js "s-1", 2%nat); (js "s-2", 3%nat)] [0%nat; 1%nat]) as (es&b&Hr&_&Hc).
  - by vm_compute.
  - apply (bool_decide_unpack _). by vm_compute.
  - repeat constructor; eexists _, _; split_and!; by vm_compute.
  - repeat constructor; by vm_compute.
  - exists es, b. split; [exact Hr|]. rewrite Hc. by vm_compute.
Defined.

(** Both join the same session. *)
Definition rival_events : list busy_event :=
  [Calls (join_of "s-1" 2); Calls (QJoinSession (js "s-1") (js "203.0.113.6") 3)]
  ++ [Runs 0 0; Runs 1 0; Runs 0 0; Runs 1 0] ++ replicate 1 (Runs 1 0) ++ replicate 1 (Runs 0 0)
  ++ replicate 3 (Runs 1 0).

Definition rival_start : busy := {| b_hub := b_hub hosting_busy; b_calls := []; b_log := [] |}.
Definition rival_busy : busy := Eval vm_compute in default new_busy (strict_run rival_events rival_start).

Lemma place_given_once_witness :
  (b_calls rival_busy).*2 = [Return (Some (inr ErrSessionFull)); Return (Some (inl (0%nat, RoleGuest)))]
  ∧ slot (b_hub rival_busy) 0 RoleGuest = Some 3%nat.
Proof.
  split; [eval_run|].
  destruct (place_given_once strict_config 0 RoleGuest (b_hub hosting_busy) rival_events rival_busy 1 1
              (QJoinSession (js "s-1") (js "203.0.113.6") 3) (QJoinSession (js "s-1") (js "203.0.113.6") 3))
    as (c&Hs&Hc&_); [eval_run| |eval_run|eval_run|].
  - intros Hin. unfold rival_events in Hin. simpl in Hin. rewrite !elem_of_cons, elem_of_nil in Hin.
    naive_solver.
  - cbn in Hc. by injection Hc as <-.
Defined.

Definition away_peer : peer := {|
  p_conn := 0; p_ip := js "192.0.2.1"; p_disconnectedAt := Some 0; p_reconnectToken := sample_token
|}.

Definition away_session : Session :=
  Eval vm_compute in default (newSession [] 0) (store (Relay.hub away_server.1) !! 0%nat).

Lemma comeback_outruns_end_witness :
  ∃ es b, run (busy_step default_config) es {| b_hub := Relay.hub away_server.1; b_calls := []; b_log := [] |}
          = Some b
    ∧ b_log b = [Send 1 MPeerReconnected; Send 7 MReconnected]
    ∧ slot (b_hub b) 0 RoleHost = Some 7%nat ∧ (∀ id', sessions (b_hub b) !! id' ≠ Some 0%nat).
Proof.
  destruct (comeback_outruns_end default_config (Relay.hub away_server.1) second 0 away_session away_peer
              RoleHost (js "s-1") (js "192.0.2.1") 7 1)
    as (k1&k2&b&Hr&_&Hlog&Hs&_&Hl&_); try eval_run.
  - by apply (run_listed default_config away_events away_server.1 away_server.2); eval_run.
  - discriminate.
  - discriminate.
  - by vm_compute.
  - intros p r. unfold slot. destruct p as [|p]; [|done]. destruct r; by vm_compute.
  - eexists _, b. split; [exact Hr|]. by split_and!.
Defined.
